(* ===== verification/_CoqProject ===== *)
-Q . S2P
Prelude.v
Types.v
Env.v
Addr.v
Ports.v
Fsm.v
Snapshot.v
Secrets.v
Store.v
Scheduler.v
Rpc.v
World.v
Connections.v
Storage.v
Plan.v
Config.v
Deploy.v
Secondary.v
Oci.v
Wire.v
Containers.v
Report.v
Routes.v
Dns.v
Certs.v
Tasks.v
Watchdog.v
Util.v
Logs.v
Views.v
Api.v
Daemon.v
RaftNet.v
Host.v
Sse.v
Cli.v
Membership.v
Fifos.v
Relay.v
DaemonHttp.v
Start.v
Doubles.v
TestsPrimary.v
TestsNode.v
TestsEdge.v
Identity.v
Harness.v
TestsRaft.v
