(* ===== verification/Prelude.v ===== *)
(** Mill: a verification development.

    * The program

    Mill ([src/crates]) runs containers on a cluster of nodes. A configuration file (crate config) is
    checked and resolved; a deploy (crate node, [primary/deploy]) compares it with the configuration in
    force, places allocations on nodes ([primary/scheduler.rs]), tells the nodes to run or stop
    containers ([rpc]) and waits until they answer health probes ([primary/health]). The state of the
    cluster is a state machine replicated by openraft (crate raft): the leader proposes commands, every
    node applies them in log order. Nodes report back ([secondary], [primary/report.rs]); a watchdog
    ([primary/watchdog.rs]) declares silent nodes down and restarts missing replicas; one-off tasks and
    draining ([primary/tasks.rs], [primary/nodes.rs]) use the same pieces. The proxy and the DNS server
    (crates proxy and net) get routes and records computed from the state, and the proxy keeps a
    certificate for every routed host. Operators use an HTTP API ([primary/api]) that every node serves
    and that the leader answers for changes. A node's daemon ([node/src/daemon]) sets up the WireGuard mesh, joins
    or restarts, and starts these parts; containers are run through containerd (crate containerd).

    * The files

    - Prelude: results, machine integers, binary64, strings as UTF-8 bytes, hash maps; tactics, hints and
      lemmas on lists, maps and integers.
    - Types: [config/src/types], the records that all parts share, and their printed form.
    - Env: [node/src/env.rs], the timing parameters.
    - Addr: the address parsers of the standard library, the subnets of [net/src/wireguard/mod.rs] and the
      choice of the upstream resolver of [net/src/dns/forward.rs].
    - Ports: [net/src/ports.rs], the pool of host ports and the scan of ports in use.
    - Fsm: [raft/src/fsm/{state,command,apply}.rs], [apply_command] and every command's handler.
    - Snapshot: [raft/src/snapshot], the codec and the files of the raft directory.
    - Secrets: [raft/src/secrets/cipher.rs], encryption of secrets and the cluster key's file.
    - Store: [raft/src/fsm/mod.rs], [raft/src/log_store.rs], [MillRaft::open] of [raft/src/lib.rs].
    - Scheduler: [node/src/primary/scheduler.rs].
    - Rpc: [node/src/rpc], messages, frames, authentication, the command router; [node/src/error.rs].
    - World: the monad in which the procedures of the primary are written (below).
    - Connections: the connection watcher of [node/src/primary/mod.rs], the connection tasks of
      [node/src/rpc/router.rs] and the report handlers of [node/src/rpc/server.rs].
    - Storage: [node/src/storage/digitalocean.rs], the requests of the volume driver.
    - Plan: [node/src/primary/deploy/{diff,validate}.rs].
    - Config: [config/src/validate], from the raw configuration to the resolved one.
    - Deploy: [node/src/primary/deploy/mod.rs] and [node/src/primary/health/mod.rs].
    - Secondary: [node/src/secondary], containers, exit waiters, recovery, heartbeats, log buffers.
    - Oci: [containerd/src/{spec,stats,cgroups,error}.rs], labels and image metadata; the paths of
      [config/src/types/data_dir.rs].
    - Containers: [containerd/src/{container,image}.rs], the calls that start, stop, remove and pull.
    - Report: [node/src/primary/report.rs] and the live metrics.
    - Routes: [proxy/src/proxy], [net/src/dns], [node/src/primary/{proxy,dns}.rs].
    - Dns: [net/src/dns/{mod,forward}.rs], the server's datagrams and the forwarder.
    - Certs: [proxy/src/{lib.rs,certs,acme,tls}], the certificate directory, the watcher, renewal and challenges.
    - Tasks: [node/src/primary/{tasks,nodes}.rs].
    - Watchdog: [node/src/primary/watchdog.rs].
    - Util: [node/src/util.rs], timestamps.
    - Logs: [node/src/primary/logs.rs] and the command loop of [node/src/secondary/mod.rs] with its log followers.
    - Views: the read handlers of [node/src/primary/api/handlers.rs] and the metrics page.
    - Api: [node/src/primary/api], the token, leader redirection, routing and every handler that changes something.
    - Daemon: [node/src/daemon] and [net/src/wireguard], what init, join, restart and leave do, in order.
    - RaftNet: [raft/src/network/http.rs], the table of raft's peers, the requests and their handlers.
    - Host: [node/src/secondary/{metrics,heartbeat}.rs], what a heartbeat reads from the host.
    - Sse: [cli/src/client/sse.rs], the reader of event streams.
    - Cli: [cli/src], every command with its requests, its output and its exit code.
    - Membership: the voters of raft as nodes join and are removed ([raft/src/lib.rs], [post_join], [delete_node]).
    - Fifos: [containerd/src/logs.rs], the pipes and readers of a container's output.
    - Relay: [proxy/src/proxy/{websocket,http,https}.rs], the WebSocket relay, the accept loops and the end of the proxy.
    - DaemonHttp: [node/src/daemon/client.rs], the requests with which a node joins and leaves.
    - Start: [node/src/daemon/support.rs], [Primary::start] and the other starts: the tasks of a node, what each owns, and
      shutdown.
    - Doubles: [support/src/{secondary,runtime,volume,mesh}.rs] and [raft/src/network/mod.rs], the stand-ins that tests run.
    - Wire: serde's derived code for the messages of [node/src/rpc/protocol.rs] and the types of [config/src/types] in them, as JSON
      values; the redacted printing of a spec.
    - Identity: the JSON of [node/src/daemon/identity.rs] and its file.
    - TestsPrimary, TestsNode, TestsEdge: the unit tests that the source keeps beside its code, run on the model; TestsRaft: those of
      [raft/tests/{fsm,snapshot}.rs].
    - Harness: [config/src/support.rs], [support/src/{client,cluster}.rs] and the test settings of [node/src/env.rs]: waiting, the
      client and the clusters of the integration tests.

    * How the code is represented

    Functions keep the names of the source where they can; where two types have a method of the same
    name, the type is put first ([RouteTable_new]), and record fields get a prefix. Structs are records,
    enums are inductive types, [Result] is [result], [HashMap] is [gmap]. Integers are [Z]; an operation
    of the source that can overflow wraps explicitly ([wrap64], [u64_add]), as release builds do. [f64]
    is the IEEE binary64 of [SpecFloat]. Instants, system times and durations are nanoseconds.

    The order in which a hash map is iterated is not determined by its contents. It is an argument of
    every function that iterates, the class [HashIter], whose only law is that each entry is visited
    once; the theorems hold for every order, and a theorem of Fsm shows that the state machine gives
    the same result for two different ones. [stored_order] is the instance used in examples.

    Procedures of the primary await: they propose commands, send to nodes, probe and sleep while other
    tasks run. World gives them an effect monad, [M A := World → option (A * World)], over the leader's
    view of the state, the router, the clocks and the list of effects so far. At each await the world
    takes a step of an environment [env : nat → EnvStep], which says what other tasks commit before and
    after the awaited operation, which connections open and close, how much time passes, and whether the
    operation succeeds. Theorems about procedures quantify over [env], so over every interleaving at the
    awaits. Their statements speak of the effects that a run appends to the record.

    On a node, the command loop and the tasks that wait for containers to exit share the map of
    allocations and the port pool: Secondary writes each operation once as a function and their
    interleaving as a step relation over its pieces. Connections does the same for the tasks behind a
    connection and the handlers of a node's server, Logs for the command loop and its followers, Relay for the connections
    of the proxy, Start for the tasks of a node. Membership and RaftNet do it for the nodes of a cluster.

    Code that is a sequence of calls of another program (containerd in Containers, system commands, files
    and subsystems in Daemon) is written in a monad that records the calls; each call's answer is an arbitrary
    function of the calls before it.

    Loops. Loops over lists are structural. The loops that wait until a deadline take [fuel] and return
    [None] without it; a theorem of Deploy shows that when every await takes at least a nanosecond, one
    round per nanosecond of the longest timeout is enough, so [None] does not occur. The frame reader
    consumes at least one byte a round and gets the length of its input; so do the text scanners.

    Code that is not part of the repository is a parameter: openraft's identifiers and memberships (class
    [RaftTypes]), MessagePack and zstd ([SnapshotCodec] and its law [SnapshotCodecLaws]), JSON,
    deserialisation of HCL, parsing of sizes and durations, the AEAD cipher (class [Aead] and its laws
    [AeadLaws]), containerd's answers, PEM and X.509, the ACME library, cloud volumes, the outputs of
    system commands, HTTP and DNS message formats.

    * What the theorems show

    - Replication (Fsm, Snapshot, Store): the transition function is independent of iteration order;
      every allocation belongs to a registered node; what heartbeats and node removal do; memory
      accounting; the result of applying the log does not depend on batches, snapshots or restarts; the
      log returns what was appended; votes are replaced atomically; and what a crash between the two
      files of a snapshot leads to.
    - Placement (Scheduler): when a node is found and which, in terms of capacity, volumes, spread and
      the bin-packing score.
    - Deploys (Config, Plan, Deploy): which configuration files are accepted; what is compared; a deploy
      that fails validation has no effect; an update stops old replicas only after all new ones were
      brought up; what is recorded of an allocation that does not come up; how a deploy ends, with and
      without an error; that it ends; and three executions in which it does not do what it means to.
    - Supervision (Report, Watchdog, Tasks): what a report of a node records; when a node is declared
      down; which services are restarted; what a task spawn and a drain have done when they return.
    - Nodes (Ports, Rpc, Secondary): the port pool, the frames, the token; the outcome of running a
      container; recovery after a restart; port exclusiveness without stop commands, and an execution
      with one that breaks it.
    - Connections and logs (Connections, Logs): the watcher follows the registered nodes; when a loop
      that reconnects succeeds, what starts it and what stops it; each node is served by one writer or one reconnect loop; reports arrive in order;
      an allocation has one follower.
    - Containers (Oci, Containers): the environment, mounts and labels of a container and what recovery reads
      back; what a failed start leaves, whichever of its deletions fail; removal; escalation of a stop; when a pull falls back.
    - Traffic (Routes, Certs): requests and DNS answers go to the running and healthy allocations of the owning service, and
      when requests are refused; which certificate a routed host gets, and when it has none; what renewal asks for; what interrupted saves leave.
    - Cluster (Membership, RaftNet, DaemonHttp): which nodes vote, those whose join failed included, which identifiers are offered again, which peers a node
      can reach after it joined, and who can leave.
    - Streams (Sse, Relay, Fifos, Dns): how events are read whatever the chunks, what a relay delivers and what its sockets add, which lines of a
      container are logged, whose answer a forwarded query gets.
    - Command line (Cli, Host): what each command asks for, prints and returns; when the logs of all services end.
    - Life of a node (Start): what a failed start leaves running; a shutdown ends, what it has stopped, and what outlives it.
    - Stand-ins (Doubles): how far the stand-ins that tests run behave like what they replace.
    - Messages and files (Wire, Identity): commands and reports cross a connection unchanged; printing a spec shows no value of its
      environment; a node's identity is read as it was saved, and what an interrupted save leaves.
    - Tests (TestsPrimary, TestsNode, TestsEdge, TestsRaft, Harness): the source's assertions hold of the model; waiting ends; what a started
      test cluster looks like; a client with a wrong token gets nothing.
    - Operation (Secrets, Views, Api, Daemon): requests without the token or on another node than the leader
      change nothing; a new node is offered an unused address and identifier; secrets read back as
      set; what the overview counts; the order of joining, restarting and leaving, and what a restart loses.

    * What is not modelled

    The text of JSON, HCL and MessagePack, [WireGuard::ping], which nothing calls, and the generated clients of containerd:
    they are calls of other libraries. openraft's consensus, hyper's connections, TLS and the ACME protocol are parameters
    where the code meets them. *)

From stdpp Require Export base gmap strings list pretty fin_maps.
From Stdlib Require Export ZArith Lia.
From Stdlib Require Export SpecFloat.

(** * Notations, tactics and hint databases *)

Declare Scope mill_scope.
Delimit Scope mill_scope with mill.

Create HintDb mill discriminated.

(** ** Results: Rust's [Result<A, E>] *)

Inductive result (A E : Type) : Type :=
| Ok (a : A)
| Err (e : E).
Arguments Ok {A E} a.
Arguments Err {A E} e.

(** The [?] operator: stop at the first error. *)
Definition result_bind {A B E} (r : result A E) (k : A → result B E) : result B E :=
  match r with
  | Ok a => k a
  | Err e => Err e
  end.

Notation "'let?' x := r 'in' k" := (result_bind r (λ x, k))
  (at level 10, x name, r at level 100, k at level 200) : mill_scope.

#[global] Instance result_eq_dec {A E} `{EqDecision A, EqDecision E} : EqDecision (result A E).
Proof. solve_decision. Defined.

(** ** Machine integers *)

(** Integers are kept as [Z]; an arithmetic operation that the code performs on a
    machine type wraps around explicitly (release builds do not trap). *)
Definition u8_max : Z := 2 ^ 8 - 1.
Definition u16_max : Z := 2 ^ 16 - 1.
Definition u32_max : Z := 2 ^ 32 - 1.
Definition u64_max : Z := 2 ^ 64 - 1.
Definition wrap32 (z : Z) : Z := z mod 2 ^ 32.
Definition wrap64 (z : Z) : Z := z mod 2 ^ 64.
Definition u64_add (a b : Z) : Z := wrap64 (a + b).
Definition u32_add (a b : Z) : Z := wrap32 (a + b).
Definition u32_sub (a b : Z) : Z := wrap32 (a - b).
Definition u64_saturating_sub (a b : Z) : Z := Z.max 0 (a - b).

(** ** Binary64 *)

(** [f64] is the IEEE-754 binary64 format of the standard library's executable
    specification (one NaN; 53 bits of precision, exponents up to 1024). *)
Abbreviation f64 := spec_float.
Definition f64_add : f64 → f64 → f64 := SFadd 53 1024.
Definition f64_sub : f64 → f64 → f64 := SFsub 53 1024.
Definition f64_div : f64 → f64 → f64 := SFdiv 53 1024.
Definition f64_zero : f64 := S754_zero false.
(** [u64 as f64] rounds to nearest, ties to even. *)
Definition f64_of_Z (z : Z) : f64 := binary_normalize 53 1024 z 0 false.
Definition f64_eqb : f64 → f64 → bool := SFeqb.
Definition f64_ltb : f64 → f64 → bool := SFltb.
Definition f64_leb : f64 → f64 → bool := SFleb.
Definition f64_is_nan (x : f64) : bool := match x with S754_nan => true | _ => false end.
(** [f64::max] returns the other operand when one is a NaN. *)
Definition f64_max (x y : f64) : f64 :=
  if f64_is_nan x then y else if f64_is_nan y then x else if f64_ltb x y then y else x.

#[global] Instance f64_eq_dec : EqDecision f64.
Proof. solve_decision. Defined.

(** ** Iteration over hash maps and hash sets *)

(** [std::collections::HashMap] visits its entries in an unspecified order. A model
    that iterates over a map takes the order as a parameter: any list of the map's
    entries, each once. *)
Class HashIter : Type := {
  hm_iter : ∀ {K A} `{Countable K}, gmap K A → list (K * A);
  hs_iter : ∀ {K} `{Countable K}, gset K → list K;
  hm_iter_perm : ∀ {K A} `{Countable K} (m : gmap K A), hm_iter m ≡ₚ map_to_list m;
  hs_iter_perm : ∀ {K} `{Countable K} (s : gset K), hs_iter s ≡ₚ elements s;
}.

(** The order in which the maps of this development store their entries. *)
Definition stored_order : HashIter := {|
  hm_iter := λ K A _ _ m, map_to_list m;
  hs_iter := λ K _ _ s, elements s;
  hm_iter_perm := λ K A _ _ m, reflexivity _;
  hs_iter_perm := λ K _ _ s, reflexivity _;
|}.

Definition hm_values `{HashIter} `{Countable K} {A} (m : gmap K A) : list A := (hm_iter m).*2.
Definition hm_keys `{HashIter} `{Countable K} {A} (m : gmap K A) : list K := (hm_iter m).*1.
(** [HashMap::contains_key]. *)
Definition hm_contains `{Countable K} {A} (k : K) (m : gmap K A) : bool :=
  bool_decide (is_Some (m !! k)).
(** [iter.collect::<HashMap<_, _>>()]: later entries win. *)
Definition hm_collect `{Countable K} {A} (l : list (K * A)) : gmap K A :=
  foldl (λ m '(k, v), <[k := v]> m) ∅ l.

(** ** Lists *)

(** [Iterator::find]: the first element that satisfies the predicate. *)
Fixpoint find_first {A} (p : A → bool) (l : list A) : option A :=
  match l with
  | [] => None
  | x :: l => if p x then Some x else find_first p l
  end.

(** [Iterator::find_map]. *)
Fixpoint find_map {A B} (f : A → option B) (l : list A) : option B :=
  match l with
  | [] => None
  | x :: l => match f x with Some y => Some y | None => find_map f l end
  end.

(** [Iterator::filter_map]. *)
Fixpoint filter_map {A B} (f : A → option B) (l : list A) : list B :=
  match l with
  | [] => []
  | x :: l => match f x with Some y => y :: filter_map f l | None => filter_map f l end
  end.

(** [Iterator::filter] with a Boolean closure. *)
Fixpoint filterb {A} (p : A → bool) (l : list A) : list A :=
  match l with
  | [] => []
  | x :: l => if p x then x :: filterb p l else filterb p l
  end.

(** [Iterator::min_by]: the earliest of the minimal elements. [gt x y] is the test
    [compare x y == Ordering::Greater]. *)
Definition min_by {A} (gt : A → A → bool) (l : list A) : option A :=
  match l with
  | [] => None
  | x :: l => Some (foldl (λ best y, if gt best y then y else best) x l)
  end.

(** [Iterator::count() as u32]. *)
Definition count_u32 {A} (l : list A) : Z := wrap32 (Z.of_nat (length l)).

(** ** Strings *)

(** A [str] is the list of its UTF-8 bytes. *)
Fixpoint str_take (n : nat) (s : string) : string :=
  match n, s with
  | S n, String c s => String c (str_take n s)
  | _, _ => EmptyString
  end.

Fixpoint str_drop (n : nat) (s : string) : string :=
  match n, s with
  | S n, String _ s => str_drop n s
  | _, _ => s
  end.

(** [str::strip_prefix]. *)
Fixpoint strip_prefix (p s : string) : option string :=
  match p, s with
  | EmptyString, _ => Some s
  | String a p, String b s => if decide (a = b) then strip_prefix p s else None
  | String _ _, EmptyString => None
  end.

(** [str::strip_suffix]. *)
Definition strip_suffix (p s : string) : option string :=
  String.rev <$> strip_prefix (String.rev p) (String.rev s).

Definition starts_with (p s : string) : bool := bool_decide (is_Some (strip_prefix p s)).
Definition ends_with (p s : string) : bool := bool_decide (is_Some (strip_suffix p s)).

(** [str::find]: the byte offset of the first occurrence. *)
Fixpoint str_find (p s : string) : option nat :=
  if starts_with p s then Some 0%nat
  else match s with
       | EmptyString => None
       | String _ s => S <$> str_find p s
       end.

Definition str_is_empty (s : string) : bool := match s with EmptyString => true | _ => false end.

(** [trim_end_matches]: remove the suffix as often as it is there. *)
Fixpoint trim_end_matches (fuel : nat) (p s : string) : string :=
  match fuel with
  | O => s
  | S fuel => match strip_suffix p s with Some s' => trim_end_matches fuel p s' | None => s end
  end.

(** [str::lines]: a line ends at a newline, with an optional carriage return before it. *)
Definition newline : Ascii.ascii := Ascii.ascii_of_nat 10.
Definition strip_cr (s : string) : string :=
  match strip_suffix (String (Ascii.ascii_of_nat 13) "") s with Some s' => s' | None => s end.
Fixpoint lines_go (s cur : string) : list string :=
  match s with
  | EmptyString => if str_is_empty cur then [] else [String.rev cur]
  | String c s => if decide (c = newline) then strip_cr (String.rev cur) :: lines_go s "" else lines_go s (String c cur)
  end.
Definition str_lines (s : string) : list string := lines_go s "".

(** A line end, as text. *)
Definition nl : string := String newline EmptyString.


(** [slice.join(sep)]. *)
Fixpoint str_join (sep : string) (l : list string) : string :=
  match l with
  | [] => EmptyString
  | [s] => s
  | s :: l => (s +:+ sep +:+ str_join sep l)%string
  end.

(** The UTF-8 encodings of the code points with the [White_Space] property, which is
    what [str::trim] removes at both ends. *)
Definition bytes_str (l : list nat) : string :=
  foldr (λ n s, String (Ascii.ascii_of_nat n) s) EmptyString l.
Definition white_space_ascii : list string :=
  (λ n, bytes_str [n]) <$> [9; 10; 11; 12; 13; 32]%nat.
Definition white_space_wide : list string :=
  bytes_str <$> ([[194; 133]; [194; 160]; [225; 154; 128]; [226; 128; 168]; [226; 128; 169];
                  [226; 128; 175]; [226; 129; 159]; [227; 128; 128]] ++
                 ((λ n, [226; 128; n]) <$> seq 128 11))%nat.
Definition white_space_all : list string := white_space_ascii ++ white_space_wide.

Fixpoint trim_start_go (fuel : nat) (s : string) : string :=
  match fuel with
  | O => s
  | S fuel =>
      match find_map (λ w, strip_prefix w s) white_space_all with
      | Some s' => trim_start_go fuel s'
      | None => s
      end
  end.
Fixpoint trim_end_go (fuel : nat) (s : string) : string :=
  match fuel with
  | O => s
  | S fuel =>
      match find_map (λ w, strip_suffix w s) white_space_all with
      | Some s' => trim_end_go fuel s'
      | None => s
      end
  end.
(** [str::trim]. Each step removes at least one byte, so the length is enough fuel. *)
Definition str_trim (s : string) : string :=
  let s := trim_start_go (String.length s) s in
  trim_end_go (String.length s) s.

(** * Lemmas *)

Local Open Scope Z_scope.

(** ** Search on lists *)

Lemma find_first_Some {A} (p : A → bool) l x :
  find_first p l = Some x → x ∈ l ∧ p x = true.
Proof.
  induction l as [|y l IH]; simpl; [done|].
  destruct (p y) eqn:E; intros ?; simplify_eq; [by split; [left|]|].
  destruct IH; [done|]. split; [by right|done].
Qed.

Lemma find_first_None {A} (p : A → bool) l :
  find_first p l = None ↔ ∀ x, x ∈ l → p x = false.
Proof.
  induction l as [|y l IH]; simpl; [split; [by intros _ x ?%elem_of_nil|done]|].
  destruct (p y) eqn:E.
  - split; [done|]. intros H. specialize (H y ltac:(left)). congruence.
  - rewrite IH. setoid_rewrite elem_of_cons. naive_solver.
Qed.

Lemma find_first_is_Some {A} (p : A → bool) l x :
  x ∈ l → p x = true → is_Some (find_first p l).
Proof.
  intros Hx Hp. destruct (find_first p l) eqn:E; [done|].
  rewrite find_first_None in E. specialize (E x Hx). congruence.
Qed.

Lemma find_map_Some {A B} (f : A → option B) l y :
  find_map f l = Some y → ∃ x, x ∈ l ∧ f x = Some y.
Proof.
  induction l as [|x l IH]; simpl; [done|].
  destruct (f x) eqn:E; intros ?; simplify_eq.
  - exists x. by split; [left|].
  - destruct IH as (x' & ? & ?); [done|]. exists x'. by split; [right|].
Qed.

Lemma elem_of_filterb {A} (p : A → bool) l x : x ∈ filterb p l ↔ x ∈ l ∧ p x = true.
Proof.
  induction l as [|y l IH]; simpl; [set_solver|].
  destruct (p y) eqn:E; rewrite ?elem_of_cons, IH; split.
  - intros [->|[? ?]]; [by split; [left|]|by split; [right|]].
  - intros [[->|?] ?]; [by left|by right].
  - intros [? ?]. by split; [right|].
  - intros [[->|?] ?]; [congruence|done].
Qed.

Lemma filterb_app {A} (p : A → bool) l1 l2 : filterb p (l1 ++ l2) = filterb p l1 ++ filterb p l2.
Proof. induction l1 as [|x l1 IH]; simpl; [done|]. destruct (p x); simpl; by rewrite IH. Qed.
Lemma filterb_Permutation {A} (p : A → bool) l1 l2 :
  l1 ≡ₚ l2 → filterb p l1 ≡ₚ filterb p l2.
Proof.
  induction 1; simpl; [done|by case_match; rewrite ?IHPermutation| |by etrans].
  repeat case_match; try done. apply perm_swap.
Qed.

Lemma NoDup_filterb {A} (p : A → bool) l : NoDup l → NoDup (filterb p l).
Proof.
  induction 1 as [|x l Hx Hl IH]; simpl; [constructor|]. destruct (p x); [|done].
  apply NoDup_cons. split; [|done]. by rewrite elem_of_filterb; intros [? _].
Qed.

Lemma elem_of_filter_map {A B} (f : A → option B) l y :
  y ∈ filter_map f l ↔ ∃ x, x ∈ l ∧ f x = Some y.
Proof.
  induction l as [|x l IH]; simpl; [set_solver|].
  destruct (f x) as [z|] eqn:E; rewrite ?elem_of_cons, IH.
  - split.
    + intros [->|(x' & ? & ?)]; [exists x|exists x']; (split; [|done]); [left|by right].
    + intros (x' & [->|?]%elem_of_cons & ?); [left; congruence|right; by exists x'].
  - split.
    + intros (x' & ? & ?). exists x'. split; [by right|done].
    + intros (x' & [->|?]%elem_of_cons & ?); [congruence|by exists x'].
Qed.

(** ** Minimum by a Boolean "greater" test *)

Section min_by.
Context {A : Type} (gt : A → A → bool) (ok : A → Prop).
Hypothesis gt_irrefl : ∀ x, ok x → gt x x = false.
Hypothesis gt_asym : ∀ x y, ok x → ok y → gt x y = true → gt y x = false.
Hypothesis not_gt_trans : ∀ x y z, ok x → ok y → ok z →
  gt x y = false → gt y z = false → gt x z = false.

Lemma min_fold_spec l b :
  ok b → Forall ok l →
  let r := foldl (λ best y, if gt best y then y else best) b l in
  ok r ∧ (r = b ∨ r ∈ l) ∧ gt r b = false ∧ ∀ y, y ∈ l → gt r y = false.
Proof.
  revert b. induction l as [|z l IH]; intros b Hb Hl; simpl.
  { split_and!; try done; [by left|by apply gt_irrefl|]. intros y ?%elem_of_nil. done. }
  inversion_clear Hl as [|? ? Hz Hl'].
  destruct (gt b z) eqn:E.
  - destruct (IH z Hz Hl') as (Hr & Hin & Hrz & Hall). split_and!; try done.
    + right. destruct Hin as [->|]; [left|by right].
    + eapply not_gt_trans; [done|exact Hz|done|done|]. by apply gt_asym.
    + intros y [->|?]%elem_of_cons; [done|by apply Hall].
  - destruct (IH b Hb Hl') as (Hr & Hin & Hrb & Hall). split_and!; try done.
    + destruct Hin as [->|]; [by left|by right; right].
    + intros y [->|?]%elem_of_cons; [|by apply Hall].
      eapply not_gt_trans; [done|exact Hb|done|done|done].
Qed.

Lemma min_by_spec l x :
  Forall ok l → min_by gt l = Some x → x ∈ l ∧ ∀ y, y ∈ l → gt x y = false.
Proof.
  destruct l as [|b l]; intros Hl Hm; simplify_eq/=.
  inversion_clear Hl as [|? ? Hb Hl'].
  destruct (min_fold_spec l b Hb Hl') as (_ & Hin & Hb' & Hall). split.
  - destruct Hin as [->|]; [left|by right].
  - intros y [->|?]%elem_of_cons; [done|by apply Hall].
Qed.
End min_by.

Lemma min_by_None {A} (gt : A → A → bool) l : min_by gt l = None ↔ l = [].
Proof. by destruct l. Qed.

Lemma min_by_elem {A} (gt : A → A → bool) l x : min_by gt l = Some x → x ∈ l.
Proof.
  destruct l as [|b l]; intros ?; simplify_eq/=. revert b.
  induction l as [|z l IH]; intros b; simpl; [left|].
  destruct (gt b z).
  - right. apply IH.
  - specialize (IH b). apply elem_of_cons in IH as [->|]; [left|by right; right].
Qed.

(** ** Iteration order *)

Lemma foldl_insert_union `{Countable K} {A} (l : list (K * A)) (acc : gmap K A) :
  NoDup l.*1 → foldl (λ m '(k, v), <[k:=v]> m) acc l = list_to_map l ∪ acc.
Proof.
  revert acc. induction l as [|[k v] l IH]; simpl; intros acc Hl; [by rewrite (left_id_L ∅ _)|].
  apply NoDup_cons in Hl as [Hk Hl]. rewrite (IH _ Hl).
  rewrite <-insert_union_l, <-insert_union_r; [done|]. by apply not_elem_of_list_to_map_1.
Qed.
Lemma hm_collect_list_to_map `{Countable K} {A} (l : list (K * A)) :
  NoDup l.*1 → hm_collect l = list_to_map l.
Proof. intros Hl. unfold hm_collect. rewrite (foldl_insert_union l ∅ Hl). by rewrite (right_id_L ∅ _). Qed.

Section hash_iter.
Context `{HI : HashIter} `{Countable K} {A : Type}.
Implicit Types (m : gmap K A).

Lemma elem_of_hm_iter m k x : (k, x) ∈ hm_iter m ↔ m !! k = Some x.
Proof. by rewrite hm_iter_perm, elem_of_map_to_list. Qed.

Lemma NoDup_hm_keys m : NoDup (hm_keys m).
Proof. unfold hm_keys. rewrite hm_iter_perm. apply NoDup_fst_map_to_list. Qed.

Lemma elem_of_hm_keys m k : k ∈ hm_keys m ↔ is_Some (m !! k).
Proof.
  unfold hm_keys. rewrite list_elem_of_fmap. split.
  - intros ([k' x] & -> & ?%elem_of_hm_iter). by exists x.
  - intros [x ?]. exists (k, x). by rewrite elem_of_hm_iter.
Qed.

Lemma elem_of_hm_values m x : x ∈ hm_values m ↔ ∃ k, m !! k = Some x.
Proof.
  unfold hm_values. rewrite list_elem_of_fmap. split.
  - intros ([k x'] & -> & ?%elem_of_hm_iter). by exists k.
  - intros [k ?]. exists (k, x). by rewrite elem_of_hm_iter.
Qed.

Lemma hm_collect_iter m : hm_collect (hm_iter m) = m.
Proof.
  rewrite hm_collect_list_to_map by apply NoDup_hm_keys.
  rewrite <-(list_to_map_to_list m) at 2.
  apply list_to_map_proper; [apply NoDup_hm_keys|apply hm_iter_perm].
Qed.

(** Inserting all entries of a map into another. *)
Lemma foldl_insert_iter m acc : foldl (λ m '(k, v), <[k:=v]> m) acc (hm_iter m) = m ∪ acc.
Proof.
  rewrite foldl_insert_union by apply NoDup_hm_keys. f_equal. rewrite <-(hm_collect_list_to_map _ (NoDup_hm_keys m)).
  apply hm_collect_iter.
Qed.

(** Collecting a map whose values are transformed key by key. *)
Lemma hm_collect_map {B} (f : K → A → B) m k :
  hm_collect ((λ '(k, x), (k, f k x)) <$> hm_iter m) !! k = f k <$> m !! k.
Proof.
  assert (((λ '(k, x), (k, f k x)) <$> hm_iter m).*1 = hm_keys m) as Hfst.
  { unfold hm_keys. rewrite <-list_fmap_compose. by apply list_fmap_ext; intros ? [] ?. }
  rewrite hm_collect_list_to_map by (rewrite Hfst; apply NoDup_hm_keys).
  destruct (m !! k) as [x|] eqn:Hk; simpl.
  - apply elem_of_list_to_map_1; [rewrite Hfst; apply NoDup_hm_keys|].
    apply list_elem_of_fmap. exists (k, x). split; [done|]. by apply elem_of_hm_iter.
  - apply not_elem_of_list_to_map_1. rewrite Hfst, elem_of_hm_keys, Hk. by intros [].
Qed.
End hash_iter.

Lemma hm_contains_true `{Countable K} {A} (k : K) (m : gmap K A) :
  hm_contains k m = true ↔ is_Some (m !! k).
Proof. unfold hm_contains. by rewrite bool_decide_eq_true. Qed.

(** ** Wrap-around *)

Lemma wrap64_small z : 0 ≤ z ≤ u64_max → wrap64 z = z.
Proof. unfold wrap64, u64_max. intros. apply Z.mod_small. lia. Qed.
Lemma wrap64_range z : 0 ≤ wrap64 z ≤ u64_max.
Proof. unfold wrap64, u64_max. pose proof (Z.mod_pos_bound z (2 ^ 64)). lia. Qed.
Lemma wrap32_small z : 0 ≤ z ≤ u32_max → wrap32 z = z.
Proof. unfold wrap32, u32_max. intros. apply Z.mod_small. lia. Qed.
Lemma wrap32_range z : 0 ≤ wrap32 z ≤ u32_max.
Proof. unfold wrap32, u32_max. pose proof (Z.mod_pos_bound z (2 ^ 32)). lia. Qed.

(** ** The order of binary64 numbers *)

(** A key whose lexicographic order is the order of non-NaN numbers. *)
Definition f64_key (x : f64) : Z * Z * Z :=
  match x with
  | S754_zero _ | S754_nan => (0, 0, 0)
  | S754_infinity s => (if s then -2 else 2, 0, 0)
  | S754_finite s m e => if s then (-1, - e, Zneg m) else (1, e, Zpos m)
  end.
Definition key_lt (a b : Z * Z * Z) : Prop :=
  a.1.1 < b.1.1 ∨ a.1.1 = b.1.1 ∧ (a.1.2 < b.1.2 ∨ a.1.2 = b.1.2 ∧ a.2 < b.2).

Lemma f64_compare_key x y :
  f64_is_nan x = false → f64_is_nan y = false →
  match SFcompare x y with
  | Some Lt => key_lt (f64_key x) (f64_key y)
  | Some Gt => key_lt (f64_key y) (f64_key x)
  | Some Eq => f64_key x = f64_key y
  | None => False
  end.
Proof.
  unfold key_lt. intros Hx Hy.
  destruct x as [[]|[]| |[] m e], y as [[]|[]| |[] m' e']; simplify_eq/=; try lia; try done.
  - destruct (Z.compare_spec e e') as [->| |]; simpl; try lia.
    fold (m ?= m')%positive. destruct (Pos.compare_spec m m') as [->| |]; simpl; lia || done.
  - destruct (Z.compare_spec e e') as [->| |]; simpl; try lia.
    fold (m ?= m')%positive. destruct (Pos.compare_spec m m') as [->| |]; simpl; lia || done.
Qed.

(** [compare == Ordering::Greater] on numbers, with an incomparable pair counted as equal. *)
Definition f64_gtb (x y : f64) : bool := match SFcompare x y with Some Gt => true | _ => false end.

Lemma f64_gtb_key x y :
  f64_is_nan x = false → f64_is_nan y = false →
  f64_gtb x y = true ↔ key_lt (f64_key y) (f64_key x).
Proof.
  intros Hx Hy. pose proof (f64_compare_key x y Hx Hy) as Hc.
  unfold f64_gtb. destruct (SFcompare x y) as [[]|]; unfold key_lt in *; split; try done.
  - rewrite Hc. lia.
  - lia.
Qed.
Lemma f64_gtb_key_false x y :
  f64_is_nan x = false → f64_is_nan y = false →
  f64_gtb x y = false ↔ ¬ key_lt (f64_key y) (f64_key x).
Proof. intros. rewrite <-f64_gtb_key by done. by destruct (f64_gtb x y). Qed.

Lemma f64_gtb_irrefl x : f64_is_nan x = false → f64_gtb x x = false.
Proof. intros. apply f64_gtb_key_false; [done..|]. unfold key_lt. lia. Qed.
Lemma f64_gtb_asym x y :
  f64_is_nan x = false → f64_is_nan y = false → f64_gtb x y = true → f64_gtb y x = false.
Proof.
  intros Hx Hy Hxy%f64_gtb_key; [|done..]. apply f64_gtb_key_false; [done..|].
  unfold key_lt in *. lia.
Qed.
Lemma f64_not_gtb_trans x y z :
  f64_is_nan x = false → f64_is_nan y = false → f64_is_nan z = false →
  f64_gtb x y = false → f64_gtb y z = false → f64_gtb x z = false.
Proof.
  intros Hx Hy Hz. rewrite !f64_gtb_key_false by done. unfold key_lt.
  destruct (f64_key x) as [[]], (f64_key y) as [[]], (f64_key z) as [[]]; simpl. lia.
Qed.
(** For numbers, "not greater" is [<=]. *)
Lemma f64_not_gtb_leb x y :
  f64_is_nan x = false → f64_is_nan y = false → f64_gtb x y = false → f64_leb x y = true.
Proof.
  intros Hx Hy. pose proof (f64_compare_key x y Hx Hy) as Hc.
  unfold f64_gtb, f64_leb, SFleb. by destruct (SFcompare x y) as [[]|].
Qed.
Lemma f64_leb_not_nan x y : f64_leb x y = true → f64_is_nan x = false ∧ f64_is_nan y = false.
Proof. by destruct x as [[]|[]| |[]], y as [[]|[]| |[]]. Qed.

(** ** Strings *)

Lemma str_app_cons a s t : (String a s +:+ t = String a (s +:+ t))%string.
Proof. done. Qed.
Lemma str_app_nil_l t : ("" +:+ t = t)%string.
Proof. done. Qed.
Lemma str_app_assoc (a b c : string) : ((a +:+ b) +:+ c = a +:+ (b +:+ c))%string.
Proof. induction a as [|x a IH]; [done|]. by rewrite !str_app_cons, IH. Qed.
Lemma str_app_nil_r (a : string) : (a +:+ "" = a)%string.
Proof. induction a as [|x a IH]; [done|]. by rewrite str_app_cons, IH. Qed.

Lemma strip_prefix_Some p s r : strip_prefix p s = Some r ↔ s = (p +:+ r)%string.
Proof.
  revert s. induction p as [|a p IH]; intros s; [rewrite str_app_nil_l; split; by intros [= ->] || by intros ->|].
  rewrite str_app_cons. destruct s as [|b s]; simpl; [done|]. case_decide as Hab; subst.
  - rewrite IH. split; [by intros ->|by intros [= ->]].
  - split; [done|]. intros [= ??]. congruence.
Qed.

Lemma rev_app_spec s t : String.rev_app s t = (String.rev s +:+ t)%string.
Proof.
  revert t. unfold String.rev. induction s as [|a s IH]; intros t; simpl; [done|].
  by rewrite IH, (IH (String a "")), str_app_assoc.
Qed.
Lemma str_rev_cons a s : String.rev (String a s) = (String.rev s +:+ String a "")%string.
Proof. unfold String.rev at 1. simpl. apply rev_app_spec. Qed.
Lemma str_rev_app s t : String.rev (s +:+ t)%string = (String.rev t +:+ String.rev s)%string.
Proof.
  induction s as [|a s IH]; [by rewrite str_app_nil_l, str_app_nil_r|].
  by rewrite str_app_cons, !str_rev_cons, IH, str_app_assoc.
Qed.
Lemma str_rev_involutive s : String.rev (String.rev s) = s.
Proof.
  induction s as [|a s IH]; simpl; [done|].
  by rewrite str_rev_cons, str_rev_app, IH.
Qed.

Lemma strip_suffix_Some p s r : strip_suffix p s = Some r ↔ s = (r +:+ p)%string.
Proof.
  unfold strip_suffix. rewrite fmap_Some. setoid_rewrite strip_prefix_Some. split.
  - intros (r' & Hs & ->). rewrite <-(str_rev_involutive s), Hs, str_rev_app.
    by rewrite str_rev_involutive.
  - intros ->. exists (String.rev r). by rewrite str_rev_app, str_rev_involutive.
Qed.

Lemma starts_with_true p s : starts_with p s = true ↔ ∃ r, s = (p +:+ r)%string.
Proof.
  unfold starts_with, is_Some. rewrite bool_decide_eq_true. by setoid_rewrite strip_prefix_Some.
Qed.
Lemma ends_with_true p s : ends_with p s = true ↔ ∃ r, s = (r +:+ p)%string.
Proof.
  unfold ends_with, is_Some. rewrite bool_decide_eq_true. by setoid_rewrite strip_suffix_Some.
Qed.

Lemma str_length_app s t : String.length (s +:+ t)%string = (String.length s + String.length t)%nat.
Proof. induction s as [|a s IH]; [done|]. rewrite str_app_cons. simpl. by rewrite IH. Qed.

(** ** Trimming *)

(** A visible ASCII character: no white space begins or ends with it. *)
Definition plain_char (c : Ascii.ascii) : bool := let n := Ascii.nat_of_ascii c in (33 <=? n)%nat && (n <=? 126)%nat.
Lemma find_prefix_plain c s : plain_char c = true → find_map (λ w, strip_prefix w (String c s)) white_space_all = None.
Proof. destruct c as [[] [] [] [] [] [] [] []]; intros H; vm_compute in H; first [discriminate H|reflexivity]. Qed.
Lemma find_suffix_plain c s : plain_char c = true → find_map (λ w, strip_suffix w (s +:+ String c EmptyString)%string) white_space_all = None.
Proof.
  intros H. unfold strip_suffix. rewrite str_rev_app. change (String.rev (String c EmptyString)) with (String c EmptyString).
  rewrite str_app_cons, str_app_nil_l. generalize (String.rev s). intros r.
  destruct c as [[] [] [] [] [] [] [] []]; vm_compute in H; first [discriminate H|reflexivity].
Qed.
Lemma trim_start_plain n c s : plain_char c = true → trim_start_go n (String c s) = String c s.
Proof. intros H. destruct n as [|n]; [done|]. cbn [trim_start_go]. by rewrite find_prefix_plain. Qed.
Lemma trim_end_plain n c s : plain_char c = true → trim_end_go n (s +:+ String c EmptyString)%string = (s +:+ String c EmptyString)%string.
Proof. intros H. destruct n as [|n]; [done|]. cbn [trim_end_go]. by rewrite find_suffix_plain. Qed.
Lemma trim_start_space n s : trim_start_go (S n) (" " +:+ s)%string = trim_start_go n s.
Proof. reflexivity. Qed.
Lemma trim_end_space n s : trim_end_go (S n) (s +:+ " ")%string = trim_end_go n s.
Proof.
  cbn [trim_end_go]. assert (find_map (λ w, strip_suffix w (s +:+ " ")%string) white_space_all = Some s) as ->; [|done].
  transitivity (Some (String.rev (String.rev s))); [|by rewrite str_rev_involutive].
  unfold strip_suffix. rewrite str_rev_app. generalize (String.rev s). intros r. reflexivity.
Qed.
(** Spaces around a text that begins and ends with a visible character go, the text stays. *)
Fixpoint spaces (n : nat) : string := match n with O => EmptyString | S n => (" " +:+ spaces n)%string end.
Lemma spaces_length n : String.length (spaces n) = n.
Proof. induction n as [|n IH]; [done|]. cbn [spaces]. by rewrite str_length_app, IH. Qed.
Lemma spaces_snoc n : spaces (S n) = (spaces n +:+ " ")%string.
Proof. induction n as [|n IH]; [done|]. cbn [spaces] in *. by rewrite str_app_assoc, <-IH. Qed.
Definition plain_ends (t : string) : Prop :=
  (∃ c s, plain_char c = true ∧ t = String c s) ∧ (∃ d s, plain_char d = true ∧ t = (s +:+ String d EmptyString)%string).
Lemma trim_start_spaces k n t s : plain_ends t → (k ≤ n)%nat → trim_start_go n (spaces k +:+ t +:+ s)%string = (t +:+ s)%string.
Proof.
  intros [(c & t' & Hc & ->) _]. revert n. induction k as [|k IH]; intros n Hn; [by apply trim_start_plain|].
  destruct n as [|n]; [lia|]. cbn [spaces]. rewrite (str_app_assoc " "), trim_start_space. apply IH. lia.
Qed.
Lemma trim_end_spaces k n t : plain_ends t → (k ≤ n)%nat → trim_end_go n (t +:+ spaces k)%string = t.
Proof.
  intros [_ (c & t' & Hc & ->)]. revert n.
  induction k as [|k IH]; intros n Hn; [rewrite str_app_nil_r; by apply trim_end_plain|].
  destruct n as [|n]; [lia|]. rewrite spaces_snoc, <-str_app_assoc, trim_end_space. apply IH. lia.
Qed.
Lemma str_trim_spaces k j t : plain_ends t → str_trim (spaces k +:+ t +:+ spaces j)%string = t.
Proof.
  intros Ht. unfold str_trim. rewrite trim_start_spaces by (done || rewrite str_length_app, spaces_length; lia).
  apply trim_end_spaces; [done|]. rewrite str_length_app, spaces_length. lia.
Qed.
Lemma plain_ends_app s t : plain_ends s → plain_ends t → plain_ends (s +:+ t).
Proof.
  intros [(c & s' & Hc & ->) _] [_ (d & t' & Hd & ->)]. split.
  - exists c. eexists. by rewrite str_app_cons.
  - exists d, (String c s' +:+ t')%string. by rewrite str_app_assoc.
Qed.
Lemma plain_ends_glue s m t : plain_ends s → plain_ends t → plain_ends (s +:+ m +:+ t).
Proof.
  intros [(c & s' & Hc & ->) _] [_ (d & t' & Hd & ->)]. split.
  - exists c. eexists. by rewrite str_app_cons.
  - exists d, (String c s' +:+ m +:+ t')%string. by rewrite !str_app_assoc.
Qed.

Lemma str_take_drop n s : (str_take n s +:+ str_drop n s)%string = s.
Proof.
  revert s. induction n as [|n IH]; intros s; simpl; [done|].
  destruct s as [|a s]; [done|]. by rewrite str_app_cons, IH.
Qed.
Lemma str_drop_app s t : str_drop (String.length s) (s +:+ t)%string = t.
Proof. induction s as [|a s IH]; [by destruct t|apply IH]. Qed.
Lemma str_take_app s t : str_take (String.length s) (s +:+ t)%string = s.
Proof. induction s as [|a s IH]; [by destruct t|]. rewrite str_app_cons. simpl. by rewrite IH. Qed.

(** ** Decimal numbers *)

(** The text of a list of decimal digits, and its value. *)
Definition digit_char (d : Z) : Ascii.ascii := Ascii.ascii_of_N (Z.to_N (48 + d)).
Definition digits_str (ds : list Z) : string := foldr (λ d s, String (digit_char d) s) EmptyString ds.
Definition digits_value (acc : Z) (ds : list Z) : Z := foldl (λ acc d, acc * 10 + d) acc ds.

Lemma digits_str_app l1 l2 : digits_str (l1 ++ l2) = (digits_str l1 +:+ digits_str l2)%string.
Proof. induction l1 as [|d l IH]; simpl; [done|]. by rewrite IH. Qed.
Lemma digit_char_value d : 0 ≤ d < 10 → Z.of_N (Ascii.N_of_ascii (digit_char d)) = 48 + d.
Proof. intros Hd. unfold digit_char. rewrite Ascii.N_ascii_embedding; lia. Qed.
Lemma pretty_char_digit n : (n < 10)%N → pretty_N_char n = digit_char (Z.of_N n).
Proof.
  intros Hn. assert (n ∈ (N.of_nat <$> seq 0 10)) as Hin.
  { apply list_elem_of_fmap. exists (N.to_nat n). rewrite N2Nat.id, elem_of_seq. lia. }
  clear Hn. revert n Hin. apply Forall_forall. by repeat constructor.
Qed.

Lemma digits_value_app acc l1 l2 : digits_value acc (l1 ++ l2) = digits_value (digits_value acc l1) l2.
Proof. apply foldl_app. Qed.
Lemma digits_value_mono acc ds : 0 ≤ acc → Forall (λ d, 0 ≤ d < 10) ds → acc ≤ digits_value acc ds.
Proof.
  intros Hacc Hds. revert acc Hacc. induction Hds as [|d ds Hd Hds IH]; intros acc Hacc; simpl; [lia|].
  specialize (IH (acc * 10 + d) ltac:(lia)). unfold digits_value in *. lia.
Qed.

Lemma pretty_go_digits n s :
  (0 < n)%N → ∃ d ds, pretty_N_go n s = (digits_str (d :: ds) +:+ s)%string ∧ 0 < d < 10 ∧ Forall (λ d, 0 ≤ d < 10) ds ∧
    digits_value 0 (d :: ds) = Z.of_N n ∧ 10 ^ Z.of_nat (length ds) ≤ Z.of_N n.
Proof.
  revert s. induction (N.lt_wf_0 n) as [n _ IH]. intros s Hn. rewrite pretty_N_go_step by done.
  assert (n mod 10 < 10)%N as Hm by (by apply N.mod_lt). rewrite pretty_char_digit by done.
  destruct (decide (n < 10)%N) as [Hlt|Hge].
  - rewrite N.div_small, pretty_N_go_0, N.mod_small by done. exists (Z.of_N n), []. simpl. split_and!; try lia; done.
  - assert (0 < n / 10)%N as Hq by (apply N.div_str_pos; lia).
    assert (n / 10 < n)%N as Hqn by (apply N.div_lt; lia).
    pose proof (N.div_mod n 10 ltac:(done)) as Hdm.
    remember (n / 10)%N as q eqn:Eq. remember (n mod 10)%N as m eqn:Em. clear Eq Em.
    destruct (IH q Hqn (String (digit_char (Z.of_N m)) s) Hq) as (d & ds & -> & Hd & Hds & Hv & Hlen).
    exists d, (ds ++ [Z.of_N m]). rewrite app_comm_cons, digits_str_app, str_app_assoc. split_and!; try done; try lia.
    + apply Forall_app. split; [done|]. apply Forall_singleton. lia.
    + rewrite digits_value_app, Hv. simpl. lia.
    + rewrite length_app, Nat2Z.inj_add, Z.pow_add_r by lia. simpl. lia.
Qed.

(** A printed number is its decimal digits, without leading zeros. *)
Lemma pretty_digits z :
  0 ≤ z → ∃ d ds, pretty z = digits_str (d :: ds) ∧ Forall (λ d, 0 ≤ d < 10) (d :: ds) ∧ digits_value 0 (d :: ds) = z ∧
    (ds ≠ [] → 0 < d ∧ 10 ^ Z.of_nat (length ds) ≤ z).
Proof.
  intros Hz. destruct (decide (z = 0)) as [->|Hnz].
  { exists 0, []. split_and!; try done. repeat constructor. lia. }
  destruct (pretty_go_digits (Z.to_N z) "" ltac:(lia)) as (d & ds & Hgo & Hd & Hds & Hv & Hlen).
  rewrite Z2N.id in Hv, Hlen by lia. rewrite str_app_nil_r in Hgo. exists d, ds. split_and!; try done.
  - rewrite <-Hgo. destruct z as [|p|p]; [done| |lia]. done.
  - constructor; [lia|done].
  - intros _. lia.
Qed.

Lemma digit_char_plain d : 0 ≤ d < 10 → plain_char (digit_char d) = true.
Proof.
  intros Hd. assert (d = 0 ∨ d = 1 ∨ d = 2 ∨ d = 3 ∨ d = 4 ∨ d = 5 ∨ d = 6 ∨ d = 7 ∨ d = 8 ∨ d = 9) as Hcases by lia.
  by destruct_or! Hcases; subst.
Qed.
Lemma plain_ends_pretty z : 0 ≤ z → plain_ends (pretty z).
Proof.
  intros Hz. destruct (pretty_digits z Hz) as (d & ds & -> & Hds & _). inversion_clear Hds as [|? ? Hd Hds']. split.
  - exists (digit_char d). eexists. split; [apply digit_char_plain; lia|done].
  - destruct ds as [|e ds _] using rev_ind; [exists (digit_char d), EmptyString; split; [apply digit_char_plain; lia|done]|].
    apply Forall_app in Hds' as [_ He]. rewrite Forall_singleton in He. exists (digit_char e), (digits_str (d :: ds)).
    split; [apply digit_char_plain; lia|]. by rewrite app_comm_cons, digits_str_app.
Qed.

(** The lines of a text are the lines it was made of. *)
Fixpoint str_has (c : Ascii.ascii) (s : string) : bool :=
  match s with EmptyString => false | String d s => bool_decide (d = c) || str_has c s end.
Lemma str_has_app c s t : str_has c (s +:+ t)%string = str_has c s || str_has c t.
Proof. induction s as [|d s IH]; [done|]. rewrite str_app_cons. cbn [str_has]. by rewrite IH, orb_assoc. Qed.
Definition text_lines (ls : list string) : string := foldr (λ l t, l +:+ nl +:+ t)%string EmptyString ls.
Definition plain_line (l : string) : Prop := str_has newline l = false ∧ strip_cr l = l.
Lemma lines_go_line l t cur :
  str_has newline l = false → lines_go (l +:+ nl +:+ t)%string cur = strip_cr (String.rev cur +:+ l)%string :: lines_go t "".
Proof.
  revert cur. induction l as [|c l IH]; intros cur Hl.
  - rewrite str_app_nil_l, str_app_nil_r. unfold nl. rewrite str_app_cons, str_app_nil_l. cbn [lines_go]. by rewrite decide_True.
  - cbn [str_has] in Hl. apply orb_false_iff in Hl as [Hc Hl]. rewrite bool_decide_eq_false in Hc.
    rewrite str_app_cons. cbn [lines_go]. rewrite decide_False, IH by done. by rewrite str_rev_cons, str_app_assoc.
Qed.
Lemma str_lines_text ls : Forall plain_line ls → str_lines (text_lines ls) = ls.
Proof.
  unfold str_lines. induction 1 as [|l ls [Hl Hcr] _ IH]; [done|]. cbn [text_lines foldr].
  rewrite lines_go_line by done. fold (text_lines ls). rewrite IH. f_equal. exact Hcr.
Qed.

#[export] Hint Resolve wrap64_range wrap32_range NoDup_hm_keys : mill.

(** ** Tactics *)

(** Split every conjunction of the goal and simplify the map lookups left over. *)
Ltac map_crush := repeat (split || intros); simplify_map_eq; eauto with mill.
(** Case on the scrutinee of a match of the goal, keeping the equation. *)
Ltac case_goal :=
  match goal with
  | |- context [match ?x with _ => _ end] => destruct x eqn:?
  end.
