(* ===== verification/Types.v ===== *)
(** The shared data types of mill-config ([src/crates/config/src/types]): identifiers,
    node and allocation records, the resolved cluster configuration, the container
    specification sent to a node, and the [Display] of the values that the program
    turns into text. Sizes are byte counts ([u64]), durations are nanoseconds,
    instants and system times are nanoseconds on their clock (system times count from
    the Unix epoch). *)

From S2P Require Import Prelude.
Local Open Scope Z_scope.

(** * Identifiers *)

Record NodeId := mkNodeId { node_id_0 : string }.
Record AllocId := mkAllocId { alloc_id_0 : string }.

#[global] Instance NodeId_eq_dec : EqDecision NodeId.
Proof. solve_decision. Defined.
#[global] Instance AllocId_eq_dec : EqDecision AllocId.
Proof. solve_decision. Defined.
#[global] Instance NodeId_countable : Countable NodeId.
Proof. refine (inj_countable' node_id_0 mkNodeId _). by intros []. Defined.
#[global] Instance AllocId_countable : Countable AllocId.
Proof. refine (inj_countable' alloc_id_0 mkAllocId _). by intros []. Defined.

(** * Network addresses (std::net) *)

Inductive IpAddr :=
| V4 (bits : Z)
| V6 (bits : Z).

Inductive SocketAddr :=
| SockV4 (ip port : Z)
| SockV6 (ip port flowinfo scope_id : Z).

#[global] Instance IpAddr_eq_dec : EqDecision IpAddr.
Proof. solve_decision. Defined.
#[global] Instance SocketAddr_eq_dec : EqDecision SocketAddr.
Proof. solve_decision. Defined.

(** [SocketAddr::new]. *)
Definition SocketAddr_new (ip : IpAddr) (port : Z) : SocketAddr :=
  match ip with
  | V4 a => SockV4 a port
  | V6 a => SockV6 a port 0 0
  end.
(** [SocketAddr::ip]. *)
Definition sock_ip (a : SocketAddr) : IpAddr :=
  match a with
  | SockV4 a _ => V4 a
  | SockV6 a _ _ _ => V6 a
  end.

Definition hex_digit (d : Z) : Ascii.ascii :=
  Ascii.ascii_of_nat (Z.to_nat (if d <? 10 then 48 + d else 87 + d)).
Fixpoint hex_go (fuel : nat) (z : Z) (acc : string) : string :=
  match fuel with
  | O => acc
  | S fuel =>
      let acc := String (hex_digit (z mod 16)) acc in
      if z / 16 =? 0 then acc else hex_go fuel (z / 16) acc
  end.
(** [format!("{:x}", z)] for an unsigned [z] of at most 128 bits. *)
Definition show_hex (z : Z) : string := hex_go 32 z "".

Definition show_ipv4 (a : Z) : string :=
  str_join "." (pretty <$> [(a / 2 ^ 24) mod 256; (a / 2 ^ 16) mod 256; (a / 2 ^ 8) mod 256; a mod 256]).

Definition ipv6_segments (a : Z) : list Z :=
  (λ i, (a / 2 ^ (16 * (7 - Z.of_nat i))) mod 2 ^ 16) <$> seq 0 8.
(** The longest run of zero segments, the leftmost of equal length: [(start, len)]. *)
Fixpoint longest_zero_run (i : nat) (segs : list Z) (cur longest : nat * nat) : nat * nat :=
  match segs with
  | [] => longest
  | seg :: segs =>
      if seg =? 0 then
        let cur := (if decide (cur.2 = 0%nat) then i else cur.1, S cur.2) in
        longest_zero_run (S i) segs cur (if decide (longest.2 < cur.2)%nat then cur else longest)
      else longest_zero_run (S i) segs (0%nat, 0%nat) longest
  end.
Definition show_segments (segs : list Z) : string := str_join ":" (show_hex <$> segs).
Definition show_ipv6 (a : Z) : string :=
  if a / 2 ^ 32 =? 65535 then ("::ffff:" +:+ show_ipv4 (a mod 2 ^ 32))%string
  else
    let segs := ipv6_segments a in
    let '(start, len) := longest_zero_run 0 segs (0, 0)%nat (0, 0)%nat in
    if decide (1 < len)%nat then
      (show_segments (take start segs) +:+ "::" +:+ show_segments (drop (start + len) segs))%string
    else show_segments segs.
Definition show_ip (ip : IpAddr) : string :=
  match ip with
  | V4 a => show_ipv4 a
  | V6 a => show_ipv6 a
  end.
(** [SocketAddr::to_string]. *)
Definition show_sock (a : SocketAddr) : string :=
  match a with
  | SockV4 a p => (show_ipv4 a +:+ ":" +:+ pretty p)%string
  | SockV6 a p _ sc =>
      if sc =? 0 then ("[" +:+ show_ipv6 a +:+ "]:" +:+ pretty p)%string
      else ("[" +:+ show_ipv6 a +:+ "%" +:+ pretty sc +:+ "]:" +:+ pretty p)%string
  end.

(** * Nodes, allocations and volumes (types/runtime.rs) *)

Record NodeResources := mkNodeResources {
  cpu_total : f64;
  cpu_available : f64;
  memory_total : Z;
  memory_available : Z;
}.

Inductive NodeStatus :=
| NodeReady
| NodeDraining
| NodeDown_.

Record AllocResources := mkAllocResources {
  alloc_cpu : f64;
  alloc_memory : Z;
}.

Inductive AllocKind :=
| KService
| KTask.

Inductive AllocStatus :=
| Pulling
| Starting
| Running
| Healthy
| Stopped (exit_code : Z)
| Failed (reason : string).

Record Alloc := mkAlloc {
  alloc_id : AllocId;
  alloc_node : NodeId;
  alloc_name : string;
  alloc_kind : AllocKind;
  alloc_status : AllocStatus;
  alloc_address : option SocketAddr;
  alloc_resources : AllocResources;
  alloc_started_at : option Z;
}.

Inductive VolumeState :=
| VolReady
| VolAttached (node : NodeId).

#[global] Instance NodeStatus_eq_dec : EqDecision NodeStatus.
Proof. solve_decision. Defined.
#[global] Instance AllocKind_eq_dec : EqDecision AllocKind.
Proof. solve_decision. Defined.
#[global] Instance AllocStatus_eq_dec : EqDecision AllocStatus.
Proof. solve_decision. Defined.
#[global] Instance VolumeState_eq_dec : EqDecision VolumeState.
Proof. solve_decision. Defined.
#[global] Instance NodeResources_eq_dec : EqDecision NodeResources.
Proof. solve_decision. Defined.
#[global] Instance AllocResources_eq_dec : EqDecision AllocResources.
Proof. solve_decision. Defined.
#[global] Instance Alloc_eq_dec : EqDecision Alloc.
Proof. solve_decision. Defined.

(** Field updates of an allocation. *)
Definition with_status (s : AllocStatus) (a : Alloc) : Alloc :=
  mkAlloc (alloc_id a) (alloc_node a) (alloc_name a) (alloc_kind a) s
    (alloc_address a) (alloc_resources a) (alloc_started_at a).
Definition with_running (addr : option SocketAddr) (started : option Z) (a : Alloc) : Alloc :=
  mkAlloc (alloc_id a) (alloc_node a) (alloc_name a) (alloc_kind a) Running
    addr (alloc_resources a) started.

Definition is_active (s : AllocStatus) : bool :=
  match s with Running | Healthy => true | _ => false end.
Definition is_terminal (s : AllocStatus) : bool :=
  match s with Stopped _ | Failed _ => true | _ => false end.

Definition show_node_status (s : NodeStatus) : string :=
  match s with
  | NodeReady => "ready"
  | NodeDraining => "draining"
  | NodeDown_ => "down"
  end.
Definition show_alloc_kind (k : AllocKind) : string :=
  match k with KService => "service" | KTask => "task" end.
Definition show_alloc_status (s : AllocStatus) : string :=
  match s with
  | Pulling => "pulling"
  | Starting => "starting"
  | Running => "running"
  | Healthy => "healthy"
  | Stopped _ => "stopped"
  | Failed _ => "failed"
  end.
Definition show_volume_state (s : VolumeState) : string :=
  match s with
  | VolReady => "ready"
  | VolAttached node => ("attached (" +:+ node_id_0 node +:+ ")")%string
  end.

(** * Environment values (types/env.rs) *)

Inductive EnvPart :=
| PartLiteral (s : string)
| ServiceAddress (service : string)
| Secret (name : string).

Inductive EnvValue :=
| Literal (s : string)
| Interpolated (parts : list EnvPart).

#[global] Instance EnvPart_eq_dec : EqDecision EnvPart.
Proof. solve_decision. Defined.
#[global] Instance EnvValue_eq_dec : EqDecision EnvValue.
Proof. solve_decision. Defined.

(** * The resolved configuration (types/resolved.rs) *)

Record Resources := mkResources {
  res_cpu : f64;
  res_memory : Z;
}.
Record HealthCheck := mkHealthCheck {
  hc_path : string;
  hc_interval : Z;
  hc_failure_threshold : Z;
}.
Record RouteDef := mkRouteDef {
  rd_hostname : string;
  rd_path : string;
  rd_websocket : bool;
}.
Record VolumeDef := mkVolumeDef {
  vd_name : string;
  vd_path : string;
  vd_size : option Z;
  vd_ephemeral : bool;
}.
Record ServiceDef := mkServiceDef {
  sd_image : string;
  sd_port : Z;
  sd_replicas : Z;
  sd_resources : Resources;
  sd_env : gmap string EnvValue;
  sd_command : option (list string);
  sd_health : option HealthCheck;
  sd_routes : list RouteDef;
  sd_volumes : list VolumeDef;
}.
Record TaskDef := mkTaskDef {
  td_image : string;
  td_resources : Resources;
  td_timeout : Z;
  td_env : gmap string EnvValue;
  td_command : option (list string);
}.
Record ClusterConfig := mkClusterConfig {
  services : gmap string ServiceDef;
  tasks : gmap string TaskDef;
}.

#[global] Instance HealthCheck_eq_dec : EqDecision HealthCheck.
Proof. solve_decision. Defined.
#[global] Instance RouteDef_eq_dec : EqDecision RouteDef.
Proof. solve_decision. Defined.
#[global] Instance VolumeDef_eq_dec : EqDecision VolumeDef.
Proof. solve_decision. Defined.

#[global] Instance Resources_eq_dec : EqDecision Resources.
Proof. solve_decision. Defined.
#[global] Instance ServiceDef_eq_dec : EqDecision ServiceDef.
Proof. solve_decision. Defined.
#[global] Instance TaskDef_eq_dec : EqDecision TaskDef.
Proof. solve_decision. Defined.
#[global] Instance ClusterConfig_eq_dec : EqDecision ClusterConfig.
Proof. solve_decision. Defined.

(** The derived [PartialEq]: field by field, with [f64]'s own equality on [cpu]. *)
Definition resources_eqb (a b : Resources) : bool :=
  f64_eqb (res_cpu a) (res_cpu b) && bool_decide (res_memory a = res_memory b).
Definition service_def_eqb (a b : ServiceDef) : bool :=
  bool_decide (sd_image a = sd_image b) && bool_decide (sd_port a = sd_port b) &&
  bool_decide (sd_replicas a = sd_replicas b) && resources_eqb (sd_resources a) (sd_resources b) &&
  bool_decide (sd_env a = sd_env b) && bool_decide (sd_command a = sd_command b) &&
  bool_decide (sd_health a = sd_health b) && bool_decide (sd_routes a = sd_routes b) &&
  bool_decide (sd_volumes a = sd_volumes b).

(** [impl From<Resources> for AllocResources]. *)
Definition alloc_resources_from (r : Resources) : AllocResources :=
  mkAllocResources (res_cpu r) (res_memory r).

(** * The interface to a node's container runtime (types/interface.rs) *)

Record ContainerVolume := mkContainerVolume {
  cv_name : string;
  cv_path : string;
  cv_ephemeral : bool;
}.
Record ContainerSpec := mkContainerSpec {
  spec_alloc_id : AllocId;
  spec_kind : AllocKind;
  spec_timeout : option Z;
  spec_command : option (list string);
  spec_image : string;
  spec_env : gmap string string;
  spec_port : option Z;
  spec_host_port : option Z;
  spec_cpu : f64;
  spec_memory : Z;
  spec_volumes : list ContainerVolume;
}.
Record ProxyRoute := mkProxyRoute {
  pr_hostname : string;
  pr_path : string;
  pr_backend : SocketAddr;
  pr_websocket : bool;
}.
Record DnsRecord := mkDnsRecord {
  dr_name : string;
  dr_addresses : list SocketAddr;
}.
Record ContainerStats := mkContainerStats {
  cs_alloc_id : AllocId;
  cs_cpu_usage : f64;
  cs_memory_usage : Z;
}.

#[global] Instance ContainerVolume_eq_dec : EqDecision ContainerVolume.
Proof. solve_decision. Defined.
#[global] Instance ContainerSpec_eq_dec : EqDecision ContainerSpec.
Proof. solve_decision. Defined.
#[global] Instance ProxyRoute_eq_dec : EqDecision ProxyRoute.
Proof. solve_decision. Defined.
#[global] Instance DnsRecord_eq_dec : EqDecision DnsRecord.
Proof. solve_decision. Defined.
#[global] Instance ContainerStats_eq_dec : EqDecision ContainerStats.
Proof. solve_decision. Defined.

(** * Lemmas *)

Lemma is_active_not_terminal s : is_active s = true → is_terminal s = false.
Proof. by destruct s. Qed.

(** The text forms used by the API and the logs, on the standard library's cases. *)
Example show_sock_v4 : show_sock (SockV4 (10 * 2 ^ 24 + 99 * 2 ^ 16 + 1) 8080) = "10.99.0.1:8080"%string.
Proof. reflexivity. Qed.
Example show_sock_v6 : show_sock (SockV6 1 80 0 0) = "[::1]:80"%string.
Proof. vm_compute. reflexivity. Qed.
Example show_sock_v6_mid :
  show_sock (SockV6 (8193 * 2 ^ 112 + 3512 * 2 ^ 96 + 1) 443 0 3) = "[2001:db8::1%3]:443"%string.
Proof. vm_compute. reflexivity. Qed.

#[export] Hint Resolve is_active_not_terminal : mill.
