(* ===== verification/Env.v ===== *)
(** Timing parameters ([src/crates/node/src/env.rs]): each is read once from the process environment
    (the parameter [vars]) as a number of milliseconds, with a default when the variable is missing
    or is not a number. Durations are nanoseconds. *)

From S2P Require Import Prelude.
Local Open Scope Z_scope.

(** [str::parse::<u64>]: an optional plus sign, then decimal digits, at most 2^64 - 1. *)
Fixpoint parse_digits (acc : Z) (s : string) : option Z :=
  match s with
  | EmptyString => Some acc
  | String c s =>
      let d := Z.of_N (Ascii.N_of_ascii c) - 48 in
      if (0 <=? d) && (d <=? 9) then
        let acc := acc * 10 + d in
        if u64_max <? acc then None else parse_digits acc s
      else None
  end.
Definition parse_u64 (s : string) : option Z :=
  match s with
  | EmptyString => None
  | String c rest =>
      if decide (c = Ascii.ascii_of_nat 43) then
        (if str_is_empty rest then None else parse_digits 0 rest)
      else parse_digits 0 s
  end.

Definition millis (ms : Z) : Z := ms * 1000000.
Definition secs (s : Z) : Z := s * 1000000000.

Section env.
Context (vars : gmap string string).

Definition read_ms (var : string) (default : Z) : Z :=
  match vars !! var with
  | Some val => millis (match parse_u64 val with Some n => n | None => default end)
  | None => millis default
  end.
Definition read_u64 (var : string) (default : Z) : Z :=
  match vars !! var with
  | Some val => match parse_u64 val with Some n => n | None => default end
  | None => default
  end.

Definition heartbeat_interval : Z := read_ms "MILL_HEARTBEAT_INTERVAL_MS" 5000.
Definition metrics_poll_interval : Z := read_ms "MILL_METRICS_POLL_INTERVAL_MS" 10000.
Definition watchdog_tick : Z := read_ms "MILL_WATCHDOG_TICK_MS" 1000.
Definition heartbeat_timeout : Z := read_ms "MILL_HEARTBEAT_TIMEOUT_MS" 15000.
Definition restart_backoff : list Z := [secs 1; secs 5; secs 30; secs 60].
Definition health_timeout : Z := read_ms "MILL_HEALTH_TIMEOUT_MS" 30000.
Definition deploy_timeout : Z := read_ms "MILL_DEPLOY_TIMEOUT_MS" 60000.
Definition poll_address_timeout : Z := read_ms "MILL_POLL_ADDRESS_TIMEOUT_MS" 10000.
Definition health_check_http_timeout : Z := read_ms "MILL_HEALTH_CHECK_HTTP_TIMEOUT_MS" 5000.
Definition tcp_ready_poll_interval : Z := read_ms "MILL_TCP_READY_POLL_INTERVAL_MS" 100.
Definition rpc_connect_timeout : Z := read_ms "MILL_RPC_CONNECT_TIMEOUT_MS" 5000.
Definition api_client_timeout : Z := read_ms "MILL_API_CLIENT_TIMEOUT_MS" 30000.
Definition metadata_timeout : Z := read_ms "MILL_METADATA_TIMEOUT_MS" 2000.
Definition snapshot_threshold : Z := read_u64 "MILL_SNAPSHOT_THRESHOLD" 5000.
Definition snapshot_log_keep : Z := read_u64 "MILL_SNAPSHOT_LOG_KEEP" 1000.
End env.

(** * Lemmas *)

Lemma parse_digits_range s acc n : 0 ≤ acc ≤ u64_max → parse_digits acc s = Some n → 0 ≤ n ≤ u64_max.
Proof.
  revert acc. induction s as [|c s IH]; intros acc Hacc; simpl; [by intros [= <-]|].
  destruct (_ && _) eqn:Hd; [|done]. apply andb_true_iff in Hd as [?%Z.leb_le _].
  destruct (u64_max <? _) eqn:Hm; [done|]. apply Z.ltb_ge in Hm. apply IH. lia.
Qed.
(** The text of a number is read back. *)
Lemma parse_digits_str ds acc :
  0 ≤ acc → Forall (λ d, 0 ≤ d < 10) ds → digits_value acc ds ≤ u64_max → parse_digits acc (digits_str ds) = Some (digits_value acc ds).
Proof.
  intros Hacc Hds. revert acc Hacc. induction Hds as [|d ds Hd Hds IH]; intros acc Hacc Hv; simpl; [done|].
  rewrite digit_char_value by done. pose proof (digits_value_mono (acc * 10 + d) ds ltac:(lia) Hds) as Hm. simpl in Hv.
  unfold digits_value in *. replace (48 + d - 48) with d by lia.
  rewrite (proj2 (Z.leb_le 0 d)), (proj2 (Z.leb_le d 9)), (proj2 (Z.ltb_ge _ _)) by lia. apply IH; lia.
Qed.
Lemma parse_u64_pretty z : 0 ≤ z ≤ u64_max → parse_u64 (pretty z) = Some z.
Proof.
  intros Hz. destruct (pretty_digits z ltac:(lia)) as (d & ds & -> & Hds & Hv & _).
  cbn [digits_str foldr parse_u64]. rewrite decide_False.
  - change (String (digit_char d) _) with (digits_str (d :: ds)). rewrite <-Hv. apply parse_digits_str; [lia|done|by rewrite Hv; lia].
  - intros E. inversion_clear Hds as [|? ? Hd _]. apply (f_equal (λ c, Z.of_N (Ascii.N_of_ascii c))) in E.
    rewrite digit_char_value in E by done.
    change (Z.of_N (Ascii.N_of_ascii (Ascii.ascii_of_nat 43))) with 43 in E. lia.
Qed.
Lemma parse_u64_range s n : parse_u64 s = Some n → 0 ≤ n ≤ u64_max.
Proof.
  assert (0 ≤ 0 ≤ u64_max) as H0 by (unfold u64_max; lia).
  destruct s as [|c s]; [done|]. simpl. case_decide.
  - destruct (str_is_empty s); [done|]. by apply parse_digits_range.
  - by apply (parse_digits_range (String c s)).
Qed.
Lemma read_ms_nonneg vars var default : 0 ≤ default → 0 ≤ read_ms vars var default.
Proof.
  intros Hd. unfold read_ms, millis. destruct (vars !! var) as [v|]; [|lia].
  destruct (parse_u64 v) as [n|] eqn:E; [|lia]. apply parse_u64_range in E. lia.
Qed.
#[export] Hint Resolve read_ms_nonneg : mill.
