(* ===== verification/Addr.v ===== *)
(** Reading network addresses: [FromStr] of the address types of [std::net], which the program applies to
    advertised addresses, WireGuard endpoints and subnets, and the lines of resolver configurations
    ([src/crates/net/src/dns/forward.rs]). The theorems show that a printed IPv4 address or socket address is read
    back, and what the subnet and mask computations of [src/crates/net/src/wireguard/mod.rs] return. *)

From Stdlib Require Import Ascii.
From S2P Require Import Prelude Types Env.
Local Open Scope Z_scope.

(** * The parser of std::net *)

(** [char::to_digit]. *)
Definition to_digit (radix : Z) (c : Ascii.ascii) : option Z :=
  let n := Z.of_N (Ascii.N_of_ascii c) in
  let d := if (48 <=? n) && (n <=? 57) then n - 48
           else if (97 <=? n) && (n <=? 122) then n - 87
           else if (65 <=? n) && (n <=? 90) then n - 55 else radix in
  if d <? radix then Some d else None.

(** A parser returns what it read and the rest of the input. *)
Abbreviation Parser A := (string → option (A * string)).

Definition read_given_char (c : Ascii.ascii) : Parser unit := λ s,
  match s with
  | String c' s => if decide (c' = c) then Some (tt, s) else None
  | EmptyString => None
  end.

(** The digits at the front, with their number and value. *)
Fixpoint read_digits (radix count value : Z) (s : string) : Z * Z * string :=
  match s with
  | String c s' =>
      match to_digit radix c with
      | Some d => read_digits radix (count + 1) (value * radix + d) s'
      | None => (count, value, s)
      end
  | EmptyString => (count, value, s)
  end.
(** [read_number]: at most [max_digits] digits when that is given, and a value up to [max]. *)
Definition read_number (radix : Z) (max_digits : option Z) (max : Z) (allow_zero_prefix : bool) : Parser Z := λ s,
  let has_leading_zero := match s with String c _ => bool_decide (c = "0"%char) | _ => false end in
  let '(count, value, rest) := read_digits radix 0 0 s in
  if count =? 0 then None
  else if match max_digits with Some m => m <? count | None => false end then None
  else if negb allow_zero_prefix && has_leading_zero && (1 <? count) then None
  else if max <? value then None
  else Some (value, rest).

(** [read_separator]: the separator before every element but the first. *)
Definition read_separator {A} (sep : Ascii.ascii) (index : nat) (p : Parser A) : Parser A := λ s,
  match index with
  | O => p s
  | S _ => match read_given_char sep s with Some (_, s) => p s | None => None end
  end.

Definition octet : Parser Z := read_number 10 (Some 3) 255 false.
Definition read_ipv4_addr : Parser Z := λ s,
  '(a, s) ← octet s;
  '(b, s) ← read_separator "."%char 1 octet s;
  '(c, s) ← read_separator "."%char 2 octet s;
  '(d, s) ← read_separator "."%char 3 octet s;
  Some (a * 2 ^ 24 + b * 2 ^ 16 + c * 2 ^ 8 + d, s).

(** [read_groups]: the groups from index [i] on, [left] at most, and whether an IPv4 address ended them. *)
Fixpoint read_groups (left i : nat) (s : string) : list Z * bool * string :=
  match left with
  | O => ([], false, s)
  | S left' =>
      match (if decide (0 < left')%nat then read_separator ":"%char i read_ipv4_addr s else None) with
      | Some (v4, s) => ([v4 / 2 ^ 16; v4 mod 2 ^ 16], true, s)
      | None =>
          match read_separator ":"%char i (read_number 16 (Some 4) (2 ^ 16 - 1) true) s with
          | Some (g, s) => let '(gs, v4, s) := read_groups left' (S i) s in (g :: gs, v4, s)
          | None => ([], false, s)
          end
      end
  end.
Definition from_groups (gs : list Z) : Z := foldl (λ acc g, acc * 2 ^ 16 + g) 0 gs.
Definition read_ipv6_addr : Parser Z := λ s,
  let '(head, head_ipv4, s) := read_groups 8 0 s in
  if decide (length head = 8)%nat then Some (from_groups head, s)
  else if (head_ipv4 : bool) then None
  else
    '(_, s) ← read_given_char ":"%char s;
    '(_, s) ← read_given_char ":"%char s;
    let '(tail, _, s) := read_groups (8 - (length head + 1)) 0 s in
    Some (from_groups (head ++ replicate (8 - length head - length tail) 0 ++ tail), s).

Definition read_ip_addr : Parser IpAddr := λ s,
  match read_ipv4_addr s with
  | Some (a, s) => Some (V4 a, s)
  | None => '(a, s) ← read_ipv6_addr s; Some (V6 a, s)
  end.
Definition read_port : Parser Z := λ s,
  '(_, s) ← read_given_char ":"%char s; read_number 10 None u16_max true s.
Definition read_socket_addr_v4 : Parser SocketAddr := λ s,
  '(a, s) ← read_ipv4_addr s;
  '(p, s) ← read_port s;
  Some (SockV4 a p, s).
Definition read_scope_id : Parser Z := λ s,
  '(_, s) ← read_given_char "%"%char s; read_number 10 None u32_max true s.
Definition read_socket_addr_v6 : Parser SocketAddr := λ s,
  '(_, s) ← read_given_char "["%char s;
  '(a, s) ← read_ipv6_addr s;
  let '(scope_id, s) := match read_scope_id s with Some r => r | None => (0, s) end in
  '(_, s) ← read_given_char "]"%char s;
  '(p, s) ← read_port s;
  Some (SockV6 a p 0 scope_id, s).
Definition read_socket_addr : Parser SocketAddr := λ s,
  match read_socket_addr_v4 s with
  | Some r => Some r
  | None => read_socket_addr_v6 s
  end.

(** [parse_with]: the whole input must be read. *)
Definition parse_with {A} (p : Parser A) (s : string) : option A :=
  match p s with
  | Some (a, EmptyString) => Some a
  | _ => None
  end.
(** [str::parse] for [Ipv4Addr], [IpAddr] and [SocketAddr]. *)
Definition parse_ipv4 (s : string) : option Z :=
  if decide (15 < String.length s)%nat then None else parse_with read_ipv4_addr s.
Definition parse_ip : string → option IpAddr := parse_with read_ip_addr.
Definition parse_sock : string → option SocketAddr := parse_with read_socket_addr.

(** * Subnets and masks (wireguard/mod.rs) *)

(** [str::split] at a one-byte separator. *)
Fixpoint str_split (sep : ascii) (s cur : string) : list string :=
  match s with
  | EmptyString => [String.rev cur]
  | String c s => if decide (c = sep) then String.rev cur :: str_split sep s EmptyString else str_split sep s (String c cur)
  end.
(** [str::parse::<u8>]. *)
Definition parse_u8 (s : string) : option Z :=
  match parse_u64 s with
  | Some n => if n <=? u8_max then Some n else None
  | None => None
  end.

(** The first address of a subnet after its base, and the prefix length. *)
Definition parse_subnet_first_ip (subnet : string) : option (IpAddr * Z) :=
  match str_split "/"%char subnet EmptyString with
  | [base; len] =>
      base_ip ← parse_ipv4 base;
      prefix_len ← parse_u8 len;
      Some (V4 (u32_add base_ip 1), prefix_len)
  | _ => None
  end.

(** [MAX << (bits - prefix_len)] on an unsigned type of [bits] bits, which takes the shift amount modulo the
    width. *)
Definition mask (bits prefix_len : Z) : Z :=
  if bits <=? prefix_len then 2 ^ bits - 1 else Z.land (Z.shiftl (2 ^ bits - 1) ((bits - prefix_len) mod bits)) (2 ^ bits - 1).
Definition network_address (ip : IpAddr) (prefix_len : Z) : IpAddr :=
  match ip with
  | V4 bits => V4 (Z.land bits (mask 32 prefix_len))
  | V6 bits => V6 (Z.land bits (mask 128 prefix_len))
  end.

(** * The upstream resolver (net/src/dns/forward.rs) *)

Definition fallback_nameserver : SocketAddr := SockV4 134744072 53.
Definition nameserver_line (line : string) : option SocketAddr :=
  rest ← strip_prefix "nameserver" (str_trim line);
  ip ← parse_ip (str_trim rest);
  Some (SocketAddr_new ip 53).
(** What [/etc/resolv.conf] contains, if it can be read. *)
Definition read_upstream_nameserver (contents : option string) : SocketAddr :=
  match contents with
  | None => fallback_nameserver
  | Some c => default fallback_nameserver (find_map nameserver_line (str_lines c))
  end.

(** * Theorems *)

(** What follows a number in the texts of addresses. *)
Definition no_digit (s : string) : Prop :=
  match s with
  | String c _ => to_digit 10 c = None
  | EmptyString => True
  end.
Lemma to_digit_char d : 0 ≤ d < 10 → to_digit 10 (digit_char d) = Some d.
Proof.
  intros Hd. unfold to_digit. rewrite digit_char_value by done.
  rewrite (proj2 (Z.leb_le 48 _)), (proj2 (Z.leb_le _ 57)) by lia. simpl.
  replace (48 + d - 48) with d by lia. by rewrite (proj2 (Z.ltb_lt d 10)) by lia.
Qed.
Lemma read_digits_str ds count v rest :
  Forall (λ d, 0 ≤ d < 10) ds → no_digit rest →
  read_digits 10 count v (digits_str ds +:+ rest)%string = (count + Z.of_nat (length ds), digits_value v ds, rest).
Proof.
  intros Hds Hrest. revert count v. induction Hds as [|d ds Hd Hds IH]; intros count v.
  - rewrite str_app_nil_l. simpl. rewrite Z.add_0_r. destruct rest as [|c rest]; simpl; [done|]. simpl in Hrest. by rewrite Hrest.
  - cbn [digits_str foldr]. rewrite str_app_cons. cbn [read_digits]. rewrite to_digit_char by done.
    rewrite IH. cbn [length digits_value foldl]. f_equal. f_equal. lia.
Qed.

(** Reading a printed number. *)
Lemma read_number_pretty max_digits max allow z rest :
  0 ≤ z ≤ max → no_digit rest → (∀ m, max_digits = Some m → z < 10 ^ m ∧ 1 ≤ m) →
  read_number 10 max_digits max allow (pretty z +:+ rest)%string = Some (z, rest).
Proof.
  intros Hz Hrest Hm. destruct (pretty_digits z ltac:(lia)) as (d & ds & -> & Hds & Hv & Hlead).
  unfold read_number. rewrite read_digits_str, Hv by done. cbn [digits_str foldr]. rewrite str_app_cons.
  assert (match max_digits with Some m => m <? 0 + Z.of_nat (length (d :: ds)) | None => false end = false) as ->.
  { destruct max_digits as [m|]; [|done]. destruct (Hm m eq_refl) as [Hzm ?]. apply Z.ltb_ge. simpl.
    destruct (decide (ds = [])) as [->|Hne]; [simpl; lia|]. destruct (Hlead Hne) as [_ Hp].
    assert (Z.of_nat (length ds) < m); [|lia]. apply (Z.pow_lt_mono_r_iff 10); lia. }
  rewrite (proj2 (Z.eqb_neq _ 0)) by (simpl; lia).
  assert (negb allow && bool_decide (digit_char d = "0"%char) && (1 <? 0 + Z.of_nat (length (d :: ds))) = false) as ->.
  { destruct (decide (ds = [])) as [->|Hne]; [simpl; by rewrite andb_false_r|]. destruct (Hlead Hne) as [Hd _].
    rewrite bool_decide_eq_false_2; [by rewrite andb_false_r|]. intros E. inversion_clear Hds as [|? ? Hd' _].
    apply (f_equal (to_digit 10)) in E. rewrite to_digit_char in E by done. cbn in E. injection E as ->. lia. }
  by rewrite (proj2 (Z.ltb_ge max z)) by lia.
Qed.

Lemma octet_pretty z rest : 0 ≤ z < 256 → no_digit rest → octet (pretty z +:+ rest)%string = Some (z, rest).
Proof. intros Hz Hrest. apply read_number_pretty; [lia|done|]. intros m [= <-]. lia. Qed.

Lemma read_char_app c s : read_given_char c (String c EmptyString +:+ s)%string = Some (tt, s).
Proof. rewrite str_app_cons, str_app_nil_l. cbn [read_given_char]. by rewrite decide_True. Qed.
Lemma read_sep {A} c n (p : Parser A) s : read_separator c (S n) p (String c EmptyString +:+ s)%string = p s.
Proof. unfold read_separator. by rewrite read_char_app. Qed.

Lemma read_ipv4_shown a rest :
  0 ≤ a < 2 ^ 32 → no_digit rest → read_ipv4_addr (show_ipv4 a +:+ rest)%string = Some (a, rest).
Proof.
  intros Ha Hrest. unfold read_ipv4_addr, show_ipv4. cbn [fmap list_fmap str_join].
  assert (∀ x, 0 ≤ x mod 256 < 256) as Hm by (intros; apply Z.mod_pos_bound; lia).
  rewrite !str_app_assoc, octet_pretty by (done || apply Hm). cbn [mbind option_bind].
  rewrite (read_sep "."%char 0), octet_pretty by (done || apply Hm). cbn [mbind option_bind].
  rewrite (read_sep "."%char 1), octet_pretty by (done || apply Hm). cbn [mbind option_bind].
  rewrite (read_sep "."%char 2), octet_pretty by (done || apply Hm). cbn [mbind option_bind]. f_equal. f_equal.
  change (2 ^ 24) with 16777216. change (2 ^ 16) with 65536. change (2 ^ 8) with 256. change (2 ^ 32) with 4294967296 in Ha.
  Z.div_mod_to_equations. lia.
Qed.

(** A printed address is read back as the same address. *)
Theorem ipv4_round_trip a p :
  0 ≤ a < 2 ^ 32 → 0 ≤ p ≤ u16_max →
  parse_ip (show_ip (V4 a)) = Some (V4 a) ∧ parse_sock (show_sock (SockV4 a p)) = Some (SockV4 a p).
Proof.
  intros Ha Hp. unfold parse_ip, parse_sock, parse_with, read_ip_addr, read_socket_addr, read_socket_addr_v4. simpl. split.
  - rewrite <-(str_app_nil_r (show_ipv4 a)). by rewrite read_ipv4_shown.
  - rewrite read_ipv4_shown by done. cbn [mbind option_bind]. unfold read_port.
    rewrite (read_char_app ":"%char). cbn [mbind option_bind]. rewrite <-(str_app_nil_r (pretty p)). by rewrite read_number_pretty.
Qed.

(** The network address clears the host bits; with an empty prefix it clears none. *)
Lemma network_address_v4 a n :
  0 ≤ a < 2 ^ 32 → 0 ≤ n → network_address (V4 a) n = V4 (if (n =? 0) || (32 <=? n) then a else a - a mod 2 ^ (32 - n)).
Proof.
  intros Ha Hn. unfold network_address, mask. f_equal. destruct (32 <=? n) eqn:E.
  - rewrite orb_true_r, Z.land_comm. change (2 ^ 32 - 1) with (Z.ones 32). rewrite Z.land_comm, Z.land_ones by lia.
    apply Z.mod_small. lia.
  - apply Z.leb_gt in E. rewrite orb_false_r. change (2 ^ 32 - 1) with (Z.ones 32). destruct (n =? 0) eqn:E0.
    + apply Z.eqb_eq in E0 as ->. change (Z.land (Z.ones 32 ≪ ((32 - 0) mod 32)) (Z.ones 32)) with (Z.ones 32).
      rewrite Z.land_ones by lia. apply Z.mod_small. lia.
    + apply Z.eqb_neq in E0. rewrite (Z.mod_small (32 - n) 32) by lia.
      rewrite (Z.land_comm (Z.shiftl _ _)), Z.land_assoc, Z.land_ones, (Z.mod_small a) by lia.
      assert (a - a mod 2 ^ (32 - n) = Z.shiftl (Z.shiftr a (32 - n)) (32 - n)) as ->.
      { rewrite Z.shiftl_mul_pow2, Z.shiftr_div_pow2 by lia. pose proof (Z.div_mod a (2 ^ (32 - n)) ltac:(lia)). lia. }
      apply Z.bits_inj'. intros i Hi. rewrite Z.land_spec, !Z.shiftl_spec by done.
      destruct (decide (i < 32 - n)) as [Hlt|Hge].
      { rewrite !(Z.testbit_neg_r _ (i - (32 - n))) by lia. by rewrite andb_false_r. }
      rewrite Z.shiftr_spec by lia. replace (i - (32 - n) + (32 - n)) with i by lia.
      destruct (decide (i - (32 - n) < 32)); [by rewrite Z.ones_spec_low, andb_true_r by lia|].
      rewrite Z.ones_spec_high, andb_false_r by lia. symmetry.
      rewrite <-(Z.mod_small a (2 ^ 32)) by lia. apply Z.mod_pow2_bits_high. lia.
Qed.
