(* ===== verification/Ports.v ===== *)
(** Host ports ([src/crates/net/src/ports.rs]): the pool a node hands out container ports from, and
    the scan for ports that are in use on the host (what the files under /proc and the [ss] command
    print is given). The pool keeps its range, and no port is free and allocated at the same time. *)

From S2P Require Import Prelude Types Env.
Local Open Scope Z_scope.

(** * Text of the host's port tables *)

(** [str::split_whitespace]. Each round consumes at least one byte. *)
Fixpoint split_ws_go (fuel : nat) (s cur : string) : list string :=
  let flush := if str_is_empty cur then [] else [String.rev cur] in
  match fuel with
  | O => flush
  | S fuel =>
      match find_map (λ w, strip_prefix w s) white_space_all with
      | Some s' => flush ++ split_ws_go fuel s' ""
      | None =>
          match s with
          | EmptyString => flush
          | String c s' => split_ws_go fuel s' (String c cur)
          end
      end
  end.
Definition split_whitespace (s : string) : list string := split_ws_go (S (String.length s)) s "".

(** [s.rsplit(':').next()]: what follows the last colon. *)
Fixpoint after_last_colon (s cur : string) : string :=
  match s with
  | EmptyString => String.rev cur
  | String c s => if decide (c = Ascii.ascii_of_nat 58) then after_last_colon s "" else after_last_colon s (String c cur)
  end.

(** [u16::from_str_radix(s, radix)] for radix 10 and 16. *)
Definition digit_value (c : Ascii.ascii) : Z :=
  let n := Z.of_N (Ascii.N_of_ascii c) in
  if (48 <=? n) && (n <=? 57) then n - 48
  else if (97 <=? n) && (n <=? 102) then n - 87
  else if (65 <=? n) && (n <=? 70) then n - 55
  else 16.
Fixpoint parse_radix (radix acc : Z) (s : string) : option Z :=
  match s with
  | EmptyString => Some acc
  | String c s =>
      let d := digit_value c in
      if d <? radix then
        let acc := acc * radix + d in
        if u16_max <? acc then None else parse_radix radix acc s
      else None
  end.
Definition parse_u16_radix (radix : Z) (s : string) : option Z :=
  match s with
  | EmptyString => None
  | String c rest =>
      if decide (c = Ascii.ascii_of_nat 43) then (if str_is_empty rest then None else parse_radix radix 0 rest)
      else parse_radix radix 0 s
  end.

Definition parse_proc_net_tcp_line (line : string) : option Z :=
  local_addr ← split_whitespace line !! 1%nat;
  parse_u16_radix 16 (after_last_colon local_addr "").
Definition parse_ss_line (line : string) : option Z :=
  local_addr ← split_whitespace line !! 3%nat;
  parse_u16_radix 10 (after_last_colon local_addr "").

(** The ports of a table, whose first line is a header. *)
Definition table_ports (parse : string → option Z) (contents : string) : gset Z :=
  list_to_set (filter_map parse (drop 1 (str_lines contents))).

(** What the host shows: the contents of the two files under /proc, and the output of [ss] when it
    succeeds. *)
Record HostTables := mkHostTables {
  proc_net_tcp : option string;
  proc_net_tcp6 : option string;
  ss_output : option string;
}.
Definition scan_host_ports (h : HostTables) : gset Z :=
  let of_file (f : option string) :=
    match f with Some c => table_ports parse_proc_net_tcp_line c | None => ∅ end in
  let ports := of_file (proc_net_tcp h) ∪ of_file (proc_net_tcp6 h) in
  if bool_decide (ports = ∅) then
    match ss_output h with Some out => table_ports parse_ss_line out | None => ∅ end
  else ports.

(** * The pool *)

Record PortPool := mkPortPool {
  pool_start : Z;
  pool_end : Z;
  available : gset Z;
  allocated : gmap Z AllocId;
}.
Definition set_pool (av : gset Z) (al : gmap Z AllocId) (p : PortPool) : PortPool :=
  mkPortPool (pool_start p) (pool_end p) av al.

Definition port_range (start stop : Z) : gset Z := list_to_set (seqZ start (stop - start + 1)).
Definition with_range (h : HostTables) (start stop : Z) : PortPool :=
  mkPortPool start stop (port_range start stop ∖ scan_host_ports h) ∅.
Definition PortAllocator_new (h : HostTables) : PortPool := with_range h 49152 65535.

(** The first element of the ordered set. *)
Definition lowest (s : gset Z) : option Z := min_by Z.gtb (elements s).

Definition allocate (id : AllocId) (p : PortPool) : option Z * PortPool :=
  match lowest (available p) with
  | None => (None, p)
  | Some port => (Some port, set_pool (available p ∖ {[port]}) (<[port := id]> (allocated p)) p)
  end.
Definition allocate_specific (id : AllocId) (port : Z) (p : PortPool) : bool * PortPool :=
  if (port <? pool_start p) || (pool_end p <? port) then (false, p)
  else if hm_contains port (allocated p) then (false, p)
  else (true, set_pool (available p ∖ {[port]}) (<[port := id]> (allocated p)) p).
Definition release (port : Z) (p : PortPool) : PortPool :=
  match allocated p !! port with
  | Some _ => set_pool (available p ∪ {[port]}) (delete port (allocated p)) p
  | None => p
  end.
Definition snapshot (p : PortPool) : gmap Z AllocId := allocated p.
Definition restore_entry (in_use : gset Z) (p : PortPool) (entry : Z * AllocId) : PortPool :=
  let '(port, id) := entry in
  if (port <? pool_start p) || (pool_end p <? port) then p
  else if bool_decide (port ∈ in_use) then p
  else set_pool (available p ∖ {[port]}) (<[port := id]> (allocated p)) p.
Definition restore `{HashIter} (h : HostTables) (snap : gmap Z AllocId) (p : PortPool) : PortPool :=
  foldl (restore_entry (scan_host_ports h)) p (hm_iter snap).

(** * Specifications *)

(** Free and allocated ports are apart and inside the range. *)
Definition pool_wf (p : PortPool) : Prop :=
  (∀ port, port ∈ available p → pool_start p ≤ port ≤ pool_end p ∧ allocated p !! port = None) ∧
  (∀ port id, allocated p !! port = Some id → pool_start p ≤ port ≤ pool_end p).

(** The operations of the pool, for sequences of them. *)
Inductive PoolOp :=
| OpAllocate (id : AllocId)
| OpAllocateSpecific (id : AllocId) (port : Z)
| OpRelease (port : Z)
| OpRestore (h : HostTables) (snap : gmap Z AllocId).
Definition pool_op `{HashIter} (op : PoolOp) (p : PortPool) : PortPool :=
  match op with
  | OpAllocate id => (allocate id p).2
  | OpAllocateSpecific id port => (allocate_specific id port p).2
  | OpRelease port => release port p
  | OpRestore h snap => restore h snap p
  end.

(** * Lemmas *)

Lemma Z_gtb_spec x y : Z.gtb x y = true ↔ y < x.
Proof. rewrite Z.gtb_ltb. apply Z.ltb_lt. Qed.
Lemma Z_gtb_false x y : Z.gtb x y = false ↔ x ≤ y.
Proof. rewrite Z.gtb_ltb. apply Z.ltb_ge. Qed.

Lemma lowest_spec s port : lowest s = Some port → port ∈ s ∧ ∀ q, q ∈ s → port ≤ q.
Proof.
  unfold lowest. intros Hm. destruct (min_by_spec Z.gtb (λ _, True)) with (l := elements s) (x := port) as [Hin Hle];
    try done.
  - intros x _. apply Z_gtb_false. lia.
  - intros x y _ _ ?%Z_gtb_spec. apply Z_gtb_false. lia.
  - intros x y z _ _ _ ?%Z_gtb_false ?%Z_gtb_false. apply Z_gtb_false. lia.
  - by apply Forall_true.
  - rewrite elem_of_elements in Hin. split; [done|]. intros q Hq. apply Z_gtb_false, Hle. by rewrite elem_of_elements.
Qed.
Lemma lowest_None s : lowest s = None ↔ s = ∅.
Proof. unfold lowest. rewrite min_by_None, elements_empty_iff. by rewrite leibniz_equiv_iff. Qed.

Lemma take_port_wf port id p :
  pool_wf p → pool_start p ≤ port ≤ pool_end p →
  pool_wf (set_pool (available p ∖ {[port]}) (<[port := id]> (allocated p)) p).
Proof.
  intros [Hav Hal] Hr. split; simpl.
  - intros q [Hq Hne]%elem_of_difference. rewrite elem_of_singleton in Hne.
    rewrite lookup_insert_ne by done. by apply Hav.
  - intros q id'. rewrite lookup_insert. case_decide; intros; simplify_eq; [done|eauto].
Qed.
Lemma allocate_wf id p : pool_wf p → pool_wf (allocate id p).2.
Proof.
  intros Hwf. unfold allocate. destruct (lowest (available p)) as [port|] eqn:E; [|done].
  apply take_port_wf; [done|]. apply lowest_spec in E as [E _]. by apply Hwf.
Qed.
Lemma allocate_specific_wf id port p : pool_wf p → pool_wf (allocate_specific id port p).2.
Proof.
  intros Hwf. unfold allocate_specific. destruct (_ || _) eqn:E; [done|]. case_match; [done|].
  apply orb_false_iff in E as [?%Z.ltb_ge ?%Z.ltb_ge]. by apply take_port_wf.
Qed.
Lemma release_wf port p : pool_wf p → pool_wf (release port p).
Proof.
  intros [Hav Hal]. unfold release. destruct (allocated p !! port) as [id|] eqn:E; [|done]. split; simpl.
  - intros q [Hq|Hq%elem_of_singleton]%elem_of_union.
    + destruct (Hav q Hq) as [? Hn]. split; [done|]. by apply lookup_delete_None; right.
    + subst. split; [eauto|]. by apply lookup_delete_None; left.
  - intros q id' [_ ?]%lookup_delete_Some. eauto.
Qed.
Lemma restore_entry_wf in_use p e : pool_wf p → pool_wf (restore_entry in_use p e).
Proof.
  intros Hwf. unfold restore_entry. destruct e as [port id]. destruct (_ || _) eqn:E; [done|]. case_match; [done|].
  apply orb_false_iff in E as [?%Z.ltb_ge ?%Z.ltb_ge]. by apply take_port_wf.
Qed.
Lemma pool_op_wf `{HashIter} op p : pool_wf p → pool_wf (pool_op op p).
Proof.
  intros Hwf. destruct op; simpl; auto using allocate_wf, allocate_specific_wf, release_wf.
  unfold restore. revert p Hwf. induction (hm_iter snap) as [|e l IH]; intros p Hwf; simpl; [done|].
  by apply IH, restore_entry_wf.
Qed.
Lemma with_range_wf h start stop : pool_wf (with_range h start stop).
Proof.
  split; simpl; [|by intros ??; rewrite lookup_empty].
  intros port [Hin _]%elem_of_difference. unfold port_range in Hin. rewrite elem_of_list_to_set, elem_of_seqZ in Hin.
  split; [lia|done].
Qed.

(** Releasing what was just allocated gives back the same pool. *)
Lemma allocate_release id p port p' :
  pool_wf p → allocate id p = (Some port, p') → allocated p' = <[port := id]> (allocated p) ∧ release port p' = p.
Proof.
  intros Hwf. unfold allocate. destruct (lowest (available p)) as [q|] eqn:E; [|done]. intros [= -> <-].
  apply lowest_spec in E as [Hin _]. destruct (proj1 Hwf port Hin) as [_ Hnone]. split; [done|].
  unfold release. simpl. rewrite lookup_insert_eq. simpl.
  unfold set_pool. simpl. rewrite delete_insert_id by done.
  assert (available p ∖ {[port]} ∪ {[port]} = available p) as ->.
  { apply set_eq. intros q. destruct (decide (q = port)); set_solver. }
  by destruct p.
Qed.

Lemma allocate_specific_spec id port p ok p' :
  allocate_specific id port p = (ok, p') →
  (ok = true → pool_start p ≤ port ≤ pool_end p ∧ allocated p !! port = None ∧ allocated p' = <[port := id]> (allocated p)) ∧
  (ok = false → p' = p).
Proof.
  unfold allocate_specific. destruct (_ || _) eqn:E; [by intros [= <- <-]|].
  destruct (hm_contains port (allocated p)) eqn:Ec; intros [= <- <-]; [done|]. split; [intros _|done].
  apply orb_false_iff in E as [?%Z.ltb_ge ?%Z.ltb_ge]. split; [lia|]. split; [|done].
  unfold hm_contains in Ec. rewrite bool_decide_eq_false in Ec. by apply eq_None_not_Some.
Qed.

(** * Theorems *)

(** C37: whatever sequence of operations a new pool goes through, its free and its allocated ports stay
    apart and inside its range; allocating then returns the lowest free port, which was not allocated
    and now belongs to the caller only, and fails only when no port is free; releasing it again
    restores the pool. *)
Theorem port_pool_sound `{HashIter} h start stop ops :
  let p := foldl (λ p op, pool_op op p) (with_range h start stop) ops in
  pool_wf p ∧
  ∀ id, match allocate id p with
        | (None, p') => available p = ∅ ∧ p' = p
        | (Some port, p') =>
            port ∈ available p ∧ (∀ q, q ∈ available p → port ≤ q) ∧
            allocated p !! port = None ∧ allocated p' = <[port := id]> (allocated p) ∧
            port ∉ available p' ∧ release port p' = p
        end.
Proof.
  intros p. assert (pool_wf p) as Hwf.
  { subst p. generalize (with_range_wf h start stop). generalize (with_range h start stop).
    induction ops as [|op ops IH]; intros p Hp; simpl; [done|]. by apply IH, pool_op_wf. }
  split; [done|]. intros id. destruct (allocate id p) as [[port|] p'] eqn:E.
  - destruct (allocate_release _ _ _ _ Hwf E) as [Hal Hrel]. unfold allocate in E.
    destruct (lowest (available p)) as [q|] eqn:El; [|done]. simplify_eq. apply lowest_spec in El as [Hin Hle].
    destruct (proj1 Hwf port Hin) as [_ Hnone]. split_and!; try done. set_solver.
  - unfold allocate in E. destruct (lowest (available p)) eqn:El; [done|]. simplify_eq.
    by apply lowest_None in El.
Qed.

(** The host tables are read as the programs print them. *)
Example parse_proc_line : parse_proc_net_tcp_line "   0: 0100007F:1F90 00000000:0000 0A" = Some 8080.
Proof. vm_compute. reflexivity. Qed.
Example parse_ss : parse_ss_line "LISTEN 0 128 0.0.0.0:8080 0.0.0.0:*" = Some 8080.
Proof. vm_compute. reflexivity. Qed.
