(* ===== verification/Fsm.v ===== *)
(** The replicated state machine of mill-raft ([src/crates/raft/src/fsm]): the cluster
    state, the commands that consensus orders, and [apply_command], the pure transition
    function every node runs. The theorems show that the transition does not depend on
    the hash-map iteration order (so replicas agree), that a rejected command changes
    nothing, the keyed-record invariant and the referential integrity of allocations
    along every command sequence, and the effect of the commands that carry guards. *)

From S2P Require Import Prelude Types.
Local Open Scope Z_scope.

(** * State (fsm/state.rs) *)

Record FsmNode := mkFsmNode {
  raft_id : Z;
  mill_id : NodeId;
  fn_address : SocketAddr;
  fn_resources : NodeResources;
  fn_status : NodeStatus;
  wireguard_pubkey : option string;
  instance_id : option string;
  rpc_address : option SocketAddr;
  advertise_addr : option string;
}.
Record EncryptedSecret := mkEncryptedSecret {
  encrypted_value : string;
  es_nonce : string;
}.
Record FsmVolume := mkFsmVolume {
  cloud_id : string;
  vol_state : VolumeState;
}.
Record FsmState := mkFsmState {
  config : option ClusterConfig;
  nodes : gmap Z FsmNode;
  allocs : gmap AllocId Alloc;
  secrets : gmap string EncryptedSecret;
  volumes : gmap string FsmVolume;
}.
#[global] Instance FsmNode_eq_dec : EqDecision FsmNode.
Proof. solve_decision. Defined.
#[global] Instance EncryptedSecret_eq_dec : EqDecision EncryptedSecret.
Proof. solve_decision. Defined.
#[global] Instance FsmVolume_eq_dec : EqDecision FsmVolume.
Proof. solve_decision. Defined.
#[global] Instance FsmState_eq_dec : EqDecision FsmState.
Proof. solve_decision. Defined.

Definition FsmState_default : FsmState := mkFsmState None ∅ ∅ ∅ ∅.

Definition set_config (c : option ClusterConfig) (s : FsmState) : FsmState :=
  mkFsmState c (nodes s) (allocs s) (secrets s) (volumes s).
Definition set_nodes (n : gmap Z FsmNode) (s : FsmState) : FsmState :=
  mkFsmState (config s) n (allocs s) (secrets s) (volumes s).
Definition set_allocs (a : gmap AllocId Alloc) (s : FsmState) : FsmState :=
  mkFsmState (config s) (nodes s) a (secrets s) (volumes s).
Definition set_secrets (m : gmap string EncryptedSecret) (s : FsmState) : FsmState :=
  mkFsmState (config s) (nodes s) (allocs s) m (volumes s).
Definition set_volumes (m : gmap string FsmVolume) (s : FsmState) : FsmState :=
  mkFsmState (config s) (nodes s) (allocs s) (secrets s) m.
Definition with_node_status (st : NodeStatus) (n : FsmNode) : FsmNode :=
  mkFsmNode (raft_id n) (mill_id n) (fn_address n) (fn_resources n) st
    (wireguard_pubkey n) (instance_id n) (rpc_address n) (advertise_addr n).
Definition with_vol_state (st : VolumeState) (v : FsmVolume) : FsmVolume :=
  mkFsmVolume (cloud_id v) st.

(** [FsmState::make_alloc]. *)
Definition make_alloc (id : AllocId) (node_mill_id : NodeId) (name : string) (kind : AllocKind)
    (address : option SocketAddr) (resources : AllocResources) : Alloc :=
  mkAlloc id node_mill_id name kind Pulling address resources None.

Section queries.
Context `{HI : HashIter}.

Definition list_nodes (s : FsmState) : list FsmNode := hm_values (nodes s).
Definition list_allocs (s : FsmState) : list Alloc := hm_values (allocs s).
Definition list_service_allocs (s : FsmState) (name : string) : list Alloc :=
  filterb (λ a, bool_decide (alloc_name a = name)) (hm_values (allocs s)).
Definition get_secret (s : FsmState) (name : string) : option EncryptedSecret := secrets s !! name.
Definition list_secret_names (s : FsmState) : list string := hm_keys (secrets s).
Definition list_volumes (s : FsmState) : list (string * FsmVolume) := hm_iter (volumes s).

(** The allocations whose resources count against a node. *)
Definition counts_against (n : FsmNode) (a : Alloc) : bool :=
  bool_decide (alloc_node a = mill_id n) && negb (is_terminal (alloc_status a)).

Definition node_available_resources (s : FsmState) (node_id : Z) : option NodeResources :=
  node ← nodes s !! node_id;
  let '(cpu_used, mem_used) :=
    foldl (λ '(cpu_used, mem_used) alloc,
      if bool_decide (alloc_node alloc = mill_id node) then
        if is_terminal (alloc_status alloc) then (cpu_used, mem_used)
        else (f64_add cpu_used (alloc_cpu (alloc_resources alloc)),
              u64_add mem_used (alloc_memory (alloc_resources alloc)))
      else (cpu_used, mem_used))
      (f64_zero, 0) (hm_values (allocs s)) in
  Some (mkNodeResources
    (cpu_total (fn_resources node))
    (f64_sub (cpu_total (fn_resources node)) cpu_used)
    (memory_total (fn_resources node))
    (u64_saturating_sub (memory_total (fn_resources node)) mem_used)).

Definition instance_id_for (s : FsmState) (raft_id : Z) : option string :=
  nodes s !! raft_id ≫= instance_id.
Definition raft_id_for (s : FsmState) (mid : NodeId) : option Z :=
  raft_id <$> find_first (λ n, bool_decide (mill_id n = mid)) (hm_values (nodes s)).
End queries.

(** * Commands (fsm/command.rs) *)

Inductive Command :=
| Deploy (cfg : ClusterConfig)
| NodeRegister (id : Z) (mid : NodeId) (address : SocketAddr) (resources : NodeResources)
    (pubkey : option string) (instance : option string) (rpc : option SocketAddr)
    (advertise : option string)
| NodeHeartbeat (id : Z) (alloc_statuses : gmap AllocId AllocStatus)
| NodeDown (id : Z)
| AllocScheduled (aid : AllocId) (node_id : Z) (name : string) (kind : AllocKind)
    (address : option SocketAddr) (resources : AllocResources)
| SetAllocStatus (aid : AllocId) (status : AllocStatus)
| AllocRunning (aid : AllocId) (address : option SocketAddr) (started_at : option Z)
| SecretSet (name : string) (value nonce : string)
| SecretDelete (name : string)
| VolumeCreated (name cloud : string)
| VolumeAttached (name : string) (node : Z)
| VolumeDetached (name : string)
| VolumeDestroyed (name : string)
| NodeDrain (id : Z)
| NodeRemove (id : Z).

Inductive Response :=
| RespOk
| RespError (e : string).

(** * Transition (fsm/apply.rs) *)

Section apply.
Context `{HI : HashIter}.

(** One entry of a heartbeat: a [Healthy] allocation is never downgraded to [Running]. *)
Definition heartbeat_status (old new : AllocStatus) : AllocStatus :=
  match old, new with
  | Healthy, Running => old
  | _, _ => new
  end.
Definition heartbeat_entry (m : gmap AllocId Alloc) (entry : AllocId * AllocStatus) : gmap AllocId Alloc :=
  match m !! entry.1 with
  | Some a => <[entry.1 := with_status (heartbeat_status (alloc_status a) entry.2) a]> m
  | None => m
  end.

Definition apply_heartbeat (s : FsmState) (id : Z) (statuses : gmap AllocId AllocStatus) : FsmState * Response :=
  match nodes s !! id with
  | Some node =>
      let node := if decide (fn_status node = NodeDown_) then with_node_status NodeReady node else node in
      let s := set_nodes (<[id := node]> (nodes s)) s in
      (set_allocs (foldl heartbeat_entry (allocs s) (hm_iter statuses)) s, RespOk)
  | None => (s, RespError ("unknown node " +:+ pretty id))
  end.

Definition apply_node_remove (s : FsmState) (id : Z) : FsmState * Response :=
  match nodes s !! id with
  | Some node =>
      let has_active :=
        existsb (λ a, bool_decide (alloc_node a = mill_id node) &&
                      negb (match alloc_status a with Stopped _ | Failed _ => true | _ => false end))
          (hm_values (allocs s)) in
      if has_active then (s, RespError ("node " +:+ pretty id +:+ " still has active allocations"))
      else
        let mid := mill_id node in
        let s := set_allocs (filter (λ '(_, a), alloc_node a ≠ mid) (allocs s)) s in
        (set_nodes (delete id (nodes s)) s, RespOk)
  | None => (s, RespError ("unknown node " +:+ pretty id))
  end.

Definition apply_command (s : FsmState) (cmd : Command) : FsmState * Response :=
  match cmd with
  | Deploy cfg => (set_config (Some cfg) s, RespOk)
  | NodeRegister id mid address resources pubkey instance rpc advertise =>
      (set_nodes (<[id := mkFsmNode id mid address resources NodeReady pubkey instance rpc advertise]>
         (nodes s)) s, RespOk)
  | NodeHeartbeat id statuses => apply_heartbeat s id statuses
  | NodeDown id =>
      match nodes s !! id with
      | Some node => (set_nodes (<[id := with_node_status NodeDown_ node]> (nodes s)) s, RespOk)
      | None => (s, RespError ("unknown node " +:+ pretty id))
      end
  | AllocScheduled aid node_id name kind address resources =>
      match nodes s !! node_id with
      | Some n =>
          let alloc := make_alloc aid (mill_id n) name kind address resources in
          (set_allocs (<[alloc_id alloc := alloc]> (allocs s)) s, RespOk)
      | None => (s, RespError ("unknown node " +:+ pretty node_id))
      end
  | SetAllocStatus aid status =>
      match allocs s !! aid with
      | Some a => (set_allocs (<[aid := with_status status a]> (allocs s)) s, RespOk)
      | None => (s, RespError ("unknown alloc " +:+ alloc_id_0 aid))
      end
  | AllocRunning aid address started_at =>
      match allocs s !! aid with
      | Some a =>
          match alloc_status a with
          | Pulling | Starting =>
              (set_allocs (<[aid := with_running address started_at a]> (allocs s)) s, RespOk)
          | _ => (s, RespOk)
          end
      | None => (s, RespError ("unknown alloc " +:+ alloc_id_0 aid))
      end
  | SecretSet name value nonce =>
      (set_secrets (<[name := mkEncryptedSecret value nonce]> (secrets s)) s, RespOk)
  | SecretDelete name =>
      match secrets s !! name with
      | Some _ => (set_secrets (delete name (secrets s)) s, RespOk)
      | None => (s, RespError ("unknown secret " +:+ name))
      end
  | VolumeCreated name cloud =>
      (set_volumes (<[name := mkFsmVolume cloud VolReady]> (volumes s)) s, RespOk)
  | VolumeAttached name node =>
      match nodes s !! node with
      | Some n =>
          match volumes s !! name with
          | Some v => (set_volumes (<[name := with_vol_state (VolAttached (mill_id n)) v]> (volumes s)) s, RespOk)
          | None => (s, RespError ("unknown volume " +:+ name))
          end
      | None => (s, RespError ("unknown node " +:+ pretty node))
      end
  | VolumeDetached name =>
      match volumes s !! name with
      | Some v => (set_volumes (<[name := with_vol_state VolReady v]> (volumes s)) s, RespOk)
      | None => (s, RespError ("unknown volume " +:+ name))
      end
  | VolumeDestroyed name => (set_volumes (delete name (volumes s)) s, RespOk)
  | NodeDrain id =>
      match nodes s !! id with
      | Some node => (set_nodes (<[id := with_node_status NodeDraining node]> (nodes s)) s, RespOk)
      | None => (s, RespError ("unknown node " +:+ pretty id))
      end
  | NodeRemove id => apply_node_remove s id
  end%string.

(** The state reached by a sequence of commands. *)
Definition apply_commands (s : FsmState) (cmds : list Command) : FsmState :=
  foldl (λ s c, (apply_command s c).1) s cmds.
End apply.

(** * Specifications *)

(** Every record is stored under its own identifier. *)
Definition fsm_wf (s : FsmState) : Prop :=
  (∀ id n, nodes s !! id = Some n → raft_id n = id) ∧
  (∀ aid a, allocs s !! aid = Some a → alloc_id a = aid).

(** Every allocation names the mill identifier of a registered node. *)
Definition allocs_on_nodes (s : FsmState) : Prop :=
  ∀ aid a, allocs s !! aid = Some a → ∃ id n, nodes s !! id = Some n ∧ mill_id n = alloc_node a.

(** A registration that does not give an existing raft identifier a new mill identifier
    (a node keeps its identity when it joins again). *)
Definition register_stable (s : FsmState) (c : Command) : Prop :=
  match c with
  | NodeRegister id mid _ _ _ _ _ _ => ∀ n, nodes s !! id = Some n → mill_id n = mid
  | _ => True
  end.

(** One committed command. *)
Inductive fsm_step `{HashIter} : FsmState → FsmState → Prop :=
| fsm_step_apply s c : register_stable s c → fsm_step s (apply_command s c).1.

(** A command sequence all of whose registrations are stable. *)
Fixpoint run_stable `{HashIter} (s : FsmState) (cmds : list Command) : Prop :=
  match cmds with
  | [] => True
  | c :: cmds => register_stable s c ∧ run_stable (apply_command s c).1 cmds
  end.

(** The memory that running and starting allocations reserve on a node, without wrap-around. *)
Definition reserved_memory `{HashIter} (s : FsmState) (n : FsmNode) : Z :=
  foldr (λ a acc, alloc_memory (alloc_resources a) + acc) 0
    (filterb (counts_against n) (hm_values (allocs s))).

(** * Lemmas *)

Section lemmas.
Context `{HI : HashIter}.

(** ** Heartbeats *)

Lemma heartbeat_entry_lookup m e aid :
  heartbeat_entry m e !! aid =
    if decide (aid = e.1) then (λ a, with_status (heartbeat_status (alloc_status a) e.2) a) <$> m !! aid
    else m !! aid.
Proof.
  unfold heartbeat_entry. destruct e as [k st]; simpl.
  case_decide as Hk; subst.
  - destruct (m !! k) as [a|] eqn:E; simpl; [by rewrite lookup_insert_eq|done].
  - destruct (m !! k); [by rewrite lookup_insert_ne|done].
Qed.

Lemma heartbeat_fold_notin (l : list (AllocId * AllocStatus)) m aid :
  aid ∉ l.*1 → foldl heartbeat_entry m l !! aid = m !! aid.
Proof.
  revert m. induction l as [|[k st] l IH]; intros m Hn; simpl in *; [done|].
  rewrite IH by set_solver. rewrite heartbeat_entry_lookup. simpl.
  rewrite decide_False by set_solver. done.
Qed.

Lemma heartbeat_fold_in (l : list (AllocId * AllocStatus)) m aid st :
  NoDup l.*1 → (aid, st) ∈ l →
  foldl heartbeat_entry m l !! aid =
    (λ a, with_status (heartbeat_status (alloc_status a) st) a) <$> m !! aid.
Proof.
  revert m. induction l as [|[k st'] l IH]; intros m Hnd Hin; [by apply elem_of_nil in Hin|].
  simpl in *. apply NoDup_cons in Hnd as [Hk Hnd].
  apply elem_of_cons in Hin as [[= <- <-]|Hin].
  - rewrite heartbeat_fold_notin by done. rewrite heartbeat_entry_lookup. simpl.
    by rewrite decide_True.
  - rewrite (IH _ Hnd Hin), heartbeat_entry_lookup. simpl.
    rewrite decide_False; [done|]. intros ->. apply Hk.
    apply list_elem_of_fmap. by exists (k, st).
Qed.

Lemma heartbeat_fold_lookup m statuses aid :
  foldl heartbeat_entry m (hm_iter statuses) !! aid =
    match statuses !! aid with
    | Some st => (λ a, with_status (heartbeat_status (alloc_status a) st) a) <$> m !! aid
    | None => m !! aid
    end.
Proof.
  destruct (statuses !! aid) as [st|] eqn:E.
  - apply heartbeat_fold_in; [apply NoDup_hm_keys|]. by apply elem_of_hm_iter.
  - apply heartbeat_fold_notin. fold (hm_keys statuses). rewrite elem_of_hm_keys, E. by intros [].
Qed.

(** ** Removing a node *)

Lemma active_on_node_spec (p : Alloc → bool) s :
  existsb p (hm_values (allocs s)) = true ↔ ∃ aid a, allocs s !! aid = Some a ∧ p a = true.
Proof.
  rewrite existsb_exists. split.
  - intros (a & Hin%list_elem_of_In & ?). apply elem_of_hm_values in Hin as [aid ?]. eauto.
  - intros (aid & a & ? & ?). exists a. split; [|done].
    apply list_elem_of_In, elem_of_hm_values. eauto.
Qed.

Lemma node_remove_ok s id :
  (apply_command s (NodeRemove id)).2 = RespOk ↔
  ∃ n, nodes s !! id = Some n ∧
    ∀ aid a, allocs s !! aid = Some a → alloc_node a = mill_id n → is_terminal (alloc_status a) = true.
Proof.
  simpl. unfold apply_node_remove. destruct (nodes s !! id) as [n|] eqn:Hn.
  2: { split; [done|]. intros (? & ? & ?). congruence. }
  destruct (existsb _ _) eqn:E; simpl.
  - apply active_on_node_spec in E as (aid & a & Ha & Hp). split; [done|].
    intros (n' & [= <-] & Hall). specialize (Hall aid a Ha).
    apply andb_true_iff in Hp as [Hp1%bool_decide_eq_true Hp2].
    specialize (Hall Hp1). unfold is_terminal in Hall. by rewrite Hall in Hp2.
  - split; [intros _|done]. exists n. split; [done|]. intros aid a Ha Hnode.
    destruct (is_terminal (alloc_status a)) eqn:Ht; [done|]. exfalso.
    apply not_true_iff_false in E. apply E, active_on_node_spec. exists aid, a. split; [done|].
    rewrite bool_decide_eq_true_2 by done. unfold is_terminal in Ht. by rewrite Ht.
Qed.

Lemma node_remove_effect s id n :
  nodes s !! id = Some n → (apply_command s (NodeRemove id)).2 = RespOk →
  (apply_command s (NodeRemove id)).1 =
    set_nodes (delete id (nodes s))
      (set_allocs (filter (λ '(_, a), alloc_node a ≠ mill_id n) (allocs s)) s).
Proof.
  simpl. unfold apply_node_remove. intros -> H. by destruct (existsb _ _).
Qed.
End lemmas.

Lemma apply_heartbeat_order (H1 H2 : HashIter) s id statuses :
  @apply_heartbeat H1 s id statuses = @apply_heartbeat H2 s id statuses.
Proof.
  unfold apply_heartbeat. destruct (nodes s !! id); [|done]. do 2 f_equal.
  apply map_eq. intros aid. by rewrite !heartbeat_fold_lookup.
Qed.

Lemma apply_node_remove_order (H1 H2 : HashIter) s id :
  @apply_node_remove H1 s id = @apply_node_remove H2 s id.
Proof.
  unfold apply_node_remove. destruct (nodes s !! id) as [n|]; [|done].
  match goal with |- (if ?a then _ else _) = (if ?b then _ else _) => assert (a = b) as -> end; [|done].
  apply eq_true_iff_eq. by rewrite !active_on_node_spec.
Qed.

Lemma apply_command_order (H1 H2 : HashIter) s c :
  @apply_command H1 s c = @apply_command H2 s c.
Proof.
  destruct c; try done; [apply apply_heartbeat_order|apply apply_node_remove_order].
Qed.

(** ** Preservation *)

Section preservation.
Context `{HI : HashIter}.

Lemma insert_node_wf s id n :
  fsm_wf s → raft_id n = id → fsm_wf (set_nodes (<[id := n]> (nodes s)) s).
Proof.
  intros [Hn Ha] Hid. split; [|done]. simpl. intros id' n' H'.
  rewrite lookup_insert in H'. case_decide; simplify_eq; eauto.
Qed.
Lemma insert_alloc_wf s aid a :
  fsm_wf s → alloc_id a = aid → fsm_wf (set_allocs (<[aid := a]> (allocs s)) s).
Proof.
  intros [Hn Ha] Hid. split; [done|]. simpl. intros id' n' H'.
  rewrite lookup_insert in H'. case_decide; simplify_eq; eauto.
Qed.
Lemma heartbeat_wf s id statuses : fsm_wf s → fsm_wf (apply_heartbeat s id statuses).1.
Proof.
  intros Hwf. unfold apply_heartbeat. destruct (nodes s !! id) as [n|] eqn:Hn; [|done].
  assert (raft_id n = id) as Hid by (by apply Hwf). split; simpl.
  - apply insert_node_wf; [done|]. by case_decide.
  - intros aid a. rewrite heartbeat_fold_lookup.
    destruct (statuses !! aid); [|apply Hwf].
    rewrite fmap_Some. intros (a' & ? & ->). simpl. by apply Hwf.
Qed.
Lemma node_remove_wf s id : fsm_wf s → fsm_wf (apply_node_remove s id).1.
Proof.
  intros [Hn Ha]. unfold apply_node_remove. destruct (nodes s !! id) as [n|]; [|done].
  destruct (existsb _ _); [done|]. split; simpl.
  - intros id' n' [_ ?]%lookup_delete_Some. eauto.
  - intros aid a [? _]%map_lookup_filter_Some. eauto.
Qed.

Hint Resolve insert_node_wf insert_alloc_wf heartbeat_wf node_remove_wf : mill.

Lemma apply_command_wf s c : fsm_wf s → fsm_wf (apply_command s c).1.
Proof.
  intros Hwf. pose proof Hwf as [Hn Ha].
  destruct c; simpl; eauto with mill; repeat case_match; simpl; eauto with mill;
    try done; first [apply insert_node_wf|apply insert_alloc_wf]; simpl; eauto.
Qed.

(** Updating the status fields of nodes and allocations keeps references intact. *)
Lemma allocs_on_nodes_update s s' :
  allocs_on_nodes s →
  (∀ aid a', allocs s' !! aid = Some a' → ∃ aid0 a, allocs s !! aid0 = Some a ∧ alloc_node a' = alloc_node a) →
  (∀ id n, nodes s !! id = Some n → ∃ n', nodes s' !! id = Some n' ∧ mill_id n' = mill_id n) →
  allocs_on_nodes s'.
Proof.
  intros Hs Ha Hn aid a' Ha'. destruct (Ha aid a' Ha') as (aid0 & a & H0 & ->).
  destruct (Hs aid0 a H0) as (id & n & Hid & <-).
  destruct (Hn id n Hid) as (n' & ? & ?). eauto.
Qed.

Lemma set_node_lookup s id n0 n' i n :
  nodes s !! id = Some n0 → mill_id n' = mill_id n0 → nodes s !! i = Some n →
  ∃ n1, <[id := n']> (nodes s) !! i = Some n1 ∧ mill_id n1 = mill_id n.
Proof.
  intros H0 Hm Hi. rewrite lookup_insert. case_decide; simplify_eq; eauto.
Qed.
Lemma set_alloc_lookup s aid a0 a1 i a' :
  allocs s !! aid = Some a0 → alloc_node a1 = alloc_node a0 →
  <[aid := a1]> (allocs s) !! i = Some a' →
  ∃ aid0 a, allocs s !! aid0 = Some a ∧ alloc_node a' = alloc_node a.
Proof.
  intros H0 Hm. rewrite lookup_insert. case_decide; intros ?; simplify_eq; eauto.
Qed.

Lemma heartbeat_on_nodes s id statuses :
  allocs_on_nodes s → allocs_on_nodes (apply_heartbeat s id statuses).1.
Proof.
  intros Hs. unfold apply_heartbeat. destruct (nodes s !! id) as [n|] eqn:Hn; [|done].
  eapply allocs_on_nodes_update; [done|..]; simpl.
  - intros aid a'. rewrite heartbeat_fold_lookup. destruct (statuses !! aid); [|eauto].
    rewrite fmap_Some. intros (a0 & ? & ->). simpl. eauto.
  - intros i n' Hi. eapply set_node_lookup; [done| |done]. by case_decide.
Qed.

Lemma node_remove_on_nodes s id :
  allocs_on_nodes s → allocs_on_nodes (apply_node_remove s id).1.
Proof.
  intros Hs. unfold apply_node_remove. destruct (nodes s !! id) as [n|] eqn:Hn; [|done].
  destruct (existsb _ _); [done|]. intros aid a. simpl.
  intros [Ha Hne]%map_lookup_filter_Some. destruct (Hs aid a Ha) as (i & n' & Hi & Hm).
  exists i, n'. split; [|done]. apply lookup_delete_Some. split; [|done].
  intros <-. rewrite Hn in Hi. simplify_eq.
Qed.

Lemma register_on_nodes s id n :
  allocs_on_nodes s → (∀ n0, nodes s !! id = Some n0 → mill_id n0 = mill_id n) →
  allocs_on_nodes (set_nodes (<[id := n]> (nodes s)) s).
Proof.
  intros Hs Hst. eapply allocs_on_nodes_update; [done|naive_solver|]. simpl.
  intros i n' Hi. rewrite lookup_insert. case_decide; subst; [|eauto].
  exists n. split; [done|]. symmetry. by apply Hst.
Qed.

Lemma set_status_on_nodes s aid a0 a1 :
  allocs_on_nodes s → allocs s !! aid = Some a0 → alloc_node a1 = alloc_node a0 →
  allocs_on_nodes (set_allocs (<[aid := a1]> (allocs s)) s).
Proof.
  intros Hs Ha Hn. eapply allocs_on_nodes_update; [done|..]; simpl; [|eauto].
  intros i a'. by eapply set_alloc_lookup.
Qed.

Lemma apply_command_on_nodes s c :
  register_stable s c → allocs_on_nodes s → allocs_on_nodes (apply_command s c).1.
Proof.
  intros Hst Hs. destruct c; simpl in *; eauto using heartbeat_on_nodes, node_remove_on_nodes;
    repeat case_match; simpl; try done;
    try (apply register_on_nodes; [done|simpl]; by naive_solver);
    try (eapply set_status_on_nodes; by eauto).
  intros i a. simpl. rewrite lookup_insert. case_decide; intros; simplify_eq/=; eauto.
Qed.
End preservation.

Lemma run_stable_rtc `{HashIter} cmds s : run_stable s cmds → rtc fsm_step s (apply_commands s cmds).
Proof.
  revert s. induction cmds as [|c cmds IH]; simpl; intros s Hs; [done|].
  destruct Hs. eapply rtc_l; [by apply fsm_step_apply|by apply IH].
Qed.

(** ** Accounting *)

Section accounting.
Context `{HI : HashIter}.

Lemma reserved_memory_nonneg s n :
  (∀ aid a, allocs s !! aid = Some a → 0 ≤ alloc_memory (alloc_resources a)) → 0 ≤ reserved_memory s n.
Proof.
  intros Hpos. unfold reserved_memory.
  assert (Forall (λ a, 0 ≤ alloc_memory (alloc_resources a)) (filterb (counts_against n) (hm_values (allocs s)))) as Hall.
  { apply Forall_forall. intros a [[aid Ha]%elem_of_hm_values _]%elem_of_filterb. eauto. }
  induction Hall; simpl; lia.
Qed.

(** The loop of [node_available_resources] adds up the reserved memory. *)
Lemma available_fold_memory n (l : list Alloc) cpu mem :
  Forall (λ a, 0 ≤ alloc_memory (alloc_resources a)) l → 0 ≤ mem →
  mem + foldr (λ a acc, alloc_memory (alloc_resources a) + acc) 0 (filterb (counts_against n) l) ≤ u64_max →
  (foldl (λ '(cpu_used, mem_used) alloc,
      if bool_decide (alloc_node alloc = mill_id n) then
        if is_terminal (alloc_status alloc) then (cpu_used, mem_used)
        else (f64_add cpu_used (alloc_cpu (alloc_resources alloc)),
              u64_add mem_used (alloc_memory (alloc_resources alloc)))
      else (cpu_used, mem_used)) (cpu, mem) l).2 =
  mem + foldr (λ a acc, alloc_memory (alloc_resources a) + acc) 0 (filterb (counts_against n) l).
Proof.
  intros Hall. revert cpu mem. induction Hall as [|a l Ha Hall IH]; intros cpu mem Hmem Hle; simpl in *; [lia|].
  assert (0 ≤ foldr (λ a acc, alloc_memory (alloc_resources a) + acc) 0 (filterb (counts_against n) l)).
  { clear -Hall. induction Hall as [|b l Hb]; simpl; [lia|]. destruct (counts_against n b); simpl; lia. }
  change (counts_against n a) with
    (bool_decide (alloc_node a = mill_id n) && negb (is_terminal (alloc_status a))) in *.
  destruct (bool_decide _); simpl in *; [|by apply IH].
  destruct (is_terminal (alloc_status a)); simpl in *; [by apply IH|].
  unfold u64_add. rewrite wrap64_small by lia. rewrite IH by lia. lia.
Qed.

Lemma node_available_memory s id n :
  nodes s !! id = Some n →
  (∀ aid a, allocs s !! aid = Some a → 0 ≤ alloc_memory (alloc_resources a)) →
  reserved_memory s n ≤ u64_max →
  ∃ r, node_available_resources s id = Some r ∧
    memory_total r = memory_total (fn_resources n) ∧
    memory_available r = Z.max 0 (memory_total (fn_resources n) - reserved_memory s n).
Proof.
  intros Hn Hpos Hle. unfold node_available_resources. rewrite Hn. simpl.
  match goal with |- context [foldl ?f ?i ?l] => destruct (foldl f i l) as [cpu mem] eqn:E end.
  eexists. split; [done|]. split; [done|]. simpl. unfold u64_saturating_sub. do 2 f_equal.
  change mem with (cpu, mem).2. rewrite <-E. rewrite available_fold_memory; [done| |lia|].
  - apply Forall_forall. intros a [aid Ha]%elem_of_hm_values. eauto.
  - unfold reserved_memory in Hle. lia.
Qed.

Lemma reserved_perm (n : FsmNode) l1 l2 :
  l1 ≡ₚ l2 →
  foldr (λ a acc, alloc_memory (alloc_resources a) + acc) 0 (filterb (counts_against n) l1) =
  foldr (λ a acc, alloc_memory (alloc_resources a) + acc) 0 (filterb (counts_against n) l2).
Proof.
  intros Hp%(filterb_Permutation (counts_against n)). induction Hp; simpl; lia.
Qed.

(** Placing a new allocation reserves its memory on the node. *)
Lemma reserved_schedule s aid id n name kind addr r :
  nodes s !! id = Some n → allocs s !! aid = None →
  reserved_memory (apply_command s (AllocScheduled aid id name kind addr r)).1 n =
    reserved_memory s n + alloc_memory r.
Proof.
  intros Hn Ha. simpl. rewrite Hn. unfold reserved_memory. simpl.
  set (a := make_alloc aid (mill_id n) name kind addr r).
  rewrite (reserved_perm n (hm_values (<[aid:=a]> (allocs s))) (a :: hm_values (allocs s))).
  - simpl. unfold counts_against at 1. simpl. rewrite bool_decide_eq_true_2 by done. simpl. lia.
  - unfold hm_values. rewrite !hm_iter_perm, map_to_list_insert by done. done.
Qed.
End accounting.

(** * Theorems *)

(** C10: two nodes that apply the same command to the same state, or the same sequence of
    commands, reach the same state and give the same response, whatever order their hash
    maps iterate in. *)
Theorem fsm_replicas_agree (H1 H2 : HashIter) :
  (∀ s c, @apply_command H1 s c = @apply_command H2 s c) ∧
  (∀ cmds s, @apply_commands H1 s cmds = @apply_commands H2 s cmds).
Proof.
  split; [intros; apply apply_command_order|].
  intros cmds. induction cmds as [|c cmds IH]; intros s; simpl; [done|].
  rewrite (apply_command_order H1 H2). apply IH.
Qed.

(** a command that is answered with an error leaves the cluster state as it was. *)
Theorem apply_error_unchanged `{HashIter} s c e :
  (apply_command s c).2 = RespError e → (apply_command s c).1 = s.
Proof.
  destruct c; simpl; unfold apply_heartbeat, apply_node_remove; intros; repeat case_match; by simplify_eq/=.
Qed.

(** C17: starting from the empty state, after any sequence of commands every node is stored
    under its raft identifier and every allocation under its own identifier. *)
Theorem fsm_reachable_wf `{HashIter} cmds : fsm_wf (apply_commands FsmState_default cmds).
Proof.
  assert (∀ s, fsm_wf s → fsm_wf (apply_commands s cmds)) as Hgen.
  { induction cmds as [|c cmds IH]; intros s Hs; simpl; [done|]. by apply IH, apply_command_wf. }
  apply Hgen. by split.
Qed.

(** C18: along every run whose registrations keep a node's identity, every allocation of the
    state names a node that is registered; removing a node never leaves one behind. *)
Theorem fsm_reachable_integrity `{HashIter} s :
  rtc fsm_step FsmState_default s → allocs_on_nodes s.
Proof.
  intros Hr. assert (allocs_on_nodes FsmState_default) as H0 by (intros ??; simpl; by rewrite lookup_empty).
  induction Hr as [|s1 s2 s3 [s0 c Hst] _ IH]; [done|]. by apply IH, apply_command_on_nodes.
Qed.

(** C19: the whole effect of a heartbeat. One of a node that is not registered is refused and changes nothing. One of a registered node
    is answered [Ok]: that node, if it was down, is ready again, and otherwise keeps its status; every other node is as it was. Every
    allocation that is listed takes the listed status, except that a healthy one is not set back to running; the rest of an
    allocation and every other allocation is as it was, and none appears or disappears. Configuration, secrets and volumes are kept. *)
Theorem heartbeat_effect `{HashIter} s id statuses :
  let '(s', r) := apply_command s (NodeHeartbeat id statuses) in
  match nodes s !! id with
  | None => s' = s ∧ ∃ e, r = RespError e
  | Some n =>
      r = RespOk ∧
      nodes s' = <[id := with_node_status (match fn_status n with NodeDown_ => NodeReady | st => st end) n]> (nodes s) ∧
      (∀ aid, allocs s' !! aid =
         (λ a, with_status (match statuses !! aid with
                            | Some Running => if decide (alloc_status a = Healthy) then Healthy else Running
                            | Some st => st
                            | None => alloc_status a
                            end) a) <$> allocs s !! aid) ∧
      config s' = config s ∧ secrets s' = secrets s ∧ volumes s' = volumes s
  end.
Proof.
  simpl. unfold apply_heartbeat. destruct (nodes s !! id) as [n|] eqn:Hn; [|by eauto]. simpl. split_and!; try done.
  - f_equal. destruct n as [??? ? st ????]. simpl. case_decide as Hd; [by rewrite Hd|]. by destruct st.
  - intros aid. rewrite heartbeat_fold_lookup. destruct (allocs s !! aid) as [a|]; [|by destruct (statuses !! aid)].
    destruct a as [???? st ???], (statuses !! aid) as [[]|]; simpl; try done; destruct st; simpl; by try case_decide.
Qed.

(** a node is removed exactly when it is registered and every allocation placed on it has
    stopped or failed; then the node and its allocations are gone and all the rest is kept. *)
Theorem node_remove_spec `{HashIter} s id :
  ((apply_command s (NodeRemove id)).2 = RespOk ↔
   ∃ n, nodes s !! id = Some n ∧
     ∀ aid a, allocs s !! aid = Some a → alloc_node a = mill_id n → is_terminal (alloc_status a) = true) ∧
  (∀ n, nodes s !! id = Some n → (apply_command s (NodeRemove id)).2 = RespOk →
   let s' := (apply_command s (NodeRemove id)).1 in
   nodes s' = delete id (nodes s) ∧
   (∀ aid a, allocs s' !! aid = Some a ↔ allocs s !! aid = Some a ∧ alloc_node a ≠ mill_id n) ∧
   config s' = config s ∧ secrets s' = secrets s ∧ volumes s' = volumes s).
Proof.
  split; [apply node_remove_ok|]. intros n Hn Hok. rewrite (node_remove_effect s id n Hn Hok). simpl.
  split_and!; try done. intros aid a. apply map_lookup_filter_Some.
Qed.

(** a start report moves an allocation to running, with its address and start time, only from
    pulling or starting; in any other status it changes nothing, so a repeated report is harmless. *)
Theorem alloc_running_guard `{HashIter} s aid a addr t :
  allocs s !! aid = Some a →
  let '(s', r) := apply_command s (AllocRunning aid addr t) in
  r = RespOk ∧
  (alloc_status a ∈ [Pulling; Starting] →
     ∃ a', allocs s' !! aid = Some a' ∧ alloc_status a' = Running ∧ alloc_address a' = addr ∧
       alloc_started_at a' = t ∧ alloc_resources a' = alloc_resources a) ∧
  (alloc_status a ∉ [Pulling; Starting] → s' = s) ∧
  (∀ addr' t', (apply_command s' (AllocRunning aid addr' t')).1 = s').
Proof.
  intros Ha. simpl. rewrite Ha.
  destruct (alloc_status a) eqn:E; simpl; rewrite ?lookup_insert_eq; simpl;
    (split; [done|]); (split; [|split]); try set_solver;
    try (intros _; eexists; by rewrite lookup_insert_eq); try (intros; by rewrite Ha, E).
Qed.

(** as long as the reserved sizes fit in 64 bits, the memory a node is said to have left is its
    total minus what its unfinished allocations reserve (never below zero), and scheduling a new
    allocation there lowers it by exactly the new allocation's size. *)
Theorem memory_accounting `{HashIter} s id n aid name kind addr r :
  nodes s !! id = Some n → allocs s !! aid = None → 0 ≤ alloc_memory r →
  (∀ aid a, allocs s !! aid = Some a → 0 ≤ alloc_memory (alloc_resources a)) →
  reserved_memory s n + alloc_memory r ≤ u64_max →
  let s' := (apply_command s (AllocScheduled aid id name kind addr r)).1 in
  ∃ r0 r1, node_available_resources s id = Some r0 ∧ node_available_resources s' id = Some r1 ∧
    memory_available r0 = Z.max 0 (memory_total (fn_resources n) - reserved_memory s n) ∧
    memory_available r1 = Z.max 0 (memory_total (fn_resources n) - reserved_memory s n - alloc_memory r).
Proof.
  intros Hn Ha Hr Hpos Hle s'.
  destruct (node_available_memory s id n) as (r0 & H0 & _ & Hm0); [done..|lia|].
  assert (reserved_memory s' n = reserved_memory s n + alloc_memory r) as Hs' by (by apply reserved_schedule).
  destruct (node_available_memory s' id n) as (r1 & H1 & _ & Hm1); [| |lia|].
  - subst s'. simpl. by rewrite Hn.
  - subst s'. simpl. rewrite Hn. simpl. intros i a. rewrite lookup_insert. case_decide; intros; simplify_eq/=; eauto.
  - exists r0, r1. split_and!; [done..|]. rewrite Hm1, Hs'. f_equal. lia.
Qed.

(** A terminal status is not absorbing: a heartbeat that still lists an allocation as running brings
    an allocation that was marked failed back to running. *)
Theorem heartbeat_resurrects_failed `{HashIter} s id n aid a reason :
  nodes s !! id = Some n → allocs s !! aid = Some a → alloc_status a = Failed reason →
  ∃ a', allocs (apply_command s (NodeHeartbeat id {[aid := Running]})).1 !! aid = Some a' ∧
    is_terminal (alloc_status a') = false.
Proof.
  intros Hn Ha Hf. simpl. unfold apply_heartbeat. rewrite Hn. simpl.
  rewrite heartbeat_fold_lookup, lookup_singleton_eq, Ha. simpl. rewrite Hf. eauto.
Qed.

(** * Witnesses *)

Module FsmExamples.
Definition ex_addr : SocketAddr := SockV4 (10 * 2 ^ 24 + 99 * 2 ^ 16 + 1) 4400.
Definition ex_res : NodeResources := mkNodeResources (f64_of_Z 4) (f64_of_Z 4) (8 * 2 ^ 30) (8 * 2 ^ 30).
Definition ex_reg (id : Z) (m : string) : Command :=
  NodeRegister id (mkNodeId m) ex_addr ex_res None None None None.
Definition ex_sched (a : string) (id : Z) : Command :=
  AllocScheduled (mkAllocId a) id "web" KService None (mkAllocResources (f64_of_Z 1) (2 ^ 30)).
Definition ex_cmds : list Command :=
  [ex_reg 1 "node-1"; ex_reg 2 "node-2"; ex_sched "web-0" 1; ex_sched "web-1" 2;
   SetAllocStatus (mkAllocId "web-0") Healthy; NodeDown 2].
Definition ex_state : FsmState := @apply_commands stored_order FsmState_default ex_cmds.
Definition ex_node1 : FsmNode :=
  mkFsmNode 1 (mkNodeId "node-1") ex_addr ex_res NodeReady None None None None.
Definition ex_web0 : Alloc :=
  mkAlloc (mkAllocId "web-0") (mkNodeId "node-1") "web" KService Healthy None
    (mkAllocResources (f64_of_Z 1) (2 ^ 30)) None.
Definition ex_web1 : Alloc :=
  mkAlloc (mkAllocId "web-1") (mkNodeId "node-2") "web" KService Pulling None
    (mkAllocResources (f64_of_Z 1) (2 ^ 30)) None.
End FsmExamples.
Import FsmExamples.

Lemma apply_error_unchanged_witness :
  (@apply_command stored_order ex_state (NodeDrain 7)).2 = RespError "unknown node 7" ∧
  (@apply_command stored_order ex_state (NodeDrain 7)).1 = ex_state.
Proof.
  split; [vm_compute; reflexivity|].
  apply (@apply_error_unchanged stored_order ex_state (NodeDrain 7) "unknown node 7").
  vm_compute. reflexivity.
Defined.

Lemma fsm_reachable_integrity_witness : allocs_on_nodes ex_state.
Proof.
  apply (@fsm_reachable_integrity stored_order).
  apply (@run_stable_rtc stored_order ex_cmds).
  repeat split; intros n; vm_compute; discriminate.
Defined.

Lemma alloc_running_guard_witness :
  (@apply_command stored_order ex_state (AllocRunning (mkAllocId "web-0") (Some ex_addr) None)).1 = ex_state.
Proof.
  pose proof (@alloc_running_guard stored_order ex_state (mkAllocId "web-0") ex_web0 (Some ex_addr) None
                ltac:(vm_compute; reflexivity)) as H.
  destruct (@apply_command stored_order ex_state _) as [s' r].
  destruct H as (_ & _ & H & _). apply H. simpl. set_solver.
Defined.

Lemma memory_accounting_witness :
  let s' := (@apply_command stored_order ex_state (ex_sched "web-2" 1)).1 in
  ∃ r1, @node_available_resources stored_order s' 1 = Some r1 ∧ memory_available r1 = 6 * 2 ^ 30.
Proof.
  destruct (@memory_accounting stored_order ex_state 1 ex_node1 (mkAllocId "web-2") "web" KService None
    (mkAllocResources (f64_of_Z 1) (2 ^ 30))) as (r0 & r1 & _ & H1 & _ & Hm).
  - vm_compute. reflexivity.
  - vm_compute. reflexivity.
  - vm_compute. discriminate.
  - intros aid a Ha%(@elem_of_hm_iter stored_order). revert Ha. vm_compute (@hm_iter _ _ _ _ _ _).
    rewrite !elem_of_cons, elem_of_nil. intros [?|[?|[]]]; simplify_eq; vm_compute; discriminate.
  - vm_compute. discriminate.
  - exists r1. split; [exact H1|]. rewrite Hm. vm_compute. reflexivity.
Defined.
