(* ===== verification/Snapshot.v ===== *)
(** Snapshots of the cluster state ([src/crates/raft/src/snapshot]): the MessagePack + zstd codec
    and the files of the raft directory. A file is replaced by writing a temporary file, syncing
    it and renaming it; the model keeps these disk operations apart, so that an I/O error or a
    crash can happen between any two of them. The serializers (rmp_serde, zstd, serde_json) are
    parameters. *)

From S2P Require Import Prelude Types Fsm.
Local Open Scope Z_scope.

(** * Codec (snapshot/codec.rs) *)

Inductive SnapshotError :=
| SnapEncode (e : string)
| SnapDecode (e : string)
| SnapIo (e : string).

(** The serializers the codec calls, with the error text each reports. *)
Class SnapshotCodec : Type := {
  rmp_to_vec : FsmState → result string string;
  rmp_from_slice : string → result FsmState string;
  zstd_encode_all : string → result string string;
  zstd_decode_all : string → result string string;
}.
(** What the program relies on: decoding inverts a successful encoding. *)
Class SnapshotCodecLaws (C : SnapshotCodec) : Prop := {
  rmp_round_trip : ∀ s b, rmp_to_vec s = Ok b → rmp_from_slice b = Ok s;
  zstd_round_trip : ∀ b c, zstd_encode_all b = Ok c → zstd_decode_all c = Ok b;
}.

Definition map_err {A E F} (f : E → F) (r : result A E) : result A F :=
  match r with
  | Ok a => Ok a
  | Err e => Err (f e)
  end.

Definition encode `{SnapshotCodec} (state : FsmState) : result string SnapshotError :=
  result_bind (map_err SnapEncode (rmp_to_vec state)) (λ msgpack,
  map_err SnapEncode (zstd_encode_all msgpack)).

Definition decode `{SnapshotCodec} (data : string) : result FsmState SnapshotError :=
  result_bind (map_err SnapDecode (zstd_decode_all data)) (λ msgpack,
  map_err SnapDecode (rmp_from_slice msgpack)).

(** * Files of the raft directory (snapshot/disk.rs) *)

Abbreviation Dir := (gmap string string).

Inductive DiskOp :=
| DCreate (file : string)
| DWrite (file data : string)
| DSync (file : string)
| DRename (from to : string).

(** The effect of one operation; a missing file is an I/O error. [tokio::fs::write] first creates
    or truncates the file, then writes to it. *)
Definition disk_op (d : Dir) (op : DiskOp) : option Dir :=
  match op with
  | DCreate f => Some (<[f := EmptyString]> d)
  | DWrite f data => match d !! f with Some _ => Some (<[f := data]> d) | None => None end
  | DSync f => match d !! f with Some _ => Some d | None => None end
  | DRename f g => match d !! f with Some data => Some (<[g := data]> (delete f d)) | None => None end
  end.

(** Run the operations in order. [budget] is how many of them complete before the device fails
    or the process stops; the result says whether all of them completed. *)
Fixpoint run_ops (budget : nat) (ops : list DiskOp) (d : Dir) {struct ops} : bool * nat * Dir :=
  match ops with
  | [] => (true, budget, d)
  | op :: ops =>
      match budget with
      | O => (false, O, d)
      | S budget =>
          match disk_op d op with
          | Some d => run_ops budget ops d
          | None => (false, budget, d)
          end
      end
  end.

Definition atomic_write_ops (filename data : string) : list DiskOp :=
  let tmp := (filename +:+ ".tmp")%string in
  [DCreate tmp; DWrite tmp data; DSync tmp; DRename tmp filename].

(** [atomic_write]: the result, what is left of the budget, and the directory. *)
Definition atomic_write (budget : nat) (d : Dir) (filename data : string)
    : result unit SnapshotError * nat * Dir :=
  let '(ok, budget, d) := run_ops budget (atomic_write_ops filename data) d in
  (if ok : bool then Ok tt else Err (SnapIo "i/o error"), budget, d).

(** openraft's snapshot metadata and vote are parameters, with serde_json's encoding of each. *)
Section snapshot_files.
Context {Meta : Type} (meta_to_json : Meta → result string string) (meta_from_json : string → result Meta string).

Definition write_snapshot (budget : nat) (d : Dir) (data : string) (meta : Meta)
    : result unit SnapshotError * nat * Dir :=
  match atomic_write budget d "snapshot.bin" data with
  | (Err e, budget, d) => (Err e, budget, d)
  | (Ok _, budget, d) =>
      match meta_to_json meta with
      | Err e => (Err (SnapEncode e), budget, d)
      | Ok meta_json => atomic_write budget d "snapshot-meta.json" meta_json
      end
  end.

Definition read_snapshot (d : Dir) : result (option (string * Meta)) SnapshotError :=
  match d !! "snapshot.bin"%string, d !! "snapshot-meta.json"%string with
  | Some data, Some meta_bytes =>
      result_bind (map_err SnapDecode (meta_from_json meta_bytes)) (λ meta, Ok (Some (data, meta)))
  | _, _ => Ok None
  end.

End snapshot_files.

Section vote_file.
Context {Vote : Type} (vote_to_json : Vote → result string string) (vote_from_json : string → result Vote string).

Definition write_vote (budget : nat) (d : Dir) (vote : Vote) : result unit SnapshotError * nat * Dir :=
  match vote_to_json vote with
  | Err e => (Err (SnapEncode e), budget, d)
  | Ok json => atomic_write budget d "vote.json" json
  end.

Definition read_vote (d : Dir) : result (option Vote) SnapshotError :=
  match d !! "vote.json"%string with
  | None => Ok None
  | Some bytes => result_bind (map_err SnapDecode (vote_from_json bytes)) (λ v, Ok (Some v))
  end.

End vote_file.

(** * Lemmas *)

(** Decoding inverts encoding. *)
Lemma decode_encode `{C : SnapshotCodec} `{!SnapshotCodecLaws C} s data :
  encode s = Ok data → decode data = Ok s.
Proof.
  unfold encode, decode. destruct (rmp_to_vec s) as [b|] eqn:Hb; simpl; [|done].
  destruct (zstd_encode_all b) as [c|] eqn:Hc; simpl; [|done]. intros [= <-].
  rewrite (zstd_round_trip _ _ Hc). simpl. by rewrite (rmp_round_trip _ _ Hb).
Qed.

(** [atomic_write] leaves the target file with its old or its new content, never with a part, and
    touches no other file than its own temporary. *)
Lemma atomic_write_old_or_new budget d f data r b d' :
  atomic_write budget d f data = (r, b, d') →
  (d' !! f = d !! f ∨ d' !! f = Some data) ∧
  (r = Ok tt → d' !! f = Some data) ∧
  (∀ g, g ≠ f → g ≠ (f +:+ ".tmp")%string → d' !! g = d !! g).
Proof.
  unfold atomic_write, atomic_write_ops.
  assert (f ≠ f +:+ ".tmp")%string as Hne.
  { intros Heq%(f_equal String.length). rewrite str_length_app in Heq. simpl in Heq. lia. }
  destruct budget as [|[|[|[|budget]]]]; simpl; repeat (rewrite ?lookup_insert_eq; simpl); intros Heq; simplify_eq; split_and!; try done; try (by left);
    rewrite ?lookup_insert_eq; try done; try (by right); try (by left; rewrite !lookup_insert_ne);
    intros g Hg Htmp; by rewrite ?(lookup_insert_ne _ f g), ?lookup_delete_ne, ?lookup_insert_ne by congruence.
Qed.

Lemma atomic_write_complete budget d f data :
  (4 ≤ budget)%nat → ∃ d',
    atomic_write budget d f data = (Ok tt, (budget - 4)%nat, d') ∧ d' !! f = Some data ∧
    (∀ g, g ≠ f → g ≠ (f +:+ ".tmp")%string → d' !! g = d !! g).
Proof.
  intros Hb. do 4 (destruct budget as [|budget]; [lia|]).
  destruct (atomic_write (S (S (S (S budget)))) d f data) as [[r b] d'] eqn:E.
  destruct (atomic_write_old_or_new _ _ _ _ _ _ _ E) as (_ & Hf & Hg).
  unfold atomic_write in E. simpl in E. repeat (rewrite lookup_insert_eq in E; simpl in E).
  simplify_eq. eexists. split; [|eauto]. simpl. repeat f_equal. lia.
Qed.

Section snapshot_lemmas.
Context {Meta : Type} (meta_to_json : Meta → result string string).
#[local] Abbreviation write_snapshot := (write_snapshot meta_to_json).

(** The directory after the data file was replaced and the metadata write stopped early. *)
Lemma write_snapshot_split budget d data meta json :
  meta_to_json meta = Ok json → (4 ≤ budget)%nat →
  ∃ d1, d1 !! "snapshot.bin"%string = Some data ∧
    d1 !! "snapshot-meta.json"%string = d !! "snapshot-meta.json"%string ∧
    write_snapshot budget d data meta = atomic_write (budget - 4) d1 "snapshot-meta.json" json.
Proof.
  intros Hj Hb. destruct (atomic_write_complete budget d "snapshot.bin" data Hb) as (d1 & Hw & Hd & Hg).
  exists d1. unfold Snapshot.write_snapshot. rewrite Hw, Hj. split_and!; [done| |done]. by apply Hg.
Qed.

(** A snapshot write touches no file but its own two and their temporaries. *)
Lemma write_snapshot_frame budget d data meta g :
  g ∉ ["snapshot.bin"; "snapshot.bin.tmp"; "snapshot-meta.json"; "snapshot-meta.json.tmp"]%string →
  (write_snapshot budget d data meta).2 !! g = d !! g.
Proof.
  intros Hg. unfold Snapshot.write_snapshot.
  destruct (atomic_write budget d "snapshot.bin" data) as [[[[]|e] b1] d1] eqn:E1;
    apply atomic_write_old_or_new in E1 as (_ & _ & H1); simpl.
  2: { apply H1; intros ->; set_solver. }
  destruct (meta_to_json meta) as [json|]; simpl; [|apply H1; intros ->; set_solver].
  destruct (atomic_write b1 d1 "snapshot-meta.json" json) as [[r b2] d2] eqn:E2.
  apply atomic_write_old_or_new in E2 as (_ & _ & H2). simpl.
  rewrite H2 by (intros ->; set_solver). apply H1; intros ->; set_solver.
Qed.

(** With room for all eight operations the write succeeds. *)
Lemma write_snapshot_complete budget d data meta json :
  meta_to_json meta = Ok json → (8 ≤ budget)%nat →
  ∃ b d', write_snapshot budget d data meta = (Ok tt, b, d').
Proof.
  intros Hj Hb. destruct (write_snapshot_split budget d data meta json Hj) as (d1 & _ & _ & ->); [lia|].
  destruct (atomic_write_complete (budget - 4) d1 "snapshot-meta.json" json) as (d2 & -> & _); [lia|]. eauto.
Qed.

Context (meta_from_json : string → result Meta string).
#[local] Abbreviation read_snapshot := (read_snapshot meta_from_json).

(** A read after a completed write returns what was written. *)
Lemma read_after_write budget d data meta json b d' :
  meta_to_json meta = Ok json → meta_from_json json = Ok meta →
  write_snapshot budget d data meta = (Ok tt, b, d') → read_snapshot d' = Ok (Some (data, meta)).
Proof.
  intros Hj Hm Hw. unfold Snapshot.write_snapshot in Hw.
  destruct (atomic_write budget d "snapshot.bin" data) as [[[[]|e] b1] d1] eqn:E1; [|by simplify_eq].
  rewrite Hj in Hw.
  destruct (atomic_write_old_or_new _ _ _ _ _ _ _ E1) as (_ & H1 & _).
  destruct (atomic_write_old_or_new _ _ _ _ _ _ _ Hw) as (_ & H2 & Hg).
  unfold Snapshot.read_snapshot. rewrite (Hg "snapshot.bin"%string) by done.
  rewrite (H1 eq_refl), (H2 eq_refl). simpl. by rewrite Hm.
Qed.

(** A write that stops between the two renames leaves the new data with the old metadata. *)
Lemma write_snapshot_torn d data0 meta0 json0 data meta json budget :
  d !! "snapshot.bin"%string = Some data0 → d !! "snapshot-meta.json"%string = Some json0 →
  meta_from_json json0 = Ok meta0 → meta_to_json meta = Ok json → (4 ≤ budget < 8)%nat →
  ∃ b d', write_snapshot budget d data meta = (Err (SnapIo "i/o error"), b, d') ∧
    read_snapshot d' = Ok (Some (data, meta0)).
Proof.
  intros Hd Hm0 Hj0 Hj Hb.
  destruct (write_snapshot_split budget d data meta json Hj) as (d1 & Hd1 & Hm1 & Hw); [lia|].
  rewrite Hw.
  assert ((budget - 4 = 0 ∨ budget - 4 = 1 ∨ budget - 4 = 2 ∨ budget - 4 = 3)%nat) as [-> | [-> | [-> | ->]]] by lia;
    unfold atomic_write; simpl; repeat (rewrite ?lookup_insert_eq; simpl); do 2 eexists; (split; [reflexivity|]);
    unfold Snapshot.read_snapshot; simplify_map_eq; rewrite ?Hd1, ?Hm1, ?Hm0; simpl; by rewrite Hj0.
Qed.

End snapshot_lemmas.

(** * Theorems *)

Section vote_theorems.
Context {Vote : Type} (vote_to_json : Vote → result string string) (vote_from_json : string → result Vote string).

(** a stored vote is replaced atomically: whenever the write stops, a later read returns the vote
    that was there before or the new one, and the new one once the write reported success. *)
Theorem vote_write_atomic budget d vote json r b d' :
  vote_to_json vote = Ok json → vote_from_json json = Ok vote →
  write_vote vote_to_json budget d vote = (r, b, d') →
  (read_vote vote_from_json d' = read_vote vote_from_json d ∨
   read_vote vote_from_json d' = Ok (Some vote)) ∧
  (r = Ok tt → read_vote vote_from_json d' = Ok (Some vote)).
Proof.
  intros Hj Hv. unfold write_vote. rewrite Hj. intros Hw.
  destruct (atomic_write_old_or_new _ _ _ _ _ _ _ Hw) as (Hor & Hok & _).
  unfold read_vote. split.
  - destruct Hor as [->| ->]; [by left|right]. simpl. by rewrite Hv.
  - intros Hr. rewrite (Hok Hr). simpl. by rewrite Hv.
Qed.
End vote_theorems.

(** * Witnesses *)

Lemma vote_write_atomic_witness :
  read_vote (Ok (A := string) (E := string))
    (write_vote (Ok (A := string) (E := string)) 2 {["vote.json" := "v1"]} "v2").2 = Ok (Some "v1"%string).
Proof.
  destruct (write_vote (Ok (A := string) (E := string)) 2 {["vote.json" := "v1"]} "v2") as [[r b] d'] eqn:E.
  destruct (vote_write_atomic (Ok (A := string) (E := string)) (Ok (A := string) (E := string))
              2 _ "v2" "v2" r b d' eq_refl eq_refl E) as [[H|H] _]; simpl.
  - rewrite H. vm_compute. reflexivity.
  - apply (f_equal snd) in E. change ((r, b, d').2) with d' in E. rewrite <- E. vm_compute. reflexivity.
Defined.
