(* ===== verification/Secrets.v ===== *)
(** The cluster key ([src/crates/raft/src/secrets/cipher.rs]): sealing and opening of secrets, and its file. The
    cipher (ChaCha20-Poly1305) and the random source are parameters. The theorems show that the file holds the key
    or that loading refuses it, also after a write that was cut short, and when decryption is the inverse of
    encryption. *)

From S2P Require Import Prelude Types Snapshot.
Local Open Scope Z_scope.

(** The cipher: sealing and opening under a key of 32 bytes and a nonce of 12. *)
Class Aead := {
  aead_seal : string → string → string → result string string;
  aead_open : string → string → string → result string string;
}.
(** What it documents: opening with the same key and nonce inverts sealing. *)
Class AeadLaws (C : Aead) : Prop := {
  open_seal : ∀ key nonce plain cipher, aead_seal key nonce plain = Ok cipher → aead_open key nonce cipher = Ok plain;
}.

Definition KEY_LEN : Z := 32.
Definition NONCE_LEN : Z := 12.

Record ClusterKey := mkClusterKey { key : string }.
Definition from_bytes (bytes : string) : ClusterKey := mkClusterKey bytes.
Definition as_bytes (k : ClusterKey) : string := key k.

(** [encrypt] with the nonce that the random source gave. *)
Definition encrypt `{Aead} (k : ClusterKey) (nonce plaintext : string) : result (string * string) string :=
  match aead_seal (key k) nonce plaintext with
  | Ok ciphertext => Ok (ciphertext, nonce)
  | Err e => Err ("encryption failed: " +:+ e)%string
  end.
(** [decrypt]; [None] is the panic of [Nonce::from_slice] on a slice of another length. *)
Definition decrypt `{Aead} (k : ClusterKey) (ciphertext nonce : string) : option (result string string) :=
  if Z.of_nat (String.length nonce) =? NONCE_LEN then
    Some (map_err (λ e, "decryption failed: " +:+ e)%string (aead_open (key k) nonce ciphertext))
  else None.

(** [save] in an existing directory, with the operations that complete before a failure; [load]. *)
Definition save_key (budget : nat) (d : Dir) (k : ClusterKey) : result unit string * nat * Dir :=
  let '(ok, budget, d) := run_ops budget [DCreate "cluster.key"; DWrite "cluster.key" (key k)]%string d in
  (if ok : bool then Ok tt else Err "i/o error"%string, budget, d).
Definition load_key (d : Dir) : result ClusterKey string :=
  match d !! "cluster.key"%string with
  | None => Err "i/o error"
  | Some bytes =>
      if (Z.of_nat (String.length bytes) =? KEY_LEN)%Z then Ok (from_bytes bytes)
      else Err ("raft error: cluster.key: expected 32 bytes, got " +:+ pretty (Z.of_nat (String.length bytes)))
  end%string.

(** * Theorems *)

(** A value that was encrypted is decrypted with the nonce that came with it. *)
Lemma decrypt_encrypt `{C : Aead} `{!AeadLaws C} k nonce plain cipher nonce' :
  Z.of_nat (String.length nonce) = NONCE_LEN → encrypt k nonce plain = Ok (cipher, nonce') →
  decrypt k cipher nonce' = Some (Ok plain).
Proof.
  intros Hn. unfold encrypt, decrypt. destruct (aead_seal _ _ _) as [c|] eqn:E; [|done]. intros [= <- <-].
  rewrite (proj2 (Z.eqb_eq _ _) Hn). by rewrite (open_seal _ _ _ _ E).
Qed.

(** A key file is never mistaken for another key: however early writing it fails or the process stops, loading it
    afterwards gives the key that was being written, or an error, or, when nothing was written at all, what loading
    gave before; and a write that reports success is read back. *)
Theorem key_file_integrity budget d k :
  Z.of_nat (String.length (key k)) = KEY_LEN →
  let '(r, _, d') := save_key budget d k in
  (load_key d' = Ok k ∨ (∃ e, load_key d' = Err e) ∨ load_key d' = load_key d) ∧ (r = Ok tt → load_key d' = Ok k).
Proof.
  intros Hk. unfold save_key, load_key. destruct budget as [|[|budget]]; simpl.
  - split; [by do 2 right|done].
  - rewrite lookup_insert_eq. split; [right; left; by eexists|done].
  - rewrite !lookup_insert_eq. simpl. rewrite ?lookup_insert_eq, Hk. destruct k. split; [by left|done].
Qed.

Definition ex_key : ClusterKey := mkClusterKey "0123456789abcdef0123456789abcdef".
Lemma key_file_integrity_witness :
  let '(r, _, d') := save_key 2 ∅ ex_key in
  (load_key d' = Ok ex_key ∨ (∃ e, load_key d' = Err e) ∨ load_key d' = load_key ∅) ∧ (r = Ok tt → load_key d' = Ok ex_key).
Proof. exact (key_file_integrity 2 ∅ ex_key eq_refl). Defined.
