(* ===== verification/Store.v ===== *)
(** The storage that mill-raft gives to openraft ([src/crates/raft/src/fsm/mod.rs],
    [src/crates/raft/src/log_store.rs], [src/crates/raft/src/lib.rs]): the state machine store with
    its change notification, the snapshot builder, snapshot installation, the in-memory log, and
    opening a node from its raft directory. openraft's own types are a parameter. The theorems show
    that the result of applying the log does not depend on how it is cut into batches, that a
    snapshot followed by the rest of the log gives the state of the whole log (also after a
    restart), what a crash between the two snapshot files leads to, and that the log returns what
    was appended. *)

From stdpp Require Import sorting.
From S2P Require Import Prelude Types Fsm Snapshot.
Local Open Scope Z_scope.

(** The types openraft is instantiated with (raft/src/config.rs): log identifiers, of which the
    program reads the index, memberships, and votes. *)
Class RaftTypes : Type := {
  LogId : Type;
  log_index : LogId → Z;
  Membership : Type;
  StoredMembership : Type;
  StoredMembership_new : option LogId → Membership → StoredMembership;
  StoredMembership_default : StoredMembership;
  Vote : Type;
}.

Section store.
Context `{HI : HashIter} `{RT : RaftTypes} `{SC : SnapshotCodec}.

(** * Entries and snapshots (the openraft types the source builds and matches on) *)

Inductive EntryPayload :=
| Blank
| Normal (cmd : Command)
| MembershipPayload (m : Membership).
Record Entry := mkEntry {
  entry_log_id : LogId;
  entry_payload : EntryPayload;
}.
Definition get_membership (e : Entry) : option Membership :=
  match entry_payload e with
  | MembershipPayload m => Some m
  | _ => None
  end.

Record SnapshotMeta := mkSnapshotMeta {
  meta_last_log_id : option LogId;
  meta_last_membership : StoredMembership;
  meta_snapshot_id : string;
}.
Record RaftSnapshot := mkRaftSnapshot {
  snap_meta : SnapshotMeta;
  snap_data : string;
}.

(** * State machine store (fsm/mod.rs) *)

(** A [tokio::sync::watch] channel: the value, and how many receivers exist. *)
Record Watch := mkWatch {
  watch_value : Z;
  watch_receivers : nat;
}.
(** [Sender::send] fails, and keeps the old value, when there is no receiver. *)
Definition watch_send (w : Watch) (v : Z) : Watch :=
  if decide (watch_receivers w = 0%nat) then w else mkWatch v (watch_receivers w).

Record StateMachineInner := mkInner {
  fsm : FsmState;
  last_applied : option LogId;
  last_membership : StoredMembership;
  version : Z;
}.
Definition inner_default : StateMachineInner :=
  mkInner FsmState_default None StoredMembership_default 0.

(** [raft_dir] only says whether snapshots are persisted; the directory itself is passed to the
    operations that write to it. *)
Record StateMachineStore := mkStore {
  state : StateMachineInner;
  current_snapshot : option RaftSnapshot;
  change_tx : Watch;
  raft_dir : bool;
}.

Definition StateMachineStore_new : StateMachineStore := mkStore inner_default None (mkWatch 0 0) false.
Definition StateMachineStore_with_persistence : StateMachineStore :=
  mkStore inner_default None (mkWatch 0 0) true.
Definition from_snapshot (f : FsmState) (meta : SnapshotMeta) (data : string) : StateMachineStore :=
  mkStore (mkInner f (meta_last_log_id meta) (meta_last_membership meta) 0)
    (Some (mkRaftSnapshot meta data)) (mkWatch 0 0) true.

Definition read_state {T} (f : FsmState → T) (st : StateMachineStore) : T := f (fsm (state st)).
Definition subscribe (st : StateMachineStore) : StateMachineStore * Z :=
  let w := change_tx st in
  (mkStore (state st) (current_snapshot st) (mkWatch (watch_value w) (S (watch_receivers w))) (raft_dir st),
   watch_value w).
Definition applied_state (st : StateMachineStore) : option LogId * StoredMembership :=
  (last_applied (state st), last_membership (state st)).

(** One iteration of the loop of [apply]. *)
Definition apply_entry (i : StateMachineInner) (entry : Entry) : StateMachineInner * Response :=
  let membership :=
    match get_membership entry with
    | Some m => StoredMembership_new (Some (entry_log_id entry)) m
    | None => last_membership i
    end in
  match entry_payload entry with
  | Normal cmd =>
      let '(f, resp) := apply_command (fsm i) cmd in
      (mkInner f (Some (entry_log_id entry)) membership (version i), resp)
  | Blank | MembershipPayload _ =>
      (mkInner (fsm i) (Some (entry_log_id entry)) membership (version i), RespOk)
  end.
Fixpoint apply_loop (i : StateMachineInner) (entries : list Entry) : StateMachineInner * list Response :=
  match entries with
  | [] => (i, [])
  | entry :: entries =>
      let '(i, resp) := apply_entry i entry in
      let '(i, resps) := apply_loop i entries in
      (i, resp :: resps)
  end.
Definition bump (i : StateMachineInner) : StateMachineInner :=
  mkInner (fsm i) (last_applied i) (last_membership i) (u64_add (version i) 1).

Definition store_apply (st : StateMachineStore) (entries : list Entry)
    : StateMachineStore * list Response :=
  let '(i, responses) := apply_loop (state st) entries in
  let i := bump i in
  (mkStore i (current_snapshot st) (watch_send (change_tx st) (version i)) (raft_dir st), responses).

(** The builder keeps a copy of the state; the slot it stores its snapshot in is the store's. *)
Record SnapshotBuilder := mkBuilder {
  fsm_snapshot : FsmState;
  sb_last_applied : option LogId;
  sb_last_membership : StoredMembership;
  sb_raft_dir : bool;
}.
Definition get_snapshot_builder (st : StateMachineStore) : SnapshotBuilder :=
  mkBuilder (fsm (state st)) (last_applied (state st)) (last_membership (state st)) (raft_dir st).

Definition set_current_snapshot (s : RaftSnapshot) (st : StateMachineStore) : StateMachineStore :=
  mkStore (state st) (Some s) (change_tx st) (raft_dir st).

Definition snapshot_id (last : option LogId) : string :=
  ("snapshot-" +:+ pretty (match last with Some id => log_index id | None => 0 end))%string.

Context (meta_to_json : SnapshotMeta → result string string)
        (meta_from_json : string → result SnapshotMeta string).
Context (vote_to_json : Vote → result string string) (vote_from_json : string → result Vote string).

(** Persisting is best effort: the error of [write_snapshot] is only logged. *)
Definition persist_snapshot (budget : nat) (persistent : bool) (d : Dir) (data : string)
    (meta : SnapshotMeta) : Dir :=
  if persistent then (write_snapshot meta_to_json budget d data meta).2 else d.

(** [build_snapshot] runs on its own task: [st] is the store at the time it runs. *)
Definition build_snapshot (budget : nat) (b : SnapshotBuilder) (st : StateMachineStore) (d : Dir)
    : result RaftSnapshot SnapshotError * StateMachineStore * Dir :=
  match encode (fsm_snapshot b) with
  | Err e => (Err e, st, d)
  | Ok data =>
      let meta := mkSnapshotMeta (sb_last_applied b) (sb_last_membership b)
                    (snapshot_id (sb_last_applied b)) in
      let d := persist_snapshot budget (sb_raft_dir b) d data meta in
      let snap := mkRaftSnapshot meta data in
      (Ok snap, set_current_snapshot snap st, d)
  end.

Definition begin_receiving_snapshot : string := "".
Definition install_snapshot (budget : nat) (st : StateMachineStore) (d : Dir) (meta : SnapshotMeta)
    (data : string) : result unit SnapshotError * StateMachineStore * Dir :=
  match decode data with
  | Err e => (Err e, st, d)
  | Ok f =>
      let i := mkInner f (meta_last_log_id meta) (meta_last_membership meta)
                 (u64_add (version (state st)) 1) in
      let st := mkStore i (Some (mkRaftSnapshot meta data)) (watch_send (change_tx st) (version i))
                  (raft_dir st) in
      (Ok tt, st, persist_snapshot budget (raft_dir st) d data meta)
  end.
Definition get_current_snapshot (st : StateMachineStore) : option RaftSnapshot := current_snapshot st.

(** * Log store (log_store.rs) *)

Record LogStore := mkLogStore {
  vote : option Vote;
  committed : option LogId;
  log : gmap Z Entry;
  last_purged : option LogId;
  log_raft_dir : bool;
}.
Definition LogStore_new : LogStore := mkLogStore None None ∅ None false.
Definition LogStore_with_persistence (v : option Vote) : LogStore := mkLogStore v None ∅ None true.

Definition set_log (m : gmap Z Entry) (l : LogStore) : LogStore :=
  mkLogStore (vote l) (committed l) m (last_purged l) (log_raft_dir l).

(** The entries of a [BTreeMap] in key order. *)
Definition key_le (a b : Z * Entry) : Prop := a.1 ≤ b.1.
#[local] Instance key_le_dec a b : Decision (key_le a b) := decide (a.1 ≤ b.1).
Definition btree_iter (m : gmap Z Entry) : list (Z * Entry) := merge_sort key_le (map_to_list m).

(** [range] is given by its membership test. *)
Definition try_get_log_entries (range : Z → bool) (l : LogStore) : list Entry :=
  (filterb (λ p, range p.1) (btree_iter (log l))).*2.
(** [get_log_state]: the last purged and the last log identifier. *)
Definition get_log_state (l : LogStore) : option LogId * option LogId :=
  let last_log_id :=
    match last (btree_iter (log l)) with
    | Some (_, e) => Some (entry_log_id e)
    | None => last_purged l
    end in
  (last_purged l, last_log_id).
Definition save_vote (budget : nat) (l : LogStore) (d : Dir) (v : Vote) : LogStore * Dir :=
  let l := mkLogStore (Some v) (committed l) (log l) (last_purged l) (log_raft_dir l) in
  (l, if log_raft_dir l then (write_vote vote_to_json budget d v).2 else d).
Definition log_read_vote (l : LogStore) : option Vote := vote l.
Definition save_committed (l : LogStore) (c : option LogId) : LogStore :=
  mkLogStore (vote l) c (log l) (last_purged l) (log_raft_dir l).
Definition read_committed (l : LogStore) : option LogId := committed l.
Definition log_append (l : LogStore) (entries : list Entry) : LogStore :=
  set_log (foldl (λ m e, <[log_index (entry_log_id e) := e]> m) (log l) entries) l.
Definition log_remove_keys (keys : list Z) (m : gmap Z Entry) : gmap Z Entry :=
  foldl (λ m k, delete k m) m keys.
Definition log_truncate (l : LogStore) (id : LogId) : LogStore :=
  let to_remove := (filterb (λ p, log_index id <=? p.1) (btree_iter (log l))).*1 in
  set_log (log_remove_keys to_remove (log l)) l.
Definition log_purge (l : LogStore) (id : LogId) : LogStore :=
  let to_remove := (filterb (λ p, p.1 <=? log_index id) (btree_iter (log l))).*1 in
  mkLogStore (vote l) (committed l) (log_remove_keys to_remove (log l)) (Some id) (log_raft_dir l).

(** * Opening a node (lib.rs) *)

(** What [MillRaft::open] hands to openraft: the log store and the state machine store. *)
Definition mill_raft_open (d : Dir) : result (LogStore * StateMachineStore) SnapshotError :=
  result_bind (read_vote vote_from_json d) (λ v,
  let log_store := LogStore_with_persistence v in
  result_bind (read_snapshot meta_from_json d) (λ snap,
  match snap with
  | Some (data, meta) =>
      result_bind (decode data) (λ f, Ok (log_store, from_snapshot f meta data))
  | None => Ok (log_store, StateMachineStore_with_persistence)
  end)).
End store.

(** * Specifications *)

Section spec.
Context `{HI : HashIter} `{RT : RaftTypes}.

(** The commands of the entries that carry one. *)
Definition normal_cmds (entries : list Entry) : list Command :=
  filter_map (λ e, match entry_payload e with Normal cmd => Some cmd | _ => None end) entries.

(** What a state machine has to agree on with its peers: everything but the local counter. *)
Definition core (i : StateMachineInner) : FsmState * option LogId * StoredMembership :=
  (fsm i, last_applied i, last_membership i).

(** Apply a list of batches, collecting the responses. *)
Fixpoint apply_batches (st : StateMachineStore) (batches : list (list Entry))
    : StateMachineStore * list Response :=
  match batches with
  | [] => (st, [])
  | b :: batches =>
      let '(st, r1) := store_apply st b in
      let '(st, r2) := apply_batches st batches in
      (st, r1 ++ r2)
  end.

(** Entries with consecutive indices from [i] on. *)
Fixpoint consecutive (i : Z) (entries : list Entry) : Prop :=
  match entries with
  | [] => True
  | e :: entries => log_index (entry_log_id e) = i ∧ consecutive (i + 1) entries
  end.
End spec.

(** * Lemmas *)

Section lemmas.
Context `{HI : HashIter} `{RT : RaftTypes}.
Implicit Types (i : StateMachineInner) (st : StateMachineStore) (es : list Entry).

Lemma apply_entry_core i1 i2 e :
  core i1 = core i2 →
  core (apply_entry i1 e).1 = core (apply_entry i2 e).1 ∧ (apply_entry i1 e).2 = (apply_entry i2 e).2.
Proof.
  unfold core. intros [= Hf Hl Hm]. unfold apply_entry, get_membership. rewrite Hf, Hm.
  destruct (entry_payload e); simpl; try done. by destruct (apply_command (fsm i2) cmd).
Qed.

Lemma apply_loop_core es i1 i2 :
  core i1 = core i2 →
  core (apply_loop i1 es).1 = core (apply_loop i2 es).1 ∧ (apply_loop i1 es).2 = (apply_loop i2 es).2.
Proof.
  revert i1 i2. induction es as [|e es IH]; intros i1 i2 Hc; simpl; [done|].
  pose proof (apply_entry_core i1 i2 e Hc) as [Hc' Hr].
  destruct (apply_entry i1 e) as [i1' r1], (apply_entry i2 e) as [i2' r2]; simpl in *.
  destruct (IH i1' i2' Hc'). destruct (apply_loop i1' es), (apply_loop i2' es); simpl in *.
  split; congruence.
Qed.

Lemma apply_loop_app es1 es2 i :
  apply_loop i (es1 ++ es2) =
    let '(i', r1) := apply_loop i es1 in
    let '(i'', r2) := apply_loop i' es2 in (i'', r1 ++ r2).
Proof.
  revert i. induction es1 as [|e es1 IH]; intros i; simpl; [by destruct (apply_loop i es2)|].
  destruct (apply_entry i e) as [i' r]. rewrite IH.
  destruct (apply_loop i' es1) as [i'' r1]. by destruct (apply_loop i'' es2).
Qed.

Lemma apply_loop_version es i : version (apply_loop i es).1 = version i.
Proof.
  revert i. induction es as [|e es IH]; intros i; simpl; [done|].
  assert (version (apply_entry i e).1 = version i) as Hv.
  { unfold apply_entry. destruct (entry_payload e); try done. by destruct (apply_command _ _). }
  destruct (apply_entry i e) as [i' r]. specialize (IH i').
  destruct (apply_loop i' es). simpl in *. congruence.
Qed.

Lemma apply_loop_fsm es i : fsm (apply_loop i es).1 = apply_commands (fsm i) (normal_cmds es).
Proof.
  revert i. induction es as [|e es IH]; intros i; [done|].
  assert (fsm (apply_entry i e).1 = apply_commands (fsm i) (normal_cmds [e])) as Hf.
  { unfold apply_entry, normal_cmds. simpl. destruct (entry_payload e); simpl; try done.
    by destruct (apply_command _ _). }
  simpl. destruct (apply_entry i e) as [i' r]. specialize (IH i').
  destruct (apply_loop i' es) as [i'' rs]. simpl in *. rewrite IH, Hf.
  unfold normal_cmds. simpl. by destruct (entry_payload e).
Qed.

Lemma apply_loop_last es i :
  last_applied (apply_loop i es).1 =
    match last es with Some e => Some (entry_log_id e) | None => last_applied i end.
Proof.
  revert i. induction es as [|e es IH]; intros i; [done|].
  assert (last_applied (apply_entry i e).1 = Some (entry_log_id e)) as Hl.
  { unfold apply_entry. destruct (entry_payload e); try done. by destruct (apply_command _ _). }
  rewrite last_cons. simpl. destruct (apply_entry i e) as [i' r]. specialize (IH i').
  destruct (apply_loop i' es). simpl in *. rewrite IH. by destruct (last es).
Qed.

Lemma apply_loop_responses es i k e :
  es !! k = Some e →
  (apply_loop i es).2 !! k = Some
    match entry_payload e with
    | Normal cmd => (apply_command (apply_commands (fsm i) (normal_cmds (take k es))) cmd).2
    | _ => RespOk
    end.
Proof.
  revert i k. induction es as [|e' es IH]; intros i k Hk; [done|].
  pose proof (apply_loop_fsm [e'] i) as Hf. simpl in *.
  destruct (apply_entry i e') as [i' r] eqn:E. simpl in *.
  destruct k as [|k]; simpl in *.
  - simplify_eq. destruct (apply_loop i' es). simpl. unfold apply_entry in E.
    destruct (entry_payload e); simpl; try by simplify_eq. destruct (apply_command _ _) eqn:E'. by simplify_eq/=.
  - specialize (IH i' k Hk). destruct (apply_loop i' es) as [i'' rs]. simpl in *. rewrite IH, Hf.
    unfold normal_cmds. simpl. by destruct (entry_payload e').
Qed.

Lemma store_apply_core st es : core (state (store_apply st es).1) = core (apply_loop (state st) es).1.
Proof. unfold store_apply. by destruct (apply_loop (state st) es). Qed.
Lemma store_apply_responses st es : (store_apply st es).2 = (apply_loop (state st) es).2.
Proof. unfold store_apply. by destruct (apply_loop (state st) es). Qed.

Lemma apply_batches_core st bs :
  core (state (apply_batches st bs).1) = core (apply_loop (state st) (concat bs)).1 ∧
  (apply_batches st bs).2 = (apply_loop (state st) (concat bs)).2.
Proof.
  revert st. induction bs as [|b bs IH]; intros st; simpl; [done|].
  pose proof (store_apply_core st b) as Hc. pose proof (store_apply_responses st b) as Hr.
  rewrite apply_loop_app.
  destruct (store_apply st b) as [st' r1], (apply_loop (state st) b) as [i' r1']; simpl in *.
  destruct (IH st') as [Hc2 Hr2]. destruct (apply_loop_core (concat bs) _ _ Hc) as [Hc3 Hr3].
  destruct (apply_batches st' bs), (apply_loop i' (concat bs)); simpl in *. split; congruence.
Qed.

(** Applying to two stores with the same core. *)
Lemma store_apply_same st1 st2 es :
  core (state st1) = core (state st2) →
  core (state (store_apply st1 es).1) = core (state (store_apply st2 es).1) ∧
  (store_apply st1 es).2 = (store_apply st2 es).2.
Proof.
  intros Hc. rewrite !store_apply_core, !store_apply_responses. by apply apply_loop_core.
Qed.

Lemma store_apply_twice st es1 es2 :
  core (state (store_apply (store_apply st es1).1 es2).1) = core (state (store_apply st (es1 ++ es2)).1).
Proof.
  rewrite !store_apply_core, apply_loop_app.
  pose proof (store_apply_core st es1) as Hc. destruct (apply_loop (state st) es1) as [i' r]. simpl in *.
  destruct (apply_loop_core es2 _ _ Hc) as [Hc' _]. rewrite Hc'. by destruct (apply_loop i' es2).
Qed.

(** ** The log *)

#[local] Instance key_le_decision a b : Decision (key_le a b) := decide (a.1 ≤ b.1).
#[local] Instance key_le_trans : Transitive key_le.
Proof. unfold key_le. intros ???. lia. Qed.
#[local] Instance key_le_total : Total key_le.
Proof. unfold key_le. intros ??. lia. Qed.

Lemma btree_iter_perm (m : gmap Z Entry) : btree_iter m ≡ₚ map_to_list m.
Proof. apply merge_sort_Permutation. Qed.
Lemma elem_of_btree_iter (m : gmap Z Entry) k e : (k, e) ∈ btree_iter m ↔ m !! k = Some e.
Proof. by rewrite btree_iter_perm, elem_of_map_to_list. Qed.
Lemma btree_iter_sorted (m : gmap Z Entry) : StronglySorted key_le (btree_iter m).
Proof. apply (StronglySorted_merge_sort key_le). Qed.

Lemma filterb_sorted {A} (R : A → A → Prop) (p : A → bool) l :
  StronglySorted R l → StronglySorted R (filterb p l).
Proof.
  induction 1 as [|x l Hl IH Hx]; simpl; [constructor|].
  destruct (p x); [|done]. constructor; [done|]. apply Forall_forall.
  intros y [Hy _]%elem_of_filterb. by apply (proj1 (Forall_forall _ _) Hx).
Qed.

Lemma log_remove_keys_lookup keys (m : gmap Z Entry) k :
  log_remove_keys keys m !! k = if decide (k ∈ keys) then None else m !! k.
Proof.
  unfold log_remove_keys. revert m. induction keys as [|k' keys IH]; intros m.
  { case_decide as Hin; [by apply elem_of_nil in Hin|done]. }
  cbn [foldl]. rewrite IH. destruct (decide (k = k')) as [->|Hne].
  - rewrite lookup_delete_eq. repeat case_decide; first [done|exfalso; set_solver].
  - rewrite lookup_delete_ne by done. repeat case_decide; first [done|exfalso; set_solver].
Qed.

Lemma log_remove_range_lookup (p : Z → bool) (m : gmap Z Entry) k :
  log_remove_keys (filterb (λ q, p q.1) (btree_iter m)).*1 m !! k = if p k then None else m !! k.
Proof.
  rewrite log_remove_keys_lookup. case_decide as Hin.
  - apply list_elem_of_fmap in Hin as ([k' e] & -> & [_ Hp]%elem_of_filterb). simpl in *. by rewrite Hp.
  - destruct (p k) eqn:Hp; [|done]. destruct (m !! k) as [e|] eqn:Hk; [|done]. destruct Hin.
    apply list_elem_of_fmap. exists (k, e). split; [done|]. apply elem_of_filterb.
    split; [by apply elem_of_btree_iter|done].
Qed.

Lemma log_append_lookup_lt es (m : gmap Z Entry) (i k : Z) :
  consecutive i es → k < i →
  foldl (λ m e, <[log_index (entry_log_id e) := e]> m) m es !! k = m !! k.
Proof.
  revert m i. induction es as [|e es IH]; intros m i Hc Hk; simpl; [done|].
  destruct Hc as [He Hc]. rewrite (IH _ (i + 1)) by (done || lia). rewrite lookup_insert_ne; [done|lia].
Qed.

Lemma log_append_lookup_ge es (m : gmap Z Entry) (i k : Z) :
  consecutive i es → i ≤ k →
  foldl (λ m e, <[log_index (entry_log_id e) := e]> m) m es !! k =
    match es !! Z.to_nat (k - i) with Some e => Some e | None => m !! k end.
Proof.
  revert m i. induction es as [|e es IH]; intros m i Hc Hk; simpl; [done|].
  destruct Hc as [He Hc]. destruct (decide (k = i)) as [->|Hne].
  - rewrite Z.sub_diag. simpl. rewrite (log_append_lookup_lt _ _ (i + 1)) by (done || lia).
    rewrite He. by rewrite lookup_insert_eq.
  - rewrite (IH _ (i + 1)) by (done || lia).
    replace (Z.to_nat (k - i)) with (S (Z.to_nat (k - (i + 1)))) by lia. simpl.
    rewrite lookup_insert_ne by lia. done.
Qed.

Lemma btree_iter_last (m : gmap Z Entry) k e :
  m !! k = Some e → (∀ k' e', m !! k' = Some e' → k' ≤ k) → last (btree_iter m) = Some (k, e).
Proof.
  intros Hk Hmax. apply elem_of_btree_iter in Hk as Hin.
  apply list_elem_of_split in Hin as (l1 & l2 & Heq).
  pose proof (btree_iter_sorted m) as Hs. rewrite Heq in Hs |- *.
  destruct l2 as [|[k2 e2] l2 _] using rev_ind; [by rewrite last_snoc|].
  rewrite app_comm_cons, app_assoc in Hs |- *. rewrite last_snoc.
  apply StronglySorted_app_1_elem_of with (x1 := (k, e)) (x2 := (k2, e2)) in Hs; try set_solver.
  assert (m !! k2 = Some e2) as H2 by (apply elem_of_btree_iter; rewrite Heq; set_solver).
  assert (k2 = k) as ->; [|congruence].
  specialize (Hmax _ _ H2). unfold key_le in *. simpl in *. lia.
Qed.
End lemmas.

(** Two lists sorted by key, without repeated keys, with the same elements are equal. *)
Lemma sorted_keys_unique `{RT : RaftTypes} (l1 l2 : list (Z * Entry)) :
  StronglySorted (λ a b, a.1 < b.1) l1 → StronglySorted (λ a b, a.1 < b.1) l2 →
  (∀ x, x ∈ l1 ↔ x ∈ l2) → l1 = l2.
Proof.
  intros H1. revert l2. induction H1 as [|x l1 Hl1 IH Hx]; intros l2 H2 Hin.
  { destruct l2 as [|y l2]; [done|]. specialize (Hin y). set_solver. }
  destruct H2 as [|y l2 Hl2 Hy]; [specialize (Hin x); set_solver|].
  rewrite Forall_forall in Hx. rewrite Forall_forall in Hy.
  assert (x = y) as ->.
  { pose proof (proj1 (Hin x) ltac:(left)) as [?|Hxl]%elem_of_cons; [done|].
    pose proof (proj2 (Hin y) ltac:(left)) as [?|Hyl]%elem_of_cons; [done|].
    specialize (Hx y Hyl). specialize (Hy x Hxl). simpl in *. lia. }
  f_equal. apply IH; [done|]. intros z. split; intros Hz.
  - pose proof (proj1 (Hin z) ltac:(by right)) as [->|?]%elem_of_cons; [|done].
    specialize (Hx y Hz). simpl in *. lia.
  - pose proof (proj2 (Hin z) ltac:(by right)) as [->|?]%elem_of_cons; [|done].
    specialize (Hy y Hz). simpl in *. lia.
Qed.

Section log_read.
Context `{HI : HashIter} `{RT : RaftTypes}.

Lemma btree_iter_strict (m : gmap Z Entry) : StronglySorted (λ a b, a.1 < b.1) (btree_iter m).
Proof.
  pose proof (btree_iter_sorted m) as Hs.
  assert (NoDup (btree_iter m).*1) as Hnd by (rewrite btree_iter_perm; apply NoDup_fst_map_to_list).
  induction Hs as [|x l Hl IH Hx]; [constructor|]. simpl in Hnd. apply NoDup_cons in Hnd as [Hn Hnd].
  constructor; [by apply IH|]. rewrite Forall_forall in Hx |- *. intros y Hy.
  specialize (Hx y Hy). unfold key_le in Hx. assert (x.1 ≠ y.1); [|lia].
  intros Heq. apply Hn. rewrite Heq. apply list_elem_of_fmap. eauto.
Qed.

(** The entries a log holds from [i] on, indexed. *)
Definition indexed (i : Z) (es : list Entry) : list (Z * Entry) :=
  imap (λ n e, (i + Z.of_nat n, e)) es.
Lemma elem_of_indexed i es k e : (k, e) ∈ indexed i es ↔ i ≤ k ∧ es !! Z.to_nat (k - i) = Some e.
Proof.
  unfold indexed. rewrite list_elem_of_lookup. setoid_rewrite list_lookup_imap_Some. split.
  - intros (n & x & Hx & [= -> ->]). split; [lia|]. by replace (Z.to_nat _) with n by lia.
  - intros [Hi He]. exists (Z.to_nat (k - i)), e. split; [done|]. f_equal. lia.
Qed.
Lemma indexed_sorted i es : StronglySorted (λ a b, a.1 < b.1) (indexed i es).
Proof.
  revert i. induction es as [|e es IH]; intros i; unfold indexed; simpl; [constructor|].
  constructor.
  - rewrite (imap_ext _ (λ n e, (i + 1 + Z.of_nat n, e))); [apply IH|]. simpl. intros. f_equal. lia.
  - apply Forall_forall. intros [k x] Hin. apply list_elem_of_lookup in Hin as [n Hn].
    apply list_lookup_imap_Some in Hn as (y & _ & [= -> ->]). simpl. lia.
Qed.
Lemma indexed_snd i es : (indexed i es).*2 = es.
Proof. unfold indexed. rewrite fmap_imap. simpl. revert i. induction es as [|e es IH]; intros i; simpl; [done|].
  f_equal. apply (IH i). Qed.
End log_read.

(** * Theorems *)

Section theorems.
Context `{HI : HashIter} `{RT : RaftTypes}.

(** applying a batch of log entries leaves the state that the batch's commands lead to, in order;
    it answers every entry once, each with the response of its command at that point of the log
    ([Ok] for blank and membership entries); the last applied identifier is the last entry's, the
    version grows by one whatever the size of the batch, and a subscriber sees the new version. *)
Theorem store_apply_spec (st : StateMachineStore) (es : list Entry) :
  let '(st', rs) := store_apply st es in
  fsm (state st') = apply_commands (fsm (state st)) (normal_cmds es) ∧
  (∀ k e, es !! k = Some e → rs !! k = Some
    match entry_payload e with
    | Normal cmd => (apply_command (apply_commands (fsm (state st)) (normal_cmds (take k es))) cmd).2
    | _ => RespOk
    end) ∧
  length rs = length es ∧
  last_applied (state st') = match last es with Some e => Some (entry_log_id e) | None => last_applied (state st) end ∧
  version (state st') = u64_add (version (state st)) 1 ∧
  (watch_receivers (change_tx st) ≠ 0%nat → watch_value (change_tx st') = version (state st')) ∧
  current_snapshot st' = current_snapshot st.
Proof.
  unfold store_apply.
  pose proof (apply_loop_fsm es (state st)) as Hf. pose proof (apply_loop_responses es (state st)) as Hr.
  pose proof (apply_loop_last es (state st)) as Hl. pose proof (apply_loop_version es (state st)) as Hv.
  assert (length (apply_loop (state st) es).2 = length es) as Hlen.
  { generalize (state st). clear. induction es as [|e es IH]; intros i; simpl; [done|].
    destruct (apply_entry i e) as [i' r]. specialize (IH i'). destruct (apply_loop i' es). simpl in *. lia. }
  destruct (apply_loop (state st) es) as [i rs]. simpl in *. rewrite Hv. split_and!; try done.
  intros Hw. unfold watch_send. by rewrite decide_False.
Qed.

(** C12: how openraft cuts the log into batches does not matter: two ways of delivering the same
    entries lead to the same cluster state, last applied identifier and membership, and to the same
    responses. *)
Theorem batching_irrelevant (st : StateMachineStore) (bs1 bs2 : list (list Entry)) :
  concat bs1 = concat bs2 →
  core (state (apply_batches st bs1).1) = core (state (apply_batches st bs2).1) ∧
  (apply_batches st bs1).2 = (apply_batches st bs2).2.
Proof.
  intros Hc. destruct (apply_batches_core st bs1) as [-> ->].
  destruct (apply_batches_core st bs2) as [-> ->]. by rewrite Hc.
Qed.

(** C14: the log reads back what was appended: after a conflicting suffix is truncated at index [i]
    and entries with consecutive indices from [i] are appended, reading from [i] on returns exactly
    those entries in order, and every entry below [i] is the one that was there before. *)
Theorem log_truncate_append_read (l : LogStore) (id : LogId) (es : list Entry) :
  consecutive (log_index id) es →
  let l' := log_append (log_truncate l id) es in
  try_get_log_entries (λ k, log_index id <=? k) l' = es ∧
  (∀ k, k < log_index id → log l' !! k = log l !! k).
Proof.
  intros Hc l'. split.
  - unfold try_get_log_entries.
    rewrite <-(indexed_snd (log_index id) es). f_equal. apply sorted_keys_unique.
    + apply filterb_sorted, btree_iter_strict.
    + apply indexed_sorted.
    + intros [k e]. rewrite elem_of_filterb, elem_of_btree_iter, elem_of_indexed. subst l'. simpl.
      rewrite Z.leb_le. split.
      * intros [He Hk]. split; [done|]. rewrite (log_append_lookup_ge _ _ (log_index id)) in He by done.
        destruct (es !! _); [done|]. rewrite (log_remove_range_lookup (λ k, log_index id <=? k)) in He.
        by rewrite (proj2 (Z.leb_le _ _) Hk) in He.
      * intros [Hk He]. split; [|done]. rewrite (log_append_lookup_ge _ _ (log_index id)) by done.
        by rewrite He.
  - intros k Hk. subst l'. simpl. rewrite log_append_lookup_lt with (i := log_index id) by done.
    rewrite (log_remove_range_lookup (λ k, log_index id <=? k)).
    destruct (log_index id <=? k) eqn:E; [apply Z.leb_le in E; lia|done].
Qed.

(** purging up to an identifier drops exactly the entries up to its index, and the reported log
    state is that identifier and the last identifier still in the log (the purged one when the log is
    then empty). *)
Theorem log_purge_state (l : LogStore) (id : LogId) :
  (∀ k, log (log_purge l id) !! k = if k <=? log_index id then None else log l !! k) ∧
  (get_log_state (log_purge l id)).1 = Some id ∧
  (∀ k e, log l !! k = Some e → log_index id < k → (∀ k' e', log l !! k' = Some e' → k' ≤ k) →
     (get_log_state (log_purge l id)).2 = Some (entry_log_id e)) ∧
  ((∀ k e, log l !! k = Some e → k ≤ log_index id) → (get_log_state (log_purge l id)).2 = Some id).
Proof.
  assert (∀ k, log (log_purge l id) !! k = if k <=? log_index id then None else log l !! k) as Hlk.
  { intros k. simpl. apply (log_remove_range_lookup (λ k, k <=? log_index id)). }
  split_and!; [done|done|..].
  - intros k e Hk Hlt Hmax. unfold get_log_state.
    rewrite (btree_iter_last (log (log_purge l id)) k e); [done| |].
    + rewrite Hlk. by rewrite (proj2 (Z.leb_gt _ _) Hlt).
    + intros k' e'. rewrite Hlk. destruct (k' <=? log_index id); [done|]. eauto.
  - intros Hall. unfold get_log_state.
    assert (log (log_purge l id) = ∅) as He.
    { apply map_empty. intros k. rewrite Hlk. destruct (k <=? log_index id) eqn:E; [done|].
      destruct (log l !! k) eqn:Hk; [|done]. specialize (Hall _ _ Hk). apply Z.leb_gt in E. lia. }
    rewrite He. by vm_compute.
Qed.
End theorems.

Section snapshots.
Context `{HI : HashIter} `{RT : RaftTypes} `{SC : SnapshotCodec} `{!SnapshotCodecLaws SC}.
Context (meta_to_json : SnapshotMeta → result string string)
        (meta_from_json : string → result SnapshotMeta string).
Context (vote_from_json : string → result Vote string).

(** What a successful [build_snapshot] produced. *)
Lemma build_snapshot_inv budget b st d snap st' d' :
  build_snapshot meta_to_json budget b st d = (Ok snap, st', d') →
  decode (snap_data snap) = Ok (fsm_snapshot b) ∧
  meta_last_log_id (snap_meta snap) = sb_last_applied b ∧
  meta_last_membership (snap_meta snap) = sb_last_membership b ∧
  state st' = state st ∧ current_snapshot st' = Some snap ∧
  d' = persist_snapshot meta_to_json budget (sb_raft_dir b) d (snap_data snap) (snap_meta snap).
Proof.
  unfold build_snapshot. destruct (encode (fsm_snapshot b)) as [data|] eqn:E; [|done].
  intros ?; simplify_eq; simpl. split_and!; try done. by apply decode_encode.
Qed.

Lemma open_snapshot d data meta f v :
  read_vote vote_from_json d = Ok v → read_snapshot meta_from_json d = Ok (Some (data, meta)) →
  decode data = Ok f →
  mill_raft_open meta_from_json vote_from_json d =
    Ok (LogStore_with_persistence v, from_snapshot f meta data).
Proof. intros Hv Hs Hf. unfold mill_raft_open. rewrite Hv. simpl. rewrite Hs. simpl. by rewrite Hf. Qed.

Lemma read_vote_frame budget d data (meta : SnapshotMeta) :
  read_vote vote_from_json (write_snapshot meta_to_json budget d data meta).2 = read_vote vote_from_json d.
Proof. unfold read_vote. rewrite write_snapshot_frame; [done|]. set_solver. Qed.

(** C11: a node that installs a snapshot ends up where the others are: a snapshot is the state at the
    moment its builder was taken, even though the log goes on being applied ([es2]) before the
    builder runs; a node that installs it and then applies the entries that followed has the same
    cluster state, last applied identifier and membership as the node that built it. *)
Theorem snapshot_install_replay budget st0 es1 es2 es3 d snap st_b d' target budget' dt :
  let st1 := (store_apply st0 es1).1 in
  build_snapshot meta_to_json budget (get_snapshot_builder st1) (store_apply st1 es2).1 d = (Ok snap, st_b, d') →
  let '(r, target', _) :=
    install_snapshot meta_to_json budget' target dt (snap_meta snap) (snap_data snap) in
  r = Ok tt ∧ get_current_snapshot target' = Some snap ∧
  core (state (store_apply target' (es2 ++ es3)).1) = core (state (store_apply st_b es3).1).
Proof.
  intros st1 Hb. apply build_snapshot_inv in Hb as (Hdec & Hl & Hm & Hst & _ & _).
  unfold install_snapshot. rewrite Hdec. split_and!; [done|by destruct snap|].
  match goal with |- core (state (store_apply ?t _).1) = _ => assert (core (state t) = core (state st1)) as Hc end.
  { unfold core. simpl. by rewrite Hl, Hm. }
  destruct (store_apply_same _ _ (es2 ++ es3) Hc) as [-> _].
  rewrite <-store_apply_twice. by apply store_apply_same; rewrite Hst.
Qed.

(** C13: a node that was restarted after its snapshot had been written loads that snapshot and its
    vote, and after replaying the entries that followed is where it would have been without the
    restart. *)
Theorem restart_recovers budget st0 es1 es2 d snap st_b d' v j :
  meta_to_json (snap_meta snap) = Ok j → meta_from_json j = Ok (snap_meta snap) →
  raft_dir st0 = true → (8 ≤ budget)%nat → read_vote vote_from_json d = Ok v →
  let st1 := (store_apply st0 es1).1 in
  build_snapshot meta_to_json budget (get_snapshot_builder st1) (store_apply st1 es2).1 d = (Ok snap, st_b, d') →
  ∃ ls st', mill_raft_open meta_from_json vote_from_json d' = Ok (ls, st') ∧
    log_read_vote ls = v ∧ get_current_snapshot st' = Some snap ∧
    applied_state st' = applied_state st1 ∧
    core (state (store_apply st' es2).1) = core (state st_b).
Proof.
  intros Hj Hj' Hdir Hbud Hv st1 Hb. apply build_snapshot_inv in Hb as (Hdec & Hl & Hm & Hst & _ & Hd').
  assert (sb_raft_dir (get_snapshot_builder st1) = true) as Hp.
  { subst st1. simpl. unfold store_apply. by destruct (apply_loop (state st0) es1). }
  rewrite Hp in Hd'. simpl in Hd'.
  destruct (write_snapshot_complete meta_to_json budget d (snap_data snap) (snap_meta snap) j Hj Hbud)
    as (b & d2 & Hw).
  assert (d' = d2) as -> by (by rewrite Hd', Hw).
  pose proof (read_vote_frame budget d (snap_data snap) (snap_meta snap)) as Hv2. rewrite Hw, Hv in Hv2.
  rewrite (open_snapshot _ (snap_data snap) (snap_meta snap) (fsm_snapshot (get_snapshot_builder st1)) v);
    [|done|by eapply read_after_write|done].
  do 2 eexists. split; [reflexivity|]. split_and!; [done|by destruct snap|unfold applied_state; simpl; by rewrite Hl, Hm|].
  rewrite Hst. apply store_apply_same. unfold core. simpl. by rewrite Hl, Hm.
Qed.

(** a crash (or a device failure) between the two renames of a snapshot write leaves a directory
    from which the node starts with the cluster state of the new snapshot but the last applied
    identifier of the old one: when the entries in between are then delivered again, each of their
    commands has been applied twice. *)
Theorem torn_snapshot_reapplies budget st0 es d data0 meta0 json0 snap st_b d' v j :
  meta_to_json (snap_meta snap) = Ok j → raft_dir st0 = true → (4 ≤ budget < 8)%nat →
  d !! "snapshot.bin"%string = Some data0 → d !! "snapshot-meta.json"%string = Some json0 →
  meta_from_json json0 = Ok meta0 → meta_last_log_id meta0 = last_applied (state st0) →
  read_vote vote_from_json d = Ok v →
  let st1 := (store_apply st0 es).1 in
  build_snapshot meta_to_json budget (get_snapshot_builder st1) st1 d = (Ok snap, st_b, d') →
  ∃ ls st', mill_raft_open meta_from_json vote_from_json d' = Ok (ls, st') ∧
    last_applied (state st') = last_applied (state st0) ∧
    fsm (state (store_apply st' es).1) =
      apply_commands (apply_commands (fsm (state st0)) (normal_cmds es)) (normal_cmds es).
Proof.
  intros Hj Hdir Hbud Hd0 Hm0 Hj0 Hlast Hv st1 Hb.
  apply build_snapshot_inv in Hb as (Hdec & Hl & Hm & Hst & _ & Hd').
  assert (sb_raft_dir (get_snapshot_builder st1) = true ∧
          fsm (state st1) = apply_commands (fsm (state st0)) (normal_cmds es)) as [Hp Hf].
  { subst st1. simpl. unfold store_apply. pose proof (apply_loop_fsm es (state st0)) as Hf.
    by destruct (apply_loop (state st0) es). }
  rewrite Hp in Hd'. simpl in Hd'.
  destruct (write_snapshot_torn meta_to_json meta_from_json d data0 meta0 json0 (snap_data snap) _ j budget
    Hd0 Hm0 Hj0 Hj Hbud) as (b & d2 & Hw & Hr).
  assert (d' = d2) as -> by (by rewrite Hd', Hw).
  pose proof (read_vote_frame budget d (snap_data snap) (snap_meta snap)) as Hv2. rewrite Hw, Hv in Hv2.
  rewrite (open_snapshot _ (snap_data snap) meta0 (fsm_snapshot (get_snapshot_builder st1)) v); [|done..].
  do 2 eexists. split; [reflexivity|]. split; [done|].
  unfold store_apply. match goal with |- context [apply_loop ?i es] => pose proof (apply_loop_fsm es i) as Hf2;
    destruct (apply_loop i es) end. simpl in *. by rewrite Hf2, Hf.
Qed.
End snapshots.

(** * Witnesses *)

Module StoreExamples.
(** Log identifiers as indices, a serializer that keeps the state in a table of its own. *)
#[local] Instance ex_types : RaftTypes := {|
  LogId := Z; log_index := λ i, i; Membership := string; StoredMembership := option Z * string;
  StoredMembership_new := λ i m, (i, m); StoredMembership_default := (None, EmptyString);
  Vote := string |}.
Definition ex_entry (i : Z) (c : Command) : Entry := mkEntry (i : LogId) (Normal c).
Definition ex_es1 : list Entry :=
  [mkEntry (1 : LogId) Blank; ex_entry 2 (FsmExamples.ex_reg 1 "node-1"); ex_entry 3 (FsmExamples.ex_sched "web-0" 1)].
Definition ex_es2 : list Entry := [ex_entry 4 (NodeDrain 1)].
Definition ex_st0 : StateMachineStore := StateMachineStore_with_persistence.
Definition ex_fsm1 : FsmState :=
  fsm (state (@store_apply stored_order ex_types ex_st0 ex_es1).1).
(** A codec that can encode two states: the empty one and [ex_fsm1]. Every other state is an error,
    as for a serializer that runs out of space. *)
Definition ex_codec : SnapshotCodec := {|
  rmp_to_vec := λ s,
    if decide (s = FsmState_default) then Ok "empty"%string
    else if decide (s = ex_fsm1) then Ok "one"%string else Err "full"%string;
  rmp_from_slice := λ b,
    if decide (b = "empty"%string) then Ok FsmState_default
    else if decide (b = "one"%string) then Ok ex_fsm1 else Err "corrupt"%string;
  zstd_encode_all := λ b, Ok b;
  zstd_decode_all := λ b, Ok b |}.
#[local] Instance ex_codec_laws : SnapshotCodecLaws ex_codec.
Proof.
  split; simpl.
  - intros s b. repeat case_decide; intros; simplify_eq; done.
  - by intros b c [= <-].
Qed.
(** Metadata is printed as the index it stands at. *)
Definition ex_meta1 : SnapshotMeta := mkSnapshotMeta (Some 3 : option LogId) (None, EmptyString) "snapshot-3".
Definition ex_meta0 : SnapshotMeta := mkSnapshotMeta (None : option LogId) (None, EmptyString) "snapshot-0".
Definition ex_meta_to_json (m : SnapshotMeta) : result string string :=
  Ok match meta_last_log_id m with
     | Some i => if decide (i = 3) then "three"%string else "other"%string
     | None => "none"%string
     end.
Definition ex_meta_from_json (j : string) : result SnapshotMeta string :=
  if decide (j = "three"%string) then Ok ex_meta1
  else if decide (j = "none"%string) then Ok ex_meta0 else Err "corrupt"%string.
Definition ex_vote_from_json (j : string) : result Vote string := Ok j.
Definition ex_dir0 : Dir := {["snapshot.bin" := "empty"; "snapshot-meta.json" := "none"; "vote.json" := "v1"]}%string.
End StoreExamples.
Import StoreExamples.

Lemma batching_irrelevant_witness :
  let st1 := (@apply_batches stored_order ex_types ex_st0 [ex_es1; ex_es2]).1 in
  core (state st1) = core (state (@apply_batches stored_order ex_types ex_st0 [[]; ex_es1 ++ ex_es2]).1) ∧
  last_applied (state st1) = Some 4.
Proof.
  split; [|vm_compute; reflexivity].
  apply (@batching_irrelevant stored_order ex_types ex_st0 [ex_es1; ex_es2] [[]; ex_es1 ++ ex_es2]). reflexivity.
Defined.

Definition ex_build (budget : nat) : result RaftSnapshot SnapshotError * StateMachineStore * Dir :=
  let st1 := (@store_apply stored_order ex_types ex_st0 ex_es1).1 in
  @build_snapshot ex_types ex_codec ex_meta_to_json budget (get_snapshot_builder st1)
    (@store_apply stored_order ex_types st1 ex_es2).1 ex_dir0.
Definition ex_snap : RaftSnapshot := mkRaftSnapshot ex_meta1 "one".

Lemma snapshot_install_replay_witness :
  let '(r, target', _) := @install_snapshot ex_types ex_codec ex_meta_to_json 8 ex_st0 ∅ ex_meta1 "one" in
  r = Ok tt ∧ get_current_snapshot target' = Some ex_snap ∧
  core (state (@store_apply stored_order ex_types target' (ex_es2 ++ [])).1) =
  core (state (@store_apply stored_order ex_types (ex_build 8).1.2 []).1).
Proof.
  apply (@snapshot_install_replay stored_order ex_types ex_codec ex_codec_laws ex_meta_to_json 8 ex_st0 ex_es1
           ex_es2 [] ex_dir0 ex_snap (ex_build 8).1.2 (ex_build 8).2 ex_st0 8 ∅).
  vm_compute. reflexivity.
Defined.

Lemma restart_recovers_witness :
  ∃ ls st', @mill_raft_open ex_types ex_codec ex_meta_from_json ex_vote_from_json (ex_build 8).2 = Ok (ls, st') ∧
    core (state (@store_apply stored_order ex_types st' ex_es2).1) = core (state (ex_build 8).1.2).
Proof.
  destruct (@restart_recovers stored_order ex_types ex_codec ex_codec_laws ex_meta_to_json ex_meta_from_json
    ex_vote_from_json 8 ex_st0 ex_es1 ex_es2 ex_dir0 ex_snap (ex_build 8).1.2 (ex_build 8).2 (Some "v1"%string) "three")
    as (ls & st' & H1 & _ & _ & _ & H2);
    [reflexivity|reflexivity|reflexivity|lia|vm_compute; reflexivity|vm_compute; reflexivity|].
  exists ls, st'. split; [exact H1|exact H2].
Defined.

(** The registration and the placement of the first snapshot are applied a second time. *)
Lemma torn_snapshot_reapplies_witness :
  let st1 := (@store_apply stored_order ex_types ex_st0 ex_es1).1 in
  let d' := (@build_snapshot ex_types ex_codec ex_meta_to_json 5 (get_snapshot_builder st1) st1 ex_dir0).2 in
  ∃ ls st', @mill_raft_open ex_types ex_codec ex_meta_from_json ex_vote_from_json d' = Ok (ls, st') ∧
    last_applied (state st') = None ∧
    fsm (state (@store_apply stored_order ex_types st' ex_es1).1) =
      @apply_commands stored_order (@apply_commands stored_order FsmState_default (normal_cmds ex_es1)) (normal_cmds ex_es1).
Proof.
  intros st1 d'.
  apply (@torn_snapshot_reapplies stored_order ex_types ex_codec ex_codec_laws ex_meta_to_json ex_meta_from_json
    ex_vote_from_json 5 ex_st0 ex_es1 ex_dir0 "empty" ex_meta0 "none" ex_snap
    (@build_snapshot ex_types ex_codec ex_meta_to_json 5 (get_snapshot_builder st1) st1 ex_dir0).1.2 d' (Some "v1"%string) "three");
    [reflexivity|reflexivity|lia|vm_compute; reflexivity|vm_compute; reflexivity|reflexivity|reflexivity
    |vm_compute; reflexivity|vm_compute; reflexivity].
Defined.

Lemma log_truncate_append_read_witness :
  let l := @log_append ex_types LogStore_new (ex_es1 ++ ex_es2) in
  let es := [ex_entry 3 (NodeDown 1); ex_entry 4 (NodeDown 2)] in
  let l' := @log_append ex_types (log_truncate l (3 : @LogId ex_types)) es in
  try_get_log_entries (λ k, 3 <=? k) l' = es ∧ log l' !! 2 = log l !! 2.
Proof.
  intros l es l'.
  destruct (@log_truncate_append_read ex_types l (3 : @LogId ex_types) es) as [H1 H2];
    [vm_compute; repeat split; reflexivity|].
  split; [exact H1|]. apply H2. reflexivity.
Defined.
