(* ===== verification/Scheduler.v ===== *)
(** Placement ([src/crates/node/src/primary/scheduler.rs]): the pure function that picks the node of
    a new allocation. The theorems characterise it completely: when it returns a node and when it
    returns none, the pinning to the node of an attached volume, the spread of a service's
    allocations over nodes, and the bin-packing choice among the candidates in binary64 arithmetic
    (which never meets a NaN there). *)

From S2P Require Import Prelude Types Fsm.
Local Open Scope Z_scope.

Record ScheduleRequest := mkScheduleRequest {
  sr_need : Resources;
  sr_name : string;
  sr_kind : AllocKind;
  sr_volume : option string;
}.

Definition has_capacity (available : option NodeResources) (need : Resources) : bool :=
  match available with
  | Some avail =>
      f64_leb (res_cpu need) (cpu_available avail) && (res_memory need <=? memory_available avail)
  | None => false
  end.

Definition bin_pack_score (avail : NodeResources) : f64 :=
  f64_add (cpu_available avail) (f64_div (f64_of_Z (memory_available avail)) (f64_of_Z (2 ^ 30))).

(** The node the volume of a request is attached to. *)
Definition volume_node (request : ScheduleRequest) (vols : list (string * FsmVolume)) : option NodeId :=
  vol_name ← sr_volume request;
  '(_, vol) ← find_first (λ '(name, _), bool_decide (name = vol_name)) vols;
  match vol_state vol with
  | VolAttached node => Some node
  | VolReady => None
  end.

(** Step 2: ready nodes with enough left. *)
Definition candidates (request : ScheduleRequest) (ns : list FsmNode)
    (available_fn : Z → option NodeResources) : list (FsmNode * NodeResources) :=
  filter_map (λ n,
      avail ← available_fn (raft_id n);
      if has_capacity (Some avail) (sr_need request) then Some (n, avail) else None)
    (filterb (λ n, bool_decide (fn_status n = NodeReady)) ns).

(** Step 3: the nodes that run a service of this name, and the candidates without one. *)
Definition nodes_with_same (request : ScheduleRequest) (als : list (NodeId * string * AllocKind)) : gset NodeId :=
  list_to_set ((λ a, a.1.1) <$>
    filterb (λ '(_, name, kind), bool_decide (name = sr_name request) && bool_decide (kind = KService)) als).
Definition spread (request : ScheduleRequest) (als : list (NodeId * string * AllocKind))
    (cs : list (FsmNode * NodeResources)) : list (FsmNode * NodeResources) :=
  filterb (λ '(n, _), negb (bool_decide (mill_id n ∈ nodes_with_same request als))) cs.

Definition schedule (request : ScheduleRequest) (ns : list FsmNode)
    (als : list (NodeId * string * AllocKind)) (vols : list (string * FsmVolume))
    (available_fn : Z → option NodeResources) : option NodeId :=
  match volume_node request vols with
  | Some node =>
      let fits := existsb (λ n, bool_decide (mill_id n = node) && bool_decide (fn_status n = NodeReady) &&
                                has_capacity (available_fn (raft_id n)) (sr_need request)) ns in
      if fits then Some node else None
  | None =>
      let cs := candidates request ns available_fn in
      if bool_decide (cs = []) then None
      else
        let cs :=
          if bool_decide (sr_kind request = KService) then
            let sp := spread request als cs in
            if bool_decide (sp = []) then cs else sp
          else cs in
        (λ c, mill_id c.1) <$>
          min_by (λ a b, f64_gtb (bin_pack_score a.2) (bin_pack_score b.2)) cs
  end.

(** * Specifications *)

(** A node on which the request fits. *)
Definition fits_on (request : ScheduleRequest) (available_fn : Z → option NodeResources) (n : FsmNode) : Prop :=
  fn_status n = NodeReady ∧
  ∃ avail, available_fn (raft_id n) = Some avail ∧
    f64_leb (res_cpu (sr_need request)) (cpu_available avail) = true ∧
    res_memory (sr_need request) ≤ memory_available avail.

(** A node that already runs a service allocation of the requested name. *)
Definition has_same (request : ScheduleRequest) (als : list (NodeId * string * AllocKind)) (n : FsmNode) : Prop :=
  (mill_id n, sr_name request, KService) ∈ als.

(** * Lemmas *)

Lemma has_capacity_true avail need :
  has_capacity avail need = true ↔ ∃ a, avail = Some a ∧
    f64_leb (res_cpu need) (cpu_available a) = true ∧ res_memory need ≤ memory_available a.
Proof.
  unfold has_capacity. destruct avail as [a|].
  - rewrite andb_true_iff, Z.leb_le. split; [eauto|]. by intros (? & [= <-] & ?).
  - split; [done|]. by intros (? & ? & _).
Qed.

Lemma elem_of_candidates request ns f n avail :
  (n, avail) ∈ candidates request ns f ↔
  n ∈ ns ∧ fn_status n = NodeReady ∧ f (raft_id n) = Some avail ∧
    f64_leb (res_cpu (sr_need request)) (cpu_available avail) = true ∧
    res_memory (sr_need request) ≤ memory_available avail.
Proof.
  unfold candidates. rewrite elem_of_filter_map. setoid_rewrite elem_of_filterb.
  setoid_rewrite bool_decide_eq_true. split.
  - intros (n' & [Hin Hst] & Hf). destruct (f (raft_id n')) as [a|] eqn:Ha; [|done]. simpl in Hf.
    destruct (f64_leb _ _ && _) eqn:Hc; [|done]. simplify_eq.
    apply andb_true_iff in Hc as [? ?%Z.leb_le]. done.
  - intros (Hin & Hst & Ha & Hc & Hm). exists n. split; [done|]. rewrite Ha. simpl.
    by rewrite Hc, (proj2 (Z.leb_le _ _) Hm).
Qed.

Lemma fits_on_candidate request ns f n :
  n ∈ ns → fits_on request f n ↔ ∃ avail, (n, avail) ∈ candidates request ns f.
Proof.
  intros Hin. setoid_rewrite elem_of_candidates. unfold fits_on. split.
  - intros (? & a & ? & ? & ?). eauto 10.
  - intros (a & _ & ? & ? & ? & ?). eauto 10.
Qed.

Lemma elem_of_nodes_with_same request als n :
  mill_id n ∈ nodes_with_same request als ↔ has_same request als n.
Proof.
  unfold nodes_with_same, has_same. rewrite elem_of_list_to_set, list_elem_of_fmap.
  setoid_rewrite elem_of_filterb. split.
  - intros ([[i nm] k] & -> & Hin & [?%bool_decide_eq_true ?%bool_decide_eq_true]%andb_true_iff).
    simpl. by subst.
  - intros Hin. exists (mill_id n, sr_name request, KService). split_and!; [done..|].
    by rewrite !bool_decide_eq_true_2.
Qed.

Lemma elem_of_spread request als cs n a :
  (n, a) ∈ spread request als cs ↔ (n, a) ∈ cs ∧ ¬ has_same request als n.
Proof.
  unfold spread. rewrite elem_of_filterb, <-elem_of_nodes_with_same.
  by rewrite negb_true_iff, bool_decide_eq_false.
Qed.

Lemma fits_existsb request ns f node :
  existsb (λ n, bool_decide (mill_id n = node) && bool_decide (fn_status n = NodeReady) &&
                has_capacity (f (raft_id n)) (sr_need request)) ns = true ↔
  ∃ n, n ∈ ns ∧ mill_id n = node ∧ fits_on request f n.
Proof.
  rewrite existsb_exists. setoid_rewrite andb_true_iff. setoid_rewrite andb_true_iff.
  setoid_rewrite bool_decide_eq_true. setoid_rewrite has_capacity_true.
  setoid_rewrite <-list_elem_of_In. unfold fits_on. split.
  - intros (n & ? & (? & ?) & ?). eauto 10.
  - intros (n & ? & ? & ? & ?). eauto 10.
Qed.

(** The candidates left after the spread step. *)
Definition final_candidates request ns als f : list (FsmNode * NodeResources) :=
  let cs := candidates request ns f in
  if bool_decide (sr_kind request = KService) then
    if bool_decide (spread request als cs = []) then cs else spread request als cs
  else cs.

Lemma final_candidates_sub request ns als f c :
  c ∈ final_candidates request ns als f → c ∈ candidates request ns f.
Proof.
  unfold final_candidates. destruct c as [n a]. repeat case_bool_decide; try done.
  intros [? _]%elem_of_spread. done.
Qed.

(** A candidate is considered unless the spread step prefers a node without the service. *)
Lemma final_candidates_intro request ns als f n a n' a' :
  (n, a) ∈ final_candidates request ns als f → (n', a') ∈ candidates request ns f →
  sr_kind request = KTask ∨ has_same request als n ∨ ¬ has_same request als n' →
  (n', a') ∈ final_candidates request ns als f.
Proof.
  intros Hin Hc Hor. unfold final_candidates in *.
  case_bool_decide as Hk; [|done]. case_bool_decide as Hsp; [done|].
  destruct Hor as [?|[Hs|Hs]]; [congruence| |by apply elem_of_spread].
  by apply elem_of_spread in Hin as [_ []].
Qed.

Lemma final_candidates_nil request ns als f :
  final_candidates request ns als f = [] ↔ candidates request ns f = [].
Proof.
  unfold final_candidates. repeat case_bool_decide; try done. split; [done|]. intros ->. done.
Qed.

Lemma schedule_unpinned request ns als vols f :
  volume_node request vols = None →
  schedule request ns als vols f =
    (λ c, mill_id c.1) <$>
      min_by (λ a b, f64_gtb (bin_pack_score a.2) (bin_pack_score b.2)) (final_candidates request ns als f).
Proof.
  intros Hv. unfold schedule. rewrite Hv. unfold final_candidates.
  destruct (candidates request ns f) as [|c cs] eqn:E; simpl; [by repeat case_bool_decide|done].
Qed.

(** ** Scores are numbers *)

Lemma shr_1_nonneg r : 0 ≤ shr_m r → 0 ≤ shr_m (shr_1 r).
Proof. destruct r as [m ro so]. simpl. by destruct m as [|[]|[]]. Qed.
Lemma shr_nonneg r e n : 0 ≤ shr_m r → 0 ≤ shr_m (shr r e n).1.
Proof.
  intros Hr. unfold shr. destruct n as [|p|p]; [done| |done]. simpl.
  revert r Hr. induction p as [p IH|p IH|]; intros r Hr; simpl; auto using shr_1_nonneg.
Qed.
Lemma shr_fexp_nonneg m e l : 0 ≤ m → 0 ≤ shr_m (shr_fexp 53 1024 m e l).1.
Proof. intros Hm. unfold shr_fexp. apply shr_nonneg. by destruct l as [|[]]. Qed.
Lemma round_even_nonneg m l : 0 ≤ m → 0 ≤ round_nearest_even m l.
Proof. intros Hm. destruct l as [|[]]; simpl; try lia. destruct (Z.even m); lia. Qed.

(** Zero, positive or plus infinity. *)
Definition f64_pos (x : f64) : bool :=
  match x with S754_zero _ | S754_finite false _ _ | S754_infinity false => true | _ => false end.

Lemma binary_round_aux_num s m e l :
  0 ≤ m → f64_is_nan (binary_round_aux 53 1024 s m e l) = false ∧
  (s = false → f64_pos (binary_round_aux 53 1024 s m e l) = true).
Proof.
  intros Hm. unfold binary_round_aux. pose proof (shr_fexp_nonneg m e l Hm) as H1.
  destruct (shr_fexp 53 1024 m e l) as [r e']. simpl in H1.
  pose proof (shr_fexp_nonneg _ e' loc_Exact (round_even_nonneg _ (loc_of_shr_record r) H1)) as H2.
  destruct (shr_fexp _ _ _ e' _) as [r2 e2]. simpl in H2.
  destruct (shr_m r2); [done| |lia]. destruct (_ <=? _); split; try done; by intros ->.
Qed.
Lemma f64_normalize_num m e s :
  f64_is_nan (binary_normalize 53 1024 m e s) = false ∧
  (0 ≤ m → f64_pos (binary_normalize 53 1024 m e s) = true).
Proof.
  unfold binary_normalize. destruct m as [|p|p]; [by destruct s|..]; unfold binary_round;
    destruct (shl_align p e _) as [mz ez];
    destruct (binary_round_aux_num false (Z.pos mz) ez loc_Exact) as [H1 H2];
    destruct (binary_round_aux_num true (Z.pos mz) ez loc_Exact) as [H3 H4]; try lia; split; auto; lia.
Qed.

(** A quotient of non-negative numbers is one again. *)
Lemma f64_div_pos x s m e :
  f64_pos x = true → s = false → f64_pos (f64_div x (S754_finite s m e)) = true.
Proof.
  intros Hx ->. unfold f64_div. destruct x as [[]|[]| |[] m' e']; simpl in *; try done.
  unfold SFdiv_core_binary.
  match goal with |- context [Z.div_eucl ?a ?b] => pose proof (Z_div_mod a b eq_refl) as Hd;
    destruct (Z.div_eucl a b) as [q r]; assert (0 ≤ a) as Ha end.
  { destruct (_ - _); simpl; try lia. apply Z.shiftl_nonneg. lia. }
  apply binary_round_aux_num; [|done]. destruct Hd as [Hd ?]. rewrite Hd in Ha. nia.
Qed.
Lemma f64_add_num x y :
  f64_is_nan x = false → x ≠ S754_infinity true → f64_pos y = true → f64_is_nan (f64_add x y) = false.
Proof.
  unfold f64_add. destruct x as [[]|[]| |[] m e], y as [[]|[]| |[] m' e']; simpl; try done;
    intros _ _ _; first [apply f64_normalize_num|exact (proj1 (f64_normalize_num (Z.pos _) _ false))
      |exact (proj1 (f64_normalize_num (Z.neg _) _ true))].
Qed.

Lemma f64_of_gib : f64_of_Z (2 ^ 30) = S754_finite false 4503599627370496 (-22).
Proof. vm_compute. reflexivity. Qed.

(** The score of a candidate is a number when the request does not ask for less than no CPU. *)
Lemma candidate_score_num request ns f n a :
  f64_leb f64_zero (res_cpu (sr_need request)) = true → 0 ≤ memory_available a →
  (n, a) ∈ candidates request ns f → f64_is_nan (bin_pack_score a) = false.
Proof.
  intros Hneed Hm (_ & _ & _ & Hc & _)%elem_of_candidates. unfold bin_pack_score. apply f64_add_num.
  - by apply f64_leb_not_nan in Hc as [_ ?].
  - intros Heq. rewrite Heq in Hc. by destruct (res_cpu (sr_need request)) as [[]|[]| |[]].
  - rewrite f64_of_gib. apply f64_div_pos; [|done]. by apply f64_normalize_num.
Qed.

(** * Theorems *)

(** C30: a returned node is one the request fits on: it is in the list given, ready, and has the
    memory and CPU left. No node is returned only when the request fits nowhere it may go: on no
    node at all, or, when its volume is attached, not on the node that holds the volume. *)
Theorem schedule_sound_complete request ns als vols f :
  match schedule request ns als vols f with
  | Some id => ∃ n, n ∈ ns ∧ mill_id n = id ∧ fits_on request f n ∧
                 (∀ v, volume_node request vols = Some v → id = v)
  | None => ∀ n, n ∈ ns → (∀ v, volume_node request vols = Some v → mill_id n = v) → ¬ fits_on request f n
  end.
Proof.
  destruct (volume_node request vols) as [v|] eqn:Hv.
  - unfold schedule. rewrite Hv. destruct (existsb _ _) eqn:E.
    + apply fits_existsb in E as (n & ? & ? & ?). exists n. split_and!; [done..|]. by intros ? [= <-].
    + intros n Hin Hid Hfit. apply not_true_iff_false in E. apply E, fits_existsb.
      exists n. split_and!; [done|by apply Hid|done].
  - rewrite schedule_unpinned by done. destruct (min_by _ _) as [[n a]|] eqn:Hm; simpl.
    + apply min_by_elem, final_candidates_sub in Hm. exists n.
      assert (n ∈ ns) by (by apply elem_of_candidates in Hm as [? _]).
      split_and!; [done|done| |done]. apply (fits_on_candidate request ns); eauto.
    + apply min_by_None, final_candidates_nil in Hm. intros n Hin _ [a Ha]%(fits_on_candidate request ns); [|done].
      rewrite Hm in Ha. by apply elem_of_nil in Ha.
Qed.

(** C31: among the nodes a request without an attached volume fits on, a service goes to one that
    runs no allocation of the same service whenever there is such a node, and the node chosen has
    the lowest bin-packing score of those considered. *)
Theorem schedule_spread_binpack request ns als vols f id :
  volume_node request vols = None → f64_leb f64_zero (res_cpu (sr_need request)) = true →
  (∀ i a, f i = Some a → 0 ≤ memory_available a) →
  schedule request ns als vols f = Some id →
  ∃ n a, n ∈ ns ∧ mill_id n = id ∧ f (raft_id n) = Some a ∧ fits_on request f n ∧
    (sr_kind request = KService → has_same request als n →
       ∀ n', n' ∈ ns → fits_on request f n' → has_same request als n') ∧
    (∀ n' a', n' ∈ ns → fits_on request f n' → f (raft_id n') = Some a' →
       sr_kind request = KTask ∨ has_same request als n ∨ ¬ has_same request als n' →
       f64_leb (bin_pack_score a) (bin_pack_score a') = true).
Proof.
  intros Hv Hneed Hmem Hs. rewrite schedule_unpinned in Hs by done.
  apply fmap_Some in Hs as ([n a] & Hmin & ->).
  set (ok := λ c : FsmNode * NodeResources, f64_is_nan (bin_pack_score c.2) = false).
  assert (∀ c, c ∈ candidates request ns f → ok c) as Hok.
  { intros [n' a'] Hc. eapply candidate_score_num; [done| |done].
    apply elem_of_candidates in Hc as (_ & _ & ? & _). eauto. }
  assert (Forall ok (final_candidates request ns als f)) as Hall.
  { apply Forall_forall. intros c Hc. by eapply Hok, final_candidates_sub. }
  destruct (min_by_spec _ ok (λ x, f64_gtb_irrefl _) (λ x y, f64_gtb_asym _ _)
    (λ x y z, f64_not_gtb_trans _ _ _) _ _ Hall Hmin) as [Hin Hbest].
  pose proof (final_candidates_sub _ _ _ _ _ Hin) as Hc.
  pose proof Hc as (Hns & _ & Ha & _)%elem_of_candidates.
  exists n, a. split_and!; [done..|apply (fits_on_candidate request ns); eauto| |].
  - intros Hk Hsame n' Hn' [a' Hc']%(fits_on_candidate request ns); [|done].
    unfold final_candidates in Hin. rewrite bool_decide_eq_true_2 in Hin by done.
    case_bool_decide as Hsp; [|by apply elem_of_spread in Hin as [_ []]].
    destruct (decide (mill_id n' ∈ nodes_with_same request als)) as [?|Hne]; [by apply elem_of_nodes_with_same|].
    exfalso. assert ((n', a') ∈ spread request als (candidates request ns f)) as Hx.
    { apply elem_of_spread. by rewrite <-elem_of_nodes_with_same. }
    rewrite Hsp in Hx. by apply elem_of_nil in Hx.
  - intros n' a' Hn' [a0 Hc']%(fits_on_candidate request ns) Ha' Hor; [|done].
    assert (a0 = a') as -> by (apply elem_of_candidates in Hc' as (_ & _ & ? & _); congruence).
    apply f64_not_gtb_leb; [apply (Hok (n, a)); done|apply (Hok (n', a')); done|].
    apply (Hbest (n', a')). by eapply final_candidates_intro.
Qed.

(** * Witnesses *)

Module SchedulerExamples.
Import FsmExamples.
Definition ex_nodes : list FsmNode :=
  [ex_node1; mkFsmNode 2 (mkNodeId "node-2") ex_addr ex_res NodeReady None None None None].
Definition ex_request : ScheduleRequest :=
  mkScheduleRequest (mkResources (f64_of_Z 1) (2 ^ 30)) "web" KService None.
Definition ex_running : list (NodeId * string * AllocKind) := [(mkNodeId "node-1", "web"%string, KService)].
Definition ex_available (i : Z) : option NodeResources :=
  if i =? 1 then Some (mkNodeResources (f64_of_Z 4) (f64_of_Z 2) (8 * 2 ^ 30) (2 * 2 ^ 30))
  else Some ex_res.
End SchedulerExamples.
Import SchedulerExamples.

Lemma schedule_spread_binpack_witness :
  schedule ex_request ex_nodes ex_running [] ex_available = Some (mkNodeId "node-2") ∧
  ∃ n a, n ∈ ex_nodes ∧ mill_id n = mkNodeId "node-2" ∧ ex_available (raft_id n) = Some a ∧
    fits_on ex_request ex_available n.
Proof.
  assert (schedule ex_request ex_nodes ex_running [] ex_available = Some (mkNodeId "node-2")) as Hs
    by (vm_compute; reflexivity).
  split; [exact Hs|].
  destruct (schedule_spread_binpack ex_request ex_nodes ex_running [] ex_available (mkNodeId "node-2"))
    as (n & a & H1 & H2 & H3 & H4 & _).
  - reflexivity.
  - vm_compute. reflexivity.
  - intros i a. unfold ex_available. destruct (i =? 1); intros [= <-]; vm_compute; discriminate.
  - exact Hs.
  - exists n, a. split; [exact H1|]. split; [exact H2|]. split; [exact H3|exact H4].
Defined.
