(* ===== verification/Rpc.v ===== *)
(** The link between the primary and its nodes ([src/crates/node/src/rpc], [src/crates/node/src/error.rs]):
    the messages, the length-prefixed frames they travel in, the authentication of a connection, and
    the router that holds one command channel per node. JSON encoding is a parameter. The theorems
    show that a stream of frames is read back as it was written, that only a holder of the token gets
    a command through, and where [send] and [broadcast] put a command. *)

From S2P Require Import Prelude Types.
Local Open Scope Z_scope.

(** * Errors (error.rs) *)

(** The errors of other crates are kept as their message. *)
Inductive NodeError :=
| ContainerdErr (e : string)
| NetErr (e : string)
| RaftErr (e : string)
| BindErr (address : string)
| PortExhaustion
| AllocNotFound (id : string)
| ServiceNotFound (name : string)
| NotATask (alloc : string)
| RaftRejected (e : string)
| BadRequest (e : string)
| AllocAlreadyExists (id : string)
| NodeUnreachable (node : string)
| IoErr (e : string)
| Internal (e : string)
| ChannelClosed
| DeployFailed (service reason : string).

Definition show_node_error (e : NodeError) : string :=
  match e with
  | ContainerdErr e | NetErr e | RaftErr e => e
  | BindErr address => "failed to bind " +:+ address
  | PortExhaustion => "no ports available"
  | AllocNotFound id => "allocation not found: " +:+ id
  | ServiceNotFound name => "service not found: " +:+ name
  | NotATask alloc => "allocation " +:+ alloc +:+ " is not a task"
  | RaftRejected e => "raft rejected: " +:+ e
  | BadRequest e => "bad request: " +:+ e
  | AllocAlreadyExists id => "allocation already exists: " +:+ id
  | NodeUnreachable node => "node unreachable: " +:+ node
  | IoErr e => "i/o error: " +:+ e
  | Internal e => "internal error: " +:+ e
  | ChannelClosed => "channel closed"
  | DeployFailed service reason => "deploy failed for " +:+ service +:+ ": " +:+ reason
  end%string.

#[global] Instance NodeError_eq_dec : EqDecision NodeError.
Proof. solve_decision. Defined.

(** * Messages (rpc/protocol.rs) *)

Record AuthRequest := mkAuthRequest { auth_token : string }.
Record AuthResponse := mkAuthResponse { auth_ok : bool }.
Record RegistryCredentials := mkRegistryCredentials {
  rc_username : string;
  rc_password : string;
}.
#[global] Instance RegistryCredentials_eq_dec : EqDecision RegistryCredentials.
Proof. solve_decision. Defined.

Inductive NodeCommand :=
| Run (aid : AllocId) (spec : ContainerSpec) (auth : option RegistryCredentials)
| Stop (aid : AllocId)
| Pull (image : string) (auth : option RegistryCredentials)
| LogTail (aid : AllocId) (lines : Z)
| LogFollow (aid : AllocId)
| LogUnfollow (aid : AllocId).

(** A line of container output (containerd/src/logs.rs). *)
Inductive LogStream := Stdout | Stderr.
Record LogLine := mkLogLine {
  ll_timestamp : Z;
  ll_stream : LogStream;
  ll_content : string;
}.
Record VolumeInfo := mkVolumeInfo {
  vi_name : string;
  vi_size_bytes : Z;
  vi_alloc_id : option AllocId;
}.
Record Heartbeat := mkHeartbeat {
  hb_node_id : NodeId;
  hb_alloc_statuses : gmap AllocId AllocStatus;
  hb_resources : NodeResources;
  hb_stats : list ContainerStats;
  hb_volumes : list VolumeInfo;
}.
Inductive NodeReport :=
| HeartbeatReport (hb : Heartbeat)
| RunStarted (aid : AllocId) (host_port : option Z) (address : option SocketAddr)
| StoppedReport (aid : AllocId) (exit_code : Z)
| RunFailed (aid : AllocId) (reason : string)
| PullComplete (image : string)
| PullFailed (image reason : string)
| LogLines (aid : AllocId) (lines : list LogLine)
| StatusUpdate (aid : AllocId) (status : AllocStatus).

#[global] Instance NodeCommand_eq_dec : EqDecision NodeCommand.
Proof. solve_decision. Defined.
#[global] Instance LogStream_eq_dec : EqDecision LogStream.
Proof. solve_decision. Defined.
#[global] Instance LogLine_eq_dec : EqDecision LogLine.
Proof. solve_decision. Defined.

(** * Frames (rpc/codec.rs) *)

Definition MAX_FRAME_SIZE : Z := 16 * 1024 * 1024.

Inductive FrameError :=
| InvalidData (e : string)
| UnexpectedEof.

(** [u32::to_be_bytes] and [u32::from_be_bytes]. *)
Definition byte_of (z : Z) : Ascii.ascii := Ascii.ascii_of_N (Z.to_N (z mod 256)).
Definition to_be_bytes (len : Z) : string :=
  String (byte_of (len / 2 ^ 24)) (String (byte_of (len / 2 ^ 16))
    (String (byte_of (len / 2 ^ 8)) (String (byte_of len) EmptyString))).
Definition from_be_bytes (s : string) : Z :=
  let fix go (acc : Z) (s : string) : Z :=
    match s with
    | EmptyString => acc
    | String c s => go (acc * 256 + Z.of_N (Ascii.N_of_ascii c)) s
    end in
  go 0 s.

(** [read_exact]: the bytes asked for and the rest of the stream, or a premature end. *)
Definition read_exact (n : nat) (stream : string) : option (string * string) :=
  if decide (n ≤ String.length stream)%nat then Some (str_take n stream, str_drop n stream) else None.

Definition too_large (len : Z) : FrameError :=
  InvalidData ("frame too large: " +:+ pretty len +:+ " bytes (max " +:+ pretty MAX_FRAME_SIZE +:+ ")").

Section frames.
Context {T : Type} (to_json : T → result string string) (from_json : string → result T string).

(** The bytes a frame puts on the stream. *)
Definition write_frame (val : T) : result string FrameError :=
  match to_json val with
  | Err e => Err (InvalidData e)
  | Ok payload =>
      let len := wrap32 (Z.of_nat (String.length payload)) in
      if MAX_FRAME_SIZE <? len then Err (too_large len)
      else Ok (to_be_bytes len +:+ payload)%string
  end.

(** [read_frame] on the bytes left until the end of the stream. *)
Definition read_frame (stream : string) : result (option (T * string)) FrameError :=
  match read_exact 4 stream with
  | None => Ok None
  | Some (len_buf, stream) =>
      let len := from_be_bytes len_buf in
      if MAX_FRAME_SIZE <? len then Err (too_large len)
      else
        match read_exact (Z.to_nat len) stream with
        | None => Err UnexpectedEof
        | Some (buf, stream) =>
            match from_json buf with
            | Ok val => Ok (Some (val, stream))
            | Err e => Err (InvalidData e)
            end
        end
  end.

(** The reader loops ([reader_loop] of the router and of the server): messages are handed on in
    order until the stream ends or a frame cannot be read. Each frame takes at least four bytes, so
    the length of the stream bounds the number of rounds. *)
Fixpoint read_loop (fuel : nat) (stream : string) : list T * option FrameError :=
  match fuel with
  | O => ([], None)
  | S fuel =>
      match read_frame stream with
      | Ok (Some (val, stream)) => let '(vals, e) := read_loop fuel stream in (val :: vals, e)
      | Ok None => ([], None)
      | Err e => ([], Some e)
      end
  end.
Fixpoint write_all (vals : list T) : result string FrameError :=
  match vals with
  | [] => Ok EmptyString
  | val :: vals =>
      result_bind (write_frame val) (λ b, result_bind (write_all vals) (λ bs, Ok (b +:+ bs)%string))
  end.
End frames.

(** * Authentication of a connection (rpc/server.rs) *)

(** [handle_connection] up to the hand-over to the reader: what is answered on the stream, and the
    commands that reach the secondary. *)
Definition handle_connection (auth_from_json : string → result AuthRequest string)
    (cmd_from_json : string → result NodeCommand string) (token : string) (stream : string)
    : result (list NodeCommand) NodeError * option AuthResponse :=
  match read_frame auth_from_json stream with
  | Err _ => (Err (BadRequest "auth read"), None)
  | Ok None => (Err (BadRequest "connection closed before auth"), None)
  | Ok (Some (auth, stream)) =>
      if bool_decide (auth_token auth = token) then
        (Ok (read_loop cmd_from_json (String.length stream) stream).1, Some (mkAuthResponse true))
      else (Err (BadRequest "invalid auth token"), Some (mkAuthResponse false))
  end.

(** [do_auth]: what the primary concludes from the answer. *)
Definition do_auth (resp_from_json : string → result AuthResponse string) (stream : string)
    : result string NodeError :=
  match read_frame resp_from_json stream with
  | Err _ => Err (BadRequest "rpc auth read")
  | Ok None => Err (BadRequest "rpc: connection closed during auth")
  | Ok (Some (resp, stream)) =>
      if auth_ok resp then Ok stream else Err (BadRequest "rpc: auth rejected")
  end.

(** * Router (rpc/router.rs) *)

(** A channel to a node: whether its receiver is still there, and what was sent into it. *)
Record Chan := mkChan {
  ch_open : bool;
  ch_sent : list NodeCommand;
}.
Record CommandRouter := mkRouter {
  routes : gmap NodeId Chan;
  connections : gmap NodeId nat;
  cancelled : gset nat;
}.
Definition CommandRouter_new : CommandRouter := mkRouter ∅ ∅ ∅.

Definition set_routes (m : gmap NodeId Chan) (r : CommandRouter) : CommandRouter :=
  mkRouter m (connections r) (cancelled r).
Definition register (node : NodeId) (tx : Chan) (r : CommandRouter) : CommandRouter :=
  set_routes (<[node := tx]> (routes r)) r.
Definition deregister (node : NodeId) (r : CommandRouter) : CommandRouter :=
  set_routes (delete node (routes r)) r.
Definition push (cmd : NodeCommand) (ch : Chan) : Chan := mkChan (ch_open ch) (ch_sent ch ++ [cmd]).

Definition router_send (node : NodeId) (cmd : NodeCommand) (r : CommandRouter)
    : result unit NodeError * CommandRouter :=
  match routes r !! node with
  | None => (Err (NodeUnreachable (node_id_0 node)), r)
  | Some tx =>
      if ch_open tx then (Ok tt, set_routes (<[node := push cmd tx]> (routes r)) r)
      else (Err ChannelClosed, r)
  end.

(** The loop of [broadcast] over the entries of the table. *)
Definition broadcast_step (cmd : NodeCommand) (acc : option NodeError * CommandRouter) (entry : NodeId * Chan)
    : option NodeError * CommandRouter :=
  let '(last_err, r) := acc in
  let '(node, tx) := entry in
  if ch_open tx then (last_err, set_routes (<[node := push cmd tx]> (routes r)) r)
  else (Some ChannelClosed, r).
Definition router_broadcast `{HashIter} (cmd : NodeCommand) (r : CommandRouter)
    : result unit NodeError * CommandRouter :=
  let '(last_err, r) := foldl (broadcast_step cmd) (None, r) (hm_iter (routes r)) in
  (match last_err with Some e => Err e | None => Ok tt end, r).

(** A cancellation token that was not used before. *)
Definition next_token (r : CommandRouter) : nat :=
  S (foldr Nat.max 0%nat (elements (cancelled r) ++ (map_to_list (connections r)).*2)).

(** [wire_connection] registers a fresh channel and a fresh cancellation token, [disconnect] cancels
    the token of the node's connection and removes its channel. *)
Definition wire_connection (node : NodeId) (token : nat) (r : CommandRouter) : CommandRouter :=
  mkRouter (<[node := mkChan true []]> (routes r)) (<[node := token]> (connections r)) (cancelled r).
Definition disconnect (node : NodeId) (r : CommandRouter) : CommandRouter :=
  let r' := match connections r !! node with
            | Some token => mkRouter (routes r) (delete node (connections r)) ({[token]} ∪ cancelled r)
            | None => r
            end in
  deregister node r'.
Definition route_count (r : CommandRouter) : nat := size (routes r).

(** [reconnect_loop]: the delay before each attempt, doubled up to half a minute. *)
Definition next_delay (delay : Z) : Z := Z.min (delay * 2) 30000000000.
Definition reconnect_delay (attempt : nat) : Z := Nat.iter attempt next_delay 1000000000.

(** * Lemmas *)

Lemma byte_of_value z : Z.of_N (Ascii.N_of_ascii (byte_of z)) = z mod 256.
Proof.
  unfold byte_of. pose proof (Z.mod_pos_bound z 256 ltac:(lia)).
  rewrite Ascii.N_ascii_embedding; lia.
Qed.

Lemma be_bytes_round_trip len : 0 ≤ len < 2 ^ 32 → from_be_bytes (to_be_bytes len) = len.
Proof.
  intros Hl. unfold to_be_bytes, from_be_bytes. rewrite !byte_of_value.
  change (2 ^ 24) with 16777216. change (2 ^ 16) with 65536. change (2 ^ 8) with 256.
  change (2 ^ 32) with 4294967296 in Hl. Z.div_mod_to_equations. lia.
Qed.

Lemma read_exact_app s t : read_exact (String.length s) (s +:+ t)%string = Some (s, t).
Proof.
  unfold read_exact. rewrite decide_True by (rewrite str_length_app; lia).
  by rewrite str_take_app, str_drop_app.
Qed.

Section frame_lemmas.
Context {T : Type} (to_json : T → result string string) (from_json : string → result T string).

Lemma read_write_frame val bytes payload rest :
  to_json val = Ok payload → from_json payload = Ok val → Z.of_nat (String.length payload) ≤ u32_max →
  write_frame to_json val = Ok bytes →
  read_frame from_json (bytes +:+ rest)%string = Ok (Some (val, rest)).
Proof.
  intros Hto Hfrom Hlen. unfold write_frame. rewrite Hto.
  rewrite wrap32_small by lia. destruct (MAX_FRAME_SIZE <? _) eqn:Hmax; [done|]. intros [= <-].
  unfold read_frame. rewrite str_app_assoc.
  change 4%nat with (String.length (to_be_bytes (Z.of_nat (String.length payload)))).
  rewrite read_exact_app. rewrite be_bytes_round_trip by (unfold u32_max in Hlen; lia).
  by rewrite Hmax, Nat2Z.id, read_exact_app, Hfrom.
Qed.

Lemma write_frame_length val bytes : write_frame to_json val = Ok bytes → (4 ≤ String.length bytes)%nat.
Proof.
  unfold write_frame. destruct (to_json val) as [p|]; [|done]. destruct (_ <? _); [done|].
  intros [= <-]. rewrite str_length_app. simpl. lia.
Qed.

Lemma read_write_all vals bytes fuel :
  (∀ val, val ∈ vals → ∃ p, to_json val = Ok p ∧ from_json p = Ok val ∧ Z.of_nat (String.length p) ≤ u32_max) →
  write_all to_json vals = Ok bytes → (String.length bytes ≤ fuel)%nat →
  read_loop from_json fuel bytes = (vals, None).
Proof.
  revert bytes fuel. induction vals as [|val vals IH]; intros bytes fuel Hall; simpl.
  { intros [= <-] _. by destruct fuel. }
  destruct (write_frame to_json val) as [b|] eqn:Hw; simpl; [|done].
  destruct (write_all to_json vals) as [bs|] eqn:Hws; simpl; [|done]. intros [= <-] Hf.
  pose proof (write_frame_length _ _ Hw). rewrite str_length_app in Hf.
  destruct fuel as [|fuel]; [lia|]. simpl. destruct (Hall val) as (p & Hto & Hfrom & Hlen); [left|].
  rewrite (read_write_frame val b p bs Hto Hfrom Hlen Hw).
  rewrite (IH bs fuel); [done| |done|].
  - intros v Hv. apply Hall. by right.
  - lia.
Qed.
End frame_lemmas.

(** ** Router *)

Lemma broadcast_fold `{HashIter} cmd (l : list (NodeId * Chan)) e0 r0 :
  NoDup l.*1 →
  let '(e, r) := foldl (broadcast_step cmd) (e0, r0) l in
  (∀ node, routes r !! node =
     match list_to_map (M := gmap NodeId Chan) l !! node with
     | Some tx => if ch_open tx then Some (push cmd tx) else routes r0 !! node
     | None => routes r0 !! node
     end) ∧
  (e = None ↔ e0 = None ∧ ∀ node tx, (node, tx) ∈ l → ch_open tx = true).
Proof.
  revert e0 r0. induction l as [|[node tx] l IH]; intros e0 r0 Hnd; simpl.
  { split; [intros node; by rewrite lookup_empty|]. split; [|by intros []]. intros ->. split; [done|].
    intros ?? ?%elem_of_nil. done. }
  apply NoDup_cons in Hnd as [Hn Hnd].
  specialize (IH (broadcast_step cmd (e0, r0) (node, tx)).1 (broadcast_step cmd (e0, r0) (node, tx)).2 Hnd).
  rewrite <-surjective_pairing in IH. simpl in IH |- *.
  destruct (foldl _ _ l) as [e r]. destruct IH as [IHr IHe].
  assert (list_to_map (M := gmap NodeId Chan) l !! node = None) as Hnone by (by apply not_elem_of_list_to_map_1).
  split.
  - intros node'. rewrite IHr. destruct (decide (node = node')) as [<-|Hne].
    + rewrite Hnone, lookup_insert_eq. destruct (ch_open tx); simpl; [by rewrite lookup_insert_eq|done].
    + rewrite lookup_insert_ne by done. destruct (ch_open tx); simpl; [|done].
      by rewrite lookup_insert_ne by done.
  - rewrite IHe. destruct (ch_open tx) eqn:Ho; simpl; split.
    + intros [? Hall]. split; [done|]. intros n' t' [[= -> ->]|Hin]%elem_of_cons; [done|by eapply Hall].
    + intros [? Hall]. split; [done|]. intros n' t' Hin. eapply Hall. by right.
    + by intros [? _].
    + intros [_ Hall]. specialize (Hall node tx ltac:(left)). congruence.
Qed.

(** * Theorems *)

(** a sequence of messages that was written to a connection is read from it unchanged and in
    order, and the reader then sees a clean end of stream; this holds whenever the JSON encoding of
    each message can be decoded again and has less than 2^32 bytes. *)
Theorem frames_round_trip {T} (to_json : T → result string string) (from_json : string → result T string) vals bytes :
  (∀ val, val ∈ vals → ∃ p, to_json val = Ok p ∧ from_json p = Ok val ∧ Z.of_nat (String.length p) ≤ u32_max) →
  write_all to_json vals = Ok bytes →
  read_loop from_json (S (String.length bytes)) bytes = (vals, None).
Proof. intros Hall Hw. by eapply read_write_all; [done..|lia]. Qed.

(** A message of exactly 2^32 bytes passes the size check, and its frame announces no bytes at all. *)
Lemma frame_length_wraps {T} (to_json : T → result string string) val payload :
  to_json val = Ok payload → Z.of_nat (String.length payload) = 2 ^ 32 →
  write_frame to_json val = Ok (to_be_bytes 0 +:+ payload)%string.
Proof. intros Hto Hlen. unfold write_frame. by rewrite Hto, Hlen. Qed.

(** a connection delivers commands to the secondary only when its first frame carries the node's
    token; otherwise none is delivered, and the peer is told so when it sent a token at all. *)
Theorem connection_needs_token auth_json cmd_json token stream :
  let '(r, answer) := handle_connection auth_json cmd_json token stream in
  (∀ cmds, r = Ok cmds → answer = Some (mkAuthResponse true) ∧
     ∃ rest, read_frame auth_json stream = Ok (Some (mkAuthRequest token, rest))) ∧
  (∀ tok rest, read_frame auth_json stream = Ok (Some (mkAuthRequest tok, rest)) → tok ≠ token →
     answer = Some (mkAuthResponse false) ∧ r = Err (BadRequest "invalid auth token")).
Proof.
  unfold handle_connection. destruct (read_frame auth_json stream) as [[[[tok] rest]|]|e]; simpl; [|done..].
  case_bool_decide as Ht; subst; split.
  - intros _ _. split; [done|]. by exists rest.
  - intros tok' rest' [= -> ->] Hne. done.
  - done.
  - intros tok' rest' [= -> ->] _. done.
Qed.

(** [send] appends the command to the channel of the node it is addressed to and to no other; it
    fails, without any effect, exactly when the node has no channel or the channel is closed.
    [broadcast] appends it to every open channel, whatever order the table is visited in, and fails
    exactly when some channel is closed. *)
Theorem router_delivery `{HashIter} r cmd :
  (∀ node, let '(res, r') := router_send node cmd r in
     (res = Ok tt → ∃ tx, routes r !! node = Some tx ∧ ch_open tx = true ∧
        routes r' !! node = Some (push cmd tx)) ∧
     (res = Ok tt ↔ ∃ tx, routes r !! node = Some tx ∧ ch_open tx = true) ∧
     (res ≠ Ok tt → r' = r) ∧
     (∀ node', node' ≠ node → routes r' !! node' = routes r !! node')) ∧
  (let '(res, r') := router_broadcast cmd r in
     (∀ node, routes r' !! node = (λ tx, if ch_open tx then push cmd tx else tx) <$> routes r !! node) ∧
     (res = Ok tt ↔ ∀ node tx, routes r !! node = Some tx → ch_open tx = true)).
Proof.
  split.
  - intros node. unfold router_send. destruct (routes r !! node) as [tx|] eqn:Htx.
    2: { split_and!; [done| |done..]. split; [done|]. by intros (? & ? & _). }
    destruct (ch_open tx) eqn:Ho; split_and!; simpl.
    + intros _. exists tx. by rewrite lookup_insert_eq.
    + split; [by eauto|done].
    + done.
    + intros node' Hne. by rewrite lookup_insert_ne.
    + done.
    + split; [done|]. intros (tx' & [= <-] & ?). congruence.
    + done.
    + done.
  - unfold router_broadcast.
    pose proof (broadcast_fold cmd (hm_iter (routes r)) None r (NoDup_hm_keys _)) as Hf.
    destruct (foldl _ _ _) as [e r']. destruct Hf as [Hr He].
    assert (∀ node, list_to_map (M := gmap NodeId Chan) (hm_iter (routes r)) !! node = routes r !! node) as Hm.
    { intros node. rewrite <-(hm_collect_iter (routes r)) at 2. rewrite hm_collect_list_to_map; [done|].
      apply NoDup_hm_keys. }
    split.
    + intros node. rewrite Hr, Hm. destruct (routes r !! node) as [tx|] eqn:Htx; simpl; [|done].
      by destruct (ch_open tx).
    + setoid_rewrite elem_of_hm_iter in He. destruct e; simpl; split; try done.
      * intros Hall. assert (Some n = None) by (apply He; eauto). done.
      * intros _. by apply He.
Qed.

(** the waiting time between two attempts to reconnect starts at one second, never shrinks, and
    stays at half a minute from the sixth attempt on. *)
Theorem reconnect_delay_bounds n :
  1000000000 ≤ reconnect_delay n ≤ 30000000000 ∧ reconnect_delay n ≤ reconnect_delay (S n) ∧
  ((5 ≤ n)%nat → reconnect_delay n = 30000000000).
Proof.
  assert (∀ n, 1000000000 ≤ reconnect_delay n ≤ 30000000000) as Hb.
  { intros k. unfold reconnect_delay. induction k as [|k IH]; simpl; [lia|]. unfold next_delay at 1 3. lia. }
  split; [apply Hb|]. split.
  - change (reconnect_delay (S n)) with (next_delay (reconnect_delay n)). specialize (Hb n).
    unfold next_delay. lia.
  - intros Hn. induction Hn as [|n Hn IH]; [by vm_compute|].
    change (reconnect_delay (S n)) with (next_delay (reconnect_delay n)). by rewrite IH.
Qed.

(** * Witnesses *)

Lemma frames_round_trip_witness :
  ∃ bytes, write_all (T := string) Ok ["hello"; ""; "w"] = Ok bytes ∧
    read_loop (T := string) Ok (S (String.length bytes)) bytes = (["hello"; ""; "w"], None).
Proof.
  destruct (write_all (T := string) Ok ["hello"; ""; "w"]) as [bytes|] eqn:E; [|vm_compute in E; discriminate].
  exists bytes. split; [reflexivity|].
  apply (frames_round_trip (T := string) Ok Ok ["hello"; ""; "w"] bytes); [|exact E].
  intros val Hv. exists val. split_and!; [reflexivity..|].
  rewrite !elem_of_cons, elem_of_nil in Hv. destruct Hv as [->|[->|[->|[]]]]; vm_compute; discriminate.
Defined.
