(* ===== verification/World.v ===== *)
(** The setting in which the primary's procedures run: an effect monad over the leader's view of the
    cluster state, the command router, the clocks and the record of what was done. Every [await] of
    the source is a step of an environment that is given in full by a function [env]: while the
    procedure waits, other tasks commit commands, connections come and go, time passes, and the
    awaited operation turns out one way or the other. The theorems about the procedures hold for
    every environment. A loop that waits runs on fuel; [None] means it ran out. The errors of the
    deploy procedures and the suffixes of generated identifiers ([src/crates/node/src/util.rs]) are
    here too. *)

From S2P Require Import Prelude Types Fsm Rpc.
Local Open Scope Z_scope.

(** * Errors (primary/deploy/mod.rs, storage/mod.rs) *)

Inductive StorageError :=
| VolumeNotFound (name : string)
| VolumeAlreadyExists (name : string)
| VolumeIsAttached (name : string)
| StorageApi (e : string)
| StorageHttp (e : string).
Definition show_storage_error (e : StorageError) : string :=
  match e with
  | VolumeNotFound n => "volume not found: " +:+ n
  | VolumeAlreadyExists n => "volume already exists: " +:+ n
  | VolumeIsAttached n => "volume is attached: " +:+ n
  | StorageApi e => "api error: " +:+ e
  | StorageHttp e => e
  end%string.

Inductive DeployError :=
| SchedulingFailed (service : string) (replica : Z)
| HealthCheckTimeout (service : string)
| EnvResolution (e : string)
| ValidationFailed (e : string)
| DeployNode (e : NodeError)
| DeployStorage (e : StorageError).
Definition show_deploy_error (e : DeployError) : string :=
  match e with
  | SchedulingFailed service replica =>
      "scheduling failed for " +:+ service +:+ ", replica " +:+ pretty replica +:+ ": no nodes available"
  | HealthCheckTimeout service => "health check timeout for " +:+ service
  | EnvResolution e => "failed to resolve env var: " +:+ e
  | ValidationFailed e => "deploy validation failed: " +:+ e
  | DeployNode e => show_node_error e
  | DeployStorage e => show_storage_error e
  end%string.

(** * What a procedure does *)

Inductive Json :=
| JStr (s : string)
| JBool (b : bool)
| JF64 (x : f64).

Inductive CloudOp :=
| CloudCreate (name : string) (size : Z)
| CloudAttach (name instance : string)
| CloudDetach (name : string)
| CloudDestroy (name : string).

(** A WireGuard peer and what is done with it (net/wireguard/mod.rs). *)
Record PeerInfo := mkPeerInfo {
  pi_node_id : NodeId;
  pi_public_key : string;
  pi_endpoint : option SocketAddr;
  pi_tunnel_ip : IpAddr;
}.
Inductive MeshOp :=
| AddPeer (peer : PeerInfo)
| RemovePeer (public_key : string).

(** Tasks that a procedure starts and does not wait for: the restart of a replica, a timer that kills
    a task, and what the handlers of the control API leave running behind an event stream. *)
Inductive Spawned :=
| SpawnRestart (service : string) (def : ServiceDef)
| SpawnKill (delay : Z) (task : string)
| SpawnDeploy (cfg : ClusterConfig)
| SpawnServiceRestart (service : string)
| SpawnDrain (raft_id : Z)
| SpawnLogs (name : string) (follow : bool) (tail : Z).

(** Changes of the consensus group, and of the addresses its messages go to. *)
Inductive RaftOp :=
| AddLearner (id : Z) (addr : string)
| ChangeMembership (ids : list Z)
| SetPeer (id : Z) (url : string).

(** Connections of the command router. *)
Inductive ConnOp :=
| Connect (node : NodeId) (addr : SocketAddr)
| Disconnect (node : NodeId).

(** Counters of the live metrics. *)
Inductive Metric :=
| MetricRestart (service : string)
| MetricTaskSpawn (task : string).

Inductive Effect :=
| EPropose (cmd : Command) (r : result Response string)
| ESend (node : NodeId) (cmd : NodeCommand) (r : result unit NodeError)
| EBroadcast (cmd : NodeCommand)
| EEvent (event : string) (data : list (string * Json))
| ECloud (op : CloudOp) (ok : bool)
| EMesh (op : MeshOp) (ok : bool)
| ERaft (op : RaftOp) (ok : bool)
| EConn (op : ConnOp) (ok : bool)
| ESpawn (task : Spawned)
| EMetric (m : Metric).

(** * The environment *)

Record EnvStep := mkEnvStep {
  es_before : list Command;
  es_after : list Command;
  es_router : CommandRouter → CommandRouter;
  es_elapsed : N;
  es_wall : Z;
  es_ok : bool;
  es_msg : string;
}.

Record World := mkWorld {
  w_fsm : FsmState;
  w_router : CommandRouter;
  w_now : Z;
  w_wall : Z;
  w_counter : Z;
  w_tick : nat;
  w_trace : list Effect;
}.

Definition M (A : Type) : Type := World → option (A * World).
#[global] Instance M_ret : MRet M := λ A a w, Some (a, w).
#[global] Instance M_bind : MBind M := λ A B k m w,
  match m w with
  | Some (a, w) => k a w
  | None => None
  end.

(** The [?] operator on a procedure that returns a [Result]. *)
Definition bind_ok {A B E} (m : M (result A E)) (k : A → M (result B E)) : M (result B E) :=
  r ← m;
  match r with
  | Ok a => k a
  | Err e => mret (Err e)
  end.
Notation "x ←? m ; k" := (bind_ok m (λ x, k)) (at level 20, m at level 100, k at level 200, right associativity).
Notation "' x ←? m ; k" := (bind_ok m (λ x, k))
  (at level 20, x pattern, m at level 100, k at level 200, right associativity).

(** [result.map_err(f)?] as a value. *)
Definition lift_err {A E F} (f : E → F) (m : M (result A E)) : M (result A F) :=
  r ← m;
  mret (match r with Ok a => Ok a | Err e => Err (f e) end).
Definition throw {A E} (e : E) : M (result A E) := mret (Err e).
(** [opt.ok_or(e)?]. *)
Definition ok_or {A E} (o : option A) (e : E) : M (result A E) :=
  mret (match o with Some a => Ok a | None => Err e end).

(** [for x in l { body(x) }] with a body that may return early by an error, or not at all. *)
Fixpoint for_each {A} (l : list A) (body : A → M unit) : M unit :=
  match l with
  | [] => mret tt
  | x :: l => _ ← body x; for_each l body
  end.
Fixpoint try_for_each {A E} (l : list A) (body : A → M (result unit E)) : M (result unit E) :=
  match l with
  | [] => mret (Ok tt)
  | x :: l => _ ←? body x; try_for_each l body
  end.

(** [raft.read_state(f)]. *)
Definition read_fsm {A} (f : FsmState → A) : M A := λ w, Some (f (w_fsm w), w).
Definition now : M Z := λ w, Some (w_now w, w).
(** The number of the next step of the environment. *)
Definition tick : M nat := λ w, Some (w_tick w, w).
Definition record (e : Effect) : M unit := λ w,
  Some (tt, mkWorld (w_fsm w) (w_router w) (w_now w) (w_wall w) (w_counter w) (w_tick w) (w_trace w ++ [e])).

(** [Duration::as_secs_f64]. *)
Definition as_secs_f64 (d : Z) : f64 :=
  f64_add (f64_of_Z (d / 1000000000)) (f64_div (f64_of_Z (d mod 1000000000)) (f64_of_Z 1000000000)).

Section effects.
Context `{HI : HashIter} (env : nat → EnvStep).

(** Wait: the environment moves, and [body] is the effect of the awaited operation. *)
Definition await {A} (body : EnvStep → FsmState → CommandRouter → A * FsmState * CommandRouter) : M A := λ w,
  let st := env (w_tick w) in
  let '(a, f, r) := body st (apply_commands (w_fsm w) (es_before st)) (es_router st (w_router w)) in
  Some (a, mkWorld (apply_commands f (es_after st)) r (w_now w + Z.of_N (es_elapsed st)) (es_wall st)
             (w_counter w) (S (w_tick w)) (w_trace w)).

(** An operation whose outcome only the environment knows. *)
Definition await_outcome : M (bool * string) := await (λ st f r, ((es_ok st, es_msg st), f, r)).

(** [raft.propose(cmd).await]: committed and applied, or an error (then the command may still have
    been committed, as one of the environment's). *)
Definition propose (cmd : Command) : M (result Response string) :=
  r ← await (λ st f r,
        if es_ok st then let '(f', resp) := apply_command f cmd in (Ok resp, f', r)
        else (Err ("raft error: " +:+ es_msg st)%string, f, r));
  _ ← record (EPropose cmd r);
  mret r.
(** [propose(cmd).await.map_err(NodeError::from)?] in a deploy procedure. *)
Definition propose_ok (cmd : Command) : M (result Response DeployError) :=
  lift_err (λ e, DeployNode (RaftErr e)) (propose cmd).

(** [router.send(node, cmd).await] and [router.broadcast(cmd).await]. *)
Definition send (node : NodeId) (cmd : NodeCommand) : M (result unit NodeError) :=
  r ← await (λ _ f r, let '(res, r') := router_send node cmd r in (res, f, r'));
  _ ← record (ESend node cmd r);
  mret r.
Definition broadcast (cmd : NodeCommand) : M (result unit NodeError) :=
  r ← await (λ _ f r, let '(res, r') := router_broadcast cmd r in (res, f, r'));
  _ ← record (EBroadcast cmd);
  mret r.

(** [send_json_event]: a receiver that has gone away is ignored. *)
Definition send_json_event (event : string) (data : list (string * Json)) : M unit :=
  _ ← await_outcome;
  record (EEvent event data).

(** A call of the volume driver. *)
Definition cloud (op : CloudOp) : M (result string DeployError) :=
  '(ok, msg) ← await_outcome;
  _ ← record (ECloud op ok);
  mret (if ok : bool then Ok msg else Err (DeployStorage (StorageApi msg))).

(** A call of the mesh interface; the callers only log a failure. *)
Definition mesh (op : MeshOp) : M bool :=
  '(ok, _) ← await_outcome;
  _ ← record (EMesh op ok);
  mret ok.

(** [raft.add_learner(..).await] and [raft.change_membership(..).await]. *)
Definition raft_op (op : RaftOp) : M (result unit string) :=
  '(ok, msg) ← await_outcome;
  _ ← record (ERaft op ok);
  mret (if ok : bool then Ok tt else Err ("raft error: " +:+ msg)%string).

(** [router.connect(..).await], which registers a fresh channel when it succeeds, and
    [router.disconnect(..).await]. *)
Definition connect (node : NodeId) (addr : SocketAddr) : M bool :=
  ok ← await (λ st f r, (es_ok st, f, if es_ok st then wire_connection node (next_token r) r else r));
  _ ← record (EConn (Connect node addr) ok);
  mret ok.
Definition disconnect_node (node : NodeId) : M unit :=
  _ ← await (λ _ f r, (tt, f, disconnect node r));
  record (EConn (Disconnect node) true).
End effects.

(** * Generated identifiers (util.rs) *)

(** The text of [rand_suffix]: the low 32 bits of the wall clock in nanoseconds (zero before 1970),
    then the counter, both in hexadecimal. *)
Definition suffix_text (wall seq : Z) : string :=
  (show_hex (Z.land (Z.max 0 wall) (2 ^ 32 - 1)) +:+ show_hex seq)%string.
Definition rand_suffix : M string := λ w,
  Some (suffix_text (w_wall w) (w_counter w),
        mkWorld (w_fsm w) (w_router w) (w_now w) (w_wall w) (u64_add (w_counter w) 1) (w_tick w) (w_trace w)).

(** * Reasoning about procedures *)

(** [ends m P]: whenever [m] finishes, what it returned and the effects it had satisfy [P]. *)
Definition ends {A} (m : M A) (P : A → World → list Effect → Prop) (w : World) : Prop :=
  ∀ a w', m w = Some (a, w') → ∃ t, w_trace w' = w_trace w ++ t ∧ P a w' t.

Section ends_lemmas.

Lemma ends_ret {A} (a : A) (P : A → World → list Effect → Prop) w : P a w [] → ends (mret a) P w.
Proof. intros HP a' w' [= <- <-]. exists []. by rewrite app_nil_r. Qed.

Lemma ends_bind {A B} (m : M A) (k : A → M B) Q w :
  ends m (λ a w' t, ends (k a) (λ b w'' t', Q b w'' (t ++ t')) w') w →
  ends (m ≫= k) Q w.
Proof.
  intros Hm b w'' Hrun. unfold mbind, M_bind in Hrun. destruct (m w) as [[a w']|] eqn:E; [|done].
  destruct (Hm a w' E) as (t & Ht & Hk). destruct (Hk b w'' Hrun) as (t' & Ht' & HQ).
  exists (t ++ t'). by rewrite Ht', Ht, <-app_assoc.
Qed.

Lemma ends_mono {A} (m : M A) (P Q : A → World → list Effect → Prop) w :
  ends m P w → (∀ a w' t, P a w' t → Q a w' t) → ends m Q w.
Proof. intros Hm HPQ a w' Hrun. destruct (Hm a w' Hrun) as (t & ? & ?). eauto. Qed.

(** Combining two facts about the same run. *)
Lemma ends_and {A} (m : M A) (P Q : A → World → list Effect → Prop) w :
  ends m P w → ends m Q w → ends m (λ a w' t, P a w' t ∧ Q a w' t) w.
Proof.
  intros HP HQ a w' Hrun. destruct (HP a w' Hrun) as (t & Ht & ?). destruct (HQ a w' Hrun) as (t' & Ht' & ?).
  assert (t' = t) as -> by (eapply app_inv_head; by rewrite <-Ht, <-Ht'). eauto.
Qed.

Lemma ends_bind_ok {A B E} (m : M (result A E)) (k : A → M (result B E)) Q w :
  ends m (λ r w' t, match r with
                    | Ok a => ends (k a) (λ b w'' t', Q b w'' (t ++ t')) w'
                    | Err e => Q (Err e) w' t
                    end) w →
  ends (bind_ok m k) Q w.
Proof.
  intros Hm. apply ends_bind. eapply ends_mono; [exact Hm|]. intros [a|e] w' t H; [done|].
  apply ends_ret. by rewrite app_nil_r.
Qed.

Lemma ends_read {A} (f : FsmState → A) (P : A → World → list Effect → Prop) w :
  P (f (w_fsm w)) w [] → ends (read_fsm f) P w.
Proof. intros HP a' w' [= <- <-]. exists []. by rewrite app_nil_r. Qed.

Lemma ends_throw {A E} (e : E) (P : result A E → World → list Effect → Prop) w : P (Err e) w [] → ends (throw e) P w.
Proof. apply ends_ret. Qed.

Lemma ends_ok_or {A E} (o : option A) (e : E) (P : result A E → World → list Effect → Prop) w :
  (∀ a, o = Some a → P (Ok a) w []) → (o = None → P (Err e) w []) → ends (ok_or o e) P w.
Proof. intros H1 H2. apply ends_ret. destruct o; auto. Qed.

Lemma ends_lift_err {A E F} (f : E → F) (m : M (result A E)) Q w :
  ends m (λ r w' t, Q (match r with Ok a => Ok a | Err e => Err (f e) end) w' t) w → ends (lift_err f m) Q w.
Proof.
  intros Hm. apply ends_bind. eapply ends_mono; [exact Hm|]. intros a w' t H. apply ends_ret. by rewrite app_nil_r.
Qed.

Lemma ends_record e (P : unit → World → list Effect → Prop) w :
  (∀ w', w_fsm w' = w_fsm w → w_router w' = w_router w → w_tick w' = w_tick w → w_now w' = w_now w →
     P tt w' [e]) → ends (record e) P w.
Proof. intros HP [] w' [= <-]. exists [e]. split; [done|]. by apply HP. Qed.

(** A body that is an invariant of the effects is one of the whole loop. *)
Lemma ends_for_each {A} (l : list A) (body : A → M unit) (Q : list Effect → Prop) w :
  Q [] → (∀ t t', Q t → Q t' → Q (t ++ t')) →
  (∀ x w, x ∈ l → ends (body x) (λ _ _ t, Q t) w) → ends (for_each l body) (λ _ _ t, Q t) w.
Proof.
  intros Hnil Happ. revert w. induction l as [|x l IH]; intros w Hb; simpl; [by apply ends_ret|].
  apply ends_bind. eapply ends_mono; [apply Hb; left|]. intros [] w' t Ht.
  eapply ends_mono; [apply IH; intros; apply Hb; by right|]. intros [] w'' t' Ht'. by apply Happ.
Qed.
Lemma ends_try_for_each {A E} (l : list A) (body : A → M (result unit E)) (Q : list Effect → Prop) w :
  Q [] → (∀ t t', Q t → Q t' → Q (t ++ t')) →
  (∀ x w, x ∈ l → ends (body x) (λ _ _ t, Q t) w) → ends (try_for_each l body) (λ _ _ t, Q t) w.
Proof.
  intros Hnil Happ. revert w. induction l as [|x l IH]; intros w Hb; simpl; [by apply ends_ret|].
  apply ends_bind_ok. eapply ends_mono; [apply Hb; left|]. intros [[]|e] w' t Ht; [|done].
  eapply ends_mono; [apply IH; intros; apply Hb; by right|]. intros r w'' t' Ht'. by apply Happ.
Qed.
(** The error of a loop is the error of one of its rounds. *)
Lemma ends_try_result {A E} (l : list A) (body : A → M (result unit E)) (Q : E → Prop) w :
  (∀ x w, ends (body x) (λ r _ _, ∀ e, r = Err e → Q e) w) →
  ends (try_for_each l body) (λ r _ _, ∀ e, r = Err e → Q e) w.
Proof.
  intros Hb. revert w. induction l as [|x l IH]; intros w; simpl; [by apply ends_ret|].
  apply ends_bind_ok. eapply ends_mono; [apply Hb|]. intros [[]|e] w' t Hr; [apply IH|].
  intros e' [= <-]. by apply Hr.
Qed.
End ends_lemmas.

Section effect_lemmas.
Context `{HI : HashIter} (env : nat → EnvStep).

Lemma ends_await {A} body (P : A → World → list Effect → Prop) w :
  (∀ w', w_tick w' = S (w_tick w) → P (body (env (w_tick w)) (apply_commands (w_fsm w) (es_before (env (w_tick w))))
                (es_router (env (w_tick w)) (w_router w))).1.1 w' []) →
  ends (await env body) P w.
Proof.
  intros HP a w' Hrun. unfold await in Hrun. destruct (body _ _ _) as [[a' f] r] eqn:E.
  simplify_eq. exists []. rewrite app_nil_r. split; [done|]. simpl in HP. by apply HP.
Qed.

(** The effects of the primitive operations, when only the trace matters. *)
Lemma ends_propose cmd (P : result Response string → World → list Effect → Prop) w :
  (∀ r w', P r w' [EPropose cmd r]) → ends (propose env cmd) P w.
Proof.
  intros HP. apply ends_bind, ends_await. intros w' _. apply ends_bind, ends_record. intros w'' _ _ _ _.
  apply ends_ret. apply HP.
Qed.
(** The same, when the state matters: what raft answers is what the state machine said, unless raft failed. *)
Lemma ends_propose_state cmd (P : result Response string → World → list Effect → Prop) w :
  (∀ w', let st := env (w_tick w) in
         let f := apply_commands (w_fsm w) (es_before st) in
         let r := if es_ok st then Ok (apply_command f cmd).2 else Err ("raft error: " +:+ es_msg st)%string in
         w_fsm w' = apply_commands (if es_ok st then (apply_command f cmd).1 else f) (es_after st) →
         P r w' [EPropose cmd r]) → ends (propose env cmd) P w.
Proof.
  intros HP r w' Hrun. unfold propose, mbind, M_bind, await in Hrun. simpl in HP.
  destruct (es_ok (env (w_tick w))); [destruct (apply_command _ cmd) as [f' resp] eqn:E|]; simpl in *; unfold mret, M_ret in Hrun; simplify_eq;
    (eexists; split; [reflexivity|]); by apply HP.
Qed.
Lemma ends_propose_ok cmd (P : result Response DeployError → World → list Effect → Prop) w :
  (∀ resp w', P (Ok resp) w' [EPropose cmd (Ok resp)]) →
  (∀ e w', P (Err (DeployNode (RaftErr e))) w' [EPropose cmd (Err e)]) →
  ends (propose_ok env cmd) P w.
Proof. intros H1 H2. apply ends_lift_err, ends_propose. intros [resp|e] w'; auto. Qed.
Lemma ends_send node cmd (P : result unit NodeError → World → list Effect → Prop) w :
  (∀ r w', P r w' [ESend node cmd r]) → ends (send env node cmd) P w.
Proof.
  intros HP. apply ends_bind, ends_await. intros w' _. apply ends_bind, ends_record. intros w'' _ _ _ _.
  apply ends_ret. apply HP.
Qed.
Lemma ends_broadcast cmd (P : result unit NodeError → World → list Effect → Prop) w :
  (∀ r w', P r w' [EBroadcast cmd]) → ends (broadcast env cmd) P w.
Proof.
  intros HP. apply ends_bind, ends_await. intros w' _. apply ends_bind, ends_record. intros w'' _ _ _ _.
  apply ends_ret. apply HP.
Qed.
Lemma ends_event ev data (P : unit → World → list Effect → Prop) w :
  (∀ w', P tt w' [EEvent ev data]) → ends (send_json_event env ev data) P w.
Proof.
  intros HP. apply ends_bind, ends_await. intros w' _. apply ends_record. intros w'' _ _ _ _. apply HP.
Qed.
Lemma ends_cloud op (P : result string DeployError → World → list Effect → Prop) w :
  (∀ msg w', P (Ok msg) w' [ECloud op true]) →
  (∀ msg w', P (Err (DeployStorage (StorageApi msg))) w' [ECloud op false]) → ends (cloud env op) P w.
Proof.
  intros H1 H2. apply ends_bind, ends_await. intros w' _. simpl. apply ends_bind, ends_record. intros w'' _ _ _ _.
  apply ends_ret. destruct (es_ok _); auto.
Qed.
Lemma ends_mesh op (P : bool → World → list Effect → Prop) w :
  (∀ ok w', P ok w' [EMesh op ok]) → ends (mesh env op) P w.
Proof.
  intros HP. apply ends_bind, ends_await. intros w' _. simpl. apply ends_bind, ends_record. intros w'' _ _ _ _.
  apply ends_ret. apply HP.
Qed.
Lemma ends_raft_op op (P : result unit string → World → list Effect → Prop) w :
  (∀ r w', P r w' [ERaft op (match r with Ok _ => true | Err _ => false end)]) → ends (raft_op env op) P w.
Proof.
  intros HP. apply ends_bind, ends_await. intros w' _. simpl. apply ends_bind, ends_record. intros w'' _ _ _ _.
  apply ends_ret. destruct (es_ok _); [apply (HP (Ok tt))|apply (HP (Err _))].
Qed.
Lemma ends_connect node addr (P : bool → World → list Effect → Prop) w :
  (∀ ok w', P ok w' [EConn (Connect node addr) ok]) → ends (connect env node addr) P w.
Proof.
  intros HP. apply ends_bind, ends_await. intros w' _. simpl. apply ends_bind, ends_record. intros w'' _ _ _ _.
  apply ends_ret. apply HP.
Qed.
Lemma ends_disconnect node (P : unit → World → list Effect → Prop) w :
  (∀ w', P tt w' [EConn (Disconnect node) true]) → ends (disconnect_node env node) P w.
Proof.
  intros HP. apply ends_bind, ends_await. intros w' _. simpl. apply ends_record. intros w'' _ _ _ _. apply HP.
Qed.
End effect_lemmas.

(** ** Properties of every effect *)

(** Every effect of [m] satisfies [p]. *)
Definition always {A} (p : Effect → Prop) (m : M A) : Prop := ∀ w, ends m (λ _ _ t, Forall p t) w.

Section always_lemmas.
Context (p : Effect → Prop).

Lemma always_ret {A} (a : A) : always p (mret (M := M) a).
Proof. intros w. by apply ends_ret. Qed.
Lemma always_bind {A B} (m : M A) (k : A → M B) :
  always p m → (∀ a, always p (k a)) → always p (m ≫= k).
Proof.
  intros Hm Hk w. apply ends_bind. eapply ends_mono; [apply Hm|]. intros a w' t Ht.
  eapply ends_mono; [apply Hk|]. intros b w'' t' Ht'. by apply Forall_app.
Qed.
Lemma always_bind_ok {A B E} (m : M (result A E)) (k : A → M (result B E)) :
  always p m → (∀ a, always p (k a)) → always p (bind_ok m k).
Proof. intros Hm Hk. apply always_bind; [done|]. intros [a|e]; [done|]. apply always_ret. Qed.
Lemma always_read {A} (f : FsmState → A) : always p (read_fsm f).
Proof. intros w. by apply ends_read. Qed.
Lemma always_now : always p now.
Proof. intros w a w' [= <- <-]. exists []. by rewrite app_nil_r. Qed.
Lemma always_tick : always p tick.
Proof. intros w a w' [= <- <-]. exists []. by rewrite app_nil_r. Qed.
Lemma always_suffix : always p rand_suffix.
Proof. intros w a w' [= <- <-]. exists []. by rewrite app_nil_r. Qed.
Lemma always_lift_err {A E F} (f : E → F) (m : M (result A E)) : always p m → always p (lift_err f m).
Proof. intros Hm. apply always_bind; [done|]. intros r. apply always_ret. Qed.
Lemma always_none {A} : always p (λ _ : World, None : option (A * World)).
Proof. by intros w a w'. Qed.
Lemma always_for_each {A} (l : list A) (body : A → M unit) :
  (∀ x, always p (body x)) → always p (for_each l body).
Proof. intros Hb w. apply ends_for_each; [done|by intros; apply Forall_app|]. intros x w' _. apply Hb. Qed.
Lemma always_try_for_each {A E} (l : list A) (body : A → M (result unit E)) :
  (∀ x, always p (body x)) → always p (try_for_each l body).
Proof. intros Hb w. apply ends_try_for_each; [done|by intros; apply Forall_app|]. intros x w' _. apply Hb. Qed.
Lemma always_record e : p e → always p (record e).
Proof. intros He w. apply ends_record. intros. by apply Forall_singleton. Qed.

Context `{HI : HashIter} (env : nat → EnvStep).
Lemma always_await {A} (body : EnvStep → FsmState → CommandRouter → A * FsmState * CommandRouter) :
  always p (await env body).
Proof. intros w. by apply ends_await. Qed.
Lemma always_outcome : always p (await_outcome env).
Proof. apply always_await. Qed.
Lemma always_propose cmd : (∀ r, p (EPropose cmd r)) → always p (propose env cmd).
Proof. intros Hp w. apply ends_propose. intros. by apply Forall_singleton. Qed.
Lemma always_propose_ok cmd : (∀ r, p (EPropose cmd r)) → always p (propose_ok env cmd).
Proof. intros Hp. by apply always_lift_err, always_propose. Qed.
Lemma always_send node cmd : (∀ r, p (ESend node cmd r)) → always p (send env node cmd).
Proof. intros Hp w. apply ends_send. intros. by apply Forall_singleton. Qed.
Lemma always_broadcast cmd : p (EBroadcast cmd) → always p (broadcast env cmd).
Proof. intros Hp w. apply ends_broadcast. intros. by apply Forall_singleton. Qed.
Lemma always_event ev data : p (EEvent ev data) → always p (send_json_event env ev data).
Proof. intros Hp w. apply ends_event. intros. by apply Forall_singleton. Qed.
Lemma always_cloud op : (∀ ok, p (ECloud op ok)) → always p (cloud env op).
Proof. intros Hp w. apply ends_cloud; intros; by apply Forall_singleton. Qed.
Lemma always_mesh op : (∀ ok, p (EMesh op ok)) → always p (mesh env op).
Proof. intros Hp w. apply ends_mesh; intros; by apply Forall_singleton. Qed.
Lemma always_raft_op op : (∀ ok, p (ERaft op ok)) → always p (raft_op env op).
Proof. intros Hp w. apply ends_raft_op; intros; by apply Forall_singleton. Qed.
End always_lemmas.

(** Decompose a procedure into its primitive operations. *)
Ltac always_step :=
  lazymatch goal with
  | |- always _ (propose_ok _ _) => apply always_propose_ok; intros ?
  | |- always _ (propose _ _) => apply always_propose; intros ?
  | |- always _ (send _ _ _) => apply always_send; intros ?
  | |- always _ (broadcast _ _) => apply always_broadcast
  | |- always _ (send_json_event _ _ _) => apply always_event
  | |- always _ (cloud _ _) => apply always_cloud; intros ?
  | |- always _ (mesh _ _) => apply always_mesh; intros ?
  | |- always _ (raft_op _ _) => apply always_raft_op; intros ?
  | |- always _ (record _) => apply always_record
  | |- always _ (await_outcome _) => apply always_outcome
  | |- always _ (mret _) => apply always_ret
  | |- always _ (throw _) => apply always_ret
  | |- always _ (ok_or _ _) => apply always_ret
  | |- always _ (read_fsm _) => apply always_read
  | |- always _ now => apply always_now
  | |- always _ tick => apply always_tick
  | |- always _ rand_suffix => apply always_suffix
  | |- always _ (lift_err _ _) => apply always_lift_err
  | |- always _ (for_each _ _) => apply always_for_each; intros ?
  | |- always _ (try_for_each _ _) => apply always_try_for_each; intros ?
  | |- always _ (bind_ok _ _) => apply always_bind_ok; [|intros ?]
  | |- always _ (_ ≫= _) => apply always_bind; [|intros ?]
  end.
Ltac solve_always := repeat first [always_step | case_match | done | solve [auto] | progress intros].

(** ** Order of effects *)

(** Every effect of [t] is justified by the effects before it, starting from [seen]. *)
Fixpoint ordered (good : list Effect → Effect → Prop) (seen t : list Effect) : Prop :=
  match t with
  | [] => True
  | e :: t => good seen e ∧ ordered good (seen ++ [e]) t
  end.
Lemma ordered_app good seen t1 t2 :
  ordered good seen (t1 ++ t2) ↔ ordered good seen t1 ∧ ordered good (seen ++ t1) t2.
Proof.
  revert seen. induction t1 as [|e t1 IH]; intros seen; simpl.
  - rewrite app_nil_r. tauto.
  - rewrite IH, <-app_assoc. simpl. tauto.
Qed.
Lemma ordered_split good seen t t1 e t2 :
  ordered good seen t → t = t1 ++ e :: t2 → good (seen ++ t1) e.
Proof. intros Ho ->. apply ordered_app in Ho as [_ [Hg _]]. done. Qed.
Lemma ordered_Forall (good : list Effect → Effect → Prop) (p : Effect → Prop) seen t :
  (∀ seen' e, p e → good (seen ++ seen') e) → Forall p t → ordered good seen t.
Proof.
  intros Hg Ht. revert seen Hg. induction Ht as [|e t He Ht IH]; intros seen Hg; simpl; [done|]. split.
  - rewrite <-(app_nil_r seen). by apply Hg.
  - apply IH. intros seen' e' He'. rewrite <-app_assoc. by apply Hg.
Qed.

(** ** Termination *)

(** [m] returns, from every state. *)
Definition total {A} (m : M A) : Prop := ∀ w, is_Some (m w).

(** Running a procedure one operation at a time. *)
Lemma run_bind {A B} (m : M A) (k : A → M B) w a w' : m w = Some (a, w') → (m ≫= k) w = k a w'.
Proof. intros H. unfold mbind, M_bind. by rewrite H. Qed.
Lemma run_now {B} (k : Z → M B) w : (now ≫= k) w = k (w_now w) w.
Proof. done. Qed.
Lemma run_read {A B} (f : FsmState → A) (k : A → M B) w : (read_fsm f ≫= k) w = k (f (w_fsm w)) w.
Proof. done. Qed.
Lemma run_tick {B} (k : nat → M B) w : (tick ≫= k) w = k (w_tick w) w.
Proof. done. Qed.
Lemma ret_bind {A B} (a : A) (k : A → M B) w : (mret a ≫= k) w = k a w.
Proof. done. Qed.
Lemma bind_assoc {A B C} (m : M A) (k : A → M B) (h : B → M C) w : ((m ≫= k) ≫= h) w = (m ≫= λ a, k a ≫= h) w.
Proof. unfold mbind, M_bind. by destruct (m w) as [[a w']|]. Qed.
Lemma run_outcome `{HI : HashIter} env {B} (k : bool * string → M B) w :
  ∃ w1, w_tick w1 = S (w_tick w) ∧ w_trace w1 = w_trace w ∧
    (await_outcome env ≫= k) w = k (es_ok (env (w_tick w)), es_msg (env (w_tick w))) w1.
Proof. by eexists (mkWorld _ _ _ _ _ _ _). Qed.

Ltac outcome_in H w1 Ht Htr :=
  match type of H with
  | context [(await_outcome ?env ≫= ?k) ?w] =>
      let Heq := fresh in destruct (run_outcome env k w) as (w1 & Ht & Htr & Heq); rewrite Heq in H; clear Heq
  end.

Section total_lemmas.
Lemma total_ret {A} (a : A) : total (mret (M := M) a).
Proof. by intros w; eexists. Qed.
Lemma total_bind {A B} (m : M A) (k : A → M B) : total m → (∀ a, total (k a)) → total (m ≫= k).
Proof.
  intros Hm Hk w. unfold mbind, M_bind. destruct (Hm w) as [[a w'] ->]. apply Hk.
Qed.
Lemma total_bind_ok {A B E} (m : M (result A E)) (k : A → M (result B E)) :
  total m → (∀ a, total (k a)) → total (bind_ok m k).
Proof. intros Hm Hk. apply total_bind; [done|]. intros [a|e]; [done|]. apply total_ret. Qed.
Lemma total_read {A} (f : FsmState → A) : total (read_fsm f).
Proof. by intros w; eexists. Qed.
Lemma total_now : total now.
Proof. by intros w; eexists. Qed.
Lemma total_tick : total tick.
Proof. by intros w; eexists. Qed.
Lemma total_suffix : total rand_suffix.
Proof. by intros w; eexists. Qed.
Lemma total_record e : total (record e).
Proof. by intros w; eexists. Qed.
Lemma total_lift_err {A E F} (f : E → F) (m : M (result A E)) : total m → total (lift_err f m).
Proof. intros Hm. apply total_bind; [done|]. intros r. apply total_ret. Qed.
Lemma total_for_each {A} (l : list A) (body : A → M unit) : (∀ x, total (body x)) → total (for_each l body).
Proof. intros Hb. induction l as [|x l IH]; simpl; [apply total_ret|]. by apply total_bind. Qed.
Lemma total_try_for_each {A E} (l : list A) (body : A → M (result unit E)) :
  (∀ x, total (body x)) → total (try_for_each l body).
Proof. intros Hb. induction l as [|x l IH]; simpl; [apply total_ret|]. by apply total_bind_ok. Qed.
Context `{HI : HashIter} (env : nat → EnvStep).
Lemma total_await {A} (body : EnvStep → FsmState → CommandRouter → A * FsmState * CommandRouter) :
  total (await env body).
Proof. intros w. unfold await. destruct (body _ _ _) as [[]]. by eexists. Qed.
Lemma total_outcome : total (await_outcome env).
Proof. apply total_await. Qed.
End total_lemmas.

(** The effects of the environment interface return at once. *)
Ltac total_step :=
  lazymatch goal with
  | |- total (mret _) => apply total_ret
  | |- total (throw _) => apply total_ret
  | |- total (ok_or _ _) => apply total_ret
  | |- total (read_fsm _) => apply total_read
  | |- total now => apply total_now
  | |- total tick => apply total_tick
  | |- total rand_suffix => apply total_suffix
  | |- total (record _) => apply total_record
  | |- total (await_outcome _) => apply total_outcome
  | |- total (await _ _) => apply total_await
  | |- total (lift_err _ _) => apply total_lift_err
  | |- total (for_each _ _) => apply total_for_each; intros ?
  | |- total (try_for_each _ _) => apply total_try_for_each; intros ?
  | |- total (bind_ok _ _) => apply total_bind_ok; [|intros ?]
  | |- total (_ ≫= _) => apply total_bind; [|intros ?]
  end.

(** ** What stays true of the cluster state *)

(** [m] preserves a property of the state that the environment preserves too. *)
Definition keeps {A} (P : FsmState → Prop) (m : M A) : Prop :=
  ∀ w a w', m w = Some (a, w') → P (w_fsm w) → P (w_fsm w').

Lemma ends_keeps {A} (P : FsmState → Prop) (m : M A) (Q : A → World → list Effect → Prop) w :
  keeps P m → P (w_fsm w) → ends m Q w → ends m (λ a w' t, P (w_fsm w') ∧ Q a w' t) w.
Proof. intros Hk HP HQ a w' Hrun. destruct (HQ a w' Hrun) as (t & ? & ?). eauto. Qed.

Section keeps_lemmas.
Context `{HI : HashIter} (env : nat → EnvStep) (P : FsmState → Prop).
Hypothesis env_keeps : ∀ n cmd f, cmd ∈ es_before (env n) ++ es_after (env n) → P f → P (apply_command f cmd).1.

Lemma keeps_ret {A} (a : A) : keeps P (mret (M := M) a).
Proof. by intros w a' w' [= <- <-]. Qed.
Lemma keeps_bind {A B} (m : M A) (k : A → M B) : keeps P m → (∀ a, keeps P (k a)) → keeps P (m ≫= k).
Proof.
  intros Hm Hk w b w' Hrun HP. unfold mbind, M_bind in Hrun. destruct (m w) as [[a w1]|] eqn:E; [|done].
  eapply Hk; [exact Hrun|]. by eapply Hm.
Qed.
Lemma keeps_bind_ok {A B E} (m : M (result A E)) (k : A → M (result B E)) :
  keeps P m → (∀ a, keeps P (k a)) → keeps P (bind_ok m k).
Proof. intros Hm Hk. apply keeps_bind; [done|]. intros [a|e]; [done|apply keeps_ret]. Qed.
Lemma keeps_read {A} (f : FsmState → A) : keeps P (read_fsm f).
Proof. by intros w a w' [= <- <-]. Qed.
Lemma keeps_now : keeps P now.
Proof. by intros w a w' [= <- <-]. Qed.
Lemma keeps_suffix : keeps P rand_suffix.
Proof. by intros w a w' [= <- <-]. Qed.
Lemma keeps_record e : keeps P (record e).
Proof. by intros w [] w' [= <-]. Qed.
Lemma keeps_lift_err {A E F} (f : E → F) (m : M (result A E)) : keeps P m → keeps P (lift_err f m).
Proof. intros Hm. apply keeps_bind; [done|]. intros r. apply keeps_ret. Qed.
Lemma keeps_none {A} : keeps P (λ _ : World, None : option (A * World)).
Proof. by intros w a w'. Qed.
Lemma keeps_for_each {A} (l : list A) (body : A → M unit) : (∀ x, keeps P (body x)) → keeps P (for_each l body).
Proof. intros Hb. induction l as [|x l IH]; simpl; [apply keeps_ret|]. by apply keeps_bind. Qed.
Lemma keeps_try_for_each {A E} (l : list A) (body : A → M (result unit E)) :
  (∀ x, keeps P (body x)) → keeps P (try_for_each l body).
Proof. intros Hb. induction l as [|x l IH]; simpl; [apply keeps_ret|]. by apply keeps_bind_ok. Qed.

Lemma apply_commands_keeps cmds f :
  (∀ cmd f, cmd ∈ cmds → P f → P (apply_command f cmd).1) → P f → P (apply_commands f cmds).
Proof.
  revert f. induction cmds as [|cmd cmds IH]; intros f Hc HP; [done|].
  change (P (apply_commands (apply_command f cmd).1 cmds)).
  apply IH; [intros; apply Hc; [by right|done]|]. apply Hc; [left|done].
Qed.
Lemma keeps_await {A} (body : EnvStep → FsmState → CommandRouter → A * FsmState * CommandRouter) :
  (∀ st f r, P f → P (body st f r).1.2) → keeps P (await env body).
Proof.
  intros Hb w a w' Hrun HP. unfold await in Hrun. destruct (body _ _ _) as [[a1 f1] r1] eqn:E. simplify_eq. simpl.
  apply apply_commands_keeps; [intros; eapply env_keeps; [apply elem_of_app; by right|done]|].
  replace f1 with (a, f1, r1).1.2 by done. rewrite <-E. apply Hb.
  apply apply_commands_keeps; [intros; eapply env_keeps; [apply elem_of_app; by left|done]|done].
Qed.
Lemma keeps_outcome : keeps P (await_outcome env).
Proof. by apply keeps_await. Qed.
Lemma keeps_propose cmd : (∀ f, P f → P (apply_command f cmd).1) → keeps P (propose env cmd).
Proof.
  intros Hc. apply keeps_bind; [|intros; apply keeps_bind; [apply keeps_record|intros; apply keeps_ret]].
  apply keeps_await. intros st f r HP. destruct (es_ok st); [|done]. specialize (Hc f HP). by destruct (apply_command f cmd).
Qed.
Lemma keeps_propose_ok cmd : (∀ f, P f → P (apply_command f cmd).1) → keeps P (propose_ok env cmd).
Proof. intros Hc. by apply keeps_lift_err, keeps_propose. Qed.
Lemma keeps_send node cmd : keeps P (send env node cmd).
Proof.
  apply keeps_bind; [|intros; apply keeps_bind; [apply keeps_record|intros; apply keeps_ret]].
  apply keeps_await. intros st f r HP. by destruct (router_send node cmd r).
Qed.
Lemma keeps_broadcast cmd : keeps P (broadcast env cmd).
Proof.
  apply keeps_bind; [|intros; apply keeps_bind; [apply keeps_record|intros; apply keeps_ret]].
  apply keeps_await. intros st f r HP. by destruct (router_broadcast cmd r).
Qed.
Lemma keeps_event ev data : keeps P (send_json_event env ev data).
Proof. apply keeps_bind; [apply keeps_outcome|]. intros. apply keeps_record. Qed.
Lemma keeps_cloud op : keeps P (cloud env op).
Proof.
  apply keeps_bind; [apply keeps_outcome|]. intros [ok msg].
  apply keeps_bind; [apply keeps_record|]. intros. apply keeps_ret.
Qed.
Lemma keeps_mesh op : keeps P (mesh env op).
Proof.
  apply keeps_bind; [apply keeps_outcome|]. intros [ok msg].
  apply keeps_bind; [apply keeps_record|]. intros. apply keeps_ret.
Qed.
End keeps_lemmas.

Ltac keeps_step :=
  lazymatch goal with
  | |- keeps _ (propose_ok _ _) => apply keeps_propose_ok; [assumption|]
  | |- keeps _ (propose _ _) => apply keeps_propose; [assumption|]
  | |- keeps _ (send _ _ _) => apply keeps_send; assumption
  | |- keeps _ (broadcast _ _) => apply keeps_broadcast; assumption
  | |- keeps _ (send_json_event _ _ _) => apply keeps_event; assumption
  | |- keeps _ (cloud _ _) => apply keeps_cloud; assumption
  | |- keeps _ (mesh _ _) => apply keeps_mesh; assumption
  | |- keeps _ (await_outcome _) => apply keeps_outcome; assumption
  | |- keeps _ (mret _) => apply keeps_ret
  | |- keeps _ (throw _) => apply keeps_ret
  | |- keeps _ (ok_or _ _) => apply keeps_ret
  | |- keeps _ (read_fsm _) => apply keeps_read
  | |- keeps _ (record _) => apply keeps_record
  | |- keeps _ now => apply keeps_now
  | |- keeps _ rand_suffix => apply keeps_suffix
  | |- keeps _ (lift_err _ _) => apply keeps_lift_err
  | |- keeps _ (for_each _ _) => apply keeps_for_each; intros ?
  | |- keeps _ (try_for_each _ _) => apply keeps_try_for_each; intros ?
  | |- keeps _ (bind_ok _ _) => apply keeps_bind_ok; [|intros ?]
  | |- keeps _ (_ ≫= _) => apply keeps_bind; [|intros ?]
  end.
