(* ===== verification/Connections.v ===== *)
(** Connections between the nodes: the primary's connection watcher ([src/crates/node/src/primary/mod.rs]), the tasks
    behind a connection ([src/crates/node/src/rpc/router.rs]: the writer, the reader and the loop that reconnects) and
    the secondary's server ([src/crates/node/src/rpc/server.rs]). The watcher is a procedure of the effect monad; the
    tasks are a step relation, since they run at the same time. The theorems show that the watcher's set follows the
    registered nodes, that the loop that reconnects ends within bounded time of the peer's return, and how a silent handshake
    stops it; that only a command that fails to be written starts it; that a connected node always has a channel or somebody who
    is restoring it, and how removing a node breaks that; and that reports leave a secondary in order. *)

From S2P Require Import Prelude Types Fsm Rpc World.
Local Open Scope Z_scope.

(** * The connection watcher (primary/mod.rs) *)

Section watcher.
Context `{HI : HashIter} (env : nat → EnvStep) (local_node_id : option NodeId).

(** [reconcile]: the nodes to be connected to, with the address of their server. *)
Definition remote_nodes (f : FsmState) : list (NodeId * SocketAddr) :=
  (λ n, (mill_id n, default (fn_address n) (rpc_address n))) <$>
    filterb (λ n, negb (bool_decide (local_node_id = Some (mill_id n)))) (hm_values (nodes f)).

(** The loop over the nodes: those of [connected] are skipped, except at the start. *)
Fixpoint connect_nodes (skip : bool) (l : list (NodeId * SocketAddr)) (connected : gset NodeId) : M (gset NodeId) :=
  match l with
  | [] => mret connected
  | (node_id, addr) :: l =>
      if skip && bool_decide (node_id ∈ connected) then connect_nodes skip l connected
      else
        ok ← connect env node_id addr;
        connect_nodes skip l (if ok : bool then {[node_id]} ∪ connected else connected)
  end.
Definition first_round : M (gset NodeId) :=
  current_nodes ← read_fsm remote_nodes;
  connect_nodes false current_nodes ∅.
Definition watcher_round (connected : gset NodeId) : M (gset NodeId) :=
  current_nodes ← read_fsm remote_nodes;
  let current_ids : gset NodeId := list_to_set current_nodes.*1 in
  connected ← connect_nodes true current_nodes connected;
  let removed := hm_keys (gset_to_gmap tt (connected ∖ current_ids)) in
  _ ← for_each removed (λ node_id, disconnect_node env node_id);
  mret (connected ∖ list_to_set removed).
(** The watcher over a number of changes of the state. *)
Fixpoint watcher_rounds (n : nat) (connected : gset NodeId) : M (gset NodeId) :=
  match n with
  | O => mret connected
  | S n => _ ← await_outcome env; connected ← watcher_round connected; watcher_rounds n connected
  end.
Definition spawn_connection_watcher (changes : nat) : M (gset NodeId) :=
  connected ← first_round;
  watcher_rounds changes connected.

(** [spawn_fsm_watcher]: apply the value computed from the state at the start and after every change. *)
Fixpoint fsm_watcher_rounds {T} (compute : FsmState → T) (apply : T → M unit) (n : nat) : M unit :=
  match n with
  | O => mret tt
  | S n =>
      _ ← await_outcome env;
      value ← read_fsm compute;
      _ ← apply value;
      fsm_watcher_rounds compute apply n
  end.
Definition spawn_fsm_watcher {T} (compute : FsmState → T) (apply : T → M unit) (changes : nat) : M unit :=
  value ← read_fsm compute;
  _ ← apply value;
  fsm_watcher_rounds compute apply changes.

(** ** Lemmas *)

Definition failed_connect (l : list (NodeId * SocketAddr)) (t : list Effect) (id : NodeId) : Prop :=
  ∃ addr, (id, addr) ∈ l ∧ EConn (Connect id addr) false ∈ t.
Lemma connect_nodes_spec skip l connected w :
  ends (connect_nodes skip l connected) (λ connected' _ t,
    connected ⊆ connected' ∧ connected' ⊆ connected ∪ list_to_set l.*1 ∧
    (∀ id, id ∈ l.*1 → id ∈ connected' ∨ failed_connect l t id) ∧
    (∀ e, e ∈ t → ∃ id addr ok, e = EConn (Connect id addr) ok ∧ (id, addr) ∈ l ∧ (skip = true → id ∉ connected))) w.
Proof.
  revert connected w. induction l as [|[id addr] l IH]; intros connected w; simpl.
  { apply ends_ret. split_and!; [set_solver..| |]; intros ? ?%elem_of_nil; done. }
  destruct (skip && bool_decide (id ∈ connected)) eqn:Hs.
  - eapply ends_mono; [apply IH|]. apply andb_prop in Hs as [_ Hin%bool_decide_eq_true].
    intros c' w' t (H1 & H2 & H3 & H4). split_and!; [done|set_solver| |].
    + intros i [->|Hi]%elem_of_cons; [left; set_solver|]. destruct (H3 i Hi) as [?|(a & ? & ?)]; [by left|].
      right. exists a. split; [by right|done].
    + intros e He. destruct (H4 e He) as (i & a & ok & -> & ? & ?). exists i, a, ok. split_and!; [done|by right|done].
  - apply ends_bind, ends_connect. intros ok w1. eapply ends_mono; [apply IH|].
    intros c' w' t (H1 & H2 & H3 & H4). split_and!.
    + destruct ok; set_solver.
    + destruct ok; set_solver.
    + intros i [->|Hi]%elem_of_cons.
      * destruct ok; [left; set_solver|]. right. exists addr. split; [left|]. rewrite elem_of_app. left. left.
      * destruct (H3 i Hi) as [?|(a & ? & ?)]; [by left|]. right. exists a. split; [by right|set_solver].
    + intros e [->%list_elem_of_singleton|He]%elem_of_app.
      * exists id, addr, ok. split_and!; [done|left|]. intros ->. simpl in Hs. by apply bool_decide_eq_false in Hs.
      * destruct (H4 e He) as (i & a & ok' & -> & ? & Hc). exists i, a, ok'. split_and!; [done|by right|].
        intros Hskip. specialize (Hc Hskip). destruct ok; set_solver.
Qed.
Lemma disconnect_all_spec l w :
  ends (for_each l (λ id, disconnect_node env id)) (λ _ _ t, t = (λ id, EConn (Disconnect id) true) <$> l) w.
Proof.
  revert w. induction l as [|id l IH]; intros w; simpl; [by apply ends_ret|].
  apply ends_bind, ends_disconnect. intros w1. eapply ends_mono; [apply IH|]. by intros ? ? ? ->.
Qed.
Lemma elem_of_removed (s : gset NodeId) id : id ∈ hm_keys (gset_to_gmap tt s) ↔ id ∈ s.
Proof.
  rewrite elem_of_hm_keys. split; [by intros [? [? _]%lookup_gset_to_gmap_Some]|].
  intros Hid. exists tt. by apply lookup_gset_to_gmap_Some.
Qed.

(** C38: A round of the watcher brings the set of connected nodes in line with the registered ones, whatever happens in
    the meantime: nobody stays in the set who is no longer registered, every registered remote node is in it or an
    attempt to connect to it failed in this round, whoever was connected and is still registered is left alone, and
    exactly the others are disconnected. *)
Theorem watcher_follows_nodes connected w c' w' :
  watcher_round connected w = Some (c', w') →
  let current := remote_nodes (w_fsm w) in
  let ids : gset NodeId := list_to_set current.*1 in
  ∃ t, w_trace w' = w_trace w ++ t ∧
    connected ∩ ids ⊆ c' ∧ c' ⊆ ids ∧
    (∀ id, id ∈ ids → id ∈ c' ∨ failed_connect current t id) ∧
    (∀ id addr ok, EConn (Connect id addr) ok ∈ t → (id, addr) ∈ current ∧ id ∉ connected) ∧
    (∀ id ok, EConn (Disconnect id) ok ∈ t ↔ ok = true ∧ id ∈ connected ∖ ids).
Proof.
  revert c' w'. refine (_ : ends _ _ w). unfold watcher_round. apply ends_bind, ends_read. simpl.
  apply ends_bind. eapply ends_mono; [apply connect_nodes_spec|]. intros c1 w1 t1 (H1 & H2 & H3 & H4).
  apply ends_bind. eapply ends_mono; [apply disconnect_all_spec|]. intros [] w2 t2 ->. apply ends_ret.
  set (ids := list_to_set (remote_nodes (w_fsm w)).*1 : gset NodeId) in *.
  set (removed := hm_keys _). assert (∀ id, id ∈ removed ↔ id ∈ connected ∖ ids) as Hrem.
  { intros id. unfold removed. rewrite elem_of_removed. set_solver. }
  assert (∀ id, id ∈ c1 ∖ list_to_set removed ↔ id ∈ c1 ∧ id ∉ connected ∖ ids) as Hc by (intros id; rewrite <-Hrem; set_solver).
  rewrite app_nil_r. split_and!.
  - intros id. rewrite Hc. set_solver.
  - intros id. rewrite Hc. intros [? ?]. apply H2 in H as [?|?]%elem_of_union; [|done]. apply dec_stable. set_solver.
  - intros id Hid%elem_of_list_to_set. destruct (H3 id Hid) as [?|(a & ? & ?)]; [left|right].
    + apply Hc. split; [done|]. rewrite elem_of_difference. intros [_ Hn]. apply Hn. by apply elem_of_list_to_set.
    + exists a. split; [done|]. by apply elem_of_app; left.
  - intros id addr ok [He|(? & [=] & _)%list_elem_of_fmap]%elem_of_app.
    destruct (H4 _ He) as (? & ? & ? & [= <- <- <-] & ? & Hn). split; [done|by apply Hn].
  - intros id ok. rewrite elem_of_app, <-Hrem. split.
    + intros [He|(? & [= <- ->] & ?)%list_elem_of_fmap]; [|done]. destruct (H4 _ He) as (? & ? & ? & [=] & _).
    + intros [-> ?]. right. apply list_elem_of_fmap. eauto.
Qed.
End watcher.

(** * Reconnecting (rpc/router.rs) *)

(** A peer as the loop meets it, by the time of asking: how connecting ends and how long that takes, if it ends; and how the
    handshake ends. The second number of a result is a duration. *)
Record Peer := mkPeer {
  pr_connect : Z → option (bool * Z);
  pr_auth : Z → option (bool * Z);
}.
(** One attempt: connecting is given up after [timeout], the handshake never is. The result is whether there is a connection and
    the time, or nothing when the attempt does not end. *)
Definition attempt (timeout : Z) (peer : Peer) (t : Z) : option (bool * Z) :=
  match pr_connect peer t with
  | Some (ok, took) =>
      if took <=? timeout then
        if ok : bool then match pr_auth peer (t + took) with Some (ok, auth) => Some (ok, t + took + auth) | None => None end
        else Some (false, t + took)
      else Some (false, t + timeout)
  | None => Some (false, t + timeout)
  end.
Inductive ReconnectResult := Reconnected (at_ : Z) | Cancelled (at_ : Z) | Hangs.

(** [reconnect_loop]: [cancel] is when the token is cancelled, if it is; that is looked at only while the loop sleeps. *)
Fixpoint reconnect_loop (fuel : nat) (timeout : Z) (peer : Peer) (cancel : option Z) (delay t : Z) : option ReconnectResult :=
  match fuel with
  | O => None
  | S fuel =>
      let cancelled_first := match cancel with Some c => c <? t + delay | None => false end in
      if cancelled_first then Some (Cancelled (Z.max t (default t cancel)))
      else
        match attempt timeout peer (t + delay) with
        | None => Some Hangs
        | Some (true, t) => Some (Reconnected t)
        | Some (false, t) => reconnect_loop fuel timeout peer cancel (next_delay delay) t
        end
  end.

(** From [back] on the peer accepts every connection in time and confirms the handshake. *)
Definition available (timeout back : Z) (peer : Peer) : Prop :=
  ∀ s, back ≤ s → (∃ took, pr_connect peer s = Some (true, took) ∧ took ≤ timeout) ∧ (∃ took, pr_auth peer s = Some (true, took)).
(** A connection takes no negative time, and a handshake, once begun, ends within [d]. *)
Definition answers_within (d : Z) (peer : Peer) : Prop :=
  (∀ s ok took, pr_connect peer s = Some (ok, took) → 0 ≤ took) ∧
  (∀ s, ∃ ok took, pr_auth peer s = Some (ok, took) ∧ 0 ≤ took ≤ d).
Lemma attempt_ends timeout d peer t :
  0 ≤ timeout → 0 ≤ d → answers_within d peer → ∃ ok t', attempt timeout peer t = Some (ok, t') ∧ t ≤ t' ≤ t + timeout + d.
Proof.
  intros Ht Hd [Hc Ha]. unfold attempt. destruct (pr_connect peer t) as [[ok took]|] eqn:E; [|by eexists _, _; split; [done|lia]].
  apply Hc in E. destruct (Z.leb_spec took timeout); [|by eexists _, _; split; [done|lia]].
  destruct ok; [|by eexists _, _; split; [done|lia]]. destruct (Ha (t + took)) as (ok & auth & -> & ?). eexists _, _. split; [done|lia].
Qed.
Lemma attempt_available timeout d back peer t :
  available timeout back peer → answers_within d peer → back ≤ t → ∃ t', attempt timeout peer t = Some (true, t').
Proof.
  intros Hav [Hc _] Hb. destruct (Hav t Hb) as [(took & Hp & Hle) _]. unfold attempt. rewrite Hp. apply Hc in Hp.
  rewrite (proj2 (Z.leb_le _ _) Hle). destruct (Hav (t + took)) as [_ (auth & ->)]; [lia|]. eauto.
Qed.

(** C22: A loop that reconnects gets its connection, if the peer comes back, its handshakes end and nobody cancels: when from the
    time [back] on the peer accepts connections within the timeout and confirms the handshake, and every handshake ends within [d],
    the loop ends, with a connection unless it was cancelled before, at most half a minute and one attempt after the later of its own
    start and the end of an attempt that was under way at [back]; an attempt takes at most the timeout and [d]. The fuel counts
    attempts, of which there is at most one per second. *)
Theorem reconnect_succeeds timeout d back peer cancel t delay :
  0 ≤ timeout → 0 ≤ d → 1000000000 ≤ delay ≤ 30000000000 → available timeout back peer → answers_within d peer →
  ∀ fuel, (Z.to_nat ((back - t) / 1000000000) < fuel)%nat →
  ∃ t', t' ≤ Z.max (back + timeout + d) t + 30000000000 + timeout + d ∧
    (reconnect_loop fuel timeout peer cancel delay t = Some (Reconnected t') ∨
     reconnect_loop fuel timeout peer cancel delay t = Some (Cancelled t') ∧ ∃ c, cancel = Some c ∧ c ≤ t').
Proof.
  intros Ht Hd Hdelay Hav Hans fuel. revert delay t Hdelay. induction fuel as [|fuel IH]; intros delay t Hdelay Hfuel; [lia|].
  simpl. destruct (match cancel with Some c => c <? t + delay | None => false end) eqn:Hc.
  { destruct cancel as [c|]; [|done]. apply Z.ltb_lt in Hc. exists (Z.max t c). simpl. split; [lia|]. right. split; [done|]. exists c. split; [done|lia]. }
  destruct (attempt_ends timeout d peer (t + delay)) as (ok & t1 & Ha & Ht1); [done..|]. rewrite Ha.
  destruct ok; [exists t1; split; [lia|by left]|].
  assert (t + delay < back).
  { destruct (decide (back ≤ t + delay)) as [Hb|]; [|lia]. destruct (attempt_available _ _ _ _ _ Hav Hans Hb) as [? Ha']. congruence. }
  assert ((back - t1) / 1000000000 < (back - t) / 1000000000)
    by (apply Z.div_lt_upper_bound; [lia|]; pose proof (Z.div_mod (back - t) 1000000000); pose proof (Z.mod_pos_bound (back - t) 1000000000); lia).
  assert (1 ≤ (back - t) / 1000000000) by (apply Z.div_le_lower_bound; lia).
  destruct (IH (next_delay delay) t1) as (t' & Hle & Hr); [unfold next_delay; lia|lia|]. exists t'. split; [lia|done].
Qed.
(** A peer that accepts the connection and never answers the handshake stops the loop for good, whoever comes back later and
    whether or not it is cancelled then. *)
Theorem silent_handshake_hangs fuel timeout peer cancel delay t took :
  (∀ c, cancel = Some c → t + delay ≤ c) → pr_connect peer (t + delay) = Some (true, took) → took ≤ timeout → pr_auth peer (t + delay + took) = None →
  reconnect_loop (S fuel) timeout peer cancel delay t = Some Hangs.
Proof.
  intros Hc Hp Hle Ha. simpl. assert (match cancel with Some c => c <? t + delay | None => false end = false) as ->.
  { destruct cancel as [c|]; [|done]. apply Z.ltb_ge. by apply Hc. }
  unfold attempt. by rewrite Hp, (proj2 (Z.leb_le _ _) Hle), Ha.
Qed.

(** ** What starts the loop *)

(** What happens to the two tasks of a connection: a command that is written or fails to be, the end of the channel of commands, the
    end of the stream or an error of the reader, the end of the channel of reports, and the cancellation of the connection. *)
Inductive ConnEvent := CommandWritten | CommandFailed | CommandsClosed | ReadEnded | ReportsClosed | ConnCancelled.
Record ConnTasks := mkConnTasks {
  ct_writer : bool;
  ct_reader : bool;
  ct_reconnects : bool;
}.
(** [writer_loop] with what [wire_connection] does after it, and [reader_loop]. *)
Definition conn_event (s : ConnTasks) (e : ConnEvent) : ConnTasks :=
  match e with
  | CommandWritten => s
  | CommandFailed => if ct_writer s then mkConnTasks false (ct_reader s) true else s
  | CommandsClosed => mkConnTasks false (ct_reader s) (ct_reconnects s)
  | ReadEnded | ReportsClosed => mkConnTasks (ct_writer s) false (ct_reconnects s)
  | ConnCancelled => mkConnTasks false false (ct_reconnects s)
  end.
Definition conn_tasks (evs : list ConnEvent) : ConnTasks := foldl conn_event (mkConnTasks true true false) evs.
Definition stops_writer (e : ConnEvent) : bool := match e with CommandFailed | CommandsClosed | ConnCancelled => true | _ => false end.

Lemma conn_tasks_writer evs : ct_writer (conn_tasks evs) = negb (existsb stops_writer evs).
Proof.
  unfold conn_tasks. induction evs as [|e evs IH] using rev_ind; [done|]. rewrite foldl_app, existsb_app. simpl. rewrite orb_false_r.
  destruct e; simpl; rewrite ?orb_true_r, ?orb_false_r; try done. by case_match.
Qed.
(** A connection is restored only after a command could not be written: that its reader has ended, because the peer went away, does
    not start the loop, and its writer goes on waiting for a command. *)
Theorem only_failed_writes_reconnect evs :
  ct_reconnects (conn_tasks evs) = true ↔
  ∃ pre post, evs = pre ++ CommandFailed :: post ∧ existsb stops_writer pre = false.
Proof.
  induction evs as [|e evs IH] using rev_ind; [split; [done|by intros ([] & ? & ? & _)]|].
  assert (ct_reconnects (conn_tasks (evs ++ [e])) = ct_reconnects (conn_tasks evs) || ct_writer (conn_tasks evs) && match e with CommandFailed => true | _ => false end) as ->.
  { unfold conn_tasks. rewrite foldl_app. simpl. destruct e; simpl; rewrite ?andb_false_r, ?orb_false_r; try done.
    destruct (ct_writer _); simpl; by rewrite ?orb_true_r, ?orb_false_r. }
  rewrite orb_true_iff, andb_true_iff, IH, conn_tasks_writer, negb_true_iff. split.
  - intros [(pre & post & -> & Hp)|[Hp He]]; [exists pre, (post ++ [e]); by rewrite <-app_assoc|].
    destruct e; try done. by exists evs, [].
  - intros (pre & post & Heq & Hp). destruct post as [|x post _] using rev_ind.
    + apply app_inj_tail in Heq as [-> ->]. by right.
    + rewrite app_comm_cons, app_assoc in Heq. apply app_inj_tail in Heq as [-> ->]. left. eauto.
Qed.

(** * The tasks behind connections (rpc/router.rs) *)

(** The router, the writer tasks by the token of their connection, the loops that reconnect, the watcher's set and the
    next token. *)
Record Net := mkNet {
  n_router : CommandRouter;
  n_writers : gmap nat NodeId;
  n_reconnecting : list NodeId;
  n_connected : gset NodeId;
  n_next : nat;
}.
Definition net_init : Net := mkNet CommandRouter_new ∅ [] ∅ 0.
(** [wire_connection]: a channel, a token and a writer. *)
Definition net_wire (node : NodeId) (s : Net) : Net :=
  mkNet (wire_connection node (n_next s) (n_router s)) (<[n_next s := node]> (n_writers s)) (n_reconnecting s) (n_connected s)
    (S (n_next s)).
Definition set_reconnecting (l : list NodeId) (s : Net) : Net := mkNet (n_router s) (n_writers s) l (n_connected s) (n_next s).
(** The writer's channel has lost its sender: the route was removed or replaced. *)
Definition sender_dropped (t : nat) (node : NodeId) (r : CommandRouter) : Prop :=
  routes r !! node = None ∨ connections r !! node ≠ Some t.

(** One step; [rem] says whether nodes may be removed. *)
Inductive conn_step (rem : bool) : Net → Net → Prop :=
| step_connect s node :
    node ∉ n_connected s →
    conn_step rem s (let s := net_wire node s in
                     mkNet (n_router s) (n_writers s) (n_reconnecting s) ({[node]} ∪ n_connected s) (n_next s))
| step_write_error s t node :
    n_writers s !! t = Some node →
    conn_step rem s (mkNet (deregister node (n_router s)) (delete t (n_writers s)) (node :: n_reconnecting s) (n_connected s) (n_next s))
| step_writer_ends s t node :
    n_writers s !! t = Some node → t ∈ cancelled (n_router s) ∨ sender_dropped t node (n_router s) →
    conn_step rem s (mkNet (n_router s) (delete t (n_writers s)) (n_reconnecting s) (n_connected s) (n_next s))
| step_reconnected s l1 node l2 :
    n_reconnecting s = l1 ++ node :: l2 →
    conn_step rem s (net_wire node (set_reconnecting (l1 ++ l2) s))
| step_disconnect s node :
    rem = true → node ∈ n_connected s →
    conn_step rem s (mkNet (disconnect node (n_router s)) (n_writers s) (n_reconnecting s) (n_connected s ∖ {[node]}) (n_next s)).

(** What holds of a node as long as none is removed: it is connected by exactly one writer behind a channel that is in
    the table, or exactly one loop is reconnecting it; a node that the watcher does not know has neither. *)
Definition served (s : Net) (node : NodeId) : Prop :=
  ∃ t, connections (n_router s) !! node = Some t ∧ is_Some (routes (n_router s) !! node) ∧
    (∀ t', n_writers s !! t' = Some node ↔ t' = t) ∧ node ∉ n_reconnecting s.
Definition being_restored (s : Net) (node : NodeId) : Prop :=
  node ∈ n_reconnecting s ∧ routes (n_router s) !! node = None ∧ (∀ t, n_writers s !! t ≠ Some node).
Definition unknown (s : Net) (node : NodeId) : Prop :=
  routes (n_router s) !! node = None ∧ (∀ t, n_writers s !! t ≠ Some node) ∧ node ∉ n_reconnecting s.
Definition net_inv (s : Net) : Prop :=
  (∀ node, if decide (node ∈ n_connected s) then served s node ∨ being_restored s node else unknown s node) ∧
  NoDup (n_reconnecting s) ∧ (∀ t node, n_writers s !! t = Some node → (t < n_next s)%nat) ∧ cancelled (n_router s) = ∅.

Lemma served_wire s node :
  (∀ t node', n_writers s !! t = Some node' → (t < n_next s)%nat) → (∀ t, n_writers s !! t ≠ Some node) → node ∉ n_reconnecting s →
  served (net_wire node s) node.
Proof.
  intros Ht Hw Hr. exists (n_next s). simpl. rewrite !lookup_insert_eq. split_and!; [done|by eexists| |done].
  intros t'. destruct (decide (t' = n_next s)) as [->|Hne]; [by rewrite lookup_insert_eq|].
  rewrite lookup_insert_ne by done. split; [by intros ?%Hw|done].
Qed.
(** A step that changes nothing about a node. *)
Definition same_view (s s' : Net) (node : NodeId) : Prop :=
  routes (n_router s') !! node = routes (n_router s) !! node ∧
  connections (n_router s') !! node = connections (n_router s) !! node ∧
  (∀ t, n_writers s' !! t = Some node ↔ n_writers s !! t = Some node) ∧
  (node ∈ n_reconnecting s' ↔ node ∈ n_reconnecting s).
Lemma same_view_status s s' node :
  same_view s s' node →
  (if decide (node ∈ n_connected s) then served s node ∨ being_restored s node else unknown s node) →
  (node ∈ n_connected s' ↔ node ∈ n_connected s) →
  if decide (node ∈ n_connected s') then served s' node ∨ being_restored s' node else unknown s' node.
Proof.
  intros (Hr & Hc & Hw & Hl) Hs Hin. unfold served, being_restored, unknown in *.
  repeat case_decide; [|exfalso; tauto..|]; rewrite ?Hr, ?Hc; setoid_rewrite Hl; setoid_rewrite Hw; done.
Qed.
Lemma wire_other s node other :
  (∀ t n, n_writers s !! t = Some n → (t < n_next s)%nat) → other ≠ node → same_view s (net_wire node s) other.
Proof.
  intros Ht Hne. split_and!; simpl; [by rewrite lookup_insert_ne..| |done].
  intros t. destruct (decide (t = n_next s)) as [->|]; [|by rewrite lookup_insert_ne].
  rewrite lookup_insert_eq. split; [by intros [= ->]|]. intros Hw%Ht. lia.
Qed.

Lemma net_inv_init : net_inv net_init.
Proof.
  split_and!; simpl; [|constructor|by intros ??; rewrite lookup_empty|done].
  intros node. rewrite decide_False by set_solver. split_and!; simpl; [apply lookup_empty| |by apply not_elem_of_nil].
  intros t. by rewrite lookup_empty.
Qed.
Lemma net_inv_step s s' : conn_step false s s' → net_inv s → net_inv s'.
Proof.
  intros Hstep (Hn & Hnd & Ht & Hcan). destruct Hstep as [s node Hnew|s t node Hw|s t node Hw Hend|s l1 node l2 Hl|]; [| | | |done].
  - pose proof (Hn node) as Hu. rewrite decide_False in Hu by done. destruct Hu as (Hr & Hnw & Hl). split_and!; [|done| |done].
    + intros n. destruct (decide (n = node)) as [->|Hne].
      * rewrite decide_True by set_solver. left. by apply (served_wire s node).
      * apply (same_view_status s); [by apply (wire_other s node n)|apply Hn|simpl; set_solver].
    + intros t n. simpl. intros [[<- _]|[_ Hw]]%lookup_insert_Some; [lia|]. apply Ht in Hw. lia.
  - pose proof (Hn node) as Hu. case_decide; [|by destruct Hu as (_ & Hnw & _); apply Hnw in Hw].
    destruct Hu as [(t0 & Hc & Hr & Hwt & Hl)|(_ & _ & Hnw)]; [|by apply Hnw in Hw].
    pose proof (proj1 (Hwt t) Hw) as ->. split_and!; [|by constructor| |done].
    + intros n. destruct (decide (n = node)) as [->|Hne].
      * rewrite decide_True by done. right. split_and!; simpl; [left|by rewrite lookup_delete_eq|].
        intros t [Hne Hw']%lookup_delete_Some. apply Hwt in Hw'. by subst.
      * apply (same_view_status s); [|apply Hn|done]. split_and!; simpl; [by rewrite lookup_delete_ne|done| |set_solver].
        intros t. rewrite lookup_delete_Some. split; [tauto|]. intros Hw'. split; [|done]. intros <-. congruence.
    + intros t n. simpl. intros [_ Hw']%lookup_delete_Some. by eapply Ht.
  - exfalso. pose proof (Hn node) as Hu. case_decide; [|by destruct Hu as (_ & Hnw & _); apply Hnw in Hw].
    destruct Hu as [(t0 & Hc & Hr & Hwt & Hl)|(_ & _ & Hnw)]; [|by apply Hnw in Hw].
    pose proof (proj1 (Hwt t) Hw) as ->. destruct Hend as [Hin|[Hnone|Hne]]; [by rewrite Hcan in Hin|by rewrite Hnone in Hr; destruct Hr|done].
  - pose proof (Hn node) as Hu. rewrite Hl in Hnd. apply NoDup_app in Hnd as (Hn1 & Hn2 & Hn3). apply NoDup_cons in Hn3 as [Hn3 Hn4].
    assert (node ∉ l1 ++ l2) as Hnot by (rewrite elem_of_app; intros [Hx|Hx]; [by apply (Hn2 node Hx); left|done]).
    case_decide as Hcon; [|destruct Hu as (_ & _ & Hu); rewrite Hl in Hu; set_solver].
    destruct Hu as [(t0 & _ & _ & _ & Hu)|(_ & Hr & Hnw)]; [rewrite Hl in Hu; set_solver|].
    split_and!; [| | |done].
    + intros n. destruct (decide (n = node)) as [->|Hne].
      * rewrite decide_True by done. left. by apply (served_wire (set_reconnecting (l1 ++ l2) s) node).
      * apply (same_view_status s); [|apply Hn|done].
        destruct (wire_other (set_reconnecting (l1 ++ l2) s) node n) as (? & ? & ? & Hx); [done..|]. split_and!; [done..|].
        rewrite Hx, Hl. simpl. set_solver.
    + apply NoDup_app. split_and!; [done|set_solver|done].
    + intros t n. simpl. intros [[<- _]|[_ Hw]]%lookup_insert_Some; [lia|]. apply Ht in Hw. lia.
Qed.

(** As long as no node is removed, a node that the watcher has connected never goes unserved: at every moment either
    its channel is in the table and exactly one writer serves it, or its channel is not in the table and a loop is
    reconnecting it; and only connected nodes have channels. *)
Theorem connections_kept s :
  rtc (conn_step false) net_init s →
  (∀ node, node ∈ n_connected s → served s node ∨ being_restored s node) ∧
  (∀ node, is_Some (routes (n_router s) !! node) → node ∈ n_connected s).
Proof.
  intros Hs. assert (net_inv s) as (Hn & _).
  { revert Hs. generalize net_inv_init. generalize net_init. induction 2; eauto using net_inv_step. }
  split; intros node Hin; specialize (Hn node); case_decide; [done..| |].
  - done.
  - destruct Hn as [Hr _]. rewrite Hr in Hin. by destruct Hin.
Qed.

(** Removing a node while its connection is being restored does not stop the restoration: the loop goes on, and when
    the peer answers the removed node has a channel again, which the watcher does not know about. *)
Theorem removed_node_reconnects node :
  ∃ s, rtc (conn_step true) net_init s ∧ node ∉ n_connected s ∧ is_Some (routes (n_router s) !! node) ∧
    ∃ t, n_writers s !! t = Some node ∧ t ∉ cancelled (n_router s).
Proof.
  eexists. split.
  - eapply rtc_l; [apply (step_connect _ _ node); set_solver|]. simpl.
    eapply rtc_l; [apply (step_write_error _ _ 0 node); simpl; by rewrite lookup_insert_eq|]. simpl.
    eapply rtc_l; [apply (step_disconnect _ _ node); [done|set_solver]|]. simpl.
    eapply rtc_l; [apply (step_reconnected _ _ [] node []); done|]. apply rtc_refl.
  - simpl. split_and!; [set_solver|by rewrite lookup_insert_eq; eexists|]. exists 1%nat. rewrite lookup_insert_eq. split; [done|].
    unfold disconnect. simpl. rewrite lookup_insert_eq. simpl. set_solver.
Qed.

(** * The secondary's server (rpc/server.rs) *)

(** The channel of reports, the handler that holds its lock, the authenticated handlers that wait for it, and what was
    taken from the channel: by which handler, and whether writing it succeeded. *)
Record Server := mkServer {
  sv_sent : list NodeReport;
  sv_queue : list NodeReport;
  sv_holder : option nat;
  sv_waiting : list nat;
  sv_ended : gset nat;
  sv_taken : list (nat * NodeReport * bool);
}.
Definition server_init : Server := mkServer [] [] None [] ∅ [].
(** Releasing the lock hands it to the handler that has waited longest. *)
Definition sv_release (c : nat) (s : Server) : Server :=
  mkServer (sv_sent s) (sv_queue s) (head (sv_waiting s)) (tail (sv_waiting s)) ({[c]} ∪ sv_ended s) (sv_taken s).
Definition sv_take (c : nat) (r : NodeReport) (q : list NodeReport) (ok : bool) (s : Server) : Server :=
  mkServer (sv_sent s) q (sv_holder s) (sv_waiting s) (sv_ended s) (sv_taken s ++ [(c, r, ok)]).
Definition sv_known (s : Server) : gset nat := list_to_set (option_list (sv_holder s) ++ sv_waiting s) ∪ sv_ended s.

(** One step before the server is shut down. *)
Inductive server_step : Server → Server → Prop :=
| sv_report s r :
    (length (sv_queue s) < 256)%nat →
    server_step s (mkServer (sv_sent s ++ [r]) (sv_queue s ++ [r]) (sv_holder s) (sv_waiting s) (sv_ended s) (sv_taken s))
| sv_accept s c :
    c ∉ sv_known s →
    server_step s (match sv_holder s with
                   | None => mkServer (sv_sent s) (sv_queue s) (Some c) (sv_waiting s) (sv_ended s) (sv_taken s)
                   | Some _ => mkServer (sv_sent s) (sv_queue s) (sv_holder s) (sv_waiting s ++ [c]) (sv_ended s) (sv_taken s)
                   end)
| sv_write_ok s c r q :
    sv_holder s = Some c → sv_queue s = r :: q → server_step s (sv_take c r q true s)
| sv_write_error s c r q :
    sv_holder s = Some c → sv_queue s = r :: q → server_step s (sv_release c (sv_take c r q false s)).

(** What was sent is what was taken followed by what is queued; a handler that is active has taken nothing yet or is
    the last one that took something, and a report that was not written is the last of its handler. *)
Definition server_inv (s : Server) : Prop :=
  sv_sent s = (snd ∘ fst) <$> sv_taken s ++ ((λ r, (0%nat, r, true)) <$> sv_queue s) ∧
  NoDup (option_list (sv_holder s) ++ sv_waiting s) ∧
  (∀ c, c ∈ option_list (sv_holder s) ++ sv_waiting s → c ∉ sv_ended s) ∧
  (sv_holder s = None → sv_waiting s = []) ∧
  (∀ c r ok, (c, r, ok) ∈ sv_taken s → c ∈ sv_ended s ∨ (sv_holder s = Some c ∧ ok = true)) ∧
  (∀ l1 c r l2, sv_taken s = l1 ++ (c, r, false) :: l2 → c ∉ (fst ∘ fst) <$> l2).

(** A handler that has lost no report yet may take another one. *)
Lemma last_of_handler (taken : list (nat * NodeReport * bool)) c r ok l1 c' r' l2 :
  (∀ l1 c r l2, taken = l1 ++ (c, r, false) :: l2 → c ∉ (fst ∘ fst) <$> l2) → (∀ x, ~ (c, x, false) ∈ taken) →
  taken ++ [(c, r, ok)] = l1 ++ (c', r', false) :: l2 → c' ∉ (fst ∘ fst) <$> l2.
Proof.
  intros Hlast Hc Heq. destruct l2 as [|x l2 _] using rev_ind; [by simpl; apply not_elem_of_nil|].
  rewrite app_comm_cons, app_assoc in Heq. apply app_inj_tail in Heq as [Heq <-]. rewrite fmap_app, elem_of_app.
  intros [Hin|Hin]; [by eapply Hlast|]. apply list_elem_of_singleton in Hin as ->. simpl in *.
  apply (Hc r'). rewrite Heq. set_solver.
Qed.
Lemma server_inv_step s s' : server_step s s' → server_inv s → server_inv s'.
Proof.
  intros Hstep (Hsent & Hnd & Hend & Hnone & Htk & Hlast). unfold server_inv.
  destruct Hstep as [s r Hlen|s c Hc|s c r q Hh Hq|s c r q Hh Hq]; simpl.
  - split_and!; [|done..]. rewrite Hsent, !fmap_app, <-app_assoc. done.
  - unfold sv_known in Hc. destruct (sv_holder s) as [h|] eqn:Hh; simpl in *.
    + split_and!; [done| | |done|done|done].
      * apply (NoDup_app (h :: sv_waiting s) [c]). split_and!; [done|set_solver|apply NoDup_singleton].
      * intros c'. set_solver.
    + rewrite (Hnone eq_refl) in *. split_and!; [done|apply NoDup_singleton|set_solver|done| |done].
      intros c' r ok Hin. destruct (Htk c' r ok Hin) as [?|[? _]]; [by left|done].
  - rewrite Hh in *. simpl in *. split_and!; [|done..| |].
    + rewrite Hsent, Hq, !fmap_app, <-app_assoc. done.
    + intros c' r' ok [Hin|[= -> -> ->]%list_elem_of_singleton]%elem_of_app; [by eapply Htk|by right].
    + intros l1 c' r' l2. apply last_of_handler; [done|]. intros x Hin. destruct (Htk _ _ _ Hin) as [Hx|[_ ?]]; [|done].
      by apply (Hend c); [left|].
  - rewrite Hh in *. simpl in *. apply NoDup_cons in Hnd as [Hnw Hnd].
    assert (option_list (head (sv_waiting s)) ++ tail (sv_waiting s) = sv_waiting s) as Hw by (by destruct (sv_waiting s)).
    rewrite Hw. split_and!; [|done|set_solver|by destruct (sv_waiting s)| |].
    + rewrite Hsent, Hq, !fmap_app, <-app_assoc. done.
    + intros c' r' ok [Hin|[= -> -> ->]%list_elem_of_singleton]%elem_of_app; [|left; set_solver].
      destruct (Htk _ _ _ Hin) as [?|[[= ->] _]]; left; set_solver.
    + intros l1 c' r' l2. apply last_of_handler; [done|]. intros x Hin. destruct (Htk _ _ _ Hin) as [Hx|[_ ?]]; [|done].
      by apply (Hend c); [left|].
Qed.

(** Reports leave a secondary in the order in which they were produced, each once; one whose write fails is lost,
    and it is the last one of its connection; and a new connection does not take over from an old one: the handler that
    relays reports changes only when a write fails. *)
Theorem reports_in_order s :
  rtc server_step server_init s →
  sv_sent s = ((snd ∘ fst) <$> sv_taken s) ++ sv_queue s ∧
  (∀ l1 c r l2, sv_taken s = l1 ++ (c, r, false) :: l2 → c ∉ (fst ∘ fst) <$> l2) ∧
  (∀ s' c, server_step s s' → sv_holder s = Some c →
     sv_holder s' = Some c ∨ ∃ r q, sv_queue s = r :: q ∧ sv_taken s' = sv_taken s ++ [(c, r, false)]).
Proof.
  intros Hs. assert (server_inv s) as (Hsent & _ & _ & _ & _ & Hlast).
  { assert (server_inv server_init) as Hi.
    { split_and!; simpl; [done|constructor|set_solver|done|intros ??? ?%elem_of_nil; done|by intros [|??] ??? ?]. }
    revert Hs Hi. generalize server_init. induction 1; eauto using server_inv_step. }
  split_and!; [|done|].
  - rewrite Hsent, fmap_app, <-list_fmap_compose. f_equal. unfold compose. simpl. by rewrite list_fmap_id.
  - intros s' c Hstep Hh. destruct Hstep; simpl; [by left| |by left|].
    + rewrite Hh. by left.
    + right. simplify_eq. eauto.
Qed.

(** * Witnesses *)

Module ConnExamples.
Import FsmExamples.
Definition conn_env (n : nat) : EnvStep := mkEnvStep [] [] (λ r, r) 1 0 true "".
Definition conn_world : World := mkWorld ex_state CommandRouter_new 0 0 0 0 [].
End ConnExamples.
Import FsmExamples ConnExamples.

(** A node that is not registered any more is dropped, the others are connected. *)
Lemma watcher_follows_nodes_witness :
  ∃ c' w', @watcher_round stored_order conn_env None {[mkNodeId "gone"]} conn_world = Some (c', w') ∧
    mkNodeId "gone" ∉ c' ∧ EConn (Disconnect (mkNodeId "gone")) true ∈ w_trace w'.
Proof.
  destruct (@watcher_round stored_order conn_env None {[mkNodeId "gone"]} conn_world) as [[c' w']|] eqn:E; [|vm_compute in E; discriminate].
  exists c', w'. split; [reflexivity|].
  destruct (@watcher_follows_nodes stored_order conn_env None _ _ _ _ E) as (t & Ht & _ & Hsub & _ & _ & Hdis).
  assert (mkNodeId "gone" ∉ (list_to_set (@remote_nodes stored_order None (w_fsm conn_world)).*1 : gset NodeId)) as Hgone
    by (apply (bool_decide_unpack _); vm_compute; exact I).
  split; [intros Hin; apply Hgone, Hsub, Hin|]. rewrite Ht. apply elem_of_app. right. apply Hdis. split; [reflexivity|set_solver].
Defined.

(** The peer comes back after a minute; before that it does not answer. *)
Definition ex_peer : Peer :=
  mkPeer (λ s, if 60000000000 <=? s then Some (true, 1000000) else None) (λ _, Some (true, 1000000000)).
Lemma reconnect_succeeds_witness :
  ∃ t', t' ≤ Z.max (60000000000 + 5000000000 + 1000000000) 0 + 30000000000 + 5000000000 + 1000000000 ∧
    (reconnect_loop 61 5000000000 ex_peer None 1000000000 0 = Some (Reconnected t') ∨
     reconnect_loop 61 5000000000 ex_peer None 1000000000 0 = Some (Cancelled t') ∧ ∃ c, None = Some c ∧ c ≤ t').
Proof.
  apply (reconnect_succeeds 5000000000 1000000000 60000000000 ex_peer None 0 1000000000); [lia..| | |].
  - intros s Hs. simpl. rewrite (proj2 (Z.leb_le _ _) Hs). split; eexists; [split; [reflexivity|lia]|reflexivity].
  - split; simpl; [|intros s; eexists _, _; split; [reflexivity|lia]]. intros s ok took. case_match; [|done]. intros [= <- <-]. lia.
  - vm_compute. lia.
Defined.
Example reconnect_example : reconnect_loop 61 5000000000 ex_peer None 1000000000 0 = Some (Reconnected 87001000000).
Proof. vm_compute. reflexivity. Qed.

(** A connection is made, lost and restored. *)
Lemma connections_kept_witness :
  ∃ s, rtc (conn_step false) net_init s ∧ mkNodeId "a" ∈ n_connected s ∧
    (served s (mkNodeId "a") ∨ being_restored s (mkNodeId "a")).
Proof.
  eassert (rtc (conn_step false) net_init _) as Hs.
  { eapply rtc_l; [apply (step_connect _ _ (mkNodeId "a")); set_solver|].
    eapply rtc_l; [apply (step_write_error _ _ 0 (mkNodeId "a")); reflexivity|].
    eapply rtc_l; [apply (step_reconnected _ _ [] (mkNodeId "a") []); reflexivity|]. apply rtc_refl. }
  eexists. split; [exact Hs|]. split; [simpl; set_solver|]. apply (connections_kept _ Hs). simpl. set_solver.
Defined.

Lemma reports_in_order_witness :
  ∃ s, rtc server_step server_init s ∧ sv_sent s = ((snd ∘ fst) <$> sv_taken s) ++ sv_queue s ∧ length (sv_sent s) = 1%nat.
Proof.
  eassert (rtc server_step server_init _) as Hs.
  { eapply rtc_l; [apply (sv_report _ (StoppedReport (mkAllocId "a") 0)); simpl; lia|].
    eapply rtc_l; [apply (sv_accept _ 1); vm_compute; set_solver|].
    eapply rtc_l; [eapply (sv_write_ok _ 1); reflexivity|]. apply rtc_refl. }
  eexists. split; [exact Hs|]. split; [apply (reports_in_order _ Hs)|reflexivity].
Defined.
