(* ===== verification/Storage.v ===== *)
(** The DigitalOcean volume driver ([src/crates/node/src/storage/digitalocean.rs]): the requests each operation sends and what it
    makes of the answers. HTTP and JSON are parameters. The theorems show which volume is attached or detached and when
    nothing is asked for, and what size a created volume has. *)

From S2P Require Import Prelude Types Env World.
Local Open Scope Z_scope.

Definition GIB : Z := 2 ^ 30.

(** * Messages *)

Record CreateVolumeRequest := mkCreateVolumeRequest {
  cv_size_gigabytes : Z;
  cv_req_name : string;
  cv_region : string;
  cv_filesystem_type : string;
}.
Record DoVolume := mkDoVolume {
  do_id : string;
  do_name : string;
  do_size_gigabytes : Z;
}.
Record VolumeActionRequest := mkVolumeActionRequest {
  va_type : string;
  va_droplet_id : option Z;
  va_region : option string;
}.
Record CloudVolumeInfo := mkCloudVolumeInfo {
  cvi_id : string;
  cvi_name : string;
  cvi_size_bytes : Z;
}.
Inductive DoRequest :=
| DoGet (url : string)
| DoCreate (url : string) (body : CreateVolumeRequest)
| DoAction (url : string) (body : VolumeActionRequest)
| DoDelete (url : string).

(** * The driver *)

(** The requests so far. *)
Definition DoM (A : Type) : Type := list DoRequest → result A StorageError * list DoRequest.
#[global] Instance DoM_ret : MRet DoM := λ A a t, (Ok a, t).
#[global] Instance DoM_bind : MBind DoM := λ A B k m t,
  match m t with
  | (Ok a, t) => k a t
  | (Err e, t) => (Err e, t)
  end.
Definition do_fail {A} (e : StorageError) : DoM A := λ t, (Err e, t).

Section driver.
Context (region : string).
(** The status and body that the last of the requests is answered with, or the error of the HTTP client. *)
Context (answer : list DoRequest → result (Z * string) string).
Context (json_list : string → result (list DoVolume) string) (json_created : string → result DoVolume string).

Definition do_send (r : DoRequest) : DoM (Z * string) := λ t,
  let t := t ++ [r] in
  (match answer t with Ok a => Ok a | Err e => Err (StorageHttp e) end, t).
Definition is_success (status : Z) : bool := (200 <=? status) && (status <? 300).
Definition of_json {A} (r : result A string) : DoM A := λ t, (match r with Ok a => Ok a | Err e => Err (StorageHttp e) end, t).
Definition base_url : string := "https://api.digitalocean.com/v2/volumes".

Definition do_list_volumes : DoM (list CloudVolumeInfo) :=
  '(status, text) ← do_send (DoGet (base_url +:+ "?region=" +:+ region)%string);
  if negb (is_success status) then do_fail (StorageApi text)
  else
    volumes ← of_json (json_list text);
    mret ((λ v, mkCloudVolumeInfo (do_id v) (do_name v) (wrap64 (do_size_gigabytes v * GIB))) <$> volumes).
Definition volume_action (vol_id : string) (body : VolumeActionRequest) : DoM unit :=
  '(status, text) ← do_send (DoAction (base_url +:+ "/" +:+ vol_id +:+ "/actions")%string body);
  if is_success status then mret tt else do_fail (StorageApi text).
Definition create_request (name : string) (size : Z) : CreateVolumeRequest :=
  mkCreateVolumeRequest (Z.max (size / GIB) 1) name region "ext4".
Definition create_impl (name : string) (size : Z) : DoM string :=
  '(status, text) ← do_send (DoCreate base_url (create_request name size));
  if negb (is_success status) then do_fail (StorageApi text)
  else
    v ← of_json (json_created text);
    mret (do_id v).
Definition destroy_impl (name : string) : DoM unit :=
  '(status, text) ← do_send (DoDelete (base_url +:+ "?name=" +:+ name +:+ "&region=" +:+ region)%string);
  if is_success status then mret tt
  else if status =? 404 then do_fail (VolumeNotFound name)
  else do_fail (StorageApi text).
(** The volume of a name, as attach and detach look it up. *)
Definition find_volume (name : string) : DoM CloudVolumeInfo :=
  volumes ← do_list_volumes;
  match find_first (λ v, bool_decide (cvi_name v = name)) volumes with
  | Some v => mret v
  | None => do_fail (VolumeNotFound name)
  end.
Definition attach_impl (name instance_id : string) : DoM unit :=
  vol ← find_volume name;
  match parse_u64 instance_id with
  | None => do_fail (StorageApi "invalid droplet id")
  | Some droplet_id => volume_action (cvi_id vol) (mkVolumeActionRequest "attach" (Some droplet_id) (Some region))
  end.
Definition detach_impl (name : string) : DoM unit :=
  vol ← find_volume name;
  volume_action (cvi_id vol) (mkVolumeActionRequest "detach" None (Some region)).

(** * Theorems *)

Definition list_request : DoRequest := DoGet (base_url +:+ "?region=" +:+ region)%string.
Definition action_request (id : string) (body : VolumeActionRequest) : DoRequest :=
  DoAction (base_url +:+ "/" +:+ id +:+ "/actions")%string body.

(** Looking a name up sends one request; what is found is the first volume listed under that name. *)
Lemma find_volume_spec name t :
  ∃ r, find_volume name t = (r, t ++ [list_request]) ∧
    match r with
    | Ok v => ∃ status text volumes x, answer (t ++ [list_request]) = Ok (status, text) ∧ is_success status = true ∧
                json_list text = Ok volumes ∧ find_first (λ v, bool_decide (do_name v = name)) volumes = Some x ∧
                cvi_id v = do_id x ∧ do_name x = name
    | Err _ => True
    end.
Proof.
  unfold find_volume, do_list_volumes, do_send, mbind, DoM_bind. fold list_request.
  destruct (answer (t ++ [list_request])) as [[status text]|e]; [|by eexists].
  destruct (is_success status) eqn:Hs; simpl; [|by eexists]. unfold of_json.
  destruct (json_list text) as [volumes|e] eqn:Hj; [|by eexists]. simpl.
  assert (∀ l, find_first (λ v, bool_decide (cvi_name v = name))
                 ((λ v, mkCloudVolumeInfo (do_id v) (do_name v) (wrap64 (do_size_gigabytes v * GIB))) <$> l) =
               (λ v, mkCloudVolumeInfo (do_id v) (do_name v) (wrap64 (do_size_gigabytes v * GIB))) <$> find_first (λ v, bool_decide (do_name v = name)) l) as Hmap.
  { induction l as [|v l IH]; csimpl; [done|]. by destruct (bool_decide (do_name v = name)). }
  rewrite Hmap. destruct (find_first (λ v, bool_decide (do_name v = name)) volumes) as [x|] eqn:Hx; simpl; [|by eexists].
  eexists. split; [done|]. exists status, text, volumes, x. split_and!; try done.
  apply find_first_Some in Hx as (_ & Hb). by apply bool_decide_eq_true in Hb.
Qed.

(** An attach or detach lists the volumes of the region and then acts on the first one that has the name, and on no
    other; it asks for nothing when there is none, or when the instance is not a number; and it succeeds only when the
    provider accepted the action. *)
Theorem volume_actions_resolve name instance_id :
  (∀ r t, attach_impl name instance_id [] = (r, t) →
     t = [list_request] ∧ r ≠ Ok tt ∨
     ∃ v droplet, t = [list_request; action_request (do_id v) (mkVolumeActionRequest "attach" (Some droplet) (Some region))] ∧
       do_name v = name ∧ parse_u64 instance_id = Some droplet ∧
       (r = Ok tt ↔ ∃ status text, answer t = Ok (status, text) ∧ is_success status = true)) ∧
  (∀ r t, detach_impl name [] = (r, t) →
     t = [list_request] ∧ r ≠ Ok tt ∨
     ∃ v, t = [list_request; action_request (do_id v) (mkVolumeActionRequest "detach" None (Some region))] ∧ do_name v = name ∧
       (r = Ok tt ↔ ∃ status text, answer t = Ok (status, text) ∧ is_success status = true)).
Proof.
  assert (∀ id body t, ∃ r, volume_action id body t = (r, t ++ [action_request id body]) ∧
            (r = Ok tt ↔ ∃ status text, answer (t ++ [action_request id body]) = Ok (status, text) ∧ is_success status = true)) as Hact.
  { intros id body t. unfold volume_action, do_send, mbind, DoM_bind. fold (action_request id body).
    destruct (answer (t ++ [action_request id body])) as [[status text]|e]; [|eexists; split; [done|]; split; [done|by intros (? & ? & [=] & _)]].
    destruct (is_success status) eqn:Hs; eexists; (split; [done|]); split; [by eauto|done|done|intros (? & ? & [= <- <-] & ?); congruence]. }
  destruct (find_volume_spec name []) as (fr & Hf & Hres). simpl in Hf.
  split; intros r t; unfold attach_impl, detach_impl, mbind, DoM_bind; rewrite Hf; (destruct fr as [v|e]; [|intros [= <- <-]; left; done]);
    destruct Hres as (_ & _ & _ & x & _ & _ & _ & _ & Hid & Hname); rewrite Hid.
  - destruct (parse_u64 instance_id) as [droplet|] eqn:Hp; [|intros [= <- <-]; by left].
    destruct (Hact (do_id x) (mkVolumeActionRequest "attach" (Some droplet) (Some region)) [list_request]) as (r' & -> & Hr').
    intros [= <- <-]. right. by exists x, droplet.
  - destruct (Hact (do_id x) (mkVolumeActionRequest "detach" None (Some region)) [list_request]) as (r' & -> & Hr').
    intros [= <- <-]. right. by exists x.
Qed.

(** The size asked for is rounded down to whole GiB, but at least one: a size that is not a multiple of a GiB gives a volume
    that is smaller than what was configured. *)
Theorem created_size name size :
  0 ≤ size ≤ u64_max →
  let g := cv_size_gigabytes (create_request name size) in
  1 ≤ g ≤ u64_max ∧ (g * GIB < size ↔ GIB < size ∧ size mod GIB ≠ 0) ∧ (size < GIB → g = 1) ∧ size - g * GIB < GIB.
Proof.
  intros Hsize. simpl. unfold GIB, u64_max in *. pose proof (Z.div_mod size (2 ^ 30)) as Hdm. pose proof (Z.mod_pos_bound size (2 ^ 30)).
  assert (0 ≤ size / 2 ^ 30) by (apply Z.div_pos; lia). assert (size / 2 ^ 30 ≤ size) by (apply Z.div_le_upper_bound; lia).
  destruct (decide (size < 2 ^ 30)) as [Hlt|Hge].
  - assert (size / 2 ^ 30 = 0) as -> by (apply Z.div_small; lia). split_and!; lia.
  - assert (1 ≤ size / 2 ^ 30) by (apply Z.div_le_lower_bound; lia). rewrite Z.max_l by done. split_and!; [lia..| | |]; lia.
Qed.
End driver.

Lemma created_size_witness : cv_size_gigabytes (create_request "nyc1" "data" (2 * GIB - 1)) * GIB < 2 * GIB - 1.
Proof.
  destruct (created_size "nyc1" "data" (2 * GIB - 1)) as (_ & H & _); [unfold GIB, u64_max; lia|].
  apply H. split; [unfold GIB; lia|done].
Defined.
