(* ===== verification/Plan.v ===== *)
(** Deciding what a deploy has to do ([src/crates/node/src/primary/deploy/diff.rs],
    [src/crates/node/src/primary/deploy/validate.rs]): the comparison of two configurations and the
    checks that are made before anything is changed. *)

From S2P Require Import Prelude Types Fsm Rpc World.
Local Open Scope Z_scope.

(** * Comparison (diff.rs) *)

Record DeployPlan := mkDeployPlan {
  added : list (string * ServiceDef);
  removed : list string;
  changed : list (string * ServiceDef);
  unchanged : list string;
}.

Section plan.
Context `{HI : HashIter}.

Definition diff_step (old_services : option (gmap string ServiceDef)) (p : DeployPlan)
    (entry : string * ServiceDef) : DeployPlan :=
  let '(name, new_def) := entry in
  match old_services ≫= (λ s, s !! name) with
  | None => mkDeployPlan (added p ++ [(name, new_def)]) (removed p) (changed p) (unchanged p)
  | Some old_def =>
      if negb (service_def_eqb old_def new_def)
      then mkDeployPlan (added p) (removed p) (changed p ++ [(name, new_def)]) (unchanged p)
      else mkDeployPlan (added p) (removed p) (changed p) (unchanged p ++ [name])
  end.
Definition diff_config (old : option ClusterConfig) (new : ClusterConfig) : DeployPlan :=
  let old_services := services <$> old in
  let p := foldl (diff_step old_services) (mkDeployPlan [] [] [] []) (hm_iter (services new)) in
  let removed :=
    match old_services with
    | Some old_services => filterb (λ name, negb (hm_contains name (services new))) (hm_keys old_services)
    | None => []
    end in
  mkDeployPlan (added p) removed (changed p) (unchanged p).

(** * Checks before a deploy (validate.rs) *)

Definition missing_in_parts (known : gset string) (context : string) (parts : list EnvPart) : list string :=
  filter_map (λ part,
    match part with
    | Secret name => if bool_decide (name ∈ known) then None else Some (context +:+ "/" +:+ name)%string
    | _ => None
    end) parts.
Definition collect_missing_secrets (env : gmap string EnvValue) (known : gset string) (context : string)
    (missing : list string) : list string :=
  foldl (λ missing value,
    match value with
    | Interpolated parts => missing ++ missing_in_parts known context parts
    | Literal _ => missing
    end) missing (hm_values env).
Definition validate_secret_refs (cfg : ClusterConfig) (known_secrets : gset string) : result unit DeployError :=
  let missing := foldl (λ missing '(name, def), collect_missing_secrets (sd_env def) known_secrets name missing)
                   [] (hm_iter (services cfg)) in
  let missing := foldl (λ missing '(name, def), collect_missing_secrets (td_env def) known_secrets name missing)
                   missing (hm_iter (tasks cfg)) in
  if bool_decide (missing = []) then Ok tt
  else Err (ValidationFailed ("unknown secrets: " +:+ str_join ", " missing)).

Definition exceeds (max_cpu : f64) (max_mem : Z) (r : Resources) : bool :=
  f64_ltb max_cpu (res_cpu r) || (max_mem <? res_memory r).
Definition validate_resource_capacity (cfg : ClusterConfig) (ns : list NodeResources) : result unit DeployError :=
  if bool_decide (length ns = 0%nat) then Err (ValidationFailed "no ready nodes in cluster")
  else
    let max_cpu := foldl (λ m n, f64_max m (cpu_total n)) f64_zero ns in
    let max_mem := foldr (λ n m, Z.max (memory_total n) m) 0 ns in
    let oversized := filter_map (λ '(name, def), if exceeds max_cpu max_mem (sd_resources def) then Some name else None)
                       (hm_iter (services cfg)) in
    let oversized := oversized ++
                     filter_map (λ '(name, def), if exceeds max_cpu max_mem (td_resources def) then Some name else None)
                       (hm_iter (tasks cfg)) in
    if bool_decide (oversized = []) then Ok tt
    else Err (ValidationFailed ("resources exceed largest node capacity: " +:+ str_join ", " oversized)).
End plan.

(** * Specifications *)

(** The secrets a configuration refers to. *)
Definition env_refers (env : gmap string EnvValue) (secret : string) : Prop :=
  ∃ var parts, env !! var = Some (Interpolated parts) ∧ Secret secret ∈ parts.
Definition config_refers (cfg : ClusterConfig) (secret : string) : Prop :=
  (∃ name def, services cfg !! name = Some def ∧ env_refers (sd_env def) secret) ∨
  (∃ name def, tasks cfg !! name = Some def ∧ env_refers (td_env def) secret).

(** A resource request that an empty node of this size can hold. *)
Definition fits_size (r : Resources) (n : NodeResources) : Prop :=
  f64_leb (res_cpu r) (cpu_total n) = true ∧ res_memory r ≤ memory_total n.
(** The requests of a configuration. *)
Definition config_request (cfg : ClusterConfig) (r : Resources) : Prop :=
  (∃ name def, services cfg !! name = Some def ∧ r = sd_resources def) ∨
  (∃ name def, tasks cfg !! name = Some def ∧ r = td_resources def).

(** * Lemmas *)

Section lemmas.
Context `{HI : HashIter}.

Lemma diff_fold old (l : list (string * ServiceDef)) p :
  foldl (diff_step old) p l =
    mkDeployPlan
      (added p ++ filter_map (λ '(name, def), if old ≫= (λ s, s !! name) is Some _ then None else Some (name, def)) l)
      (removed p)
      (changed p ++ filter_map (λ '(name, def),
         if old ≫= (λ s, s !! name) is Some d0 then if service_def_eqb d0 def then None else Some (name, def) else None) l)
      (unchanged p ++ filter_map (λ '(name, def),
         if old ≫= (λ s, s !! name) is Some d0 then if service_def_eqb d0 def then Some name else None else None) l).
Proof.
  revert p. induction l as [|[name def] l IH]; intros p; simpl; [rewrite !app_nil_r; by destruct p|].
  rewrite IH. destruct (old ≫= _) as [d0|]; [destruct (service_def_eqb d0 def)|]; simpl; by rewrite <-?app_assoc.
Qed.

(** A selection from the entries of a map that returns keys has no duplicates. *)
Lemma NoDup_filter_map_keys {A B} (l : list (string * A)) (f : string * A → option B) (key : B → string) :
  NoDup l.*1 → (∀ e b, f e = Some b → key b = e.1) → NoDup (key <$> filter_map f l).
Proof.
  intros Hnd Hkey. induction l as [|[k a] l IH]; simpl in *; [constructor|].
  apply NoDup_cons in Hnd as [Hk Hnd]. destruct (f (k, a)) as [b|] eqn:E; [|by apply IH].
  simpl. apply NoDup_cons. split; [|by apply IH]. rewrite (Hkey _ _ E). simpl.
  rewrite list_elem_of_fmap. setoid_rewrite elem_of_filter_map. intros (b' & Hb & e & He & Hf).
  apply Hk. rewrite Hb, (Hkey _ _ Hf). apply list_elem_of_fmap. eauto.
Qed.

Lemma elem_of_missing_parts known context parts m :
  m ∈ missing_in_parts known context parts ↔
  ∃ name, Secret name ∈ parts ∧ name ∉ known ∧ m = (context +:+ "/" +:+ name)%string.
Proof.
  unfold missing_in_parts. rewrite elem_of_filter_map. split.
  - intros (part & Hin & Hm). destruct part; try done. case_bool_decide; simplify_eq. eauto.
  - intros (name & Hin & Hn & ->). exists (Secret name). split; [done|]. by rewrite bool_decide_eq_false_2.
Qed.

Lemma collect_missing_spec env known context missing :
  collect_missing_secrets env known context missing = missing ++
    mjoin ((λ v, match v with Interpolated parts => missing_in_parts known context parts | Literal _ => [] end)
              <$> hm_values env).
Proof.
  unfold collect_missing_secrets. revert missing. induction (hm_values env) as [|v l IH]; intros missing; simpl.
  { by rewrite app_nil_r. }
  rewrite IH. destruct v; simpl; [done|]. by rewrite <-app_assoc.
Qed.

Lemma collect_missing_nil env known context :
  collect_missing_secrets env known context [] = [] ↔ ∀ s, env_refers env s → s ∈ known.
Proof.
  rewrite collect_missing_spec. simpl. split.
  - intros Hnil s (var & parts & Hv & Hs). destruct (decide (s ∈ known)) as [|Hn]; [done|]. exfalso.
    assert ((context +:+ "/" +:+ s)%string ∈ ([] : list string)) as Hin; [|by apply elem_of_nil in Hin].
    rewrite <-Hnil. apply list_elem_of_join. eexists. split; [|apply list_elem_of_fmap; exists (Interpolated parts);
      split; [reflexivity|]; apply elem_of_hm_values; eauto].
    apply elem_of_missing_parts. eauto.
  - intros Hall. destruct (mjoin _) as [|m l] eqn:E; [done|]. exfalso.
    assert (m ∈ m :: l) as Hm by left. rewrite <-E in Hm.
    apply list_elem_of_join in Hm as (l' & Hm & (v & -> & Hv)%list_elem_of_fmap).
    destruct v as [|parts]; [by apply elem_of_nil in Hm|].
    apply elem_of_missing_parts in Hm as (s & Hs & Hn & _). apply elem_of_hm_values in Hv as [var Hvar].
    apply Hn, Hall. by exists var, parts.
Qed.

Lemma collect_missing_app env known context missing :
  collect_missing_secrets env known context missing = missing ++ collect_missing_secrets env known context [].
Proof. by rewrite !collect_missing_spec. Qed.

Lemma missing_fold_nil {D} (env_of : D → gmap string EnvValue) known (l : list (string * D)) missing :
  foldl (λ missing '(name, def), collect_missing_secrets (env_of def) known name missing) missing l = [] ↔
  missing = [] ∧ ∀ name def, (name, def) ∈ l → ∀ s, env_refers (env_of def) s → s ∈ known.
Proof.
  revert missing. induction l as [|[name def] l IH]; intros missing; simpl.
  { split; [|by intros []]. intros ->. split; [done|]. by intros ?? ?%elem_of_nil. }
  rewrite IH, collect_missing_app. split.
  - intros [[-> Hn]%app_eq_nil Hall]. split; [done|]. intros n d [[= -> ->]|Hin]%elem_of_cons; [|by eapply Hall].
    by apply (collect_missing_nil _ _ name).
  - intros [-> Hall]. split; [simpl; apply collect_missing_nil; apply (Hall name def); left|].
    intros n d Hin. apply (Hall n d). by right.
Qed.
End lemmas.

(** ** Capacity *)

Lemma f64_ltb_key x y :
  f64_is_nan x = false → f64_is_nan y = false → f64_ltb x y = true ↔ key_lt (f64_key x) (f64_key y).
Proof.
  intros Hx Hy. pose proof (f64_compare_key x y Hx Hy) as Hc.
  unfold f64_ltb, SFltb. destruct (SFcompare x y) as [[]|]; unfold key_lt in *; split; try done;
    [rewrite Hc; lia|lia].
Qed.
Lemma f64_ltb_not_nan x y : f64_ltb x y = true → f64_is_nan x = false ∧ f64_is_nan y = false.
Proof. by destruct x as [[]|[]| |[]], y as [[]|[]| |[]]. Qed.
Lemma f64_leb_key x y :
  f64_is_nan x = false → f64_is_nan y = false → f64_leb x y = true ↔ ¬ key_lt (f64_key y) (f64_key x).
Proof.
  intros Hx Hy. pose proof (f64_compare_key x y Hx Hy) as Hc.
  unfold f64_leb, SFleb. destruct (SFcompare x y) as [[]|]; unfold key_lt in *; split; try done;
    first [rewrite Hc; lia|lia].
Qed.

(** The largest CPU count is at least that of every node. *)
Lemma max_cpu_ge ns acc :
  f64_is_nan acc = false →
  let m := foldl (λ m n, f64_max m (cpu_total n)) acc ns in
  f64_is_nan m = false ∧ ¬ key_lt (f64_key m) (f64_key acc) ∧
  ∀ n, n ∈ ns → f64_is_nan (cpu_total n) = false → ¬ key_lt (f64_key m) (f64_key (cpu_total n)).
Proof.
  revert acc. induction ns as [|n ns IH]; intros acc Hacc; simpl.
  { split_and!; [done|unfold key_lt; lia|]. by intros ? ?%elem_of_nil. }
  assert (f64_is_nan (f64_max acc (cpu_total n)) = false ∧
          ¬ key_lt (f64_key (f64_max acc (cpu_total n))) (f64_key acc) ∧
          (f64_is_nan (cpu_total n) = false →
           ¬ key_lt (f64_key (f64_max acc (cpu_total n))) (f64_key (cpu_total n)))) as (H1 & H2 & H3).
  { unfold f64_max. rewrite Hacc. destruct (f64_is_nan (cpu_total n)) eqn:Hn; [split_and!; [done|unfold key_lt; lia|done]|].
    destruct (f64_ltb acc (cpu_total n)) eqn:Hl.
    - apply f64_ltb_key in Hl; [|done..]. split_and!; [done|unfold key_lt in *; lia|unfold key_lt; lia].
    - split_and!; [done|unfold key_lt; lia|]. intros _ Hk. apply f64_ltb_key in Hk; [|done..]. congruence. }
  destruct (IH _ H1) as (Hm & Hge & Hall). split_and!; [done|unfold key_lt in *; lia|].
  intros n' [->|Hin]%elem_of_cons Hn'; [|by apply Hall]. specialize (H3 Hn'). unfold key_lt in *. lia.
Qed.
Lemma max_mem_ge ns n : n ∈ ns → memory_total n ≤ foldr (λ n m, Z.max (memory_total n) m) 0 ns.
Proof. induction ns as [|n' ns IH]; simpl; [by intros ?%elem_of_nil|]. intros [->|?%IH]%elem_of_cons; lia. Qed.

Lemma exceeds_fits_none ns r n :
  exceeds (foldl (λ m n, f64_max m (cpu_total n)) f64_zero ns) (foldr (λ n m, Z.max (memory_total n) m) 0 ns) r = true →
  n ∈ ns → ¬ fits_size r n.
Proof.
  intros Hex Hin [Hcpu Hmem]. unfold exceeds in Hex. apply orb_true_iff in Hex as [Hlt|?%Z.ltb_lt].
  - destruct (max_cpu_ge ns f64_zero eq_refl) as (Hm & _ & Hall).
    apply f64_ltb_not_nan in Hlt as Hnan. destruct Hnan as [_ Hr]. apply f64_ltb_key in Hlt; [|done..].
    apply f64_leb_not_nan in Hcpu as Hnan. destruct Hnan as [_ Hn]. apply f64_leb_key in Hcpu; [|done..].
    specialize (Hall n Hin Hn). unfold key_lt in *. lia.
  - pose proof (max_mem_ge ns n Hin). lia.
Qed.

(** * Theorems *)

(** comparing two configurations splits the services exactly: added are those only in the new one,
    removed those only in the old one, changed and unchanged those in both with a different or an
    equal definition; each comes with its new definition, and no name occurs twice. *)
Theorem diff_config_partition `{HashIter} old new :
  let p := diff_config old new in
  let old_def name := old ≫= (λ c, services c !! name) in
  (∀ name def, (name, def) ∈ added p ↔ services new !! name = Some def ∧ old_def name = None) ∧
  (∀ name def, (name, def) ∈ changed p ↔ services new !! name = Some def ∧
     ∃ d0, old_def name = Some d0 ∧ service_def_eqb d0 def = false) ∧
  (∀ name, name ∈ unchanged p ↔ ∃ def d0, services new !! name = Some def ∧ old_def name = Some d0 ∧
     service_def_eqb d0 def = true) ∧
  (∀ name, name ∈ removed p ↔ is_Some (old_def name) ∧ services new !! name = None) ∧
  NoDup (added p).*1 ∧ NoDup (changed p).*1 ∧ NoDup (unchanged p) ∧ NoDup (removed p).
Proof.
  intros p old_def. subst p. unfold diff_config. rewrite diff_fold. simpl.
  assert (∀ name, (services <$> old) ≫= (λ s : gmap string ServiceDef, s !! name) = old_def name) as Hold.
  { intros name. subst old_def. by destruct old. }
  split_and!.
  - intros name def. rewrite elem_of_filter_map. split.
    + intros ([n d] & Hin%elem_of_hm_iter & Hf). rewrite Hold in Hf. destruct (old_def n) eqn:E; simplify_eq. done.
    + intros [Hn Ho]. exists (name, def). rewrite elem_of_hm_iter, Hold, Ho. done.
  - intros name def. rewrite elem_of_filter_map. split.
    + intros ([n d] & Hin%elem_of_hm_iter & Hf). rewrite Hold in Hf. destruct (old_def n) as [d0|] eqn:E; [|done].
      destruct (service_def_eqb d0 d) eqn:Eq; simplify_eq. eauto.
    + intros (Hn & d0 & Ho & Heq). exists (name, def). by rewrite elem_of_hm_iter, Hold, Ho, Heq.
  - intros name. rewrite elem_of_filter_map. split.
    + intros ([n d] & Hin%elem_of_hm_iter & Hf). rewrite Hold in Hf. destruct (old_def n) as [d0|] eqn:E; [|done].
      destruct (service_def_eqb d0 d) eqn:Eq; simplify_eq. eauto.
    + intros (def & d0 & Hn & Ho & Heq). exists (name, def). by rewrite elem_of_hm_iter, Hold, Ho, Heq.
  - intros name. subst old_def. destruct old as [c|]; simpl.
    + rewrite elem_of_filterb, elem_of_hm_keys, negb_true_iff. unfold hm_contains.
      rewrite bool_decide_eq_false, <-eq_None_not_Some. done.
    + split; [by intros ?%elem_of_nil|]. by intros [[] _].
  - apply (NoDup_filter_map_keys _ _ fst); [apply NoDup_hm_keys|]. intros [n d] b. rewrite Hold.
    destruct (old_def n); by intros [= <-].
  - apply (NoDup_filter_map_keys _ _ fst); [apply NoDup_hm_keys|]. intros [n d] b. rewrite Hold.
    destruct (old_def n) as [d0|]; [|done]. destruct (service_def_eqb d0 d); by intros [= <-].
  - rewrite <-(list_fmap_id (filter_map _ _)). apply (NoDup_filter_map_keys _ _ id); [apply NoDup_hm_keys|].
    intros [n d] b. rewrite Hold. destruct (old_def n) as [d0|]; [|done]. destruct (service_def_eqb d0 d); by intros [= <-].
  - destruct old as [c|]; simpl; [|constructor]. apply NoDup_filterb, NoDup_hm_keys.
Qed.

(** a configuration passes the secret check exactly when every secret that an environment variable
    of one of its services or tasks refers to is known. *)
Theorem secret_refs_checked `{HashIter} cfg known :
  validate_secret_refs cfg known = Ok tt ↔ ∀ s, config_refers cfg s → s ∈ known.
Proof.
  unfold validate_secret_refs.
  match goal with |- context [bool_decide (?m = [])] =>
    assert (m = [] ↔ ∀ s, config_refers cfg s → s ∈ known) as Hm end.
  { rewrite (missing_fold_nil td_env), (missing_fold_nil sd_env). setoid_rewrite elem_of_hm_iter. split.
    - intros [[_ Hs] Ht] s [(name & def & Hd & Hr)|(name & def & Hd & Hr)]; [by eapply Hs|by eapply Ht].
    - intros Hall. split; [split; [done|]|]; intros name def Hd s Hr; apply Hall; [left|right]; eauto. }
  case_bool_decide as Hb; split; try done; tauto.
Qed.

(** a configuration that fails the capacity check could not be deployed: there is no ready node, or
    some service or task does not fit on any ready node even if it were empty. *)
Theorem capacity_rejection_justified `{HashIter} cfg ns e :
  validate_resource_capacity cfg ns = Err e →
  ns = [] ∨ ∃ r, config_request cfg r ∧ ∀ n, n ∈ ns → ¬ fits_size r n.
Proof.
  unfold validate_resource_capacity. case_bool_decide as Hlen; [left; by apply nil_length_inv|].
  case_bool_decide as Hov; [done|]. intros _. right.
  match type of Hov with ?l ≠ [] => destruct l as [|x l'] eqn:E; [done|] end.
  assert (x ∈ x :: l') as Hx by left. rewrite <-E in Hx. apply elem_of_app in Hx as [Hx|Hx];
    apply elem_of_filter_map in Hx as ([name def] & Hin%elem_of_hm_iter & Hf);
    (destruct (exceeds _ _ _) eqn:Hex; [|done]);
    eexists; (split; [first [left; by eauto|right; by eauto]|]); intros n Hn; by eapply exceeds_fits_none.
Qed.

(** the capacity check compares with the largest CPU count and the largest memory of all nodes
    separately: a service that needs the CPU of one node and the memory of another passes it although
    no node can hold it. *)
Theorem capacity_check_not_per_node :
  ∃ cfg ns r, @validate_resource_capacity stored_order cfg ns = Ok tt ∧ config_request cfg r ∧
    ∀ n, n ∈ ns → ¬ fits_size r n.
Proof.
  set (r := mkResources (f64_of_Z 4) (8 * 2 ^ 30)).
  set (def := mkServiceDef "img" 80 1 r ∅ None None [] []).
  set (node c m := mkNodeResources (f64_of_Z c) (f64_of_Z c) (m * 2 ^ 30) (m * 2 ^ 30)).
  exists (mkClusterConfig {["web" := def]}%string ∅), [node 4 2; node 1 8], r.
  split; [vm_compute; reflexivity|]. split; [left; exists "web"%string, def; split; reflexivity|].
  intros n. rewrite !elem_of_cons, elem_of_nil. intros [->|[->|[]]] [Hc Hm].
  - vm_compute in Hm. by apply Hm.
  - vm_compute in Hc. done.
Qed.

(** * Witnesses *)

Lemma capacity_rejection_justified_witness :
  let r := mkResources (f64_of_Z 4) (2 ^ 30) in
  let cfg := mkClusterConfig {["web" := mkServiceDef "img" 80 1 r ∅ None None [] []]}%string ∅ in
  let n := mkNodeResources (f64_of_Z 2) (f64_of_Z 2) (2 ^ 31) (2 ^ 31) in
  ∃ r, config_request cfg r ∧ ¬ fits_size r n.
Proof.
  intros r cfg n.
  destruct (@capacity_rejection_justified stored_order cfg [n]
    (ValidationFailed "resources exceed largest node capacity: web")) as [H|(r' & H1 & H2)].
  - vm_compute. reflexivity.
  - discriminate H.
  - exists r'. split; [exact H1|]. apply H2. left.
Defined.
