(* ===== verification/Config.v ===== *)
(** The configuration file ([src/crates/config/src]): from the raw, deserialised form to the validated one.
    Deserialising HCL and parsing sizes and durations is third-party code and a parameter. The theorems
    show that environment values written from their parts are read back, that validation accepts exactly
    the configurations which satisfy the documented constraints, and that the result depends on the
    iteration order of the source's hash maps only in the order of routes and volumes, which is enough to
    make an unchanged file count as a change. *)

From S2P Require Import Prelude Types Fsm Plan.
Local Open Scope Z_scope.

(** * Raw configuration (types/config.rs) *)

Record RawHealthCheck := mkRawHealthCheck {
  rh_path : string;
  rh_interval : string;
  rh_failure_threshold : option Z;
}.
Record RawRouteDef := mkRawRouteDef {
  rr_path : string;
  rr_websocket : bool;
}.
Record RawVolumeDef := mkRawVolumeDef {
  rv_path : string;
  rv_size : option string;
  rv_ephemeral : bool;
}.
Record RawServiceDef := mkRawServiceDef {
  rs_image : string;
  rs_port : Z;
  rs_replicas : Z;
  rs_cpu : f64;
  rs_memory : string;
  rs_env : gmap string string;
  rs_health : option RawHealthCheck;
  rs_route : gmap string RawRouteDef;
  rs_volume : gmap string RawVolumeDef;
  rs_command : option (list string);
}.
Record RawTaskDef := mkRawTaskDef {
  rt_image : string;
  rt_cpu : f64;
  rt_memory : string;
  rt_timeout : string;
  rt_env : gmap string string;
  rt_command : option (list string);
}.
Record RawConfig := mkRawConfig {
  raw_service : gmap string RawServiceDef;
  raw_task : gmap string RawTaskDef;
}.

(** * Errors (error.rs) *)

Inductive ConfigError :=
| Parse (e : string)
| InvalidField (path message : string)
| UnknownServiceRef (path service : string)
| Constraint (path message : string)
| Multiple (l : list ConfigError).

Fixpoint show_config_error (e : ConfigError) : string :=
  match e with
  | Parse e => "parse error: " +:+ e
  | InvalidField path message | Constraint path message => path +:+ ": " +:+ message
  | UnknownServiceRef path service => path +:+ ": unknown service reference '" +:+ service +:+ "'"
  | Multiple l =>
      (fix join (l : list ConfigError) : string :=
         match l with
         | [] => ""
         | [e] => show_config_error e
         | e :: l => show_config_error e +:+ String (Ascii.ascii_of_nat 10) (join l)
         end) l
  end%string.

(** A function that pushes to [errors: &mut Vec<ConfigError>] returns what it pushes. *)
Abbreviation W A := (A * list ConfigError)%type.

(** The end of a validation: no error, the only error, or all of them. *)
Definition finish {A} (a : A) (errors : list ConfigError) : result A ConfigError :=
  match errors with
  | [] => Ok a
  | [e] => Err e
  | _ => Err (Multiple errors)
  end.

(** * Environment values (validate/parse.rs) *)

Definition dollar_brace : string := "${".
Definition close_brace : string := "}".

Definition parse_interpolation_expr (path expr full_value : string) : W EnvPart :=
  match strip_prefix "secret(" expr ≫= strip_suffix ")" with
  | Some inner =>
      let name := str_trim inner in
      (Secret name,
       if str_is_empty name then [InvalidField path ("empty secret name in '" +:+ full_value +:+ "'")] else [])
  | None =>
      match strip_prefix "service." expr ≫= strip_suffix ".address" with
      | Some name =>
          (ServiceAddress name,
           if str_is_empty name then [InvalidField path ("empty service name in '" +:+ full_value +:+ "'")] else [])
      | None =>
          (PartLiteral (dollar_brace +:+ expr +:+ close_brace),
           [InvalidField path ("unknown interpolation '" +:+ dollar_brace +:+ expr +:+ close_brace +:+ "' in '"
              +:+ full_value +:+ "'")])
      end
  end%string.

(** The loop of [parse_env_value]. Every round with an interpolation consumes at least three bytes, so
    the length of the value is enough fuel. *)
Fixpoint parse_env_go (fuel : nat) (path value rest : string) (parts : list EnvPart) (errors : list ConfigError) : W EnvValue :=
  match fuel with
  | O => (Interpolated parts, errors)
  | S fuel =>
      let done (parts : list EnvPart) (errors : list ConfigError) :=
        (match parts with [] => Literal "" | _ => Interpolated parts end, errors) in
      match str_find dollar_brace rest with
      | None =>
          if str_is_empty rest then done parts errors
          else match parts with
               | [] => (Literal rest, errors)
               | _ => done (parts ++ [PartLiteral rest]) errors
               end
      | Some start =>
          let parts := if decide (start = 0)%nat then parts else parts ++ [PartLiteral (str_take start rest)] in
          let after_dollar_brace := str_drop (start + 2) rest in
          match str_find close_brace after_dollar_brace with
          | None =>
              done (parts ++ [PartLiteral (str_drop start rest)])
                (errors ++ [InvalidField path ("unclosed interpolation in '" +:+ value +:+ "'")%string])
          | Some stop =>
              let '(part, errs) := parse_interpolation_expr path (str_take stop after_dollar_brace) value in
              parse_env_go fuel path value (str_drop (stop + 1) after_dollar_brace) (parts ++ [part]) (errors ++ errs)
          end
      end
  end.
Definition parse_env_value (path value : string) : W EnvValue :=
  parse_env_go (S (String.length value)) path value value [] [].

Section validate.
Context `{HI : HashIter}.
(** [str::parse::<ByteSize>] and [str::parse::<humantime::Duration>]. *)
Context (bytesize_parse : string → result Z string) (duration_parse : string → result Z string).

Definition parse_byte_size (path value : string) : W Z :=
  match bytesize_parse value with
  | Ok size => (size, [])
  | Err e => (0, [InvalidField path ("invalid byte size '" +:+ value +:+ "': " +:+ e)])
  end%string.
Definition parse_duration (path value : string) : W Z :=
  match duration_parse value with
  | Ok d => (d, [])
  | Err e => (0, [InvalidField path ("invalid duration '" +:+ value +:+ "': " +:+ e)])
  end%string.
Definition parse_env_map (parent_path : string) (raw : gmap string string) : W (gmap string EnvValue) :=
  foldl (λ '(m, errors) '(key, value),
    let '(v, errs) := parse_env_value (parent_path +:+ ".env." +:+ key) value in
    (<[key := v]> m, errors ++ errs)) (∅, []) (hm_iter raw).

(** * Constraints (validate/constraints.rs) *)

Definition check_cpu (path : string) (cpu : f64) : list ConfigError :=
  if f64_leb cpu f64_zero then [Constraint path "cpu must be greater than 0"] else [].
Definition check_port (path : string) (port : Z) : list ConfigError :=
  if port =? 0 then [Constraint path "port must be greater than 0"] else [].
Definition check_health_path (path health_path : string) : list ConfigError :=
  if starts_with "/" health_path then []
  else [Constraint path ("health path must start with '/', got '" +:+ health_path +:+ "'")%string].
Definition check_volume (path : string) (ephemeral : bool) (size : option Z) : list ConfigError :=
  if negb ephemeral && bool_decide (size = None) then [Constraint path "persistent volume must have a size"] else [].

(** * References between services (validate/refs.rs) *)

Definition check_env_refs (parent_path : string) (e : gmap string EnvValue) (defined : list string) : list ConfigError :=
  mjoin ((λ '(key, value),
    match value with
    | Interpolated parts =>
        filter_map (λ part,
          match part with
          | ServiceAddress service =>
              if bool_decide (service ∈ defined) then None
              else Some (UnknownServiceRef (parent_path +:+ ".env." +:+ key)%string service)
          | _ => None
          end) parts
    | Literal _ => []
    end) <$> hm_iter e).
Definition check_service_refs (svcs : gmap string ServiceDef) (tsks : gmap string TaskDef) (defined : list string)
    : list ConfigError :=
  mjoin ((λ '(name, svc), check_env_refs ("service." +:+ name)%string (sd_env svc) defined) <$> hm_iter svcs) ++
  mjoin ((λ '(name, task), check_env_refs ("task." +:+ name)%string (td_env task) defined) <$> hm_iter tsks).

(** * Resolution (validate/mod.rs) *)

Definition resolve_health (path : string) (h : option RawHealthCheck) : W (option HealthCheck) :=
  match h with
  | None => (None, [])
  | Some h =>
      let '(interval, errs) := parse_duration (path +:+ ".health.interval")%string (rh_interval h) in
      (Some (mkHealthCheck (rh_path h) interval (default 3 (rh_failure_threshold h))),
       errs ++ check_health_path (path +:+ ".health.path")%string (rh_path h))
  end.
Definition resolve_volume (path vol_name : string) (v : RawVolumeDef) : W VolumeDef :=
  let vol_path := (path +:+ ".volume." +:+ vol_name)%string in
  let '(size, errs) :=
    match rv_size v with
    | Some s => let '(n, errs) := parse_byte_size (vol_path +:+ ".size")%string s in (Some n, errs)
    | None => (None, [])
    end in
  (mkVolumeDef vol_name (rv_path v) size (rv_ephemeral v), errs ++ check_volume vol_path (rv_ephemeral v) size).
Definition resolve_volumes (path : string) (raw : gmap string RawVolumeDef) : W (list VolumeDef) :=
  let l := (λ '(name, v), resolve_volume path name v) <$> hm_iter raw in
  (l.*1, mjoin l.*2).
Definition resolve_routes (raw : gmap string RawRouteDef) : list RouteDef :=
  (λ '(hostname, r), mkRouteDef hostname (rr_path r) (rr_websocket r)) <$> hm_iter raw.

Definition resolve_service (name : string) (raw : RawServiceDef) : result ServiceDef ConfigError :=
  let path := ("service." +:+ name)%string in
  let '(memory, e1) := parse_byte_size (path +:+ ".memory")%string (rs_memory raw) in
  let e2 := check_cpu (path +:+ ".cpu")%string (rs_cpu raw) in
  let e3 := check_port (path +:+ ".port")%string (rs_port raw) in
  let '(env, e4) := parse_env_map path (rs_env raw) in
  let '(health, e5) := resolve_health path (rs_health raw) in
  let '(volumes, e6) := resolve_volumes path (rs_volume raw) in
  finish (mkServiceDef (rs_image raw) (rs_port raw) (rs_replicas raw) (mkResources (rs_cpu raw) memory) env
            (rs_command raw) health (resolve_routes (rs_route raw)) volumes)
    (e1 ++ e2 ++ e3 ++ e4 ++ e5 ++ e6).
Definition resolve_task_def (name : string) (raw : RawTaskDef) : result TaskDef ConfigError :=
  let path := ("task." +:+ name)%string in
  let '(memory, e1) := parse_byte_size (path +:+ ".memory")%string (rt_memory raw) in
  let '(timeout, e2) := parse_duration (path +:+ ".timeout")%string (rt_timeout raw) in
  let e3 := check_cpu (path +:+ ".cpu")%string (rt_cpu raw) in
  let '(env, e4) := parse_env_map path (rt_env raw) in
  finish (mkTaskDef (rt_image raw) (mkResources (rt_cpu raw) memory) timeout env (rt_command raw))
    (e1 ++ e2 ++ e3 ++ e4).

(** Resolve every entry of a map; errors are flattened, entries that fail are left out. *)
Definition resolve_entry {A B} (f : string → A → result B ConfigError) (acc : W (gmap string B)) (entry : string * A)
    : W (gmap string B) :=
  let '(m, errors) := acc in
  let '(name, a) := entry in
  match f name a with
  | Ok b => (<[name := b]> m, errors)
  | Err (Multiple errs) => (m, errors ++ errs)
  | Err e => (m, errors ++ [e])
  end.
Definition resolve_all {A B} (f : string → A → result B ConfigError) (raw : gmap string A) : W (gmap string B) :=
  foldl (resolve_entry f) (∅, []) (hm_iter raw).
Definition resolve (raw : RawConfig) : result ClusterConfig ConfigError :=
  let '(svcs, e1) := resolve_all resolve_service (raw_service raw) in
  let '(tsks, e2) := resolve_all resolve_task_def (raw_task raw) in
  let e3 := check_service_refs svcs tsks (hm_keys (raw_service raw)) in
  finish (mkClusterConfig svcs tsks) (e1 ++ e2 ++ e3).

(** [parse]: [hcl] deserialises the text. *)
Definition parse (hcl : string → result RawConfig string) (input : string) : result ClusterConfig ConfigError :=
  match hcl input with
  | Ok raw => resolve raw
  | Err e => Err (Parse e)
  end.
End validate.

(** * Specifications *)

(** How a part is written in the file. *)
Definition print_part (p : EnvPart) : string :=
  match p with
  | PartLiteral s => s
  | ServiceAddress service => "${service." +:+ service +:+ ".address}"
  | Secret name => "${secret(" +:+ name +:+ ")}"
  end%string.
Fixpoint print_parts (l : list EnvPart) : string :=
  match l with
  | [] => ""
  | p :: l => (print_part p +:+ print_parts l)%string
  end.
Definition is_literal (p : EnvPart) : bool := match p with PartLiteral _ => true | _ => false end.
(** Parts that can be told apart again: names without a closing brace, literals that are not empty and
    contain no interpolation, and no two literals in a row. *)
Definition part_wf (p : EnvPart) : Prop :=
  match p with
  | PartLiteral s => s ≠ ""%string ∧ str_find dollar_brace s = None
  | ServiceAddress n => n ≠ ""%string ∧ str_find close_brace n = None
  | Secret n => n ≠ ""%string ∧ str_find close_brace n = None ∧ str_trim n = n
  end.
Fixpoint parts_wf (after_literal : bool) (l : list EnvPart) : Prop :=
  match l with
  | [] => True
  | p :: l => part_wf p ∧ (after_literal = true → is_literal p = false) ∧ parts_wf (is_literal p) l
  end.

(** ** Valid configurations *)

Section valid.
Context (bytesize_parse : string → result Z string) (duration_parse : string → result Z string).

(** An environment value without its place in the file. *)
Definition env_value (v : string) : EnvValue := (parse_env_value "" v).1.
Definition env_valid (defined : string → Prop) (e : gmap string string) : Prop :=
  ∀ k v, e !! k = Some v → (parse_env_value "" v).2 = [] ∧
    ∀ parts service, env_value v = Interpolated parts → ServiceAddress service ∈ parts → defined service.
Definition health_valid (h : RawHealthCheck) : Prop :=
  (∃ d, duration_parse (rh_interval h) = Ok d) ∧ starts_with "/" (rh_path h) = true.
Definition volume_valid (v : RawVolumeDef) : Prop :=
  match rv_size v with
  | Some s => ∃ n, bytesize_parse s = Ok n
  | None => rv_ephemeral v = true
  end.
Definition service_valid (defined : string → Prop) (rs : RawServiceDef) : Prop :=
  (∃ n, bytesize_parse (rs_memory rs) = Ok n) ∧ f64_leb (rs_cpu rs) f64_zero = false ∧ rs_port rs ≠ 0 ∧
  env_valid defined (rs_env rs) ∧ (∀ h, rs_health rs = Some h → health_valid h) ∧
  (∀ n v, rs_volume rs !! n = Some v → volume_valid v).
Definition task_valid (defined : string → Prop) (rt : RawTaskDef) : Prop :=
  (∃ n, bytesize_parse (rt_memory rt) = Ok n) ∧ (∃ d, duration_parse (rt_timeout rt) = Ok d) ∧
  f64_leb (rt_cpu rt) f64_zero = false ∧ env_valid defined (rt_env rt).
Definition config_valid (raw : RawConfig) : Prop :=
  let defined name := is_Some (raw_service raw !! name) in
  (∀ name rs, raw_service raw !! name = Some rs → service_valid defined rs) ∧
  (∀ name rt, raw_task raw !! name = Some rt → task_valid defined rt).

(** What a resolved definition takes from the raw one. *)
Definition health_of (h : RawHealthCheck) (hc : HealthCheck) : Prop :=
  hc_path hc = rh_path h ∧ duration_parse (rh_interval h) = Ok (hc_interval hc) ∧
  hc_failure_threshold hc = default 3 (rh_failure_threshold h).
Definition health_opt_of (h : option RawHealthCheck) (hc : option HealthCheck) : Prop :=
  match h, hc with
  | Some h, Some hc => health_of h hc
  | None, None => True
  | _, _ => False
  end.
Definition volume_of (name : string) (v : RawVolumeDef) (vd : VolumeDef) : Prop :=
  vd_name vd = name ∧ vd_path vd = rv_path v ∧ vd_ephemeral vd = rv_ephemeral v ∧
  match rv_size v with
  | Some s => ∃ n, bytesize_parse s = Ok n ∧ vd_size vd = Some n
  | None => vd_size vd = None
  end.
Definition service_of (rs : RawServiceDef) (def : ServiceDef) : Prop :=
  sd_image def = rs_image rs ∧ sd_port def = rs_port rs ∧ sd_replicas def = rs_replicas rs ∧
  res_cpu (sd_resources def) = rs_cpu rs ∧ bytesize_parse (rs_memory rs) = Ok (res_memory (sd_resources def)) ∧
  sd_env def = env_value <$> rs_env rs ∧ sd_command def = rs_command rs ∧
  health_opt_of (rs_health rs) (sd_health def) ∧
  (∀ rd, rd ∈ sd_routes def ↔ ∃ r, rs_route rs !! rd_hostname rd = Some r ∧ rd_path rd = rr_path r ∧ rd_websocket rd = rr_websocket r) ∧
  (∀ name v, rs_volume rs !! name = Some v → ∃ vd, vd ∈ sd_volumes def ∧ volume_of name v vd) ∧
  length (sd_routes def) = size (rs_route rs) ∧ length (sd_volumes def) = size (rs_volume rs).
Definition task_of (rt : RawTaskDef) (def : TaskDef) : Prop :=
  td_image def = rt_image rt ∧ res_cpu (td_resources def) = rt_cpu rt ∧
  bytesize_parse (rt_memory rt) = Ok (res_memory (td_resources def)) ∧
  duration_parse (rt_timeout rt) = Ok (td_timeout def) ∧ td_env def = env_value <$> rt_env rt ∧
  td_command def = rt_command rt.
End valid.

(** * Lemmas *)

(** ** Searching *)

Lemma str_find_None_cons c s a t : str_find (String c s) (String a t) = None → str_find (String c s) t = None.
Proof. cbn [str_find]. destruct (starts_with _ _); [done|]. by destruct (str_find (String c s) t). Qed.
Lemma starts_with_cons a p b s : starts_with (String a p) (String b s) = bool_decide (a = b) && starts_with p s.
Proof.
  unfold starts_with. simpl. case_decide as Hab; [by rewrite (bool_decide_eq_true_2 (a = b))|].
  rewrite (bool_decide_eq_false_2 (a = b)) by done. apply bool_decide_eq_false. by intros [].
Qed.
Lemma starts_with_nil s : starts_with "" s = true.
Proof. done. Qed.

(** The first closing brace after a name without one. *)
Lemma find_close_app n t : str_find close_brace n = None → str_find close_brace (n +:+ close_brace +:+ t)%string = Some (String.length n).
Proof.
  unfold close_brace. induction n as [|a n IH]; intros Hn.
  { rewrite str_app_nil_l, str_app_cons. cbn [str_find]. by rewrite starts_with_cons, starts_with_nil. }
  rewrite str_app_cons. cbn [str_find]. rewrite starts_with_cons, starts_with_nil, andb_true_r.
  pose proof (str_find_None_cons _ _ _ _ Hn) as Hn'. rewrite IH by done.
  cbn [str_find] in Hn. rewrite starts_with_cons, starts_with_nil, andb_true_r in Hn.
  case_bool_decide; [done|]. done.
Qed.
(** The first interpolation after a literal without one. *)
Lemma find_dollar_app l t : str_find dollar_brace l = None → str_find dollar_brace (l +:+ dollar_brace +:+ t)%string = Some (String.length l).
Proof.
  unfold dollar_brace. induction l as [|a l IH]; intros Hl.
  { rewrite str_app_nil_l, !str_app_cons. cbn [str_find]. by rewrite !starts_with_cons, starts_with_nil. }
  rewrite str_app_cons. cbn [str_find]. rewrite starts_with_cons.
  pose proof (str_find_None_cons _ _ _ _ Hl) as Hl'. rewrite IH by done.
  cbn [str_find] in Hl. rewrite starts_with_cons in Hl.
  destruct l as [|b l]; [rewrite str_app_nil_l, str_app_cons, starts_with_cons; 
    rewrite (bool_decide_eq_false_2 (Ascii.ascii_of_nat 123 = Ascii.ascii_of_nat 36)) by done; by rewrite andb_false_r|].
  rewrite str_app_cons, starts_with_cons, starts_with_nil. rewrite starts_with_cons, starts_with_nil in Hl.
  by destruct (_ && _).
Qed.

Lemma str_drop_plus n m s : str_drop (n + m) s = str_drop m (str_drop n s).
Proof. revert s. induction n as [|n IH]; intros [|a s]; simpl; try done. by destruct m. Qed.

(** ** Interpolations are read back *)

Definition expr_of (p : EnvPart) : string :=
  match p with
  | PartLiteral s => s
  | ServiceAddress service => "service." +:+ service +:+ ".address"
  | Secret name => "secret(" +:+ name +:+ ")"
  end%string.
Lemma print_interp p : is_literal p = false → print_part p = (dollar_brace +:+ expr_of p +:+ close_brace)%string.
Proof. destruct p; [done|..]; intros _; simpl; unfold dollar_brace, close_brace; by rewrite !str_app_assoc. Qed.

Lemma interp_back path value p :
  part_wf p → is_literal p = false → parse_interpolation_expr path (expr_of p) value = (p, []).
Proof.
  destruct p as [s|service|name]; [done|..]; intros Hwf _; unfold parse_interpolation_expr.
  - destruct Hwf as [Hne _]. destruct (strip_prefix "secret(" _ ≫= _) as [inner|] eqn:E.
    { apply bind_Some in E as (x & Hx%strip_prefix_Some & _). by cbn in Hx. }
    assert (strip_prefix "service." (expr_of (ServiceAddress service)) ≫= strip_suffix ".address" = Some service) as ->.
    { apply bind_Some. exists (service +:+ ".address")%string. split; [by apply strip_prefix_Some|by apply strip_suffix_Some]. }
    by destruct service.
  - destruct Hwf as (Hne & _ & Htrim).
    assert (strip_prefix "secret(" (expr_of (Secret name)) ≫= strip_suffix ")" = Some name) as ->.
    { apply bind_Some. exists (name +:+ ")")%string. split; [by apply strip_prefix_Some|by apply strip_suffix_Some]. }
    rewrite Htrim. by destruct name.
Qed.

Lemma expr_no_close p : part_wf p → is_literal p = false → str_find close_brace (expr_of p) = None.
Proof.
  assert (∀ a b, str_find close_brace a = None → str_find close_brace b = None → str_find close_brace (a +:+ b)%string = None) as Happ.
  { unfold close_brace. induction a as [|x a IH]; intros b Ha Hb; [by rewrite str_app_nil_l|]. rewrite str_app_cons.
    pose proof (str_find_None_cons _ _ _ _ Ha) as Ha'. cbn [str_find] in *. rewrite starts_with_cons, starts_with_nil in *.
    rewrite IH by done. by destruct (_ && _). }
  destruct p; [done|..]; intros Hwf _; cbn [expr_of part_wf] in *; (apply Happ; [done|]; apply Happ; [|done]); apply Hwf.
Qed.

Lemma str_app_take_drop a b : str_take (String.length a) (a +:+ b)%string = a ∧ str_drop (String.length a) (a +:+ b)%string = b.
Proof. split; [apply str_take_app|apply str_drop_app]. Qed.

(** One round of the loop at an interpolation. *)
Lemma parse_env_interp fuel path value lit p rest parts errors :
  part_wf p → is_literal p = false → str_find dollar_brace lit = None →
  parse_env_go (S fuel) path value (lit +:+ print_part p +:+ rest)%string parts errors =
  parse_env_go fuel path value rest ((if str_is_empty lit then parts else parts ++ [PartLiteral lit]) ++ [p]) errors.
Proof.
  intros Hwf Hlit Hl. rewrite print_interp by done. rewrite !str_app_assoc. cbn [parse_env_go].
  rewrite find_dollar_app by done. rewrite str_drop_plus, str_drop_app, str_take_app.
  change (str_drop 2 (dollar_brace +:+ expr_of p +:+ close_brace +:+ rest)%string) with (expr_of p +:+ close_brace +:+ rest)%string.
  rewrite find_close_app by (by apply expr_no_close). rewrite str_drop_plus, str_drop_app, str_take_app.
  change (str_drop 1 (close_brace +:+ rest)%string) with rest.
  rewrite interp_back by done. rewrite app_nil_r. by destruct lit.
Qed.

Lemma print_parts_length l b : parts_wf b l → (length (filterb (λ p, negb (is_literal p)) l) ≤ String.length (print_parts l))%nat.
Proof.
  revert b. induction l as [|p l IH]; intros b; simpl; [lia|]. intros (Hp & _ & Hl). specialize (IH _ Hl).
  rewrite str_length_app. destruct p; simpl; [lia|..]; rewrite ?str_length_app; simpl; lia.
Qed.

(** Reading well-formed parts from any state of the loop. *)
Lemma parse_env_parts fuel path value l parts errors :
  parts_wf false l → (length (filterb (λ p, negb (is_literal p)) l) < fuel)%nat →
  (parts ≠ [] ∨ Exists (λ p, is_literal p = false) l) →
  parse_env_go fuel path value (print_parts l) parts errors = (Interpolated (parts ++ l), errors).
Proof.
  revert parts l. induction fuel as [|fuel IH]; intros parts l Hwf Hf Hne; [lia|].
  assert (∀ lit p l', part_wf p → is_literal p = false → str_find dollar_brace lit = None → parts_wf false l' →
    (length (filterb (λ p, negb (is_literal p)) l') < fuel)%nat →
    parse_env_go (S fuel) path value (lit +:+ print_part p +:+ print_parts l')%string parts errors =
      (Interpolated ((if str_is_empty lit then parts else parts ++ [PartLiteral lit]) ++ p :: l'), errors)) as Hround.
  { intros lit p l' Hp Hpl Hlit Hl' Hlen. rewrite parse_env_interp by done. rewrite IH; [by rewrite <-app_assoc|done|done|].
    left. by destruct (str_is_empty lit), parts. }
  destruct l as [|p l].
  { destruct Hne as [Hne|Hne]; [|by inversion Hne]. cbn [print_parts parse_env_go]. rewrite app_nil_r. by destruct parts. }
  destruct Hwf as (Hp & _ & Hl). destruct (is_literal p) eqn:Ep.
  - destruct p as [s| |]; try done. destruct Hp as [Hs Hfind]. destruct l as [|p l].
    + destruct Hne as [Hne|Hne]; [|by inversion Hne as [? ? H|? ? H]; inversion H].
      cbn [print_parts print_part parse_env_go]. rewrite str_app_nil_r, Hfind. destruct s; [done|]. by destruct parts.
    + destruct Hl as (Hp & Hnl & Hl). specialize (Hnl eq_refl). simpl in Hf. rewrite Hnl in Hf. simpl in Hf.
      cbn [print_parts]. change (print_part (PartLiteral s)) with s. rewrite Hround; [|done..| |lia].
      * destruct s; [done|]. cbn [str_is_empty]. by rewrite <-app_assoc.
      * by rewrite Hnl in Hl.
  - simpl in Hf. rewrite Ep in Hf. simpl in Hf. cbn [print_parts].
    rewrite <-(str_app_nil_l (print_part p +:+ print_parts l)). rewrite Hround; [done..|lia].
Qed.

(** A value without an interpolation is a literal. *)
Lemma parse_env_literal path s : str_find dollar_brace s = None → parse_env_value path s = (Literal s, []).
Proof. intros Hs. unfold parse_env_value. cbn [parse_env_go]. rewrite Hs. by destruct s. Qed.

(** ** Errors *)

(** Errors that are pushed are never lists of errors. *)
Definition flat (e : ConfigError) : bool := match e with Multiple _ => false | _ => true end.
Abbreviation all_flat := (Forall (λ e, flat e = true)).

Lemma finish_Ok {A} (a b : A) es : finish a es = Ok b ↔ es = [] ∧ b = a.
Proof. destruct es as [|e [|e' es]]; simpl; naive_solver. Qed.
(** The errors in a result. *)
Definition errors_of {A} (r : result A ConfigError) : list ConfigError :=
  match r with
  | Ok _ => []
  | Err (Multiple errs) => errs
  | Err e => [e]
  end.
Lemma errors_finish {A} (a : A) es : all_flat es → errors_of (finish a es) = es.
Proof. destruct es as [|e [|e' es]]; simpl; [done| |done]. intros [Hf _]%Forall_cons_1. by destruct e. Qed.

Lemma parse_interp_flat path expr value : all_flat (parse_interpolation_expr path expr value).2.
Proof. unfold parse_interpolation_expr. repeat case_match; simpl; by repeat constructor. Qed.
Lemma parse_env_flat path value : all_flat (parse_env_value path value).2.
Proof.
  unfold parse_env_value. assert (all_flat ([] : list ConfigError)) as H0 by constructor. revert H0.
  generalize ([] : list ConfigError) as errs, ([] : list EnvPart) as parts, value at 3 as rest.
  induction (S (String.length value)) as [|n IH]; intros errs parts rest Hf; [done|]. cbn [parse_env_go].
  destruct (str_find dollar_brace rest) as [start|]; [|repeat case_match; done].
  destruct (str_find close_brace _) as [stop|].
  - pose proof (parse_interp_flat path (str_take stop (str_drop (start + 2) rest)) value) as Hp.
    destruct (parse_interpolation_expr _ _ _) as [part errs']. apply IH. by apply Forall_app.
  - apply Forall_app. split; [done|]. by repeat constructor.
Qed.

(** The value that is read, and whether there is an error, do not depend on the path in messages. *)
Lemma parse_interp_path p1 p2 expr value :
  (parse_interpolation_expr p1 expr value).1 = (parse_interpolation_expr p2 expr value).1 ∧
  length (parse_interpolation_expr p1 expr value).2 = length (parse_interpolation_expr p2 expr value).2.
Proof. unfold parse_interpolation_expr. repeat case_match; done. Qed.
Lemma parse_env_path p1 p2 value :
  (parse_env_value p1 value).1 = (parse_env_value p2 value).1 ∧
  ((parse_env_value p1 value).2 = [] ↔ (parse_env_value p2 value).2 = []).
Proof.
  unfold parse_env_value.
  cut (∀ n parts rest e1 e2, length e1 = length e2 →
    (parse_env_go n p1 value rest parts e1).1 = (parse_env_go n p2 value rest parts e2).1 ∧
    length (parse_env_go n p1 value rest parts e1).2 = length (parse_env_go n p2 value rest parts e2).2).
  { intros H. destruct (H (S (String.length value)) [] value [] [] eq_refl) as [H1 H2]. split; [done|].
    rewrite <-!length_zero_iff_nil. by rewrite H2. }
  induction n as [|n IH]; intros parts rest e1 e2 He; [done|]. cbn [parse_env_go].
  destruct (str_find dollar_brace rest) as [start|]; [|repeat case_match; done].
  destruct (str_find close_brace _) as [stop|].
  - destruct (parse_interp_path p1 p2 (str_take stop (str_drop (start + 2) rest)) value) as [Hp1 Hp2].
    destruct (parse_interpolation_expr p1 _ _) as [part1 errs1], (parse_interpolation_expr p2 _ _) as [part2 errs2].
    simpl in *. subst. apply IH. rewrite !length_app. lia.
  - split; [done|]. simpl. rewrite !length_app. simpl. lia.
Qed.

Lemma app_nil_iff {A} (l1 l2 : list A) : l1 ++ l2 = [] ↔ l1 = [] ∧ l2 = [].
Proof. split; [apply app_nil|]. by intros [-> ->]. Qed.

(** References are only checked for the whole configuration. *)
Lemma env_valid_True e : env_valid (λ _, True) e ↔ ∀ k v, e !! k = Some v → (parse_env_value "" v).2 = [].
Proof. unfold env_valid. naive_solver. Qed.

(** ** Maps of definitions *)

Definition ok {A E} (r : result A E) : option A := match r with Ok a => Some a | Err _ => None end.

Section resolution.
Context `{HI : HashIter}.

Lemma mjoin_fmap_nil {A B} (f : A → list B) l : mjoin (f <$> l) = [] ↔ ∀ x, x ∈ l → f x = [].
Proof. rewrite join_nil, Forall_fmap, Forall_forall. done. Qed.
Lemma all_flat_mjoin {A} (f : A → list ConfigError) l : (∀ x, all_flat (f x)) → all_flat (mjoin (f <$> l)).
Proof. intros Hf. induction l as [|x l IH]; simpl; [constructor|]. by apply Forall_app. Qed.

Definition env_entry (parent : string) (kv : string * string) : string * EnvValue :=
  (kv.1, (parse_env_value (parent +:+ ".env." +:+ kv.1)%string kv.2).1).
Definition env_errors (parent : string) (kv : string * string) : list ConfigError :=
  (parse_env_value (parent +:+ ".env." +:+ kv.1)%string kv.2).2.
Lemma parse_env_map_run parent raw :
  parse_env_map parent raw = (hm_collect (env_entry parent <$> hm_iter raw), mjoin (env_errors parent <$> hm_iter raw)).
Proof.
  unfold parse_env_map, hm_collect. generalize (∅ : gmap string EnvValue) as m0. intros m0.
  change (mjoin (env_errors parent <$> hm_iter raw)) with ([] ++ mjoin (env_errors parent <$> hm_iter raw)).
  generalize ([] : list ConfigError) as e0. revert m0.
  induction (hm_iter raw) as [|[k v] l IH]; intros m0 e0; simpl; [by rewrite app_nil_r|].
  change (env_errors parent (k, v)) with (parse_env_value (parent +:+ ".env." +:+ k)%string v).2.
  destruct (parse_env_value (parent +:+ ".env." +:+ k)%string v) as [ev errs]. simpl. by rewrite IH, <-app_assoc.
Qed.
Lemma parse_env_map_spec parent raw :
  (parse_env_map parent raw).1 = env_value <$> raw ∧ all_flat (parse_env_map parent raw).2 ∧
  ((parse_env_map parent raw).2 = [] ↔ ∀ k v, raw !! k = Some v → (parse_env_value "" v).2 = []).
Proof.
  rewrite parse_env_map_run. simpl. split_and!.
  - apply map_eq. intros k.
    rewrite (list_fmap_ext (env_entry parent) (λ '(k, v), (k, (parse_env_value (parent +:+ ".env." +:+ k)%string v).1)))
      by (by intros i [a b] _).
    rewrite (hm_collect_map (λ k v, (parse_env_value (parent +:+ ".env." +:+ k)%string v).1)).
    rewrite lookup_fmap. destruct (raw !! k) as [v|]; [|done]. simpl. f_equal. apply parse_env_path.
  - apply all_flat_mjoin. intros kv. apply parse_env_flat.
  - rewrite mjoin_fmap_nil. split.
    + intros H k v Hk. specialize (H (k, v)). apply (parse_env_path (parent +:+ ".env." +:+ k)%string ""). apply H.
      by apply elem_of_hm_iter.
    + intros H [k v] Hk%elem_of_hm_iter. apply (parse_env_path _ ""). by eapply H.
Qed.

Definition entry_errors {A B} (f : string → A → result B ConfigError) (x : string * A) : list ConfigError := errors_of (f x.1 x.2).
Definition resolve_step {A B} (f : string → A → result B ConfigError) (acc : gmap string B * list ConfigError) (x : string * A)
    : gmap string B * list ConfigError :=
  (match f x.1 x.2 with Ok b => <[x.1 := b]> acc.1 | Err _ => acc.1 end, acc.2 ++ entry_errors f x).
Lemma resolve_steps {A B} (f : string → A → result B ConfigError) (l : list (string * A)) (m0 : gmap string B) (e0 : list ConfigError) :
  NoDup l.*1 →
  (∀ name, (name ∉ l.*1 → (foldl (resolve_step f) (m0, e0) l).1 !! name = m0 !! name) ∧
     ∀ a, (name, a) ∈ l → (foldl (resolve_step f) (m0, e0) l).1 !! name = match f name a with Ok b => Some b | Err _ => m0 !! name end) ∧
  (foldl (resolve_step f) (m0, e0) l).2 = e0 ++ mjoin (entry_errors f <$> l).
Proof.
  revert m0 e0. induction l as [|[n a] l IH]; intros m0 e0 Hnd; cbn [foldl].
  { split; [|simpl; by rewrite app_nil_r]. intros name. split; [done|]. by intros a ?%elem_of_nil. }
  apply NoDup_cons in Hnd as [Hn Hnd]. simpl in Hn.
  change (resolve_step f (m0, e0) (n, a)) with (match f n a with Ok b => <[n := b]> m0 | Err _ => m0 end, e0 ++ entry_errors f (n, a)).
  destruct (IH (match f n a with Ok b => <[n := b]> m0 | Err _ => m0 end) (e0 ++ entry_errors f (n, a)) Hnd) as [I1 I2].
  split; [|by rewrite I2, <-app_assoc]. intros name. destruct (I1 name) as [J1 J2]. split.
  - intros [Hne Hl]%not_elem_of_cons. rewrite J1 by done. destruct (f n a); [by rewrite lookup_insert_ne|done].
  - intros a' [[= -> ->]|Hl]%elem_of_cons.
    + rewrite J1 by done. destruct (f n a) as [b|]; [by rewrite lookup_insert_eq|done].
    + rewrite (J2 a' Hl). destruct (f name a'); [done|]. destruct (f n a); [|done]. rewrite lookup_insert_ne; [done|].
      intros ->. apply Hn. apply list_elem_of_fmap. by exists (name, a').
Qed.
Lemma resolve_all_run {A B} (f : string → A → result B ConfigError) raw :
  (∀ name, (resolve_all f raw).1 !! name = raw !! name ≫= (λ a, ok (f name a))) ∧
  (resolve_all f raw).2 = mjoin (entry_errors f <$> hm_iter raw).
Proof.
  assert (∀ acc x, resolve_entry f acc x = resolve_step f acc x) as Hstep.
  { intros [m e] [n a]. unfold resolve_step, entry_errors, resolve_entry. simpl.
    destruct (f n a) as [b|[]]; simpl; by rewrite ?app_nil_r. }
  assert (resolve_all f raw = foldl (resolve_step f) (∅, []) (hm_iter raw)) as ->.
  { unfold resolve_all. generalize (@pair (gmap string B) (list ConfigError) ∅ []) as acc.
    induction (hm_iter raw) as [|x l IH]; intros acc; cbn [foldl]; [done|]. by rewrite Hstep, IH. }
  destruct (resolve_steps f (hm_iter raw) ∅ [] (NoDup_hm_keys raw)) as [H1 H2]. split; [|done]. intros name.
  destruct (H1 name) as [J1 J2]. destruct (raw !! name) as [a|] eqn:E; simpl.
  - rewrite (J2 a) by (by apply elem_of_hm_iter). by destruct (f name a).
  - rewrite J1; [done|]. intros Hk. apply (elem_of_hm_keys raw name) in Hk as [? ?]. congruence.
Qed.

(** ** Services and tasks *)

Context (bytesize_parse : string → result Z string) (duration_parse : string → result Z string).
Abbreviation service_ok := (λ rs, service_valid bytesize_parse duration_parse (λ _, True) rs).

Lemma byte_size_errors path v : (parse_byte_size bytesize_parse path v).2 = [] ↔ ∃ n, bytesize_parse v = Ok n.
Proof. unfold parse_byte_size. destruct (bytesize_parse v); simpl; naive_solver. Qed.
Lemma byte_size_flat path v : all_flat (parse_byte_size bytesize_parse path v).2.
Proof. unfold parse_byte_size. destruct (bytesize_parse v); simpl; by repeat constructor. Qed.
Lemma duration_errors path v : (parse_duration duration_parse path v).2 = [] ↔ ∃ n, duration_parse v = Ok n.
Proof. unfold parse_duration. destruct (duration_parse v); simpl; naive_solver. Qed.
Lemma duration_flat path v : all_flat (parse_duration duration_parse path v).2.
Proof. unfold parse_duration. destruct (duration_parse v); simpl; by repeat constructor. Qed.
Lemma cpu_errors path cpu : all_flat (check_cpu path cpu) ∧ (check_cpu path cpu = [] ↔ f64_leb cpu f64_zero = false).
Proof. unfold check_cpu. destruct (f64_leb cpu f64_zero); split; try done; by repeat constructor. Qed.
Lemma port_errors path port : all_flat (check_port path port) ∧ (check_port path port = [] ↔ port ≠ 0).
Proof. unfold check_port. destruct (Z.eqb_spec port 0); split; try done; by repeat constructor. Qed.

Lemma resolve_health_spec path h :
  all_flat (resolve_health duration_parse path h).2 ∧
  ((resolve_health duration_parse path h).2 = [] ↔ ∀ h', h = Some h' → health_valid duration_parse h') ∧
  ((resolve_health duration_parse path h).2 = [] →
     health_opt_of duration_parse h (resolve_health duration_parse path h).1).
Proof.
  destruct h as [h|]; [|by repeat split]. unfold resolve_health, health_valid, health_opt_of, health_of.
  pose proof (duration_flat (path +:+ ".health.interval")%string (rh_interval h)) as Hf.
  pose proof (duration_errors (path +:+ ".health.interval")%string (rh_interval h)) as He. unfold parse_duration in *.
  unfold check_health_path. destruct (duration_parse (rh_interval h)) as [d|e] eqn:Ed; simpl in *.
  - destruct (starts_with "/" (rh_path h)) eqn:Es; split_and!; try done; try (by repeat constructor); split; try done.
    + intros _ h' [= <-]. split; [|done]. rewrite Ed. eauto.
    + intros H. destruct (H h eq_refl) as [_ ?]. congruence.
  - split_and!; try done; [constructor; [done|]; case_match; by repeat constructor|]. split; [done|].
    intros H. destruct (H h eq_refl) as [[d ?] _]. congruence.
Qed.

Lemma resolve_volume_spec path n v :
  all_flat (resolve_volume bytesize_parse path n v).2 ∧
  ((resolve_volume bytesize_parse path n v).2 = [] ↔ volume_valid bytesize_parse v) ∧
  ((resolve_volume bytesize_parse path n v).2 = [] → volume_of bytesize_parse n v (resolve_volume bytesize_parse path n v).1).
Proof.
  unfold resolve_volume, volume_valid, volume_of, parse_byte_size, check_volume.
  destruct (rv_size v) as [s|].
  - destruct (bytesize_parse s) as [k|e]; simpl.
    + rewrite andb_false_r. split_and!; [by constructor| |]; [split; eauto|]. intros _. by split_and!; eauto.
    + split_and!; try done; [by repeat constructor; case_match; repeat constructor|]. split; [done|]. by intros [? ?].
  - simpl. rewrite andb_true_r. destruct (rv_ephemeral v) eqn:Ee; simpl; split_and!; try done; by repeat constructor.
Qed.

Definition volume_entry (path : string) (x : string * RawVolumeDef) : W VolumeDef := resolve_volume bytesize_parse path x.1 x.2.
Lemma resolve_volumes_spec path raw :
  all_flat (resolve_volumes bytesize_parse path raw).2 ∧
  ((resolve_volumes bytesize_parse path raw).2 = [] ↔ ∀ n v, raw !! n = Some v → volume_valid bytesize_parse v) ∧
  length (resolve_volumes bytesize_parse path raw).1 = size raw ∧
  ((resolve_volumes bytesize_parse path raw).2 = [] → ∀ n v, raw !! n = Some v →
     ∃ vd, vd ∈ (resolve_volumes bytesize_parse path raw).1 ∧ volume_of bytesize_parse n v vd).
Proof.
  assert (resolve_volumes bytesize_parse path raw =
    ((λ x, (volume_entry path x).1) <$> hm_iter raw, mjoin ((λ x, (volume_entry path x).2) <$> hm_iter raw))) as ->.
  { unfold resolve_volumes. f_equal; [|f_equal]; rewrite <-list_fmap_compose; by apply list_fmap_ext; intros ? [] ?. }
  simpl. split_and!.
  - apply all_flat_mjoin. intros x. apply resolve_volume_spec.
  - rewrite mjoin_fmap_nil. split.
    + intros H n v Hn. apply (resolve_volume_spec path n v). apply (H (n, v)). by apply elem_of_hm_iter.
    + intros H [n v] Hn%elem_of_hm_iter. apply (resolve_volume_spec path n v). by eapply H.
  - rewrite length_fmap, hm_iter_perm. apply length_map_to_list.
  - rewrite mjoin_fmap_nil. intros H n v Hn. exists (volume_entry path (n, v)).1. split.
    + apply list_elem_of_fmap. exists (n, v). split; [done|]. by apply elem_of_hm_iter.
    + apply resolve_volume_spec. apply (H (n, v)). by apply elem_of_hm_iter.
Qed.
Lemma resolve_routes_spec raw :
  length (resolve_routes raw) = size raw ∧
  ∀ rd, rd ∈ resolve_routes raw ↔
    ∃ r, raw !! rd_hostname rd = Some r ∧ rd_path rd = rr_path r ∧ rd_websocket rd = rr_websocket r.
Proof.
  unfold resolve_routes. split; [rewrite length_fmap, hm_iter_perm; apply length_map_to_list|]. intros rd.
  rewrite list_elem_of_fmap. split.
  - intros ([h r] & -> & Hr%elem_of_hm_iter). by exists r.
  - intros (r & Hr & H1 & H2). exists (rd_hostname rd, r). split; [|by apply elem_of_hm_iter]. destruct rd; simpl in *. by subst.
Qed.

Lemma resolve_service_spec name rs :
  (errors_of (resolve_service bytesize_parse duration_parse name rs) = [] ↔ service_ok rs) ∧
  (∀ def, resolve_service bytesize_parse duration_parse name rs = Ok def → service_of bytesize_parse duration_parse rs def) ∧
  (service_ok rs → ∃ def, resolve_service bytesize_parse duration_parse name rs = Ok def).
Proof.
  unfold resolve_service, service_valid. set (path := ("service." +:+ name)%string).
  pose proof (byte_size_errors (path +:+ ".memory")%string (rs_memory rs)) as Em.
  pose proof (byte_size_flat (path +:+ ".memory")%string (rs_memory rs)) as Fm.
  pose proof (cpu_errors (path +:+ ".cpu")%string (rs_cpu rs)) as [Fc Ec].
  pose proof (port_errors (path +:+ ".port")%string (rs_port rs)) as [Fp Ep].
  pose proof (parse_env_map_spec path (rs_env rs)) as (Ve & Fe & Ee).
  pose proof (resolve_health_spec path (rs_health rs)) as (Fh & Eh & Vh).
  pose proof (resolve_volumes_spec path (rs_volume rs)) as (Fv & Ev & Lv & Vv).
  pose proof (resolve_routes_spec (rs_route rs)) as (Lr & Vr).
  destruct (parse_byte_size _ _ _) as [memory e1] eqn:Emem, (parse_env_map path _) as [env e4],
    (resolve_health _ _ _) as [health e5], (resolve_volumes _ _ _) as [vols e6]. simpl in *.
  set (e2 := check_cpu _ _) in *. set (e3 := check_port _ _) in *.
  set (def := mkServiceDef _ _ _ _ _ _ _ _ _).
  rewrite errors_finish by (repeat (apply Forall_app; split; [done|]); done).
  assert (e1 ++ e2 ++ e3 ++ e4 ++ e5 ++ e6 = [] ↔
    (∃ n, bytesize_parse (rs_memory rs) = Ok n) ∧ f64_leb (rs_cpu rs) f64_zero = false ∧ rs_port rs ≠ 0 ∧
    env_valid (λ _, True) (rs_env rs) ∧ (∀ h, rs_health rs = Some h → health_valid duration_parse h) ∧
    (∀ n v, rs_volume rs !! n = Some v → volume_valid bytesize_parse v)) as Hiff.
  { rewrite !app_nil_iff, Em, Ec, Ep, Ee, Eh, Ev, env_valid_True. done. }
  split_and!; [done| |].
  - intros def' [Hnil ->]%finish_Ok. apply app_nil_iff in Hnil as [-> Hnil]. rewrite !app_nil_iff in Hnil.
    destruct Hnil as (_ & _ & _ & -> & ->). unfold service_of. subst def. simpl.
    assert (bytesize_parse (rs_memory rs) = Ok memory) as Hmem.
    { unfold parse_byte_size in Emem. destruct (bytesize_parse (rs_memory rs)); by simplify_eq. }
    split_and!; auto.
  - intros Hv%Hiff. exists def. apply finish_Ok. done.
Qed.

Lemma resolve_task_spec name rt :
  (errors_of (resolve_task_def bytesize_parse duration_parse name rt) = [] ↔ task_valid bytesize_parse duration_parse (λ _, True) rt) ∧
  (∀ def, resolve_task_def bytesize_parse duration_parse name rt = Ok def → task_of bytesize_parse duration_parse rt def) ∧
  (task_valid bytesize_parse duration_parse (λ _, True) rt → ∃ def, resolve_task_def bytesize_parse duration_parse name rt = Ok def).
Proof.
  unfold resolve_task_def, task_valid. set (path := ("task." +:+ name)%string).
  pose proof (byte_size_errors (path +:+ ".memory")%string (rt_memory rt)) as Em.
  pose proof (byte_size_flat (path +:+ ".memory")%string (rt_memory rt)) as Fm.
  pose proof (duration_errors (path +:+ ".timeout")%string (rt_timeout rt)) as Et.
  pose proof (duration_flat (path +:+ ".timeout")%string (rt_timeout rt)) as Ft.
  pose proof (cpu_errors (path +:+ ".cpu")%string (rt_cpu rt)) as [Fc Ec].
  pose proof (parse_env_map_spec path (rt_env rt)) as (Ve & Fe & Ee).
  destruct (parse_byte_size _ _ _) as [memory e1] eqn:Emem, (parse_duration _ _ _) as [timeout e2] eqn:Etim,
    (parse_env_map path _) as [env e4]. simpl in *.
  set (e3 := check_cpu _ _) in *. set (def := mkTaskDef _ _ _ _ _).
  rewrite errors_finish by (repeat (apply Forall_app; split; [done|]); done).
  assert (e1 ++ e2 ++ e3 ++ e4 = [] ↔
    (∃ n, bytesize_parse (rt_memory rt) = Ok n) ∧ (∃ d, duration_parse (rt_timeout rt) = Ok d) ∧
    f64_leb (rt_cpu rt) f64_zero = false ∧ env_valid (λ _, True) (rt_env rt)) as Hiff.
  { rewrite !app_nil_iff, Em, Et, Ec, Ee, env_valid_True. done. }
  split_and!; [done| |].
  - intros def' [Hnil ->]%finish_Ok. apply app_nil_iff in Hnil as [-> Hnil]. rewrite !app_nil_iff in Hnil.
    destruct Hnil as (-> & _ & _). unfold task_of. subst def. simpl.
    assert (bytesize_parse (rt_memory rt) = Ok memory) as Hmem.
    { unfold parse_byte_size in Emem. destruct (bytesize_parse (rt_memory rt)); by simplify_eq. }
    assert (duration_parse (rt_timeout rt) = Ok timeout) as Htim.
    { unfold parse_duration in Etim. destruct (duration_parse (rt_timeout rt)); by simplify_eq. }
    split_and!; auto.
  - intros Hv%Hiff. exists def. apply finish_Ok. done.
Qed.

End resolution.

(** ** References *)

Section references.
Context `{HI : HashIter}.

Lemma list_nil_iff {A} (l : list A) : (∀ x, x ∉ l) → l = [].
Proof. destruct l as [|x l]; [done|]. intros H. destruct (H x). left. Qed.

Definition refs_ok (defined : list string) (e : gmap string EnvValue) : Prop :=
  ∀ k parts service, e !! k = Some (Interpolated parts) → ServiceAddress service ∈ parts → service ∈ defined.
Lemma check_env_refs_nil path e defined : check_env_refs path e defined = [] ↔ refs_ok defined e.
Proof.
  unfold check_env_refs. rewrite mjoin_fmap_nil. split.
  - intros H k parts service Hk Hin. specialize (H (k, Interpolated parts)). simpl in H.
    destruct (decide (service ∈ defined)) as [|Hn]; [done|]. exfalso.
    assert (UnknownServiceRef (path +:+ ".env." +:+ k)%string service ∈ ([] : list ConfigError)) as Hbad; [|by apply elem_of_nil in Hbad].
    rewrite <-H by (by apply elem_of_hm_iter). apply elem_of_filter_map. exists (ServiceAddress service). split; [done|].
    by rewrite bool_decide_eq_false_2.
  - intros H [k [s|parts]] Hk%elem_of_hm_iter; [done|]. apply list_nil_iff. intros e0 (part & Hin & Hp)%elem_of_filter_map.
    destruct part as [|service|]; try done. by rewrite bool_decide_eq_true_2 in Hp by (by eapply H).
Qed.
Lemma check_refs_nil svcs tsks defined :
  check_service_refs svcs tsks defined = [] ↔
  (∀ name svc, svcs !! name = Some svc → refs_ok defined (sd_env svc)) ∧
  (∀ name task, tsks !! name = Some task → refs_ok defined (td_env task)).
Proof.
  unfold check_service_refs. rewrite app_nil_iff, !mjoin_fmap_nil. split.
  - intros [H1 H2]. split; intros name x Hx; [specialize (H1 (name, x))|specialize (H2 (name, x))]; simpl in *;
      eapply check_env_refs_nil; [apply H1|apply H2]; by apply elem_of_hm_iter.
  - intros [H1 H2]. split; intros [name x] Hx%elem_of_hm_iter; apply check_env_refs_nil; eauto.
Qed.

(** References of a resolved environment are those of the raw one. *)
Lemma env_valid_split (defined : list string) e :
  env_valid (λ s, s ∈ defined) e ↔ env_valid (λ _, True) e ∧ refs_ok defined (env_value <$> e).
Proof.
  rewrite env_valid_True. unfold env_valid, refs_ok. split.
  - intros H. split; [intros k v Hk; by apply (H k v)|]. intros k parts service Hk Hin.
    rewrite lookup_fmap, fmap_Some in Hk. destruct Hk as (v & Hk & Hv). by eapply (H k v).
  - intros [H1 H2] k v Hk. split; [by eapply H1|]. intros parts service Hv Hin. apply (H2 k parts service); [|done].
    by rewrite lookup_fmap, Hk, <-Hv.
Qed.

Lemma errors_all_nil {A B} (f : string → A → result B ConfigError) (raw : gmap string A) (P : A → Prop) :
  (∀ name a, errors_of (f name a) = [] ↔ P a) →
  (resolve_all f raw).2 = [] ↔ ∀ name a, raw !! name = Some a → P a.
Proof.
  intros Hf. rewrite (proj2 (resolve_all_run f raw)), mjoin_fmap_nil. split.
  - intros H name a Ha. apply (Hf name). apply (H (name, a)). by apply elem_of_hm_iter.
  - intros H [name a] Ha%elem_of_hm_iter. apply Hf. by eapply H.
Qed.
(** Without errors every entry is resolved, to what its specification says. *)
Lemma resolved_all {A B} (f : string → A → result B ConfigError) (raw : gmap string A) (P : A → Prop) (R : A → B → Prop) :
  (∀ name a, (errors_of (f name a) = [] ↔ P a) ∧ (∀ b, f name a = Ok b → R a b) ∧ (P a → ∃ b, f name a = Ok b)) →
  ((resolve_all f raw).2 = [] ↔ ∀ name a, raw !! name = Some a → P a) ∧
  ((resolve_all f raw).2 = [] → ∀ name, option_Forall2 R (raw !! name) ((resolve_all f raw).1 !! name)).
Proof.
  intros Hf. pose proof (errors_all_nil f raw P (λ name a, proj1 (Hf name a))) as Hnil. split; [exact Hnil|]. intros H1 name.
  rewrite (proj1 (resolve_all_run f raw)). destruct (raw !! name) as [a|] eqn:Er; simpl; [|constructor].
  destruct (Hf name a) as (_ & Hof & Hex). destruct Hex as [b Hb]; [by eapply (proj1 Hnil)|]. rewrite Hb. constructor. by apply Hof.
Qed.
End references.

(** * Theorems *)

Section theorems.
Context `{HI : HashIter} (bytesize_parse : string → result Z string) (duration_parse : string → result Z string).

(** C35: a raw configuration is accepted exactly when it is valid: every size and duration can be parsed, CPU
    shares and ports are not zero, health paths start with a slash, persistent volumes have a size,
    interpolations are well-formed and refer to services of the same file. The result then has exactly
    the services and tasks of the file, each with the contents of its raw definition. *)
Theorem resolve_correct raw :
  ((∃ cfg, resolve bytesize_parse duration_parse raw = Ok cfg) ↔ config_valid bytesize_parse duration_parse raw) ∧
  ∀ cfg, resolve bytesize_parse duration_parse raw = Ok cfg →
    (∀ name, option_Forall2 (service_of bytesize_parse duration_parse) (raw_service raw !! name) (services cfg !! name)) ∧
    (∀ name, option_Forall2 (task_of bytesize_parse duration_parse) (raw_task raw !! name) (tasks cfg !! name)).
Proof.
  unfold resolve.
  pose proof (resolved_all _ (raw_service raw) _ _ (resolve_service_spec bytesize_parse duration_parse)) as [S2 S3].
  pose proof (resolved_all _ (raw_task raw) _ _ (resolve_task_spec bytesize_parse duration_parse)) as [T2 T3].
  destruct (resolve_all _ (raw_service raw)) as [svcs e1], (resolve_all _ (raw_task raw)) as [tsks e2]. simpl in *.
  set (names := hm_keys (raw_service raw)).
  split.
  2: { intros cfg [Hnil ->]%finish_Ok. rewrite !app_nil_iff in Hnil. destruct Hnil as (-> & -> & _). simpl. auto. }
  trans (e1 = [] ∧ e2 = [] ∧ check_service_refs svcs tsks names = []).
  { split; [intros [cfg [Hnil _]%finish_Ok]|intros Hnil; eexists; apply finish_Ok; split; [|done]]; by rewrite !app_nil_iff in *. }
  assert (∀ s, s ∈ names ↔ is_Some (raw_service raw !! s)) as Hnames by apply elem_of_hm_keys.
  assert (∀ e, env_valid (λ s, is_Some (raw_service raw !! s)) e ↔ env_valid (λ _, True) e ∧ refs_ok names (env_value <$> e)) as Henv.
  { intros e. rewrite <-env_valid_split. unfold env_valid. split; intros Hv k v Hk; destruct (Hv k v Hk) as [? Hv'];
      (split; [done|]); intros; apply Hnames; eauto. }
  rewrite check_refs_nil. unfold config_valid. split.
  - intros (H1 & H2 & R1 & R2). specialize (S3 H1). specialize (T3 H2). split.
    + intros name rs Hrs. pose proof (S3 name) as Hof. rewrite Hrs in Hof. inversion Hof as [? def Hof' Hr Hd|]; subst.
      destruct (proj1 S2 eq_refl name rs Hrs) as (V1 & V2 & V3 & V4 & V5 & V6). split_and!; try done. apply Henv. split; [done|].
      replace (env_value <$> rs_env rs) with (sd_env def) by apply Hof'. by eapply R1.
    + intros name rt Hrt. pose proof (T3 name) as Hof. rewrite Hrt in Hof. inversion Hof as [? def Hof' Hr Hd|]; subst.
      destruct (proj1 T2 eq_refl name rt Hrt) as (V1 & V2 & V3 & V4). split_and!; try done. apply Henv. split; [done|].
      replace (env_value <$> rt_env rt) with (td_env def) by apply Hof'. by eapply R2.
  - intros [HS HT]. assert (e1 = []) as H1.
    { apply S2. intros name rs Hrs. destruct (HS name rs Hrs) as (V1 & V2 & V3 & V4 & V5 & V6). split_and!; try done. by apply Henv. }
    assert (e2 = []) as H2.
    { apply T2. intros name rt Hrt. destruct (HT name rt Hrt) as (V1 & V2 & V3 & V4). split_and!; try done. by apply Henv. }
    specialize (S3 H1). specialize (T3 H2). split_and!; [done..| |].
    + intros name def Hdef. pose proof (S3 name) as Hof. rewrite Hdef in Hof. inversion Hof as [rs ? Hof' Hr Hd|]; subst.
      destruct (HS name rs) as (_ & _ & _ & V4 & _); [done|]. apply Henv in V4 as [_ V4].
      by replace (sd_env def) with (env_value <$> rs_env rs) by (symmetry; apply Hof').
    + intros name def Hdef. pose proof (T3 name) as Hof. rewrite Hdef in Hof. inversion Hof as [rt ? Hof' Hr Hd|]; subst.
      destruct (HT name rt) as (_ & _ & _ & V4); [done|]. apply Henv in V4 as [_ V4].
      by replace (td_env def) with (env_value <$> rt_env rt) by (symmetry; apply Hof').
Qed.
End theorems.

(** an environment value written from its parts is read back as exactly those parts, without an
    error. *)
Theorem env_value_round_trip path l :
  parts_wf false l → Exists (λ p, is_literal p = false) l →
  parse_env_value path (print_parts l) = (Interpolated l, []).
Proof.
  intros Hwf Hne. unfold parse_env_value. rewrite parse_env_parts; [done|done| |by right].
  pose proof (print_parts_length l false Hwf). lia.
Qed.

(** * Examples and witnesses *)

Module ConfigExamples.
(** Another iteration order: the stored one backwards. *)
Program Definition reversed_order : HashIter := {|
  hm_iter := λ K A _ _ m, reverse (map_to_list m);
  hs_iter := λ K _ _ s, reverse (elements s);
|}.
Next Obligation. intros. apply reverse_Permutation. Qed.
Next Obligation. intros. apply reverse_Permutation. Qed.

Definition ex_size (s : string) : result Z string := Ok (2 ^ 28).
Definition ex_dur (s : string) : result Z string := Ok 0.
(** One service with two hostnames. *)
Definition ex_raw : RawConfig :=
  mkRawConfig {["web" := mkRawServiceDef "web:1" 80 1 (f64_of_Z 1) "256M" {["PEER" := "http://${service.web.address}/"]} None
    {["a.example" := mkRawRouteDef "/" false; "b.example" := mkRawRouteDef "/" false]} ∅ None]} ∅.
Definition ex_parts : list EnvPart := [PartLiteral "http://"; ServiceAddress "db"; PartLiteral "/?k="; Secret "db.key"].
End ConfigExamples.
Import ConfigExamples.

Example print_ex : print_parts ex_parts = "http://${service.db.address}/?k=${secret(db.key)}"%string.
Proof. reflexivity. Qed.

(** deploying the same file again can count as a change: the routes of a service are listed in the
    iteration order of a hash map, which differs from one resolution to the next, and the order matters
    when definitions are compared; the service is then restarted although nothing changed. *)
Theorem unchanged_file_is_changed :
  ∃ c1 c2 def, @resolve stored_order ex_size ex_dur ex_raw = Ok c1 ∧ @resolve reversed_order ex_size ex_dur ex_raw = Ok c2 ∧
    changed (@diff_config stored_order (Some c1) c2) = [("web"%string, def)].
Proof. eexists _, _, _. split; [vm_compute; reflexivity|]. split; [vm_compute; reflexivity|]. vm_compute. reflexivity. Qed.

Lemma env_value_round_trip_witness : parse_env_value "service.web.env.URL" (print_parts ex_parts) = (Interpolated ex_parts, []).
Proof.
  apply env_value_round_trip.
  - simpl. repeat split; try discriminate; vm_compute; (reflexivity || discriminate).
  - apply Exists_cons_tl, Exists_cons_hd. reflexivity.
Defined.
