(* ===== verification/Deploy.v ===== *)
(** Deploys ([src/crates/node/src/primary/deploy/mod.rs]) and the readiness probes they wait for
    ([src/crates/node/src/primary/health/mod.rs]), as procedures of the effect monad. The theorems
    show that a deploy that fails validation changes nothing, that an allocation which does not come
    up is marked failed, that a rolling update stops an old allocation only after every new one was
    reported healthy, that a failed deploy puts the old configuration back, and that the waiting loops
    end. *)

From S2P Require Import Prelude Types Env Fsm Scheduler Rpc World Plan.
Local Open Scope Z_scope.

(** * Text of secrets *)

(** [String::from_utf8]: [None] when valid, else the offset of the first bad sequence and its length
    (no length when the input ends inside a sequence). *)
Definition in_range (lo hi : N) (c : Ascii.ascii) : bool :=
  let n := Ascii.N_of_ascii c in ((lo <=? n) && (n <=? hi))%N.
Definition is_cont (c : Ascii.ascii) : bool := in_range 128 191 c.
(** The length a first byte announces, and the range of the second byte. *)
Definition utf8_head (c : Ascii.ascii) : option (nat * (N * N)) :=
  let n := Ascii.N_of_ascii c in
  if (n <? 128)%N then Some (1%nat, (0, 0)%N)
  else if in_range 194 223 c then Some (2%nat, (128, 191)%N)
  else if (n =? 224)%N then Some (3%nat, (160, 191)%N)
  else if (n =? 237)%N then Some (3%nat, (128, 159)%N)
  else if in_range 225 239 c then Some (3%nat, (128, 191)%N)
  else if (n =? 240)%N then Some (4%nat, (144, 191)%N)
  else if in_range 241 243 c then Some (4%nat, (128, 191)%N)
  else if (n =? 244)%N then Some (4%nat, (128, 143)%N)
  else None.
(** Check [n] continuation bytes; [k] bytes of the sequence were accepted before. *)
Fixpoint utf8_conts (k n : nat) (s : string) : option (option nat) :=
  match n, s with
  | O, _ => None
  | S n, EmptyString => Some None
  | S n, String c s => if is_cont c then utf8_conts (S k) n s else Some (Some k)
  end.
Definition utf8_sequence (s : string) : option (nat + option nat) :=
  match s with
  | EmptyString => None
  | String c s' =>
      match utf8_head c with
      | None => Some (inr (Some 1%nat))
      | Some (1%nat, _) => Some (inl 1%nat)
      | Some (len, (lo, hi)) =>
          match s' with
          | EmptyString => Some (inr None)
          | String d s'' =>
              if in_range lo hi d then
                match utf8_conts 2 (len - 2) s'' with
                | None => Some (inl len)
                | Some e => Some (inr e)
                end
              else Some (inr (Some 1%nat))
          end
      end
  end.
Fixpoint utf8_check (fuel pos : nat) (s : string) : option (nat * option nat) :=
  match fuel with
  | O => None
  | S fuel =>
      match utf8_sequence s with
      | None => None
      | Some (inl len) => utf8_check fuel (pos + len) (str_drop len s)
      | Some (inr e) => Some (pos, e)
      end
  end.
Definition from_utf8 (s : string) : result string string :=
  match utf8_check (S (String.length s)) 0 s with
  | None => Ok s
  | Some (pos, Some len) =>
      Err ("invalid utf-8 sequence of " +:+ pretty (Z.of_nat len) +:+ " bytes from index " +:+ pretty (Z.of_nat pos))
  | Some (pos, None) => Err ("incomplete utf-8 byte sequence from index " +:+ pretty (Z.of_nat pos))
  end%string.

Section deploy.
Context `{HI : HashIter} (env : nat → EnvStep) (fuel : nat) (vars : gmap string string).
(** The cluster key's cipher, and whether a volume driver is configured. *)
Context (decrypt : string → string → result string string) (has_driver : bool).

(** * Readiness probes (health/mod.rs) *)

(** One HTTP request or one connection attempt; only the environment knows the outcome. *)
Definition probe : M bool := '(ok, _) ← await_outcome env; mret ok.
(** [tokio::time::sleep]. *)
Definition sleep : M unit := _ ← await_outcome env; mret tt.

Fixpoint wait_healthy_loop (fuel : nat) (health : HealthCheck) (deadline : Z) (consecutive_failures : Z) : M bool :=
  match fuel with
  | O => λ _, None
  | S fuel =>
      ok ← probe;
      if ok : bool then mret true
      else
        let consecutive_failures := u32_add consecutive_failures 1 in
        if hc_failure_threshold health <=? consecutive_failures then mret false
        else
          t ← now;
          if deadline <=? t then mret false
          else
            _ ← sleep;
            t ← now;
            if deadline <=? t then mret false
            else wait_healthy_loop fuel health deadline consecutive_failures
  end.
Definition wait_healthy (health : HealthCheck) (timeout : Z) : M bool :=
  t ← now;
  wait_healthy_loop fuel health (t + timeout) 0.

Fixpoint wait_tcp_loop (fuel : nat) (deadline : Z) : M bool :=
  match fuel with
  | O => λ _, None
  | S fuel =>
      ok ← probe;
      if ok : bool then mret true
      else
        t ← now;
        if deadline <=? t then mret false
        else _ ← sleep; wait_tcp_loop fuel deadline
  end.
Definition wait_tcp_ready (timeout : Z) : M bool :=
  t ← now;
  wait_tcp_loop fuel (t + timeout).

(** * Waiting for the report of a node *)

(** [tokio::time::timeout(remaining, changes.changed())]: whether a change came in time. *)
Definition changed_in_time : M bool := '(ok, _) ← await_outcome env; mret ok.

Fixpoint poll_for_address_loop (fuel : nat) (aid : AllocId) (deadline : Z) : M (option SocketAddr) :=
  match fuel with
  | O => λ _, None
  | S fuel =>
      addr ← read_fsm (λ f, allocs f !! aid ≫= alloc_address);
      match addr with
      | Some a => mret (Some a)
      | None =>
          t ← now;
          if deadline <=? t then mret None
          else
            ok ← changed_in_time;
            if ok : bool then poll_for_address_loop fuel aid deadline else mret None
      end
  end.
Definition poll_for_address (aid : AllocId) (timeout : Z) : M (option SocketAddr) :=
  t ← now;
  poll_for_address_loop fuel aid (t + timeout).

Fixpoint wait_for_status_loop (fuel : nat) (aid : AllocId) (deadline : Z) : M (result unit DeployError) :=
  match fuel with
  | O => λ _, None
  | S fuel =>
      status ← read_fsm (λ f, alloc_status <$> allocs f !! aid);
      let again :=
        t ← now;
        if deadline <=? t then throw (HealthCheckTimeout (alloc_id_0 aid))
        else
          ok ← changed_in_time;
          if ok : bool then wait_for_status_loop fuel aid deadline
          else throw (HealthCheckTimeout (alloc_id_0 aid)) in
      match status with
      | Some (Running | Healthy | Stopped _) => mret (Ok tt)
      | Some (Failed reason) => throw (DeployNode (DeployFailed (alloc_id_0 aid) reason))
      | _ => again
      end
  end.
Definition wait_for_status (aid : AllocId) (timeout : Z) : M (result unit DeployError) :=
  t ← now;
  wait_for_status_loop fuel aid (t + timeout).

(** * Environment variables of a container *)

Definition resolve_env_part (f : FsmState) (part : EnvPart) : result string DeployError :=
  match part with
  | PartLiteral s => Ok s
  | ServiceAddress service =>
      match find_map alloc_address (list_service_allocs f service) with
      | Some addr => Ok (show_sock addr)
      | None => Err (EnvResolution ("no address for service '" +:+ service +:+ "'"))
      end
  | Secret name =>
      match get_secret f name with
      | None => Err (EnvResolution ("secret '" +:+ name +:+ "' not found"))
      | Some secret =>
          match decrypt (encrypted_value secret) (es_nonce secret) with
          | Err e => Err (EnvResolution e)
          | Ok plaintext =>
              match from_utf8 plaintext with
              | Ok val => Ok val
              | Err e => Err (EnvResolution ("secret '" +:+ name +:+ "' not utf8: " +:+ e))
              end
          end
      end
  end%string.
Fixpoint resolve_parts (f : FsmState) (parts : list EnvPart) (acc : string) : result string DeployError :=
  match parts with
  | [] => Ok acc
  | part :: parts => result_bind (resolve_env_part f part) (λ s, resolve_parts f parts (acc +:+ s)%string)
  end.
Definition resolve_env_value (f : FsmState) (value : EnvValue) : result string DeployError :=
  match value with
  | Literal s => Ok s
  | Interpolated parts => resolve_parts f parts ""
  end.
Fixpoint resolve_entries (f : FsmState) (l : list (string * EnvValue)) (acc : gmap string string)
    : result (gmap string string) DeployError :=
  match l with
  | [] => Ok acc
  | (key, value) :: l => result_bind (resolve_env_value f value) (λ val, resolve_entries f l (<[key := val]> acc))
  end.
Definition resolve_env (f : FsmState) (e : gmap string EnvValue) : result (gmap string string) DeployError :=
  resolve_entries f (hm_iter e) ∅.

(** * Volumes *)

(** Attach the volume to the target node, in the cloud and in the cluster state. *)
Definition attach_volume (vol_def : VolumeDef) (raft_node_id : Z) : M (result unit DeployError) :=
  _ ←? (if has_driver then
          iid ← read_fsm (λ f, instance_id_for f raft_node_id);
          match iid with
          | Some id => _ ←? cloud env (CloudAttach (vd_name vol_def) id); mret (Ok tt)
          | None => mret (Ok tt)
          end
        else mret (Ok tt));
  _ ←? propose_ok env (VolumeAttached (vd_name vol_def) raft_node_id);
  mret (Ok tt).

(** The body of the loop over the volumes of a service. *)
Definition create_volume (raft_node_id : Z) (vol_def : VolumeDef) : M (result unit DeployError) :=
  if vd_ephemeral vol_def then mret (Ok tt)
  else
    vol_st ← read_fsm (λ f, vol_state <$> volumes f !! vd_name vol_def);
    target_mill_id ← read_fsm (λ f, mill_id <$> nodes f !! raft_node_id);
    match vol_st with
    | None =>
        if has_driver then
          let size := match vd_size vol_def with Some s => s | None => 10 * 2 ^ 30 end in
          cloud_id ←? cloud env (CloudCreate (vd_name vol_def) size);
          _ ←? propose_ok env (VolumeCreated (vd_name vol_def) cloud_id);
          attach_volume vol_def raft_node_id
        else mret (Ok tt)
    | Some (VolAttached node) =>
        if bool_decide (Some node = target_mill_id) then mret (Ok tt)
        else
          _ ←? (if has_driver then _ ←? cloud env (CloudDetach (vd_name vol_def)); mret (Ok tt) else mret (Ok tt));
          _ ←? propose_ok env (VolumeDetached (vd_name vol_def));
          attach_volume vol_def raft_node_id
    | Some VolReady => attach_volume vol_def raft_node_id
    end.
Definition create_volumes_if_needed (def : ServiceDef) (raft_node_id : Z) : M (result unit DeployError) :=
  try_for_each (sd_volumes def) (create_volume raft_node_id).

(** * One allocation *)

Definition container_spec (def : ServiceDef) (aid : AllocId) (e : gmap string string) : ContainerSpec :=
  mkContainerSpec aid KService None (sd_command def) (sd_image def) e (Some (sd_port def)) None
    (res_cpu (sd_resources def)) (res_memory (sd_resources def))
    ((λ v, mkContainerVolume (vd_name v) (vd_path v) (vd_ephemeral v)) <$> sd_volumes def).

Definition elapsed (started : Z) : M f64 := t ← now; mret (as_secs_f64 (t - started)).

Definition run_scheduled_alloc (started : Z) (name : string) (def : ServiceDef) (aid : AllocId) (node : NodeId)
    : M (result unit DeployError) :=
  e ←? read_fsm (λ f, resolve_env f (sd_env def));
  _ ←? lift_err DeployNode (send env node (Run aid (container_spec def aid e) None));
  _ ← send_json_event env "progress" [("service", JStr name); ("phase", JStr "starting")];
  _ ←? wait_for_status aid (deploy_timeout vars);
  addr ← poll_for_address aid (poll_address_timeout vars);
  match addr with
  | Some _ =>
      ready ← match sd_health def with
              | Some hc => wait_healthy hc (health_timeout vars)
              | None => wait_tcp_ready (health_timeout vars)
              end;
      if negb ready then throw (HealthCheckTimeout name)
      else
        _ ←? propose_ok env (SetAllocStatus aid Healthy);
        el ← elapsed started;
        _ ← send_json_event env "progress" [("service", JStr name); ("phase", JStr "healthy"); ("elapsed", JF64 el)];
        mret (Ok tt)
  | None => throw (HealthCheckTimeout name)
  end%string.

(** The scheduler is called on the leader's current state. *)
Definition schedule_on (f : FsmState) (request : ScheduleRequest) (vols : list (string * FsmVolume)) : option NodeId :=
  schedule request (list_nodes f) ((λ a, (alloc_node a, alloc_name a, alloc_kind a)) <$> list_allocs f)
    vols (node_available_resources f).

Definition start_alloc (started : Z) (name : string) (def : ServiceDef) (aid : AllocId) (replica : Z)
    : M (result unit DeployError) :=
  let volume_name := vd_name <$> head (sd_volumes def) in
  node ← read_fsm (λ f, schedule_on f (mkScheduleRequest (sd_resources def) name KService volume_name) (list_volumes f));
  node ←? ok_or node (SchedulingFailed name replica);
  _ ← send_json_event env "progress"
        [("service", JStr name); ("phase", JStr "scheduled"); ("node", JStr (node_id_0 node))];
  raft_node_id ← read_fsm (λ f, raft_id_for f node);
  raft_node_id ←? ok_or raft_node_id (SchedulingFailed name replica);
  _ ←? propose_ok env (AllocScheduled aid raft_node_id name KService None (alloc_resources_from (sd_resources def)));
  r ← run_scheduled_alloc started name def aid node;
  match r with
  | Err e =>
      _ ← propose env (SetAllocStatus aid (Failed (show_deploy_error e)));
      mret (Err e)
  | Ok _ => mret r
  end%string.

(** * Services *)

Definition first_ready (f : FsmState) : option Z :=
  raft_id <$> find_first (λ n, bool_decide (fn_status n = NodeReady)) (hm_values (nodes f)).
Definition service_alloc_nodes (f : FsmState) (name : string) : list (AllocId * NodeId) :=
  (λ a, (alloc_id a, alloc_node a)) <$> list_service_allocs f name.
(** [0..n]. *)
Definition replica_range (n : Z) : list Z := seqZ 0 n.

Definition stop_service (name : string) : M (result unit DeployError) :=
  als ← read_fsm (λ f, service_alloc_nodes f name);
  _ ←? try_for_each als (λ '(aid, node), lift_err DeployNode (send env node (Stop aid)));
  _ ← send_json_event env "progress" [("service", JStr name); ("phase", JStr "stopped")];
  mret (Ok tt)%string.

Definition deploy_service (started : Z) (name : string) (def : ServiceDef) : M (result unit DeployError) :=
  raft_node_id ← read_fsm first_ready;
  raft_node_id ←? ok_or raft_node_id (SchedulingFailed name 0);
  _ ←? create_volumes_if_needed def raft_node_id;
  try_for_each (replica_range (sd_replicas def)) (λ replica,
    start_alloc started name def (mkAllocId (name +:+ "-" +:+ pretty replica)) replica).

(** The loop of [rolling_update] that starts the new replicas: the allocations started so far. On a
    failure those are told to stop again. *)
Fixpoint start_replicas (started : Z) (name : string) (def : ServiceDef) (replicas : list Z)
    (new_allocs : list (AllocId * NodeId)) : M (result (list (AllocId * NodeId)) DeployError) :=
  match replicas with
  | [] => mret (Ok new_allocs)
  | replica :: replicas =>
      suffix ← rand_suffix;
      let aid := mkAllocId (name +:+ "-" +:+ suffix) in
      r ← start_alloc started name def aid replica;
      match r with
      | Ok _ =>
          node ← read_fsm (λ f, alloc_node <$> allocs f !! aid);
          start_replicas started name def replicas
            (match node with Some nid => new_allocs ++ [(aid, nid)] | None => new_allocs end)
      | Err e =>
          _ ← for_each new_allocs (λ '(id, nid), _ ← send env nid (Stop id); mret tt);
          mret (Err e)
      end
  end.
(** Stop the old allocations, going on after a failure; the first error is kept. *)
Fixpoint stop_old (old_allocs : list (AllocId * NodeId)) (stop_err : option NodeError) : M (option NodeError) :=
  match old_allocs with
  | [] => mret stop_err
  | (old_id, node) :: old_allocs =>
      r ← send env node (Stop old_id);
      stop_old old_allocs
        match r, stop_err with
        | Err e, None => Some e
        | _, _ => stop_err
        end
  end.
Definition rolling_update (started : Z) (name : string) (def : ServiceDef) : M (result unit DeployError) :=
  raft_node_id ← read_fsm first_ready;
  raft_node_id ←? ok_or raft_node_id (SchedulingFailed name 0);
  _ ←? create_volumes_if_needed def raft_node_id;
  old_allocs ← read_fsm (λ f, service_alloc_nodes f name);
  _ ←? start_replicas started name def (replica_range (sd_replicas def)) [];
  stop_err ← stop_old old_allocs None;
  _ ← send_json_event env "progress" [("service", JStr name); ("phase", JStr "stopped")];
  match stop_err with
  | Some e => throw (DeployNode e)
  | None => mret (Ok tt)
  end%string.

(** * The whole deploy *)

Definition plan_images (plan : DeployPlan) : gset string :=
  list_to_set ((λ '(_, def), sd_image def) <$> added plan ++ changed plan).
Definition eager_pull (plan : DeployPlan) : M unit :=
  let images := plan_images plan in
  _ ← for_each (hs_iter images) (λ image, _ ← broadcast env (Pull image None); mret tt);
  if bool_decide (images = ∅) then mret tt
  else send_json_event env "progress" [("phase", JStr "pulling")]%string.

(** Deploy the services of a list one by one; a failure is reported and the next one is tried. *)
Fixpoint deploy_each (one : string → ServiceDef → M (result unit DeployError))
    (l : list (string * ServiceDef)) (has_failures : bool) : M bool :=
  match l with
  | [] => mret has_failures
  | (name, def) :: l =>
      r ← one name def;
      match r with
      | Ok _ => deploy_each one l has_failures
      | Err e =>
          _ ← send_json_event env "failed" [("service", JStr name); ("reason", JStr (show_deploy_error e))];
          deploy_each one l true
      end
  end%string.

Definition run_deploy (new_config : ClusterConfig) : M (result unit DeployError) :=
  started ← now;
  old_config ← read_fsm config;
  let plan := diff_config old_config new_config in
  _ ← send_json_event env "progress" [("phase", JStr "started")];
  known_secrets ← read_fsm (λ f, list_to_set (C := gset string) (list_secret_names f));
  _ ←? mret (validate_secret_refs new_config known_secrets);
  node_capacities ← read_fsm (λ f,
    fn_resources <$> filterb (λ n, bool_decide (fn_status n = NodeReady)) (list_nodes f));
  _ ←? mret (validate_resource_capacity new_config node_capacities);
  _ ← eager_pull plan;
  _ ←? propose_ok env (Deploy new_config);
  _ ←? try_for_each (removed plan) stop_service;
  has_failures ← deploy_each (deploy_service started) (added plan) false;
  has_failures ← deploy_each (rolling_update started) (changed plan) has_failures;
  _ ← match has_failures, old_config with
      | true, Some old => _ ← propose env (Deploy old); mret tt
      | _, _ => mret tt
      end;
  el ← elapsed started;
  _ ← send_json_event env "done" [("elapsed", JF64 el); ("success", JBool (negb has_failures))];
  mret (Ok tt)%string.

Definition run_restart (service_name : string) : M (result unit DeployError) :=
  started ← now;
  def ← read_fsm (λ f, config f ≫= (λ c, services c !! service_name));
  def ←? ok_or def (DeployNode (ServiceNotFound service_name));
  _ ← send_json_event env "progress" [("phase", JStr "started"); ("service", JStr service_name)];
  _ ←? rolling_update started service_name def;
  el ← elapsed started;
  _ ← send_json_event env "done" [("elapsed", JF64 el)];
  mret (Ok tt)%string.
End deploy.

(** * Specifications *)

(** The allocation that the state machine recorded as healthy. *)
Definition healthy_of (e : Effect) : option AllocId :=
  match e with
  | EPropose (SetAllocStatus aid Healthy) (Ok RespOk) => Some aid
  | _ => None
  end.
(** The allocation whose probes succeeded and whose health went through raft, whatever the state machine answered: [propose] returns
    the answer, and its callers do not look at it. *)
Definition health_committed (e : Effect) : option AllocId :=
  match e with
  | EPropose (SetAllocStatus aid Healthy) (Ok _) => Some aid
  | _ => None
  end.
(** The state machine did not refuse it, if it is a change of an allocation's status. *)
Definition accepted (e : Effect) : Prop :=
  match e with
  | EPropose (SetAllocStatus _ _) (Ok (RespError _)) => False
  | _ => True
  end.
(** No other task removes a node meanwhile. *)
Definition no_removals (env : nat → EnvStep) : Prop := ∀ n id, NodeRemove id ∉ es_before (env n) ++ es_after (env n).
Definition is_stop (e : Effect) : bool :=
  match e with
  | ESend _ (Stop _) _ => true
  | _ => false
  end.
Definition is_event (e : Effect) : bool :=
  match e with
  | EEvent _ _ => true
  | _ => false
  end.
Definition is_failed_event (e : Effect) : bool :=
  match e with
  | EEvent ev _ => bool_decide (ev = "failed"%string)
  | _ => false
  end.
Definition scheduled_ok (aid : AllocId) (e : Effect) : Prop :=
  match e with
  | EPropose (AllocScheduled aid' _ _ _ _ _) (Ok _) => aid' = aid
  | _ => False
  end.
Definition deploys (e : Effect) : option ClusterConfig :=
  match e with
  | EPropose (Deploy c) _ => Some c
  | _ => None
  end.

(** A rolling update stops an allocation only if it brought it up itself, or after it brought up as many as the service has replicas. *)
Definition stops_after (health : Effect → option AllocId) (replicas : Z) (t : list Effect) : Prop :=
  ∀ t1 node aid res t2, t = t1 ++ ESend node (Stop aid) res :: t2 →
    (∃ e, e ∈ t1 ∧ health e = Some aid) ∨ replicas ≤ Z.of_nat (length (filter_map health t1)).

(** * Lemmas *)

Lemma accepted_healthy e : accepted e → health_committed e = healthy_of e.
Proof. destruct e as [cmd r| | | | | | | | |]; try done. destruct cmd as [| | | | |aid st| | | | | | | | |]; try done. destruct st, r as [[]|]; done. Qed.
Lemma accepted_filter t : Forall accepted t → filter_map health_committed t = filter_map healthy_of t.
Proof. induction 1 as [|e t He _ IH]; simpl; [done|]. by rewrite (accepted_healthy e He), IH. Qed.
Lemma stops_after_accepted replicas t : Forall accepted t → stops_after health_committed replicas t → stops_after healthy_of replicas t.
Proof.
  intros Ha Hs t1 node aid res t2 Heq. assert (Forall accepted t1) as Ha1 by (rewrite Heq in Ha; by apply Forall_app in Ha as [? _]).
  rewrite <-accepted_filter by done. destruct (Hs t1 node aid res t2 Heq) as [(e & He & Hh)|]; [left|by right].
  exists e. split; [done|]. rewrite <-accepted_healthy; [done|]. by apply (proj1 (Forall_forall _ _) Ha1).
Qed.

(** A property of every effect, for a trace put together from pieces. *)
Ltac all_ok := rewrite ?app_nil_r; repeat (apply Forall_app; split); try done; by repeat constructor.

Section lemmas.
Context `{HI : HashIter} (env : nat → EnvStep) (fuel : nat) (vars : gmap string string).
Context (decrypt : string → string → result string string) (has_driver : bool).
Implicit Types (p : Effect → Prop).

(** ** Waiting has no effects of its own *)

Lemma probe_always p : always p (probe env).
Proof. unfold probe. solve_always. Qed.
Lemma sleep_always p : always p (sleep env).
Proof. unfold sleep. solve_always. Qed.
Lemma changed_always p : always p (changed_in_time env).
Proof. unfold changed_in_time. solve_always. Qed.

Lemma wait_healthy_always p hc timeout : always p (wait_healthy env fuel hc timeout).
Proof.
  unfold wait_healthy. apply always_bind; [apply always_now|]. intros t.
  generalize 0 as failures. induction fuel as [|n IH]; intros failures; simpl; [apply always_none|].
  apply always_bind; [apply probe_always|]. intros []; [apply always_ret|].
  case_match; [apply always_ret|]. apply always_bind; [apply always_now|]. intros t'.
  case_match; [apply always_ret|]. apply always_bind; [apply sleep_always|]. intros _.
  apply always_bind; [apply always_now|]. intros t''. case_match; [apply always_ret|apply IH].
Qed.
Lemma wait_tcp_always p timeout : always p (wait_tcp_ready env fuel timeout).
Proof.
  unfold wait_tcp_ready. apply always_bind; [apply always_now|]. intros t.
  induction fuel as [|n IH]; simpl; [apply always_none|].
  apply always_bind; [apply probe_always|]. intros []; [apply always_ret|].
  apply always_bind; [apply always_now|]. intros t'. case_match; [apply always_ret|].
  apply always_bind; [apply sleep_always|]. intros _. apply IH.
Qed.
Lemma poll_address_always p aid timeout : always p (poll_for_address env fuel aid timeout).
Proof.
  unfold poll_for_address. apply always_bind; [apply always_now|]. intros t.
  induction fuel as [|n IH]; simpl; [apply always_none|].
  apply always_bind; [apply always_read|]. intros [a|]; [apply always_ret|].
  apply always_bind; [apply always_now|]. intros t'. case_match; [apply always_ret|].
  apply always_bind; [apply changed_always|]. intros []; [apply IH|apply always_ret].
Qed.
Lemma wait_status_always p aid timeout : always p (wait_for_status env fuel aid timeout).
Proof.
  unfold wait_for_status. apply always_bind; [apply always_now|]. intros t.
  induction fuel as [|n IH]; simpl; [apply always_none|].
  assert (always p (t' ← now; if t + timeout <=? t' then throw (HealthCheckTimeout (alloc_id_0 aid))
     else ok ← changed_in_time env;
          if ok : bool then wait_for_status_loop env n aid (t + timeout)
          else throw (HealthCheckTimeout (alloc_id_0 aid)))) as Hagain.
  { apply always_bind; [apply always_now|]. intros t'. case_match; [apply always_ret|].
    apply always_bind; [apply changed_always|]. intros []; [apply IH|apply always_ret]. }
  apply always_bind; [apply always_read|]. intros [[]|]; first [apply always_ret|apply Hagain].
Qed.
Hint Resolve wait_healthy_always wait_tcp_always poll_address_always wait_status_always : mill.

(** ** Volumes and single allocations *)

Lemma create_volumes_always p def id :
  (∀ op ok, p (ECloud op ok)) →
  (∀ name cloud r, p (EPropose (VolumeCreated name cloud) r)) →
  (∀ name node r, p (EPropose (VolumeAttached name node) r)) →
  (∀ name r, p (EPropose (VolumeDetached name) r)) →
  always p (create_volumes_if_needed env has_driver def id).
Proof.
  intros. unfold create_volumes_if_needed, create_volume, attach_volume. solve_always.
Qed.

Lemma run_scheduled_always p started name def aid node :
  (∀ spec r, p (ESend node (Run aid spec None) r)) → (∀ data, p (EEvent "progress" data)) →
  (∀ r, p (EPropose (SetAllocStatus aid Healthy) r)) →
  always p (run_scheduled_alloc env fuel vars decrypt started name def aid node).
Proof.
  intros. unfold run_scheduled_alloc, elapsed.
  repeat first [apply wait_healthy_always|apply wait_tcp_always|apply poll_address_always|apply wait_status_always
               |always_step|case_match|done|solve [auto]].
Qed.

(** A run of [m] from [w] that only needs to be known to extend the trace. *)
Lemma always_ends {A} p (m : M A) (P : A → World → list Effect → Prop) w :
  always p m → (∀ a w' t, Forall p t → P a w' t) → ends m P w.
Proof. intros Hm HP. eapply ends_mono; [apply Hm|]. intros a w' t Ht. by apply HP. Qed.

(** A finished start has proposed the health of its allocation. *)
Lemma run_scheduled_healthy started name def aid node w :
  ends (run_scheduled_alloc env fuel vars decrypt started name def aid node)
    (λ r _ t, r = Ok tt → ∃ e, e ∈ t ∧ health_committed e = Some aid) w.
Proof.
  unfold run_scheduled_alloc. apply ends_bind_ok, ends_read.
  destruct (resolve_env _ _ _) as [ev|e]; [|done].
  apply ends_bind_ok, ends_lift_err, ends_send. intros [[]|e] w1; [|done].
  apply ends_bind, ends_event. intros w2.
  apply ends_bind_ok. eapply (always_ends (λ _, True)); [apply wait_status_always|]. intros [[]|e] w3 t3 _; [|done].
  apply ends_bind. eapply (always_ends (λ _, True)); [apply poll_address_always|].
  intros [addr|] w4 t4 _; [|by apply ends_throw].
  apply ends_bind. eapply (always_ends (λ _, True)).
  { destruct (sd_health def); auto with mill. }
  intros [] w5 t5 _; simpl; [|by apply ends_throw].
  apply ends_bind_ok, ends_propose_ok; [|done]. intros resp w6.
  apply ends_bind. eapply (always_ends (λ _, True)); [unfold elapsed; solve_always|]. intros el w7 t7 _.
  apply ends_bind, ends_event. intros w8. apply ends_ret. intros _.
  exists (EPropose (SetAllocStatus aid Healthy) (Ok resp)). split; [|done]. set_solver.
Qed.

Lemma start_alloc_always p started name def aid replica :
  (∀ node spec r, p (ESend node (Run aid spec None) r)) → (∀ data, p (EEvent "progress" data)) →
  (∀ id res r, p (EPropose (AllocScheduled aid id name KService None res) r)) →
  (∀ st r, p (EPropose (SetAllocStatus aid st) r)) →
  always p (start_alloc env fuel vars decrypt started name def aid replica).
Proof.
  intros Hrun Hev Hsch Hst. unfold start_alloc.
  repeat first [apply run_scheduled_always; auto|always_step|case_match|done|solve [auto]].
Qed.

(** ** What the procedures leave in place *)

Section keeps.
Context (P : FsmState → Prop).
Hypothesis env_keeps : ∀ n cmd f, cmd ∈ es_before (env n) ++ es_after (env n) → P f → P (apply_command f cmd).1.

Lemma outcome_keeps {A} (k : bool * string → A) : keeps P (x ← await_outcome env; mret (k x)).
Proof. repeat keeps_step. Qed.
Lemma probe_keeps : keeps P (probe env).
Proof. unfold probe. apply keeps_bind; [by apply keeps_outcome|]. intros []. apply keeps_ret. Qed.
Lemma sleep_keeps : keeps P (sleep env).
Proof. unfold sleep. repeat keeps_step. Qed.
Lemma changed_keeps : keeps P (changed_in_time env).
Proof. unfold changed_in_time. apply keeps_bind; [by apply keeps_outcome|]. intros []. apply keeps_ret. Qed.
Ltac wait_keeps IH := repeat first [apply probe_keeps|apply sleep_keeps|apply changed_keeps|apply IH|apply keeps_none|keeps_step|case_match].
Lemma wait_healthy_keeps hc timeout : keeps P (wait_healthy env fuel hc timeout).
Proof.
  unfold wait_healthy. keeps_step; [keeps_step|]. generalize 0 as failures.
  induction fuel as [|n IH]; intros failures; simpl; wait_keeps IH.
Qed.
Lemma wait_tcp_keeps timeout : keeps P (wait_tcp_ready env fuel timeout).
Proof. unfold wait_tcp_ready. keeps_step; [keeps_step|]. induction fuel as [|n IH]; simpl; wait_keeps IH. Qed.
Lemma poll_address_keeps aid timeout : keeps P (poll_for_address env fuel aid timeout).
Proof. unfold poll_for_address. keeps_step; [keeps_step|]. induction fuel as [|n IH]; simpl; wait_keeps IH. Qed.
Lemma wait_status_keeps aid timeout : keeps P (wait_for_status env fuel aid timeout).
Proof. unfold wait_for_status. keeps_step; [keeps_step|]. induction fuel as [|n IH]; simpl; wait_keeps IH. Qed.

Hypothesis status_keeps : ∀ f aid st, P f → P (apply_command f (SetAllocStatus aid st)).1.
Lemma run_scheduled_keeps started name def aid node :
  keeps P (run_scheduled_alloc env fuel vars decrypt started name def aid node).
Proof.
  unfold run_scheduled_alloc, elapsed.
  repeat first [apply wait_healthy_keeps|apply wait_tcp_keeps|apply poll_address_keeps|apply wait_status_keeps
               |apply keeps_propose_ok; [done|by intros; apply status_keeps]|keeps_step|case_match].
Qed.
Hypothesis scheduled_keeps : ∀ f aid id name res, P f → P (apply_command f (AllocScheduled aid id name KService None res)).1.
Lemma start_alloc_keeps started name def aid replica :
  keeps P (start_alloc env fuel vars decrypt started name def aid replica).
Proof.
  unfold start_alloc.
  repeat first [apply run_scheduled_keeps|apply keeps_propose; [done|by intros; apply status_keeps]
               |apply keeps_propose_ok; [done|by intros; apply scheduled_keeps]|keeps_step|case_match].
Qed.
End keeps.

(** ** When proposals are accepted *)

(** An allocation is known to the state, or a node is and the state is well formed: both stay until a node is removed. *)
Definition alloc_known (aid : AllocId) (f : FsmState) : Prop := is_Some (allocs f !! aid).
Definition node_known (id : Z) (f : FsmState) : Prop := fsm_wf f ∧ is_Some (nodes f !! id).
Lemma alloc_known_kept aid f cmd : (∀ id, cmd ≠ NodeRemove id) → alloc_known aid f → alloc_known aid (apply_command f cmd).1.
Proof.
  unfold alloc_known. intros Hc Ha. destruct cmd; try (by destruct (Hc id)); simpl; unfold apply_heartbeat; repeat (case_match; simpl; try done).
  all: first [done|rewrite lookup_insert_is_Some; match goal with |- ?x = _ ∨ _ => destruct (decide (x = aid)); auto end
             |rewrite heartbeat_fold_lookup; case_match; [by apply fmap_is_Some|done]].
Qed.
Lemma node_known_kept id f cmd : (∀ id', cmd ≠ NodeRemove id') → node_known id f → node_known id (apply_command f cmd).1.
Proof.
  intros Hc [Hwf Hn]. split; [by apply apply_command_wf|].
  destruct cmd; try (by destruct (Hc id0)); simpl; unfold apply_heartbeat; repeat (case_match; simpl; try done).
  all: first [done|rewrite lookup_insert_is_Some; match goal with |- ?x = _ ∨ _ => destruct (decide (x = id)); auto end].
Qed.
Section accepted.
Hypothesis no_rm : no_removals env.
Lemma env_keeps_known (P : FsmState → Prop) :
  (∀ f cmd, (∀ id, cmd ≠ NodeRemove id) → P f → P (apply_command f cmd).1) →
  ∀ n cmd f, cmd ∈ es_before (env n) ++ es_after (env n) → P f → P (apply_command f cmd).1.
Proof. intros HP n cmd f Hin. apply HP. intros id ->. by destruct (no_rm n id). Qed.
Lemma before_known (P : FsmState → Prop) n f :
  (∀ f cmd, (∀ id, cmd ≠ NodeRemove id) → P f → P (apply_command f cmd).1) → P f → P (apply_commands f (es_before (env n))).
Proof.
  intros HP Hf. apply apply_commands_keeps; [|done]. intros cmd g Hin. apply (env_keeps_known P HP n). apply elem_of_app. by left.
Qed.
Lemma after_known (P : FsmState → Prop) n f :
  (∀ f cmd, (∀ id, cmd ≠ NodeRemove id) → P f → P (apply_command f cmd).1) → P f → P (apply_commands f (es_after (env n))).
Proof.
  intros HP Hf. apply apply_commands_keeps; [|done]. intros cmd g Hin. apply (env_keeps_known P HP n). apply elem_of_app. by right.
Qed.

(** The status of a known allocation is recorded, unless raft fails. *)
Lemma propose_known aid st (Q : result Response string → World → list Effect → Prop) w :
  alloc_known aid (w_fsm w) →
  (∀ r w', r = Ok RespOk ∨ (∃ e, r = Err e) → alloc_known aid (w_fsm w') → Q r w' [EPropose (SetAllocStatus aid st) r]) →
  ends (propose env (SetAllocStatus aid st)) Q w.
Proof.
  intros Ha HQ. apply ends_propose_state. intros w' st' f' r' Hw'.
  assert (alloc_known aid f') as Ha' by (apply before_known; [apply alloc_known_kept|done]).
  apply HQ.
  - subst r'. destruct (es_ok _); [left|right; by eexists]. f_equal. simpl. destruct Ha' as [a ->]. done.
  - rewrite Hw'. apply after_known; [apply alloc_known_kept|]. destruct (es_ok _); [|done]. by apply alloc_known_kept.
Qed.
(** An allocation that is scheduled on a known node is known. *)
Lemma propose_scheduled aid id name res (Q : result Response string → World → list Effect → Prop) w :
  node_known id (w_fsm w) →
  (∀ r w', (∀ resp, r = Ok resp → alloc_known aid (w_fsm w')) → Q r w' [EPropose (AllocScheduled aid id name KService None res) r]) →
  ends (propose env (AllocScheduled aid id name KService None res)) Q w.
Proof.
  intros Hn HQ. apply ends_propose_state. intros w' st' f' r' Hw'. apply HQ. subst r'. intros resp Hr. rewrite Hw'.
  apply after_known; [apply alloc_known_kept|]. destruct (es_ok _); [|done].
  assert (node_known id f') as [_ [n Hn']] by (apply before_known; [apply node_known_kept|done]).
  unfold alloc_known. simpl. rewrite Hn'. simpl. rewrite lookup_insert_eq. by eexists.
Qed.

Lemma keeps_known_run started name def aid node :
  keeps (alloc_known aid) (run_scheduled_alloc env fuel vars decrypt started name def aid node).
Proof. apply run_scheduled_keeps; [apply env_keeps_known, alloc_known_kept|]. intros. by apply alloc_known_kept. Qed.

Lemma raft_id_known f node id : fsm_wf f → raft_id_for f node = Some id → node_known id f.
Proof.
  intros Hwf Hid. split; [done|]. unfold raft_id_for in Hid. apply fmap_Some in Hid as (n & Hn & ->).
  apply find_first_Some in Hn as [Hn _]. apply elem_of_hm_values in Hn as [k Hk]. rewrite (proj1 Hwf k n Hk). by eexists.
Qed.
Lemma silent_keeps {A} (P : FsmState → Prop) (m : M A) (Q : A → World → list Effect → Prop) w :
  keeps P m → always (λ _, False) m → P (w_fsm w) → (∀ a w', P (w_fsm w') → Q a w' []) → ends m Q w.
Proof.
  intros Hk Hm HP HQ. eapply ends_mono; [apply ends_keeps; [exact Hk|done|apply Hm]|]. intros a w' t [HP' Ht].
  destruct t; [by apply HQ|by inversion_clear Ht].
Qed.
Lemma run_scheduled_accepted started name def aid node w :
  alloc_known aid (w_fsm w) →
  ends (run_scheduled_alloc env fuel vars decrypt started name def aid node)
    (λ _ w' t, alloc_known aid (w_fsm w') ∧ Forall accepted t) w.
Proof.
  intros Ha. apply ends_keeps; [apply keeps_known_run|done|]. pose proof (env_keeps_known _ (alloc_known_kept aid)) as Hk.
  unfold run_scheduled_alloc. apply ends_bind_ok, ends_read. destruct (resolve_env _ _ _) as [ev|e]; [|done].
  apply ends_bind_ok, ends_lift_err. eapply ends_mono; [apply ends_keeps; [by apply keeps_send|done|]|].
  { apply (ends_send _ _ _ (λ r _ t, Forall accepted t)). by repeat constructor. }
  intros [[]|e] w1 t1 [Ha1 Ht1]; [|done].
  apply ends_bind. eapply ends_mono; [apply ends_keeps; [by apply keeps_event|done|]|].
  { apply (ends_event _ _ _ (λ r _ t, Forall accepted t)). by repeat constructor. }
  intros _ w2 t2 [Ha2 Ht2]. apply ends_bind_ok.
  apply (silent_keeps (alloc_known aid)); [by apply wait_status_keeps|apply wait_status_always|done|].
  intros [[]|e] w3 Ha3; [|solve [all_ok]].
  apply ends_bind, (silent_keeps (alloc_known aid)); [by apply poll_address_keeps|apply poll_address_always|done|].
  intros [addr|] w4 Ha4; [|apply ends_throw; solve [all_ok]].
  apply ends_bind, (silent_keeps (alloc_known aid)).
  { destruct (sd_health def); [by apply wait_healthy_keeps|by apply wait_tcp_keeps]. }
  { destruct (sd_health def); auto with mill. }
  { done. }
  intros [] w5 Ha5; simpl; [|apply ends_throw; solve [all_ok]].
  apply ends_bind_ok, ends_lift_err, propose_known; [done|]. intros r w6 Hr Ha6.
  assert (Forall accepted [EPropose (SetAllocStatus aid Healthy) r]) as Hp.
  { constructor; [|done]. by destruct Hr as [->|[e ->]]. }
  destruct Hr as [->|[e ->]]; [|solve [all_ok]].
  apply ends_bind. eapply (always_ends (λ _, False)); [unfold elapsed; solve_always|]. intros el w7 t7 Ht7.
  destruct t7; [|by inversion_clear Ht7]. apply ends_bind, ends_event. intros w8. apply ends_ret.
  all_ok.
Qed.
Lemma start_alloc_accepted started name def aid replica w :
  fsm_wf (w_fsm w) → ends (start_alloc env fuel vars decrypt started name def aid replica) (λ _ _ t, Forall accepted t) w.
Proof.
  intros Hwf. unfold start_alloc. apply ends_bind, ends_read, ends_bind_ok, ends_ok_or; [|done]. intros node _.
  apply ends_bind. eapply ends_mono; [apply (ends_keeps fsm_wf); [|done|]|].
  { apply keeps_event. intros. by apply apply_command_wf. }
  { apply (ends_event _ _ _ (λ _ _ t, Forall accepted t)). by repeat constructor. }
  intros _ w1 t1 [Hwf1 Ht1]. apply ends_bind, ends_read, ends_bind_ok, ends_ok_or; [|intros _; all_ok].
  intros id Hid. apply ends_bind_ok, ends_lift_err, propose_scheduled; [by eapply raft_id_known|].
  intros [resp|e] w2 Ha; [|all_ok]. specialize (Ha resp eq_refl). apply ends_bind. eapply ends_mono; [by apply run_scheduled_accepted|].
  intros [[]|e] w3 t3 [Ha3 Ht3]; [apply ends_ret; all_ok|].
  apply ends_bind, propose_known; [done|]. intros r w4 Hr _. apply ends_ret.
  assert (Forall accepted [EPropose (SetAllocStatus aid (Failed (show_deploy_error e))) r]) by (by destruct Hr as [->|[e' ->]]; repeat constructor).
  all_ok.
Qed.
End accepted.

Lemma start_alloc_healthy started name def aid replica w :
  ends (start_alloc env fuel vars decrypt started name def aid replica)
    (λ r _ t, r = Ok tt → ∃ e, e ∈ t ∧ health_committed e = Some aid) w.
Proof.
  unfold start_alloc. apply ends_bind, ends_read, ends_bind_ok, ends_ok_or; [|done]. intros node _.
  apply ends_bind, ends_event. intros w1. apply ends_bind, ends_read, ends_bind_ok, ends_ok_or; [|done].
  intros id _. apply ends_bind_ok, ends_propose_ok; [|done]. intros resp w2.
  apply ends_bind. eapply ends_mono; [apply run_scheduled_healthy|]. intros [[]|e] w3 t Hh.
  - apply ends_ret. intros _. destruct (Hh eq_refl) as (e & He & ?). exists e. split; [|done]. set_solver.
  - apply ends_bind, ends_propose. intros r w4. by apply ends_ret.
Qed.
End lemmas.

(** ** Rolling update *)

(** A stop command is justified when its allocation was recorded healthy before (it is then one the
    update itself started) or when that many allocations were. *)
Definition stop_justified (replicas : Z) (before : list Effect) (e : Effect) : Prop :=
  match e with
  | ESend _ (Stop aid) _ =>
      (∃ e', e' ∈ before ∧ health_committed e' = Some aid) ∨
      replicas ≤ Z.of_nat (length (filter_map health_committed before))
  | _ => True
  end.
Lemma stop_justified_no_stop replicas seen e : is_stop e = false → stop_justified replicas seen e.
Proof. destruct e; simpl; try done. by case_match. Qed.

Lemma filter_map_app {A B} (f : A → option B) l1 l2 : filter_map f (l1 ++ l2) = filter_map f l1 ++ filter_map f l2.
Proof. induction l1 as [|x l1 IH]; simpl; [done|]. destruct (f x); simpl; by rewrite IH. Qed.
Lemma filter_map_elem_length {A B} (f : A → option B) l x y :
  x ∈ l → f x = Some y → (1 ≤ length (filter_map f l))%nat.
Proof.
  intros Hx Hf. assert (y ∈ filter_map f l) as Hy by (apply elem_of_filter_map; eauto).
  destruct (filter_map f l); [by apply elem_of_nil in Hy|simpl; lia].
Qed.

Section rolling.
Context `{HI : HashIter} (env : nat → EnvStep) (fuel : nat) (vars : gmap string string).
Context (decrypt : string → string → result string string) (has_driver : bool).

Lemma start_alloc_no_stop started name def aid replica :
  always (λ e, is_stop e = false) (start_alloc env fuel vars decrypt started name def aid replica).
Proof. by apply start_alloc_always. Qed.

Lemma start_replicas_ordered started name def replicas reps new seen w :
  (∀ id nid, (id, nid) ∈ new → ∃ e, e ∈ seen ∧ health_committed e = Some id) →
  ends (start_replicas env fuel vars decrypt started name def reps new)
    (λ r _ t, ordered (stop_justified replicas) seen t ∧
       (∀ l, r = Ok l → (length reps ≤ length (filter_map health_committed t))%nat)) w.
Proof.
  revert new seen w. induction reps as [|replica reps IH]; intros new seen w Hnew; simpl.
  { apply ends_ret. split; [done|]. simpl. lia. }
  apply ends_bind. eapply (always_ends (λ _, False)); [apply always_suffix|]. intros suffix w1 t1 Ht1.
  destruct t1 as [|? ?]; [|by inversion_clear Ht1]. simpl.
  apply ends_bind. eapply ends_mono.
  { apply ends_and; [apply start_alloc_healthy|apply start_alloc_no_stop]. }
  intros r w2 t2 [Hh Hns]. assert (ordered (stop_justified replicas) seen t2) as Ho.
  { eapply ordered_Forall; [|exact Hns]. intros. by apply stop_justified_no_stop. }
  destruct r as [[]|e].
  - destruct (Hh eq_refl) as (eh & Hin & Heq). apply ends_bind, ends_read.
    eapply ends_mono; [apply (IH _ (seen ++ t2))|].
    + intros id nid Hid. destruct (allocs (w_fsm w2) !! _) as [a|]; simpl in Hid.
      * apply elem_of_app in Hid as [Hid|Hid].
        -- destruct (Hnew _ _ Hid) as (e & ? & ?). exists e. split; [|done]. apply elem_of_app. by left.
        -- apply list_elem_of_singleton in Hid as [= -> ->]. exists eh. split; [|done]. apply elem_of_app. by right.
      * destruct (Hnew _ _ Hid) as (e & ? & ?). exists e. split; [|done]. apply elem_of_app. by left.
    + intros r w3 t3 [Ho3 Hlen]. simpl. rewrite ordered_app. split; [done|]. intros l Hl.
      specialize (Hlen l Hl). rewrite filter_map_app, length_app.
      pose proof (filter_map_elem_length health_committed t2 eh _ Hin Heq). lia.
  - apply ends_bind. eapply ends_mono.
    { apply (ends_for_each _ _ (Forall (λ e, ∀ node aid r, e = ESend node (Stop aid) r →
               ∃ e', e' ∈ seen ∧ health_committed e' = Some aid))); [done|by intros; apply Forall_app|].
      intros [id nid] w3 Hin. apply ends_bind, ends_send. intros r w4. apply ends_ret. apply Forall_singleton.
      intros node aid r' [= -> -> ->]. eauto. }
    intros [] w3 t3 Hall. apply ends_ret. rewrite app_nil_r. split; [|done].
    apply ordered_app. split; [done|]. eapply ordered_Forall; [|exact Hall]. intros seen' e' He'.
    destruct e'; simpl; try done. case_match; try done. subst. destruct (He' _ _ _ eq_refl) as (e2 & ? & ?).
    left. exists e2. split; [|done]. set_solver.
Qed.

Lemma wf_keeps_env : ∀ n cmd f, cmd ∈ es_before (env n) ++ es_after (env n) → fsm_wf f → fsm_wf (apply_command f cmd).1.
Proof. intros. by apply apply_command_wf. Qed.
Lemma start_replicas_accepted started name def reps new w :
  no_removals env → fsm_wf (w_fsm w) →
  ends (start_replicas env fuel vars decrypt started name def reps new) (λ _ _ t, Forall accepted t) w.
Proof.
  intros Hrm. revert new w. induction reps as [|replica reps IH]; intros new w Hwf; simpl; [by apply ends_ret|].
  apply ends_bind, (silent_keeps fsm_wf); [apply keeps_suffix|apply always_suffix|done|]. intros suffix w1 Hwf1. simpl.
  apply ends_bind. eapply ends_mono; [apply (ends_keeps fsm_wf); [|done|by apply start_alloc_accepted]|].
  { apply start_alloc_keeps; [apply wf_keeps_env|..]; intros; by apply apply_command_wf. }
  intros [[]|e] w2 t2 [Hwf2 Ht2].
  - apply ends_bind, ends_read. eapply ends_mono; [by apply IH|]. intros r w3 t3 Ht3. by apply Forall_app.
  - apply ends_bind. eapply (always_ends accepted); [solve_always|]. intros _ w3 t3 Ht3. apply ends_ret. all_ok.
Qed.
Lemma stop_old_always p old err :
  (∀ node aid r, p (ESend node (Stop aid) r)) → always p (stop_old env old err).
Proof.
  intros Hp. revert err. induction old as [|[id node] old IH]; intros err; simpl; [apply always_ret|].
  apply always_bind; [by apply always_send|]. intros r. apply IH.
Qed.
End rolling.

(** ** Whole deploys *)

Section whole.
Context `{HI : HashIter} (env : nat → EnvStep) (fuel : nat) (vars : gmap string string).
Context (decrypt : string → string → result string string) (has_driver : bool).
Implicit Types (p : Effect → Prop).

Lemma start_replicas_always p started name def reps new :
  (∀ node aid spec r, p (ESend node (Run aid spec None) r)) → (∀ node aid r, p (ESend node (Stop aid) r)) →
  (∀ data, p (EEvent "progress" data)) →
  (∀ aid id res r, p (EPropose (AllocScheduled aid id name KService None res) r)) →
  (∀ aid st r, p (EPropose (SetAllocStatus aid st) r)) →
  always p (start_replicas env fuel vars decrypt started name def reps new).
Proof.
  intros. revert new. induction reps as [|rep reps IH]; intros new; simpl; [apply always_ret|].
  repeat first [apply start_alloc_always; auto|apply IH|always_step|case_match|done|solve [auto]].
Qed.

(** The effects of deploying one service: no configuration is proposed, no failure is reported. *)
Definition service_effect (e : Effect) : Prop := deploys e = None ∧ is_failed_event e = false.

Lemma deploy_service_effects started name def :
  always service_effect (deploy_service env fuel vars decrypt has_driver started name def).
Proof.
  unfold deploy_service.
  repeat first [apply create_volumes_always; done|apply start_alloc_always; done|always_step|case_match].
Qed.
Lemma rolling_update_effects started name def :
  always service_effect (rolling_update env fuel vars decrypt has_driver started name def).
Proof.
  unfold rolling_update.
  repeat first [apply create_volumes_always; done|apply start_replicas_always; done|apply stop_old_always; done
               |always_step|case_match|done].
Qed.
Lemma stop_service_effects name : always service_effect (stop_service env name).
Proof. unfold stop_service. solve_always. Qed.
Lemma eager_pull_effects plan : always service_effect (eager_pull env plan).
Proof. unfold eager_pull. solve_always. Qed.

End whole.

(** Whether a failure was reported is what the loop returns. *)
Lemma deploy_each_spec `{HashIter} (env : nat → EnvStep) (one : string → ServiceDef → M (result unit DeployError)) l b w :
  (∀ name def, always service_effect (one name def)) →
  ends (deploy_each env one l b)
    (λ b' _ t, Forall (λ e, deploys e = None) t ∧ (b' = true ↔ b = true ∨ Exists (λ e, is_failed_event e = true) t)) w.
Proof.
  intros Hone. revert b w. induction l as [|[name def] l IH]; intros b w; simpl.
  { apply ends_ret. split; [done|]. rewrite Exists_nil. tauto. }
  apply ends_bind. eapply ends_mono; [apply Hone|]. intros r w1 t1 Ht1.
  assert (Forall (λ e, deploys e = None) t1 ∧ ¬ Exists (λ e, is_failed_event e = true) t1) as [H1 H2].
  { split; [eapply Forall_impl; [exact Ht1|]; by intros ? []|].
    rewrite <-Forall_Exists_neg. eapply Forall_impl; [exact Ht1|]. intros e [_ ?]. congruence. }
  destruct r as [[]|e].
  - eapply ends_mono; [apply IH|]. intros b' w2 t2 [H3 H4]. rewrite Forall_app, Exists_app. split; [done|]. tauto.
  - apply ends_bind, ends_event. intros w2. eapply ends_mono; [apply IH|]. intros b' w3 t3 [H3 H4].
    rewrite Forall_app, Exists_app. split; [split; [done|]; simpl; by constructor|].
    split; [|intros _; apply H4; by left]. intros _. right. right. simpl. by left.
Qed.

Lemma deploys_none t : Forall (λ e, deploys e = None) t → filter_map deploys t = [].
Proof. induction 1 as [|e t He _ IH]; simpl; [done|]. by rewrite He. Qed.
Lemma service_effects_none t :
  Forall service_effect t → filter_map deploys t = [] ∧ ¬ Exists (λ e, is_failed_event e = true) t.
Proof.
  intros Ht. split; [apply deploys_none; eapply Forall_impl; [exact Ht|]; by intros ? []|].
  rewrite <-Forall_Exists_neg. eapply Forall_impl; [exact Ht|]. intros e [_ ?]. congruence.
Qed.

(** ** Loops end when time passes *)

Section termination.
Context `{HI : HashIter} (env : nat → EnvStep).
Hypothesis time_passes : ∀ n, (1 ≤ es_elapsed (env n))%N.

(** A waiting operation returns and takes time. *)
Lemma await_outcome_time w : ∃ r w', await_outcome env w = Some (r, w') ∧ w_now w < w_now w'.
Proof.
  unfold await_outcome, await. do 2 eexists. split; [reflexivity|]. simpl.
  pose proof (time_passes (w_tick w)). lia.
Qed.
Lemma probe_time w : ∃ b w', probe env w = Some (b, w') ∧ w_now w < w_now w'.
Proof.
  destruct (await_outcome_time w) as ([ok msg] & w' & H & Ht). exists ok, w'. split; [|done].
  unfold probe, mbind, M_bind. by rewrite H.
Qed.
Lemma changed_time w : ∃ b w', changed_in_time env w = Some (b, w') ∧ w_now w < w_now w'.
Proof. apply probe_time. Qed.
Lemma sleep_time w : ∃ w', sleep env w = Some (tt, w') ∧ w_now w < w_now w'.
Proof.
  destruct (await_outcome_time w) as (r & w' & H & Ht). exists w'. split; [|done].
  unfold sleep, mbind, M_bind. by rewrite H.
Qed.

Lemma wait_status_loop_total fuel aid deadline w :
  deadline - w_now w < Z.of_nat fuel → 0 < Z.of_nat fuel → is_Some (wait_for_status_loop env fuel aid deadline w).
Proof.
  revert w. induction fuel as [|n IH]; intros w Hf Hpos; [lia|]. cbn [wait_for_status_loop]. rewrite run_read.
  assert (is_Some ((t ← now; if deadline <=? t then throw (HealthCheckTimeout (alloc_id_0 aid))
     else ok ← changed_in_time env;
          if ok : bool then wait_for_status_loop env n aid deadline
          else throw (HealthCheckTimeout (alloc_id_0 aid))) w)) as Hagain.
  { rewrite run_now. destruct (deadline <=? w_now w) eqn:E; [by eexists|]. apply Z.leb_gt in E.
    destruct (changed_time w) as (b & w' & Hc & Ht). rewrite (run_bind _ _ _ _ _ Hc).
    destruct b; [apply IH; lia|by eexists]. }
  destruct (alloc_status <$> allocs (w_fsm w) !! aid) as [[]|]; first [by eexists|exact Hagain].
Qed.
Lemma poll_address_loop_total fuel aid deadline w :
  deadline - w_now w < Z.of_nat fuel → 0 < Z.of_nat fuel → is_Some (poll_for_address_loop env fuel aid deadline w).
Proof.
  revert w. induction fuel as [|n IH]; intros w Hf Hpos; [lia|]. cbn [poll_for_address_loop]. rewrite run_read.
  destruct (allocs (w_fsm w) !! aid ≫= alloc_address) as [a|]; [by eexists|].
  rewrite run_now. destruct (deadline <=? w_now w) eqn:E; [by eexists|]. apply Z.leb_gt in E.
  destruct (changed_time w) as (b & w' & Hc & Ht). rewrite (run_bind _ _ _ _ _ Hc).
  destruct b; [apply IH; lia|by eexists].
Qed.
Lemma wait_tcp_loop_total fuel deadline w :
  deadline - w_now w < Z.of_nat fuel → 0 < Z.of_nat fuel → is_Some (wait_tcp_loop env fuel deadline w).
Proof.
  revert w. induction fuel as [|n IH]; intros w Hf Hpos; [lia|]. cbn [wait_tcp_loop].
  destruct (probe_time w) as (b & w1 & Hp & Ht1). rewrite (run_bind _ _ _ _ _ Hp). destruct b; [by eexists|].
  rewrite run_now. destruct (deadline <=? w_now w1) eqn:E; [by eexists|]. apply Z.leb_gt in E.
  destruct (sleep_time w1) as (w2 & Hs & Ht2). rewrite (run_bind _ _ _ _ _ Hs). apply IH; lia.
Qed.
Lemma wait_healthy_loop_total fuel hc deadline failures w :
  deadline - w_now w < Z.of_nat fuel → 0 < Z.of_nat fuel → is_Some (wait_healthy_loop env fuel hc deadline failures w).
Proof.
  revert w failures. induction fuel as [|n IH]; intros w failures Hf Hpos; [lia|]. cbn [wait_healthy_loop].
  destruct (probe_time w) as (b & w1 & Hp & Ht1). rewrite (run_bind _ _ _ _ _ Hp). destruct b; [by eexists|].
  destruct (hc_failure_threshold hc <=? _); [by eexists|].
  rewrite run_now. destruct (deadline <=? w_now w1) eqn:E; [by eexists|]. apply Z.leb_gt in E.
  destruct (sleep_time w1) as (w2 & Hs & Ht2). rewrite (run_bind _ _ _ _ _ Hs), run_now.
  destruct (deadline <=? w_now w2) eqn:E2; [by eexists|]. apply IH; lia.
Qed.

Context (fuel : nat) (vars : gmap string string).
Context (decrypt : string → string → result string string) (has_driver : bool).
(** The fuel covers the longest timeout, one round per nanosecond. *)
Definition enough_fuel : Prop :=
  deploy_timeout vars < Z.of_nat fuel ∧ poll_address_timeout vars < Z.of_nat fuel ∧ health_timeout vars < Z.of_nat fuel.
Hypothesis Hfuel : enough_fuel.

Lemma timeouts_pos : 0 < Z.of_nat fuel.
Proof. destruct Hfuel as [H _]. assert (0 ≤ deploy_timeout vars) by (apply read_ms_nonneg; lia). lia. Qed.

Lemma run_scheduled_total started name def aid node :
  total (run_scheduled_alloc env fuel vars decrypt started name def aid node).
Proof.
  destruct Hfuel as (H1 & H2 & H3). pose proof timeouts_pos.
  unfold run_scheduled_alloc, send, send_json_event, propose_ok, propose, elapsed.
  repeat first [total_step|case_match].
  - intros w. unfold wait_for_status. rewrite run_now. apply wait_status_loop_total; lia.
  - intros w. unfold poll_for_address. rewrite run_now. apply poll_address_loop_total; lia.
  - intros w. unfold wait_healthy. rewrite run_now. apply wait_healthy_loop_total; lia.
  - intros w. unfold wait_tcp_ready. rewrite run_now. apply wait_tcp_loop_total; lia.
Qed.
Lemma start_alloc_total started name def aid replica :
  total (start_alloc env fuel vars decrypt started name def aid replica).
Proof.
  unfold start_alloc, send_json_event, propose_ok, propose.
  repeat first [apply run_scheduled_total|total_step|case_match].
Qed.
Lemma start_replicas_total started name def reps new :
  total (start_replicas env fuel vars decrypt started name def reps new).
Proof.
  revert new. induction reps as [|rep reps IH]; intros new; simpl; unfold send;
    repeat first [apply start_alloc_total|apply IH|total_step|case_match].
Qed.
Lemma stop_old_total old err : total (stop_old env old err).
Proof.
  revert err. induction old as [|[id node] old IH]; intros err; simpl; unfold send;
    repeat first [apply IH|total_step].
Qed.
Lemma create_volumes_total def id : total (create_volumes_if_needed env has_driver def id).
Proof.
  unfold create_volumes_if_needed, create_volume, attach_volume, cloud, propose_ok, propose.
  repeat first [total_step|case_match].
Qed.
Lemma deploy_each_total (one : string → ServiceDef → M (result unit DeployError)) l b :
  (∀ name def, total (one name def)) → total (deploy_each env one l b).
Proof.
  intros Hone. revert b. induction l as [|[name def] l IH]; intros b; simpl; unfold send_json_event;
    repeat first [apply Hone|apply IH|total_step|case_match].
Qed.
End termination.

(** * Theorems *)

Section theorems.
Context `{HI : HashIter} (env : nat → EnvStep) (fuel : nat) (vars : gmap string string).
Context (decrypt : string → string → result string string) (has_driver : bool).

Lemma health_committed_eq e aid : health_committed e = Some aid → ∃ resp, e = EPropose (SetAllocStatus aid Healthy) (Ok resp).
Proof.
  destruct e as [cmd r| | | | | | | | |]; try done. destruct cmd as [| | | | |aid' st| | | | | | | | |]; try done.
  destruct st, r as [resp|]; try done. intros [= ->]. by eexists.
Qed.
Lemma rolling_update_ordered started name def w :
  ends (rolling_update env fuel vars decrypt has_driver started name def)
    (λ _ _ t, ordered (stop_justified (sd_replicas def)) [] t) w.
Proof.
  unfold rolling_update. apply ends_bind, ends_read, ends_bind_ok, ends_ok_or; [|done]. intros id _.
  apply ends_bind_ok. eapply (always_ends (λ e, is_stop e = false)); [by apply create_volumes_always|].
  intros r1 w1 t1 Ht1. assert (ordered (stop_justified (sd_replicas def)) [] t1) as Ho1.
  { eapply ordered_Forall; [|exact Ht1]. intros. by apply stop_justified_no_stop. }
  destruct r1 as [[]|e]; [|done].
  apply ends_bind, ends_read, ends_bind_ok. eapply ends_mono.
  { apply (start_replicas_ordered env fuel vars decrypt started name def (sd_replicas def) _ [] t1).
    intros ?? ?%elem_of_nil. done. }
  intros r2 w2 t2 [Ho2 Hlen]. destruct r2 as [l|e]; simpl.
  2: { by rewrite ordered_app. }
  assert (sd_replicas def ≤ Z.of_nat (length (filter_map health_committed t2))) as Hall.
  { specialize (Hlen l eq_refl). unfold replica_range in Hlen. rewrite length_seqZ in Hlen. lia. }
  apply ends_bind. eapply (always_ends (λ _, True)); [by apply stop_old_always|]. intros err w3 t3 _.
  apply ends_bind, ends_event. intros w4.
  destruct err; apply ends_ret; rewrite !ordered_app; split_and!; try done; simpl;
    (eapply ordered_Forall; [|by apply (Forall_true (λ _, True))]); intros seen' [] _; simpl; try done; case_match; try done; right;
    rewrite !filter_map_app, !length_app; lia.
Qed.
Lemma rolling_update_accepted started name def w :
  no_removals env → fsm_wf (w_fsm w) →
  ends (rolling_update env fuel vars decrypt has_driver started name def) (λ _ _ t, Forall accepted t) w.
Proof.
  intros Hrm Hwf. unfold rolling_update. apply ends_bind, ends_read, ends_bind_ok, ends_ok_or; [|done]. intros id _.
  apply ends_bind_ok. eapply ends_mono; [apply (ends_keeps fsm_wf); [|done|by apply (create_volumes_always _ _ accepted)]|].
  { unfold create_volumes_if_needed, create_volume, attach_volume. pose proof (wf_keeps_env env).
    repeat first [apply keeps_propose_ok; [done|by intros; apply apply_command_wf]|keeps_step|case_match]. }
  intros [[]|e] w1 t1 [Hwf1 Ht1]; [|done].
  apply ends_bind, ends_read, ends_bind_ok. eapply ends_mono; [by apply start_replicas_accepted|]. intros [l|e] w2 t2 Ht2; [|all_ok].
  apply ends_bind. eapply (always_ends accepted); [by apply stop_old_always|]. intros err w3 t3 Ht3.
  apply ends_bind, ends_event. intros w4. destruct err; apply ends_ret; all_ok.
Qed.
Lemma start_alloc_ends started name def aid replica w :
  ends (start_alloc env fuel vars decrypt started name def aid replica)
    (λ r _ t, match r with
              | Ok _ => ∃ resp, EPropose (SetAllocStatus aid Healthy) (Ok resp) ∈ t
              | Err e => (∀ ef, ef ∈ t → ¬ scheduled_ok aid ef) ∨
                         ∃ res, last t = Some (EPropose (SetAllocStatus aid (Failed (show_deploy_error e))) res)
              end) w.
Proof.
  unfold start_alloc. apply ends_bind, ends_read, ends_bind_ok, ends_ok_or.
  2: { intros _. left. intros ef Hin%elem_of_nil. done. }
  intros node _. apply ends_bind, ends_event. intros w1.
  apply ends_bind, ends_read, ends_bind_ok, ends_ok_or.
  2: { intros _. left. intros ef. simpl. rewrite elem_of_cons, elem_of_nil. intros [->|[]] []. }
  intros id _. apply ends_bind_ok, ends_propose_ok.
  2: { intros e w2. left. intros ef. simpl. rewrite !elem_of_cons, elem_of_nil. intros [->|[->|[]]] []. }
  intros resp w2. apply ends_bind. eapply ends_mono; [apply (run_scheduled_healthy env fuel vars decrypt)|]. intros [[]|e] w3 t3 Hh.
  - apply ends_ret. destruct (Hh eq_refl) as (e & He & Heq). destruct (health_committed_eq e aid Heq) as (resp' & ->). exists resp'. set_solver.
  - apply ends_bind, ends_propose. intros res w4. apply ends_ret. right. exists res.
    rewrite app_nil_r. cbn [app]. by rewrite !last_cons, last_snoc.
Qed.


(** C4: starting an allocation that was scheduled either brings it up, its health being committed, or fails, and then the last thing done
    is a proposal that marks it failed with the reason, so that its resources are given back. As long as no other task removes a node,
    from a state whose records are stored under their own identifiers, the state machine accepts both: the allocation was recorded
    healthy, or was marked failed unless raft itself did not take the proposal, which is not tried again. *)
Theorem start_alloc_outcome started name def aid replica w r w' :
  start_alloc env fuel vars decrypt started name def aid replica w = Some (r, w') →
  ∃ t, w_trace w' = w_trace w ++ t ∧
    match r with
    | Ok _ => ∃ resp, EPropose (SetAllocStatus aid Healthy) (Ok resp) ∈ t ∧ (no_removals env → fsm_wf (w_fsm w) → resp = RespOk)
    | Err e => (∀ ef, ef ∈ t → ¬ scheduled_ok aid ef) ∨
               ∃ res, last t = Some (EPropose (SetAllocStatus aid (Failed (show_deploy_error e))) res) ∧
                 (no_removals env → fsm_wf (w_fsm w) → res = Ok RespOk ∨ ∃ msg, res = Err msg)
    end.
Proof.
  intros Hrun. destruct (start_alloc_ends started name def aid replica w r w' Hrun) as (t & Ht & Hr).
  assert (no_removals env → fsm_wf (w_fsm w) → Forall accepted t) as Ha.
  { intros Hrm Hwf. destruct (start_alloc_accepted env fuel vars decrypt Hrm started name def aid replica w Hwf r w' Hrun) as (t' & Ht' & Ha).
    rewrite Ht in Ht'. by apply app_inv_head in Ht' as <-. }
  assert (∀ st res, EPropose (SetAllocStatus aid st) res ∈ t → no_removals env → fsm_wf (w_fsm w) → res = Ok RespOk ∨ ∃ msg, res = Err msg) as Hres.
  { intros st res Hin Hrm Hwf. apply (proj1 (Forall_forall _ _) (Ha Hrm Hwf)) in Hin. destruct res as [[]|]; simpl in Hin; by eauto. }
  exists t. split; [done|]. destruct r as [[]|e].
  - destruct Hr as (resp & Hin). exists resp. split; [done|]. intros Hrm Hwf. by destruct (Hres _ _ Hin Hrm Hwf) as [[= ->]|[]].
  - destruct Hr as [Hr|[res Hr]]; [by left|right]. exists res. split; [done|]. apply (Hres (Failed (show_deploy_error e))).
    apply last_Some_elem_of in Hr. done.
Qed.

(** C3: a deploy whose configuration does not pass validation has no effect at all: nothing is
    proposed, no command goes to any node and no volume is touched; only progress is reported. *)
Theorem failed_validation_no_effect cfg w r w' m :
  run_deploy env fuel vars decrypt has_driver cfg w = Some (r, w') → r = Err (ValidationFailed m) →
  ∃ t, w_trace w' = w_trace w ++ t ∧ ∀ e, e ∈ t → is_event e = true.
Proof.
  cut (ends (run_deploy env fuel vars decrypt has_driver cfg)
    (λ r _ t, r = Err (ValidationFailed m) → ∀ e, e ∈ t → is_event e = true) w).
  { intros He Hrun Hr. destruct (He r w' Hrun) as (t & Ht & HP). eauto. }
  unfold run_deploy. apply ends_bind. eapply (always_ends (λ _, False)); [apply always_now|].
  intros started w0 t0 Ht0. destruct t0; [|by inversion_clear Ht0]. apply ends_bind, ends_read.
  apply ends_bind, ends_event. intros w1. apply ends_bind, ends_read, ends_bind_ok, ends_ret.
  destruct (validate_secret_refs _ _) as [[]|e]; [|intros _ e'; simpl; by rewrite elem_of_cons, elem_of_nil; intros [->|[]]].
  apply ends_bind, ends_read, ends_bind_ok, ends_ret.
  destruct (validate_resource_capacity _ _) as [[]|e]; [|intros _ e'; simpl; by rewrite elem_of_cons, elem_of_nil; intros [->|[]]].
  apply ends_bind. eapply (always_ends (λ _, True)); [unfold eager_pull; solve_always|]. intros _ w2 t2 _.
  apply ends_bind_ok, ends_propose_ok; [|done]. intros resp w3.
  apply ends_bind_ok. eapply ends_mono.
  { apply (ends_try_result _ _ (λ e, ∃ n, e = DeployNode n)). intros name w4. unfold stop_service.
    apply ends_bind, ends_read, ends_bind_ok. eapply ends_mono.
    { apply (ends_try_result _ _ (λ e, ∃ n, e = DeployNode n)). intros [aid node] w5.
      apply ends_lift_err, ends_send. intros [[]|e] w6; [done|]. intros e' [= <-]. eauto. }
    intros [[]|e] w5 t5 He; [|by intros e' [= <-]; apply He]. apply ends_bind, ends_event. intros w6. by apply ends_ret. }
  intros [[]|e] w4 t4 He; [|by intros [= ->]; destruct (He _ eq_refl)].
  apply ends_bind. eapply ends_mono; [apply deploy_each_spec; intros; apply deploy_service_effects|]. intros b w5 t5 _.
  apply ends_bind. eapply ends_mono; [apply deploy_each_spec; intros; apply rolling_update_effects|]. intros b' w6 t6 _.
  apply ends_bind. eapply (always_ends (λ _, True)); [solve_always|]. intros _ w7 t7 _.
  apply ends_bind. eapply (always_ends (λ _, True)); [unfold elapsed; solve_always|]. intros el w8 t8 _.
  apply ends_bind, ends_event. intros w9. by apply ends_ret.
Qed.

(** How the trace of a deploy ends. *)
Definition concluded (old : option ClusterConfig) (cfg : ClusterConfig) (t : list Effect) : Prop :=
  ∃ t' ok el, t = t' ++ [EEvent "done" [("elapsed", JF64 el); ("success", JBool ok)]]%string ∧
    (ok = false ↔ Exists (λ e, is_failed_event e = true) t') ∧
    match old with
    | Some old => if ok then filter_map deploys t' = [cfg]
                  else filter_map deploys t' = [cfg; old] ∧ ∃ res, last t' = Some (EPropose (Deploy old) res)
    | None => filter_map deploys t' = [cfg]
    end.
Definition deploy_effects (cfg : ClusterConfig) (resp : Response) (t2 t4 t5 t6 : list Effect) : list Effect :=
  EEvent "progress" [("phase", JStr "started")]%string :: t2 ++ EPropose (Deploy cfg) (Ok resp) :: t4 ++ t5 ++ t6.
Lemma deploy_trace cfg resp t2 t4 t5 t6 b b' :
  filter_map deploys t2 = [] ∧ ¬ Exists (λ e, is_failed_event e = true) t2 →
  filter_map deploys t4 = [] ∧ ¬ Exists (λ e, is_failed_event e = true) t4 →
  filter_map deploys t5 = [] → (b = true ↔ false = true ∨ Exists (λ e, is_failed_event e = true) t5) →
  filter_map deploys t6 = [] → (b' = true ↔ b = true ∨ Exists (λ e, is_failed_event e = true) t6) →
  filter_map deploys (deploy_effects cfg resp t2 t4 t5 t6) = [cfg] ∧
  (b' = true ↔ Exists (λ e, is_failed_event e = true) (deploy_effects cfg resp t2 t4 t5 t6)).
Proof.
  intros [Hd2 Hf2] [Hd4 Hf4] Hd5 Hb5 Hd6 Hb6. unfold deploy_effects. split.
  - simpl. rewrite filter_map_app, Hd2. simpl. by rewrite !filter_map_app, Hd4, Hd5, Hd6.
  - rewrite !Exists_cons, Exists_app, Exists_cons, !Exists_app, Hb6, Hb5.
    change (is_failed_event (EEvent "progress" _)) with false.
    change (is_failed_event (EPropose _ _)) with false. assert (false ≠ true) by done. tauto.
Qed.
Lemma deploy_done started b w :
  ends (el ← elapsed started; _ ← send_json_event env "done" [("elapsed", JF64 el); ("success", JBool (negb b))]; mret (Ok tt))%string
    (λ (r : result unit DeployError) _ t, ∃ el, t = [EEvent "done" [("elapsed", JF64 el); ("success", JBool (negb b))]]%string) w.
Proof.
  apply ends_bind. eapply (always_ends (λ _, False)); [unfold elapsed; solve_always|].
  intros el w8 t8 Ht8. destruct t8; [|by inversion_clear Ht8]. apply ends_bind, ends_event. intros w9.
  apply ends_ret. simpl. eauto.
Qed.
Lemma deploy_ending started old cfg b pre w :
  filter_map deploys pre = [cfg] → (b = true ↔ Exists (λ e, is_failed_event e = true) pre) →
  ends (_ ← match b, old with true, Some old => _ ← propose env (Deploy old); mret tt | _, _ => mret tt end;
        el ← elapsed started;
        _ ← send_json_event env "done" [("elapsed", JF64 el); ("success", JBool (negb b))];
        mret (Ok tt))%string
    (λ (r : result unit DeployError) _ t, concluded old cfg (pre ++ t)) w.
Proof.
  intros Hpre Hfail. apply ends_bind. destruct b; [destruct old as [old|]|].
  - apply ends_bind, ends_propose. intros res w7. apply ends_ret. eapply ends_mono; [apply (deploy_done _ true)|].
    intros r' w8 t8 [el ->]. exists (pre ++ [EPropose (Deploy old) res]), false, el. split_and!.
    + simpl. by rewrite <-!app_assoc.
    + rewrite Exists_app. naive_solver.
    + by rewrite filter_map_app, Hpre.
    + exists res. by rewrite last_snoc.
  - apply ends_ret. eapply ends_mono; [apply (deploy_done _ true)|]. intros r' w8 t8 [el ->]. exists pre, false, el. naive_solver.
  - destruct old; apply ends_ret; (eapply ends_mono; [apply (deploy_done _ false)|]);
      intros r' w8 t8 [el ->]; exists pre, true, el; naive_solver.
Qed.

Lemma run_deploy_concluded cfg w :
  ends (run_deploy env fuel vars decrypt has_driver cfg) (λ r _ t, r = Ok tt → concluded (config (w_fsm w)) cfg t) w.
Proof.
  unfold run_deploy. apply ends_bind. intros started w0 [= <- <-]. exists []. split; [by rewrite app_nil_r|].
  apply ends_bind, ends_read. apply ends_bind, ends_event. intros w1.
  apply ends_bind, ends_read, ends_bind_ok, ends_ret.
  destruct (validate_secret_refs _ _) as [[]|e]; [|done].
  apply ends_bind, ends_read, ends_bind_ok, ends_ret.
  destruct (validate_resource_capacity _ _) as [[]|e]; [|done].
  apply ends_bind. eapply ends_mono; [apply eager_pull_effects|]. intros [] w2 t2 Ht2%service_effects_none.
  apply ends_bind_ok, ends_propose_ok; [|done]. intros resp w3.
  apply ends_bind_ok. eapply (always_ends service_effect).
  { apply always_try_for_each. intros name. apply stop_service_effects. }
  intros [[]|e] w4 t4 Ht4%service_effects_none; [|done].
  apply ends_bind. eapply ends_mono; [apply deploy_each_spec; intros; apply deploy_service_effects|].
  intros b w5 t5 [Hd5%deploys_none Hb5].
  apply ends_bind. eapply ends_mono; [apply deploy_each_spec; intros; apply rolling_update_effects|].
  intros b' w6 t6 [Hd6%deploys_none Hb6].
  destruct (deploy_trace cfg resp t2 t4 t5 t6 b b') as [Hpre Hfail]; try done.
  eapply ends_mono; [apply (deploy_ending _ (config (w_fsm w)) cfg b' _ w6 Hpre Hfail)|].
  intros r' w7 t7 Hc _. unfold deploy_effects in Hc. simpl in Hc. by rewrite <-!app_assoc in Hc; simpl in Hc; rewrite <-!app_assoc in Hc.
Qed.

(** What the effects of a deploy that returned an error are. *)
Definition is_done (e : Effect) : bool := match e with EEvent ev _ => bool_decide (ev = "done"%string) | _ => false end.
Definition is_run (e : Effect) : bool := match e with ESend _ (Run _ _ _) _ => true | _ => false end.
Definition aborted (cfg : ClusterConfig) (t : list Effect) : Prop :=
  Forall (λ e, is_done e = false) t ∧ Forall (λ e, is_run e = false) t ∧
  (filter_map deploys t = [] ∨
   filter_map deploys t = [cfg] ∧ (∃ msg, last t = Some (EPropose (Deploy cfg) (Err msg))) ∨
   filter_map deploys t = [cfg] ∧ ∃ resp node aid err, EPropose (Deploy cfg) (Ok resp) ∈ t ∧ last t = Some (ESend node (Stop aid) (Err err))).
Definition quiet (e : Effect) : Prop := deploys e = None ∧ is_done e = false ∧ is_run e = false.
Lemma quiet_parts t : Forall quiet t → filter_map deploys t = [] ∧ Forall (λ e, is_done e = false) t ∧ Forall (λ e, is_run e = false) t.
Proof.
  intros Ht. split; [apply deploys_none|split]; eapply Forall_impl; try exact Ht; by intros e (?&?&?).
Qed.
(** The last effect of a loop that ended with an error is the last one of the round that failed. *)
Lemma ends_try_last {A E} (l : list A) (body : A → M (result unit E)) (L : Effect → Prop) w :
  (∀ x w, ends (body x) (λ r _ t, ∀ e, r = Err e → ∃ e', last t = Some e' ∧ L e') w) →
  ends (try_for_each l body) (λ r _ t, ∀ e, r = Err e → ∃ e', last t = Some e' ∧ L e') w.
Proof.
  intros Hb. revert w. induction l as [|x l IH]; intros w; simpl; [by apply ends_ret|].
  apply ends_bind_ok. eapply ends_mono; [apply Hb|]. intros [[]|e] w1 t1 Ht1; [|by intros e' _; eapply Ht1].
  eapply ends_mono; [apply IH|]. intros r w2 t2 Ht2 e He. destruct (Ht2 e He) as (e' & Hl & ?). exists e'. by rewrite last_app, Hl.
Qed.
Lemma stop_services_end names w :
  ends (try_for_each names (stop_service env))
    (λ r _ t, (∀ e, r = Err e → ∃ e', last t = Some e' ∧ ∃ node aid err, e' = ESend node (Stop aid) (Err err)) ∧ Forall quiet t) w.
Proof.
  apply ends_and; [|assert (always quiet (try_for_each names (stop_service env))) as Hq by (unfold stop_service; solve_always); apply Hq].
  apply ends_try_last. intros name w1. unfold stop_service. apply ends_bind, ends_read, ends_bind_ok.
  eapply ends_mono; [apply (ends_try_last _ _ (λ e', ∃ node aid err, e' = ESend node (Stop aid) (Err err)))|].
  - intros [aid node] w2. apply ends_lift_err, ends_send. intros [[]|err] w3 e; [done|]. intros _. eexists. split; [reflexivity|]. eauto.
  - intros [[]|e] w2 t2 Ht2; [|by intros e' _; eapply Ht2]. apply ends_bind, ends_event. intros w3. by apply ends_ret.
Qed.
Lemma run_deploy_aborted cfg w :
  ends (run_deploy env fuel vars decrypt has_driver cfg) (λ r _ t, ∀ e, r = Err e → aborted cfg t) w.
Proof.
  unfold run_deploy. apply ends_bind. intros started w0 [= <- <-]. exists []. split; [by rewrite app_nil_r|].
  apply ends_bind, ends_read. apply ends_bind, ends_event. intros w1.
  set (ev := EEvent "progress" [("phase", JStr "started")]%string). assert (aborted cfg [ev]) as Hev by (split_and!; [by repeat constructor..|by left]).
  apply ends_bind, ends_read, ends_bind_ok, ends_ret. destruct (validate_secret_refs _ _) as [[]|e]; [|by intros].
  apply ends_bind, ends_read, ends_bind_ok, ends_ret. destruct (validate_resource_capacity _ _) as [[]|e]; [|by intros].
  apply ends_bind. eapply (always_ends quiet); [unfold eager_pull; solve_always|]. intros [] w2 t2 (Hd2 & He2 & Hr2)%quiet_parts.
  apply ends_bind_ok, ends_propose_ok.
  2: { intros msg w3 e _. simpl. split_and!; [repeat constructor; apply Forall_app; by repeat constructor..|right; left].
       split; [by simpl; rewrite filter_map_app, Hd2|]. exists msg. by rewrite app_comm_cons, last_snoc. }
  intros resp w3. apply ends_bind_ok. eapply ends_mono; [apply stop_services_end|].
  intros [[]|e] w4 t4 [Hl Hq4].
  2: { apply quiet_parts in Hq4 as (Hd4 & He4 & Hr4). destruct (Hl e eq_refl) as (e' & Hlast & node & aid & err & ->). intros e' _. simpl.
       split_and!; [repeat constructor; apply Forall_app; split; [done|]; by constructor..|]. right. right. split.
       - simpl. rewrite filter_map_app, Hd2. simpl. by rewrite Hd4.
       - exists resp, node, aid, err. split; [set_solver|]. by rewrite !last_cons, last_app, last_cons, Hlast. }
  apply ends_bind. eapply ends_mono; [apply deploy_each_spec; intros; apply deploy_service_effects|]. intros b w5 t5 _.
  apply ends_bind. eapply ends_mono; [apply deploy_each_spec; intros; apply rolling_update_effects|]. intros b' w6 t6 _.
  apply ends_bind. eapply (always_ends (λ _, True)); [destruct b'; [destruct (config _)|]; solve_always|]. intros _ w7 t7 _.
  apply ends_bind. eapply (always_ends (λ _, True)); [unfold elapsed; solve_always|]. intros el w8 t8 _.
  apply ends_bind, ends_event. intros w9. by apply ends_ret.
Qed.


End theorems.

(** C5: deploys end: if every operation that is waited for takes at least a nanosecond, then with fuel for
    one round per nanosecond of the longest timeout a deploy and a restart return, whatever happens. *)
Theorem deploy_terminates `{HashIter} env fuel vars decrypt has_driver :
  (∀ n, (1 ≤ es_elapsed (env n))%N) → enough_fuel fuel vars →
  (∀ cfg w, is_Some (run_deploy env fuel vars decrypt has_driver cfg w)) ∧
  (∀ name w, is_Some (run_restart env fuel vars decrypt has_driver name w)).
Proof.
  intros Ht Hf.
  assert (∀ started name def, total (rolling_update env fuel vars decrypt has_driver started name def)) as Hroll.
  { intros. unfold rolling_update, send_json_event.
    repeat first [apply create_volumes_total|by apply start_replicas_total|apply stop_old_total|total_step|case_match]. }
  assert (∀ started name def, total (deploy_service env fuel vars decrypt has_driver started name def)) as Hserv.
  { intros. unfold deploy_service. repeat first [apply create_volumes_total|by apply start_alloc_total|total_step]. }
  split.
  - intros cfg. change (total (run_deploy env fuel vars decrypt has_driver cfg)).
    unfold run_deploy, eager_pull, stop_service, elapsed, send_json_event, broadcast, send, propose_ok, propose.
    repeat first [apply deploy_each_total; intros; first [apply Hserv|apply Hroll]|total_step|case_match].
  - intros name. change (total (run_restart env fuel vars decrypt has_driver name)).
    unfold run_restart, elapsed, send_json_event. repeat first [apply Hroll|total_step].
Qed.

(** * Witnesses *)

Module DeployExamples.
Import FsmExamples.
Definition ex_def : ServiceDef :=
  mkServiceDef "web:2" 80 1 (mkResources (f64_of_Z 1) (2 ^ 30)) ∅ None None [] [].
Definition ex_config : ClusterConfig := mkClusterConfig {["web" := ex_def]}%string ∅.
(** A step in which the awaited operation succeeds, and the new allocation is reported as running. *)
Definition ex_step (ok : bool) : EnvStep :=
  mkEnvStep [AllocRunning (mkAllocId "web-00") (Some ex_addr) None] [] (λ r, r) 1 0 ok "timeout".
Definition ex_env (n : nat) : EnvStep := ex_step true.
(** The report never comes, and the wait at step [k] times out. *)
Definition ex_silent (k n : nat) : EnvStep :=
  mkEnvStep [] [] (λ r, r) 1 0 (negb (bool_decide (n = k))) "timeout".
Definition ex_world (cfg : option ClusterConfig) : World :=
  mkWorld (set_config cfg ex_state)
    (register (mkNodeId "node-2") (mkChan true []) (register (mkNodeId "node-1") (mkChan true []) CommandRouter_new))
    0 0 0 0 [].
Definition ex_decrypt (value nonce : string) : result string string := Ok value.
(** A configuration that refers to a secret nobody has set. *)
Definition ex_secret_config : ClusterConfig :=
  mkClusterConfig {["web" := mkServiceDef "web:2" 80 1 (mkResources (f64_of_Z 1) (2 ^ 30))
    {["KEY" := Interpolated [Secret "key"]]} None None [] []]}%string ∅.
(** The same cluster when the second node is gone and its allocation was marked failed. *)
Definition ex_old_def : ServiceDef :=
  mkServiceDef "web:1" 80 1 (mkResources (f64_of_Z 1) (2 ^ 30)) ∅ None None [] [].
Definition ex_old_config : ClusterConfig := mkClusterConfig {["web" := ex_old_def]}%string ∅.
Definition ex_lost_node : World :=
  mkWorld (@apply_commands stored_order (set_config (Some ex_old_config) ex_state)
             [SetAllocStatus (mkAllocId "web-1") (Failed "node down")])
    (register (mkNodeId "node-1") (mkChan true []) CommandRouter_new) 0 0 0 0 [].
End DeployExamples.
Import DeployExamples.

(** an allocation that failed long ago on a node that is gone spoils every later update of its
    service: the update brings up the new version and stops the running old one, but the stop command
    for the dead allocation cannot be delivered, so the deploy counts as failed and the old
    configuration is put back while only the new version runs. *)
Theorem stale_alloc_reverts_deploy :
  ∃ w', @run_deploy stored_order ex_env 5 ∅ ex_decrypt false ex_config ex_lost_node = Some (Ok tt, w') ∧
    is_terminal <$> (alloc_status <$> allocs (w_fsm ex_lost_node) !! mkAllocId "web-1") = Some true ∧
    alloc_status <$> allocs (w_fsm w') !! mkAllocId "web-00" = Some Healthy ∧
    ESend (mkNodeId "node-1") (Stop (mkAllocId "web-0")) (Ok tt) ∈ w_trace w' ∧
    config (w_fsm w') = Some ex_old_config.
Proof.
  eexists. split; [vm_compute; reflexivity|]. split; [vm_compute; reflexivity|]. split; [vm_compute; reflexivity|].
  split; [|vm_compute; reflexivity].
  apply list_elem_of_lookup. exists 11%nat. vm_compute. reflexivity.
Qed.

Lemma ex_world_wf cfg : fsm_wf (w_fsm (ex_world cfg)).
Proof.
  change (fsm_wf (@apply_commands stored_order FsmState_default FsmExamples.ex_cmds)).
  apply (@apply_commands_keeps stored_order fsm_wf); [intros; by apply apply_command_wf|].
  split; intros ??; simpl; by rewrite lookup_empty.
Qed.
Lemma ex_env_no_removals : no_removals ex_env.
Proof. intros n id. by intros ?%list_elem_of_singleton. Qed.
Lemma ex_silent_no_removals k : no_removals (ex_silent k).
Proof. intros n id. by intros ?%elem_of_nil. Qed.


(** Why the answer of the state machine matters: while an update runs, the allocations of its node fail and the node is removed. The
    proposal that records the new allocation as healthy is refused because the allocation is gone; the update goes on as if it had been
    accepted, sends the stop commands and returns success. *)
Definition ex_removed (n : nat) : EnvStep :=
  mkEnvStep (if (n =? 5)%nat
             then [SetAllocStatus (mkAllocId "web-0") (Failed "node lost"); SetAllocStatus (mkAllocId "web-00") (Failed "node lost"); NodeRemove 1]
             else [AllocRunning (mkAllocId "web-00") (Some FsmExamples.ex_addr) None]) [] (λ r, r) 1 0 true "".
Theorem refused_health_counts :
  ∃ w' msg, @rolling_update stored_order ex_removed 5 ∅ ex_decrypt false 0 "web" ex_def (ex_world None) = Some (Ok tt, w') ∧
    EPropose (SetAllocStatus (mkAllocId "web-00") Healthy) (Ok (RespError msg)) ∈ w_trace w' ∧
    ESend (mkNodeId "node-1") (Stop (mkAllocId "web-0")) (Ok tt) ∈ w_trace w' ∧ allocs (w_fsm w') !! mkAllocId "web-00" = None.
Proof.
  do 2 eexists. split; [vm_compute; reflexivity|]. split; [|split; [|vm_compute; reflexivity]].
  - apply list_elem_of_lookup. exists 4%nat. vm_compute. reflexivity.
  - apply list_elem_of_lookup. exists 7%nat. vm_compute. reflexivity.
Qed.

Lemma start_alloc_outcome_witness :
  ∃ w' t, @start_alloc stored_order (ex_silent 4) 5 ∅ ex_decrypt 0 "web" ex_def (mkAllocId "web-00") 0 (ex_world None)
      = Some (Err (HealthCheckTimeout "web-00"), w') ∧
    w_trace w' = [] ++ t ∧ last t = Some (EPropose (SetAllocStatus (mkAllocId "web-00") (Failed "health check timeout for web-00")) (Ok RespOk)).
Proof.
  destruct (@start_alloc stored_order (ex_silent 4) 5 ∅ ex_decrypt 0 "web" ex_def (mkAllocId "web-00") 0 (ex_world None))
    as [[r w']|] eqn:E; [|vm_compute in E; discriminate].
  destruct (@start_alloc_outcome stored_order (ex_silent 4) 5 ∅ ex_decrypt 0 "web" ex_def (mkAllocId "web-00") 0
    (ex_world None) r w' E) as (t & H1 & H2).
  assert (r = Err (HealthCheckTimeout "web-00")) as -> by (vm_compute in E; congruence).
  assert (w_trace w' = match Some (Err (HealthCheckTimeout "web-00") : result unit DeployError, w') with
        | Some (_, w) => w_trace w | None => [] end) as Htr by reflexivity.
  rewrite <-E in Htr. destruct H2 as [H2|(res & H2 & H3)].
  - exfalso.
    apply (H2 (EPropose (AllocScheduled (mkAllocId "web-00") 1 "web" KService None
      (alloc_resources_from (sd_resources ex_def))) (Ok RespOk))); [|reflexivity].
    assert (w_trace w' = t) as <- by exact H1.
    apply (list_elem_of_lookup_2 _ 1). rewrite Htr. vm_compute. reflexivity.
  - exists w', t. split; [reflexivity|]. split; [exact H1|].
    destruct (H3 (ex_silent_no_removals 4) (ex_world_wf None)) as [->|[msg ->]]; [exact H2|exfalso].
    assert (w_trace w' = t) as Ht by exact H1. rewrite <-Ht, Htr in H2.
    vm_compute in H2. discriminate H2.
Defined.

Lemma failed_validation_no_effect_witness :
  ∃ w' t, @run_deploy stored_order ex_env 5 ∅ ex_decrypt false ex_secret_config (ex_world None) =
      Some (Err (ValidationFailed "unknown secrets: web/key"), w') ∧
    w_trace w' = [] ++ t ∧ ∀ e, e ∈ t → is_event e = true.
Proof.
  destruct (@run_deploy stored_order ex_env 5 ∅ ex_decrypt false ex_secret_config (ex_world None)) as [[r w']|] eqn:E;
    [|vm_compute in E; discriminate].
  assert (r = Err (ValidationFailed "unknown secrets: web/key")) as -> by (vm_compute in E; congruence).
  destruct (@failed_validation_no_effect stored_order ex_env 5 ∅ ex_decrypt false ex_secret_config (ex_world None)
    _ w' _ E eq_refl) as (t & H1 & H2).
  exists w', t. split; [reflexivity|]. split; [exact H1|exact H2].
Defined.


Lemma deploy_terminates_witness :
  is_Some (@run_deploy stored_order ex_env (Z.to_nat 60000000001) ∅ ex_decrypt false ex_config (ex_world None)).
Proof.
  refine (proj1 (@deploy_terminates stored_order ex_env (Z.to_nat 60000000001) ∅ ex_decrypt false _ _)
            ex_config (ex_world None)).
  - intros n. simpl. lia.
  - unfold enough_fuel, deploy_timeout, poll_address_timeout, health_timeout, read_ms, millis.
    rewrite !lookup_empty, Z2Nat.id by lia. lia.
Defined.
