(* ===== verification/Secondary.v ===== *)
(** The runtime of a node ([src/crates/node/src/secondary]): the map of local allocations, running and
    stopping containers, the task that waits for a container to exit, recovery after a restart,
    heartbeats, log buffers and usage rates. The container runtime is a parameter: what it answers is
    given with each operation. The operations are written once as functions; the interleaving of the
    command loop with the exit waiters is a step relation built from the same pieces. The theorems
    show that a failed start gives its port back, what recovery does with every container, that without
    stop commands no two running allocations share a port, and an execution with stop commands in which
    two do. *)

From S2P Require Import Prelude Types Fsm Ports Rpc World.
Local Open Scope Z_scope.

(** * Log buffers (secondary/logs.rs) *)

Definition MAX_LINES : nat := Z.to_nat 10000.
Abbreviation LogBuffer := (list LogLine).
Definition log_push (line : LogLine) (buf : LogBuffer) : LogBuffer :=
  (if decide (MAX_LINES ≤ length buf)%nat then tail buf else buf) ++ [line].
Definition log_tail (n : nat) (buf : LogBuffer) : list LogLine := rev (take n (rev buf)).

(** * Local allocations (secondary/state.rs) *)

Record LocalAlloc := mkLocalAlloc {
  la_alloc_id : AllocId;
  la_spec : ContainerSpec;
  la_status : AllocStatus;
  la_host_port : option Z;
  la_log : nat;
}.
Definition with_la_status (st : AllocStatus) (a : LocalAlloc) : LocalAlloc :=
  mkLocalAlloc (la_alloc_id a) (la_spec a) st (la_host_port a) (la_log a).

Abbreviation AllocationMap := (gmap AllocId LocalAlloc).
Definition map_insert (a : LocalAlloc) (m : AllocationMap) : result unit AllocId * AllocationMap :=
  if hm_contains (la_alloc_id a) m then (Err (la_alloc_id a), m) else (Ok tt, <[la_alloc_id a := a]> m).
Definition map_remove (aid : AllocId) (m : AllocationMap) : AllocationMap := delete aid m.
Definition map_log_buffer (aid : AllocId) (m : AllocationMap) : option nat := la_log <$> m !! aid.
Definition map_host_port (aid : AllocId) (m : AllocationMap) : option Z := m !! aid ≫= la_host_port.
Definition map_contains (aid : AllocId) (m : AllocationMap) : bool := hm_contains aid m.
Definition map_set_status (aid : AllocId) (st : AllocStatus) (m : AllocationMap) : AllocationMap :=
  match m !! aid with
  | Some a => <[aid := with_la_status st a]> m
  | None => m
  end.

Section queries.
Context `{HI : HashIter}.
Definition all_statuses (m : AllocationMap) : gmap AllocId AllocStatus :=
  hm_collect ((λ '(k, v), (k, la_status v)) <$> hm_iter m).
(** [Iterator::sum] over [f64] starts from negative zero. *)
Definition total_reserved_cpu (m : AllocationMap) : f64 :=
  foldl (λ acc a, f64_add acc (spec_cpu (la_spec a))) (S754_zero true) (hm_values m).
Definition total_reserved_memory (m : AllocationMap) : Z :=
  foldl (λ acc a, u64_add acc (spec_memory (la_spec a))) 0 (hm_values m).
Definition volume_info (m : AllocationMap) : list VolumeInfo :=
  mjoin ((λ a, filter_map (λ v, if cv_ephemeral v then None
                                 else Some (mkVolumeInfo (cv_name v) 0 (Some (la_alloc_id a))))
                 (spec_volumes (la_spec a))) <$> hm_values m).
End queries.

(** * The node *)

(** An exit waiter: the allocation and port it was spawned for, and how far it has come. *)
Inductive WaitPhase := Waiting | Marked (code : Z) | Released (code : Z).
Record Waiter := mkWaiter {
  wt_alloc : AllocId;
  wt_port : option Z;
  wt_phase : WaitPhase;
}.
Record Sec := mkSec {
  sec_ports : PortPool;
  sec_allocs : AllocationMap;
  sec_buffers : gmap nat LogBuffer;
  sec_reports : list NodeReport;
  sec_waiters : list Waiter;
}.
Definition set_sec_ports (p : PortPool) (s : Sec) : Sec :=
  mkSec p (sec_allocs s) (sec_buffers s) (sec_reports s) (sec_waiters s).
Definition set_sec_allocs (m : AllocationMap) (s : Sec) : Sec :=
  mkSec (sec_ports s) m (sec_buffers s) (sec_reports s) (sec_waiters s).
Definition set_sec_waiters (l : list Waiter) (s : Sec) : Sec :=
  mkSec (sec_ports s) (sec_allocs s) (sec_buffers s) (sec_reports s) l.
(** [report_tx.send(r)]; a closed channel is ignored by the callers. *)
Definition report (r : NodeReport) (s : Sec) : Sec :=
  mkSec (sec_ports s) (sec_allocs s) (sec_buffers s) (sec_reports s ++ [r]) (sec_waiters s).
(** A new, empty log buffer. *)
Definition new_buffer (s : Sec) : nat * Sec :=
  let id := fresh (dom (sec_buffers s)) in
  (id, mkSec (sec_ports s) (sec_allocs s) (<[id := []]> (sec_buffers s)) (sec_reports s) (sec_waiters s)).

Definition release_opt (port : option Z) (s : Sec) : Sec :=
  match port with
  | Some p => set_sec_ports (release p (sec_ports s)) s
  | None => s
  end.

(** ** Running a container (secondary/runner.rs), piece by piece *)

(** What the container runtime answers in the course of [run_container]. *)
Record RunOutcome := mkRunOutcome {
  ro_cached : result bool string;
  ro_pull : result unit string;
  ro_run : result unit string;
}.

Definition set_host_port (port : option Z) (spec : ContainerSpec) : ContainerSpec :=
  match port with
  | None => spec
  | Some p =>
      mkContainerSpec (spec_alloc_id spec) (spec_kind spec) (spec_timeout spec) (spec_command spec)
        (spec_image spec) (<["PORT"%string := pretty p]> (spec_env spec)) (spec_port spec) (Some p)
        (spec_cpu spec) (spec_memory spec) (spec_volumes spec)
  end.
(** Allocate a host port when the container exposes one; [None] when there is none left. *)
Definition run_port (aid : AllocId) (spec : ContainerSpec) (s : Sec) : option (option Z * Sec) :=
  match spec_port spec with
  | None => Some (None, s)
  | Some _ =>
      match allocate aid (sec_ports s) with
      | (Some port, p) => Some (Some port, set_sec_ports p s)
      | (None, _) => None
      end
  end.
Definition mesh_address (mesh_ip : option IpAddr) (port : option Z) : option SocketAddr :=
  ip ← mesh_ip; p ← port; Some (SocketAddr_new ip p).
(** After the container has started: log buffer, allocation map, report, exit waiter. *)
Definition run_started (aid : AllocId) (spec : ContainerSpec) (port : option Z) (mesh_ip : option IpAddr) (s : Sec) : Sec :=
  let '(buf, s) := new_buffer s in
  let s := set_sec_allocs (map_insert (mkLocalAlloc aid spec Running port buf) (sec_allocs s)).2 s in
  let s := report (RunStarted aid port (mesh_address mesh_ip port)) s in
  set_sec_waiters (sec_waiters s ++ [mkWaiter aid port Waiting]) s.

Definition run_container (o : RunOutcome) (aid : AllocId) (spec : ContainerSpec) (mesh_ip : option IpAddr) (s : Sec)
    : result unit NodeError * Sec :=
  if map_contains aid (sec_allocs s) then (Err (AllocAlreadyExists (alloc_id_0 aid)), s)
  else
    let s := report (StatusUpdate aid Pulling) s in
    let cached := match ro_cached o with Ok b => b | Err _ => false end in
    match (if cached then Ok tt else ro_pull o) with
    | Err e => (Err (ContainerdErr e), report (RunFailed aid ("image pull failed: " +:+ e)) s)
    | Ok _ =>
        let s := report (StatusUpdate aid Starting) s in
        match run_port aid spec s with
        | None => (Err PortExhaustion, s)
        | Some (port, s) =>
            let spec := set_host_port port spec in
            match ro_run o with
            | Err e =>
                (Err (ContainerdErr e), report (RunFailed aid ("container start failed: " +:+ e)) (release_opt port s))
            | Ok _ => (Ok tt, run_started aid spec port mesh_ip s)
            end
        end
    end.

(** ** Stopping a container *)

(** The cleanup of [stop_container], after the container was stopped: release the port that was read
    before, forget the allocation, report. *)
Definition stop_cleanup (aid : AllocId) (port : option Z) (stop : result Z string) (s : Sec) : Sec :=
  let s := release_opt port s in
  let s := set_sec_allocs (map_remove aid (sec_allocs s)) s in
  report (StoppedReport aid (match stop with Ok code => code | Err _ => -1 end)) s.
Definition stop_container (stop : result Z string) (aid : AllocId) (s : Sec) : result unit NodeError * Sec :=
  let port := map_host_port aid (sec_allocs s) in
  let s := stop_cleanup aid port stop s in
  (match stop with Ok _ => Ok tt | Err e => Err (ContainerdErr e) end, s).

Definition pull_image (pull : result unit string) (image : string) (s : Sec) : Sec :=
  match pull with
  | Ok _ => report (PullComplete image) s
  | Err e => report (PullFailed image e) s
  end.

(** ** The exit waiter *)

Definition exit_status (code : Z) : AllocStatus :=
  if code =? 0 then Stopped code else Failed ("exit code " +:+ pretty code).
(** The three things a waiter does once the container has exited; each takes a lock of its own. *)
Definition waiter_mark (aid : AllocId) (code : Z) (s : Sec) : Sec :=
  set_sec_allocs (map_set_status aid (exit_status code) (sec_allocs s)) s.
Definition waiter_finish (aid : AllocId) (code : Z) (s : Sec) : Sec :=
  report (StoppedReport aid code) (set_sec_allocs (map_remove aid (sec_allocs s)) s).
(** The whole waiter, with the result of the wait. *)
Definition exit_waiter (exit : result Z string) (aid : AllocId) (port : option Z) (s : Sec) : Sec :=
  let code := match exit with Ok c => c | Err _ => -1 end in
  waiter_finish aid code (release_opt port (waiter_mark aid code s)).

(** ** Recovery (secondary/reconcile.rs) *)

Record RecoveredContainer := mkRecovered {
  rec_kind : AllocKind;
  rec_timeout : option Z;
  rec_command : option (list string);
  rec_host_port : option Z;
  rec_cpu : f64;
  rec_memory : Z;
  rec_image : string;
  rec_volumes : list ContainerVolume;
}.
Definition recovered_spec (aid : AllocId) (r : RecoveredContainer) : ContainerSpec :=
  mkContainerSpec aid (rec_kind r) (rec_timeout r) (rec_command r) (rec_image r) ∅
    ((λ _, 0) <$> rec_host_port r) (rec_host_port r) (rec_cpu r) (rec_memory r) (rec_volumes r).

(** One expected allocation. [info] is what the runtime recovers from the container's labels. *)
Definition rehydrate (running : gset AllocId) (info : AllocId → option RecoveredContainer) (mesh_ip : option IpAddr)
    (s : Sec) (aid : AllocId) : Sec :=
  if negb (bool_decide (aid ∈ running)) then report (StoppedReport aid (-1)) s
  else
    match info aid with
    | None => s
    | Some r =>
        let s := match rec_host_port r with
                 | Some port => set_sec_ports (allocate_specific aid port (sec_ports s)).2 s
                 | None => s
                 end in
        let '(buf, s) := new_buffer s in
        match map_insert (mkLocalAlloc aid (recovered_spec aid r) Running (rec_host_port r) buf) (sec_allocs s) with
        | (Err _, _) => s
        | (Ok _, m) =>
            let s := set_sec_allocs m s in
            let s := set_sec_waiters (sec_waiters s ++ [mkWaiter aid (rec_host_port r) Waiting]) s in
            report (RunStarted aid (rec_host_port r) (mesh_address mesh_ip (rec_host_port r))) s
        end
    end.
(** The containers that are stopped and removed, and the node afterwards. *)
Definition reconcile (listed : result (list AllocId) string) (info : AllocId → option RecoveredContainer)
    (expected : list AllocId) (mesh_ip : option IpAddr) (s : Sec) : list AllocId * Sec :=
  match listed with
  | Err _ => ([], s)
  | Ok running =>
      let orphans := filterb (λ aid, negb (bool_decide (aid ∈ list_to_set (C := gset AllocId) expected))) running in
      (orphans, foldl (rehydrate (list_to_set running) info mesh_ip) s expected)
  end.

(** ** Heartbeats (secondary/heartbeat.rs) *)

Definition heartbeat `{HashIter} (node : NodeId) (metrics : NodeResources * list ContainerStats) (m : AllocationMap)
    : Heartbeat :=
  let '(res, stats) := metrics in
  let reserved_cpu := total_reserved_cpu m in
  let cpu := f64_max (f64_sub (cpu_total res) reserved_cpu) f64_zero in
  let reserved_memory := total_reserved_memory m in
  mkHeartbeat node (all_statuses m)
    (mkNodeResources (cpu_total res) cpu (memory_total res)
       (u64_saturating_sub (memory_total res) reserved_memory)) stats (volume_info m).

(** ** Usage rates (secondary/metrics.rs) *)

(** [compute_cpu_rates]: the previous cumulative reading of every container, and the new stats. *)
Definition cpu_rate (prev : gmap AllocId (f64 * Z)) (t : Z) (st : ContainerStats) : f64 :=
  match prev !! cs_alloc_id st with
  | Some (prev_cumulative, prev_time) =>
      (** [duration_since] saturates at zero *)
      let elapsed := as_secs_f64 (Z.max 0 (t - prev_time)) in
      if f64_ltb f64_zero elapsed then
        f64_max (f64_div (f64_sub (cs_cpu_usage st) prev_cumulative) elapsed) f64_zero
      else f64_zero
  | None => f64_zero
  end.
Definition rate_step (t : Z) (acc : gmap AllocId (f64 * Z) * list ContainerStats) (st : ContainerStats)
    : gmap AllocId (f64 * Z) * list ContainerStats :=
  let '(prev, out) := acc in
  (<[cs_alloc_id st := (cs_cpu_usage st, t)]> prev,
   out ++ [mkContainerStats (cs_alloc_id st) (cpu_rate prev t st) (cs_memory_usage st)]).
Definition compute_cpu_rates (stats : list ContainerStats) (prev : gmap AllocId (f64 * Z)) (t : Z)
    : gmap AllocId (f64 * Z) * list ContainerStats :=
  let current_ids : gset AllocId := list_to_set (cs_alloc_id <$> stats) in
  let prev := filter (λ '(id, _), id ∈ current_ids) prev in
  foldl (rate_step t) (prev, []) stats.

(** * The command loop and the waiters, interleaved *)

(** Where the command loop is inside a command; between two of these points it waits. *)
Inductive Pc :=
| PcIdle
| PcPulling (aid : AllocId) (spec : ContainerSpec)
| PcStarting (aid : AllocId) (spec : ContainerSpec)
| PcCreated (aid : AllocId) (spec : ContainerSpec) (port : option Z)
| PcStopping (aid : AllocId) (port : option Z).

Record Node := mkNode { n_sec : Sec; n_pc : Pc }.

Section steps.
Context (mesh_ip : option IpAddr).

(** Steps of the command loop on a [Run] command, and of the waiters. *)
Inductive node_step : Node → Node → Prop :=
| step_run_begin s aid spec :
    map_contains aid (sec_allocs s) = false →
    node_step (mkNode s PcIdle) (mkNode (report (StatusUpdate aid Pulling) s) (PcPulling aid spec))
| step_run_exists s aid :
    map_contains aid (sec_allocs s) = true → node_step (mkNode s PcIdle) (mkNode s PcIdle)
| step_pull_ok s aid spec :
    node_step (mkNode s (PcPulling aid spec)) (mkNode (report (StatusUpdate aid Starting) s) (PcStarting aid spec))
| step_pull_failed s aid spec e :
    node_step (mkNode s (PcPulling aid spec)) (mkNode (report (RunFailed aid ("image pull failed: " +:+ e)) s) PcIdle)
| step_port s aid spec port s' :
    run_port aid spec s = Some (port, s') →
    node_step (mkNode s (PcStarting aid spec)) (mkNode s' (PcCreated aid (set_host_port port spec) port))
| step_port_exhausted s aid spec :
    run_port aid spec s = None → node_step (mkNode s (PcStarting aid spec)) (mkNode s PcIdle)
| step_start_ok s aid spec port :
    node_step (mkNode s (PcCreated aid spec port)) (mkNode (run_started aid spec port mesh_ip s) PcIdle)
| step_start_failed s aid spec port e :
    node_step (mkNode s (PcCreated aid spec port))
      (mkNode (report (RunFailed aid ("container start failed: " +:+ e)) (release_opt port s)) PcIdle)
| step_waiter_mark s pc l1 l2 aid port code :
    sec_waiters s = l1 ++ mkWaiter aid port Waiting :: l2 →
    node_step (mkNode s pc)
      (mkNode (set_sec_waiters (l1 ++ mkWaiter aid port (Marked code) :: l2) (waiter_mark aid code s)) pc)
| step_waiter_release s pc l1 l2 aid port code :
    sec_waiters s = l1 ++ mkWaiter aid port (Marked code) :: l2 →
    node_step (mkNode s pc)
      (mkNode (set_sec_waiters (l1 ++ mkWaiter aid port (Released code) :: l2) (release_opt port s)) pc)
| step_waiter_finish s pc l1 l2 aid port code :
    sec_waiters s = l1 ++ mkWaiter aid port (Released code) :: l2 →
    node_step (mkNode s pc) (mkNode (set_sec_waiters (l1 ++ l2) (waiter_finish aid code s)) pc).

(** Steps of the command loop on a [Stop] command. *)
Inductive stop_step : Node → Node → Prop :=
| step_stop_begin s aid :
    stop_step (mkNode s PcIdle) (mkNode s (PcStopping aid (map_host_port aid (sec_allocs s))))
| step_stop_end s aid port stop :
    stop_step (mkNode s (PcStopping aid port)) (mkNode (stop_cleanup aid port stop s) PcIdle).
End steps.

(** A node that has just started on a host with the given port tables. *)
Definition node_init (p : PortPool) : Node := mkNode (mkSec p ∅ ∅ [] []) PcIdle.

(** Two running allocations never share a host port. *)
Definition ports_exclusive (s : Sec) : Prop :=
  ∀ a b la lb port, sec_allocs s !! a = Some la → sec_allocs s !! b = Some lb →
    la_status la = Running → la_status lb = Running →
    la_host_port la = Some port → la_host_port lb = Some port → a = b.

(** * Lemmas *)

(** ** The invariant of runs without stop commands *)

Definition holds_port (w : Waiter) : bool := match wt_phase w with Released _ => false | _ => true end.

(** A waiter watches an allocation of the map, with the same port, and owns the port until it has
    released it. *)
Definition waiter_ok (s : Sec) (w : Waiter) : Prop :=
  (∃ la, sec_allocs s !! wt_alloc w = Some la ∧ la_host_port la = wt_port w ∧
     (la_status la = Running → wt_phase w = Waiting)) ∧
  (∀ p, wt_port w = Some p → holds_port w = true → allocated (sec_ports s) !! p = Some (wt_alloc w)).
Definition pc_ok (s : Sec) (pc : Pc) : Prop :=
  match pc with
  | PcIdle => True
  | PcPulling aid _ | PcStarting aid _ => sec_allocs s !! aid = None
  | PcCreated aid _ port =>
      sec_allocs s !! aid = None ∧ ∀ p, port = Some p → allocated (sec_ports s) !! p = Some aid
  | PcStopping _ _ => False
  end.
Record node_inv (n : Node) : Prop := {
  inv_pool : pool_wf (sec_ports (n_sec n));
  inv_nodup : NoDup (wt_alloc <$> sec_waiters (n_sec n));
  inv_waiters : ∀ w, w ∈ sec_waiters (n_sec n) → waiter_ok (n_sec n) w;
  inv_allocs : ∀ aid la, sec_allocs (n_sec n) !! aid = Some la → ∃ w, w ∈ sec_waiters (n_sec n) ∧ wt_alloc w = aid;
  inv_pc : pc_ok (n_sec n) (n_pc n);
}.

Lemma node_inv_exclusive n : node_inv n → ports_exclusive (n_sec n).
Proof.
  intros [_ _ Hw Ha _] a b la lb port Hla Hlb Hra Hrb Hpa Hpb.
  assert (∀ c lc, sec_allocs (n_sec n) !! c = Some lc → la_status lc = Running → la_host_port lc = Some port →
            allocated (sec_ports (n_sec n)) !! port = Some c) as Hown.
  { intros c lc Hc Hr Hp. destruct (Ha c lc Hc) as (w & Hin & <-).
    destruct (Hw w Hin) as [(lw & Hlw & Hpw & Hph) Hport]. simplify_eq.
    apply Hport; [congruence|]. unfold holds_port. by rewrite (Hph Hr). }
  pose proof (Hown a la Hla Hra Hpa) as H1. pose proof (Hown b lb Hlb Hrb Hpb) as H2. congruence.
Qed.

Lemma map_contains_false aid m : map_contains aid m = false → m !! aid = None.
Proof. unfold map_contains, hm_contains. rewrite bool_decide_eq_false. apply eq_None_not_Some. Qed.

(** Changing only reports or the program counter. *)
Lemma node_inv_same n s' pc' :
  node_inv n → sec_ports s' = sec_ports (n_sec n) → sec_allocs s' = sec_allocs (n_sec n) →
  sec_waiters s' = sec_waiters (n_sec n) → pc_ok s' pc' → node_inv (mkNode s' pc').
Proof.
  intros [Hp Hn Hw Ha _] E1 E2 E3 Hpc. split; simpl; rewrite ?E1, ?E2, ?E3; try done.
  intros w Hin. destruct (Hw w Hin) as [(la & ?) ?]. split; [exists la; by rewrite E2|by rewrite E1].
Qed.

Lemma run_port_allocated aid spec s port s' :
  run_port aid spec s = Some (port, s') →
  sec_allocs s' = sec_allocs s ∧ sec_waiters s' = sec_waiters s ∧
  (pool_wf (sec_ports s) → pool_wf (sec_ports s') ∧
   (∀ p, port = Some p → allocated (sec_ports s') !! p = Some aid) ∧
   (∀ p a, allocated (sec_ports s) !! p = Some a → allocated (sec_ports s') !! p = Some a)).
Proof.
  unfold run_port. destruct (spec_port spec); [|intros [= <- <-]; naive_solver].
  destruct (allocate aid (sec_ports s)) as [[q|] p'] eqn:E; [|done]. intros [= <- <-]. split_and!; [done..|].
  intros Hwf. pose proof (allocate_wf aid _ Hwf) as Hwf'. rewrite E in Hwf'. split; [done|]. simpl.
  unfold allocate in E. destruct (lowest (available (sec_ports s))) as [r|] eqn:El; [|done]. simplify_eq. simpl.
  apply lowest_spec in El as [El _]. destruct (proj1 Hwf q El) as [_ Hnone]. split.
  - intros p [= ->]. by rewrite lookup_insert_eq.
  - intros p a Hpa. rewrite lookup_insert_ne; [done|]. intros ->. congruence.
Qed.

Lemma release_allocated port p q : q ≠ port → allocated (release port p) !! q = allocated p !! q.
Proof. intros Hne. unfold release. destruct (allocated p !! port); simpl; [by rewrite lookup_delete_ne|done]. Qed.

(** Giving back a port that nobody else owns. *)
Lemma release_opt_inv s aid port :
  pool_wf (sec_ports s) → (∀ p, port = Some p → allocated (sec_ports s) !! p = Some aid) →
  pool_wf (sec_ports (release_opt port s)) ∧ sec_allocs (release_opt port s) = sec_allocs s ∧
  sec_waiters (release_opt port s) = sec_waiters s ∧
  ∀ p a, a ≠ aid → allocated (sec_ports s) !! p = Some a → allocated (sec_ports (release_opt port s)) !! p = Some a.
Proof.
  intros Hwf Hown. destruct port as [q|]; simpl; [|done]. split_and!; [by apply release_wf|done..|].
  intros p a Hne Hpa. rewrite release_allocated; [done|]. intros ->. specialize (Hown q eq_refl). congruence.
Qed.

Lemma waiters_other l1 l2 w0 w :
  NoDup (wt_alloc <$> l1 ++ w0 :: l2) → w ∈ l1 ++ l2 → wt_alloc w ≠ wt_alloc w0.
Proof.
  rewrite fmap_app, fmap_cons. intros Hnd Hin Heq. apply NoDup_app in Hnd as (_ & Hdis & Hnd).
  apply NoDup_cons in Hnd as [Hn _]. apply elem_of_app in Hin as [Hin|Hin].
  - apply (Hdis (wt_alloc w)); [by apply list_elem_of_fmap_2|]. rewrite Heq. left.
  - apply Hn. rewrite <-Heq. by apply list_elem_of_fmap_2.
Qed.
Lemma NoDup_waiters_replace l1 l2 w0 w1 :
  wt_alloc w1 = wt_alloc w0 → NoDup (wt_alloc <$> l1 ++ w0 :: l2) → NoDup (wt_alloc <$> l1 ++ w1 :: l2).
Proof. intros He. by rewrite !fmap_app, !fmap_cons, He. Qed.
Lemma NoDup_waiters_remove l1 l2 w0 : NoDup (wt_alloc <$> l1 ++ w0 :: l2) → NoDup (wt_alloc <$> l1 ++ l2).
Proof.
  rewrite !fmap_app, fmap_cons, !NoDup_app, NoDup_cons. intros (H1 & H2 & H3 & H4). split_and!; [done| |done].
  intros x Hx Hx2. apply (H2 x Hx). by right.
Qed.
Lemma elem_of_replace {A} (l1 l2 : list A) x y : y ∈ l1 ++ x :: l2 ↔ y = x ∨ y ∈ l1 ++ l2.
Proof. rewrite !elem_of_app, elem_of_cons. tauto. Qed.

(** ** Each kind of step *)

Lemma run_started_inv mesh s aid spec port :
  node_inv (mkNode s (PcCreated aid spec port)) → node_inv (mkNode (run_started aid spec port mesh s) PcIdle).
Proof.
  intros [Hp Hn Hw Ha [Hnone Hport]]. simpl in *. unfold run_started, new_buffer. simpl. unfold map_insert.
  assert (hm_contains aid (sec_allocs s) = false) as Hc.
  { unfold hm_contains. apply bool_decide_eq_false. by rewrite Hnone; intros []. }
  simpl. rewrite Hc. split; simpl.
  - done.
  - rewrite fmap_app. apply NoDup_app. split_and!; [done| |apply NoDup_singleton].
    intros x (w & -> & Hin)%list_elem_of_fmap Hx%list_elem_of_singleton. destruct (Hw w Hin) as [(la & Hla & _) _].
    simpl in Hx. rewrite Hx in Hla. congruence.
  - intros w [Hin| ->%list_elem_of_singleton]%elem_of_app.
    + destruct (Hw w Hin) as [(la & Hla & ?) Hown]. split; simpl; [|done]. exists la.
      rewrite lookup_insert_ne; [done|]. intros Heq. rewrite <-Heq in Hla. congruence.
    + split; simpl; [|by intros p Hpp _; apply Hport]. eexists. rewrite lookup_insert_eq. done.
  - intros a la. rewrite lookup_insert. case_decide as Hd; intros Hl.
    + exists (mkWaiter aid port Waiting). split; [set_solver|done].
    + destruct (Ha a la Hl) as (w & ? & ?). exists w. split; [set_solver|done].
  - done.
Qed.

Lemma waiter_mark_inv s pc l1 l2 aid port code :
  node_inv (mkNode s pc) → sec_waiters s = l1 ++ mkWaiter aid port Waiting :: l2 →
  node_inv (mkNode (set_sec_waiters (l1 ++ mkWaiter aid port (Marked code) :: l2) (waiter_mark aid code s)) pc).
Proof.
  intros [Hp Hn Hw Ha Hpc] Hl. simpl in *. rewrite Hl in *.
  destruct (Hw (mkWaiter aid port Waiting)) as [(la & Hla & Hlp & _) Hown]; [set_solver|]. simpl in *.
  assert (map_set_status aid (exit_status code) (sec_allocs s) =
          <[aid := with_la_status (exit_status code) la]> (sec_allocs s)) as Em.
  { unfold map_set_status. by rewrite Hla. }
  assert (la_status (with_la_status (exit_status code) la) ≠ Running) as Hnr.
  { simpl. unfold exit_status. by destruct (code =? 0). }
  split; simpl; rewrite ?Em.
  - done.
  - by apply (NoDup_waiters_replace _ _ (mkWaiter aid port Waiting)).
  - intros w [->|Hin]%elem_of_replace.
    + split; simpl; rewrite ?Em; [|done]. eexists. rewrite lookup_insert_eq. split_and!; [done..|]. done.
    + destruct (Hw w) as [(lw & Hlw & ?) ?]; [by apply elem_of_replace; right|].
      pose proof (waiters_other _ _ _ w Hn Hin) as Hne. simpl in Hne.
      split; simpl; rewrite ?Em; [|done]. exists lw. by rewrite lookup_insert_ne.
  - intros a la'. rewrite lookup_insert. intros Hl'.
    assert (∃ la0, sec_allocs s !! a = Some la0) as [la0 H0] by (case_decide; subst; eauto).
    destruct (Ha a la0 H0) as (w & [->|Hin]%elem_of_replace & Hwa).
    + exists (mkWaiter aid port (Marked code)). split; [set_solver|done].
    + exists w. split; [set_solver|done].
  - assert (∀ a, sec_allocs s !! a = None → map_set_status aid (exit_status code) (sec_allocs s) !! a = None) as Hkeep.
    { intros a Hnone. rewrite Em. rewrite lookup_insert_ne; [done|]. intros ->. congruence. }
    destruct pc; simpl in *; try done; try by apply Hkeep. destruct Hpc. split; [by apply Hkeep|done].
Qed.

Lemma waiter_release_inv s pc l1 l2 aid port code :
  node_inv (mkNode s pc) → sec_waiters s = l1 ++ mkWaiter aid port (Marked code) :: l2 →
  node_inv (mkNode (set_sec_waiters (l1 ++ mkWaiter aid port (Released code) :: l2) (release_opt port s)) pc).
Proof.
  intros [Hp Hn Hw Ha Hpc] Hl. simpl in *. rewrite Hl in *.
  destruct (Hw (mkWaiter aid port (Marked code))) as [(la & Hla & Hlp & Hst) Hown]; [set_solver|]. simpl in *.
  destruct (release_opt_inv s aid port Hp) as (Hwf & Eal & _ & Hkeep); [by intros; apply Hown|].
  split; simpl; rewrite ?Eal.
  - done.
  - by apply (NoDup_waiters_replace _ _ (mkWaiter aid port (Marked code))).
  - intros w [->|Hin]%elem_of_replace.
    + split; simpl; rewrite ?Eal; [|done]. exists la. split_and!; [done..|]. intros Hr. by specialize (Hst Hr).
    + destruct (Hw w) as [? Hown']; [by apply elem_of_replace; right|].
      pose proof (waiters_other _ _ _ w Hn Hin) as Hne. simpl in Hne.
      split; simpl; rewrite ?Eal; [done|]. intros p Hpp Hh. apply Hkeep; [done|]. by apply Hown'.
  - intros a la' Hl'. destruct (Ha a la' Hl') as (w & [->|Hin]%elem_of_replace & Hwa).
    + exists (mkWaiter aid port (Released code)). split; [set_solver|done].
    + exists w. split; [set_solver|done].
  - destruct pc as [| | |a sp q|]; simpl in *; rewrite ?Eal; try done. destruct Hpc as [Hnone Hq]. split; [done|].
    intros p Hpp. apply Hkeep; [|by apply Hq]. intros ->. congruence.
Qed.

Lemma waiter_finish_inv s pc l1 l2 aid port code :
  node_inv (mkNode s pc) → sec_waiters s = l1 ++ mkWaiter aid port (Released code) :: l2 →
  node_inv (mkNode (set_sec_waiters (l1 ++ l2) (waiter_finish aid code s)) pc).
Proof.
  intros [Hp Hn Hw Ha Hpc] Hl. simpl in *. rewrite Hl in *. split; simpl.
  - done.
  - by eapply NoDup_waiters_remove.
  - intros w Hin. destruct (Hw w) as [(lw & Hlw & ?) ?]; [by apply elem_of_replace; right|].
    pose proof (waiters_other _ _ _ w Hn Hin) as Hne. simpl in Hne.
    split; simpl; [|done]. exists lw. unfold map_remove. by rewrite lookup_delete_ne.
  - unfold map_remove. intros a la [Hne Hl']%lookup_delete_Some. destruct (Ha a la Hl') as (w & [->|Hin]%elem_of_replace & Hwa); [done|eauto].
  - unfold map_remove. assert (∀ a, sec_allocs s !! a = None → delete aid (sec_allocs s) !! a = None) as Hkeep.
    { intros a Hnone. rewrite lookup_delete_None. by right. }
    destruct pc; simpl in *; try done; try by apply Hkeep. destruct Hpc. split; [by apply Hkeep|done].
Qed.

Lemma node_step_inv mesh n n' : node_step mesh n n' → node_inv n → node_inv n'.
Proof.
  destruct 1 as [s aid spec Hc|s aid Hc|s aid spec|s aid spec e|s aid spec port s' Hr|s aid spec Hr|s aid spec port
                |s aid spec port e|s pc l1 l2 aid port code Hl|s pc l1 l2 aid port code Hl|s pc l1 l2 aid port code Hl];
    intros Hinv.
  - eapply node_inv_same; [exact Hinv|done..|]. by apply map_contains_false.
  - done.
  - eapply node_inv_same; [exact Hinv|done..|]. apply Hinv.
  - by eapply node_inv_same; [exact Hinv|..].
  - destruct (run_port_allocated _ _ _ _ _ Hr) as (Ea & Ew & Hport). destruct Hinv as [Hp Hn Hw Ha Hpc]. simpl in *.
    destruct (Hport Hp) as (Hwf & Hown & Hkeep). split; simpl; rewrite ?Ea, ?Ew; try done.
    intros w Hin. destruct (Hw w Hin) as [? Hh]. split; [by rewrite Ea|]. intros p Hpp Hho. by apply Hkeep, Hh.
  - by eapply node_inv_same; [exact Hinv|..].
  - by eapply run_started_inv.
  - destruct Hinv as [Hp Hn Hw Ha [Hnone Hport]]. simpl in *.
    destruct (release_opt_inv s aid port Hp Hport) as (Hwf & Ea & Ew & Hkeep). split; simpl; rewrite ?Ea, ?Ew; try done.
    intros w Hin. destruct (Hw w Hin) as [(la & Hla & ?) Hh]. split; simpl; [rewrite Ea; by exists la|].
    intros p Hpp Hho. apply Hkeep; [|by apply Hh]. intros Heq. rewrite Heq in Hla. congruence.
  - by eapply waiter_mark_inv.
  - by eapply waiter_release_inv.
  - by eapply waiter_finish_inv.
Qed.

(** ** Recovery *)

(** What recovering one allocation leaves: its entry in the map and the report about it. *)
Definition recovered_entry (r : RecoveredContainer) (aid : AllocId) (la : LocalAlloc) : Prop :=
  la_alloc_id la = aid ∧ la_spec la = recovered_spec aid r ∧ la_status la = Running ∧ la_host_port la = rec_host_port r.

Lemma rehydrate_frame running info mesh s aid :
  (∀ a, a ≠ aid → sec_allocs (rehydrate running info mesh s aid) !! a = sec_allocs s !! a) ∧
  (∀ r, r ∈ sec_reports s → r ∈ sec_reports (rehydrate running info mesh s aid)) ∧
  (∀ p, is_Some (allocated (sec_ports s) !! p) →
        is_Some (allocated (sec_ports (rehydrate running info mesh s aid)) !! p)).
Proof.
  unfold rehydrate. case_bool_decide; simpl.
  2: { split_and!; try done. set_solver. }
  destruct (info aid) as [r|]; [|done].
  set (s1 := match rec_host_port r with Some port => _ | None => s end).
  assert (sec_allocs s1 = sec_allocs s ∧ sec_reports s1 = sec_reports s ∧
          ∀ p, is_Some (allocated (sec_ports s) !! p) → is_Some (allocated (sec_ports s1) !! p)) as (E1 & E2 & E3).
  { subst s1. destruct (rec_host_port r) as [port|]; [|done]. split_and!; [done..|]. intros p Hp. simpl.
    destruct (allocate_specific aid port (sec_ports s)) as [ok p'] eqn:Ea.
    apply allocate_specific_spec in Ea as [Ht Hf]. destruct ok; simpl.
    - destruct (Ht eq_refl) as (_ & _ & ->). destruct (decide (p = port)) as [->|]; simplify_map_eq; eauto.
    - by rewrite (Hf eq_refl). }
  simpl. unfold map_insert. simpl. destruct (hm_contains aid (sec_allocs s1)); simpl; rewrite ?E1, ?E2.
  - by split_and!.
  - split_and!; [intros a Hne; by rewrite lookup_insert_ne|set_solver|done].
Qed.

Lemma rehydrate_present running info mesh s aid r :
  aid ∈ running → info aid = Some r → sec_allocs s !! aid = None →
  let s' := rehydrate running info mesh s aid in
  (∃ la, sec_allocs s' !! aid = Some la ∧ recovered_entry r aid la) ∧
  RunStarted aid (rec_host_port r) (mesh_address mesh (rec_host_port r)) ∈ sec_reports s' ∧
  (∀ p, rec_host_port r = Some p → pool_start (sec_ports s) ≤ p ≤ pool_end (sec_ports s) →
        is_Some (allocated (sec_ports s') !! p)).
Proof.
  intros Hrun Hinfo Hnone. unfold rehydrate. rewrite bool_decide_eq_true_2 by done. simpl. rewrite Hinfo.
  set (s1 := match rec_host_port r with Some port => _ | None => s end).
  assert (sec_allocs s1 = sec_allocs s ∧
          ∀ p, rec_host_port r = Some p → pool_start (sec_ports s) ≤ p ≤ pool_end (sec_ports s) →
            is_Some (allocated (sec_ports s1) !! p)) as (E1 & E2).
  { subst s1. destruct (rec_host_port r) as [port|]; [|done]. split; [done|]. intros p [= <-] Hr. simpl.
    unfold allocate_specific. rewrite (proj2 (Z.ltb_ge port _)), (proj2 (Z.ltb_ge _ port)) by lia. simpl.
    destruct (hm_contains port (allocated (sec_ports s))) eqn:Ec; simpl; [by apply hm_contains_true|].
    rewrite lookup_insert_eq. eauto. }
  simpl. unfold map_insert. simpl. rewrite E1.
  assert (hm_contains aid (sec_allocs s) = false) as ->.
  { unfold hm_contains. apply bool_decide_eq_false. by rewrite Hnone; intros []. }
  simpl. split_and!; [|set_solver|done]. eexists. rewrite lookup_insert_eq. split; [done|]. by repeat split.
Qed.

Lemma rehydrate_pool running info mesh s aid :
  pool_start (sec_ports (rehydrate running info mesh s aid)) = pool_start (sec_ports s) ∧
  pool_end (sec_ports (rehydrate running info mesh s aid)) = pool_end (sec_ports s).
Proof.
  unfold rehydrate. case_match; [done|]. destruct (info aid) as [r|]; [|done]. simpl.
  unfold map_insert, allocate_specific. repeat case_match; simplify_eq/=; done.
Qed.

Lemma reconcile_frame running info mesh l s :
  let s' := foldl (rehydrate running info mesh) s l in
  (∀ a, a ∉ l → sec_allocs s' !! a = sec_allocs s !! a) ∧
  (∀ r, r ∈ sec_reports s → r ∈ sec_reports s') ∧
  (∀ p, is_Some (allocated (sec_ports s) !! p) → is_Some (allocated (sec_ports s') !! p)).
Proof.
  revert s. induction l as [|b l IH]; intros s; simpl; [done|].
  destruct (IH (rehydrate running info mesh s b)) as (I1 & I2 & I3).
  destruct (rehydrate_frame running info mesh s b) as (F1 & F2 & F3). split_and!; [|auto..].
  intros a [Hne Hl]%not_elem_of_cons. rewrite I1 by done. by apply F1.
Qed.

Lemma tail_of_drop {A} n (l : list A) : tail (drop n l) = drop (S n) l.
Proof. revert l. by induction n as [|n IH]; intros [|x l]; simpl; [..|apply IH]. Qed.

(** * Theorems *)

(** C32: whatever commands to run containers a node gets, however containers exit, and however the exit
    waiters interleave with the command loop: as long as no stop command is given, no two running
    allocations have the same host port. *)
Theorem ports_exclusive_without_stop mesh p n :
  pool_wf p → rtc (node_step mesh) (node_init p) n → ports_exclusive (n_sec n).
Proof.
  intros Hp Hr. apply node_inv_exclusive.
  assert (node_inv (node_init p)) as H0.
  { split; simpl; [done|apply NoDup_nil_2|by intros w ?%elem_of_nil| |done].
    intros aid la. by rewrite lookup_empty. }
  induction Hr as [|x y z Hs _ IH]; [done|]. by eapply IH, node_step_inv.
Qed.

(** with a stop command two running allocations can end up with the same host port: the stop releases
    the port of the stopped allocation, the port is given to the next allocation, and then the exit
    waiter of the stopped one releases it again. *)
Theorem stop_races_exit_waiter :
  ∃ p n, pool_wf p ∧ rtc (λ x y, node_step None x y ∨ stop_step x y) (node_init p) n ∧ ¬ ports_exclusive (n_sec n).
Proof.
  set (spec name := mkContainerSpec (mkAllocId name) KService None None "img" ∅ (Some 80) None f64_zero 0 []).
  exists (with_range (mkHostTables None None None) 50000 50001).
  eexists. split; [apply with_range_wf|]. split.
  - eapply rtc_l; [left; apply (step_run_begin None _ (mkAllocId "a") (spec "a")); vm_compute; reflexivity|].
    eapply rtc_l; [left; apply step_pull_ok|].
    eapply rtc_l; [left; eapply step_port; vm_compute; reflexivity|].
    eapply rtc_l; [left; apply step_start_ok|].
    eapply rtc_l; [right; apply (step_stop_begin _ (mkAllocId "a"))|].
    eapply rtc_l; [left; apply (step_waiter_mark None _ _ [] [] (mkAllocId "a") (Some 50000) 0); vm_compute; reflexivity|].
    eapply rtc_l; [right; apply (step_stop_end _ _ _ (Ok 0))|].
    eapply rtc_l; [left; apply (step_run_begin None _ (mkAllocId "b") (spec "b")); vm_compute; reflexivity|].
    eapply rtc_l; [left; apply step_pull_ok|].
    eapply rtc_l; [left; eapply step_port; vm_compute; reflexivity|].
    eapply rtc_l; [left; apply step_start_ok|].
    eapply rtc_l; [left; eapply (step_waiter_release None _ _ [] _ (mkAllocId "a") (Some 50000) 0); vm_compute; reflexivity|].
    eapply rtc_l; [left; apply (step_run_begin None _ (mkAllocId "c") (spec "c")); vm_compute; reflexivity|].
    eapply rtc_l; [left; apply step_pull_ok|].
    eapply rtc_l; [left; eapply step_port; vm_compute; reflexivity|].
    eapply rtc_l; [left; apply step_start_ok|].
    apply rtc_refl.
  - intros Hex. specialize (Hex (mkAllocId "b") (mkAllocId "c")). vm_compute in Hex.
    specialize (Hex _ _ _ eq_refl eq_refl eq_refl eq_refl eq_refl eq_refl). discriminate.
Qed.

(** C33: a container that was started is in the map as running, with a host port that belongs to it and is
    passed in its environment when it exposes one, and the primary is told. A start that fails leaves no
    trace: map, ports and waiters are as before. The primary is told of the failure except in two cases:
    the allocation already existed, or no host port was left. *)
Theorem run_container_outcome o aid spec mesh s r s' :
  pool_wf (sec_ports s) → run_container o aid spec mesh s = (r, s') →
  match r with
  | Ok _ =>
      ∃ la port, sec_allocs s' !! aid = Some la ∧ la_status la = Running ∧ la_host_port la = port ∧
        la_spec la = set_host_port port spec ∧ (is_Some port ↔ is_Some (spec_port spec)) ∧
        (∀ p, port = Some p → allocated (sec_ports s') !! p = Some aid ∧ allocated (sec_ports s) !! p = None) ∧
        last (sec_reports s') = Some (RunStarted aid port (mesh_address mesh port))
  | Err e =>
      sec_allocs s' = sec_allocs s ∧ sec_ports s' = sec_ports s ∧ sec_waiters s' = sec_waiters s ∧
      ((∃ reason, last (sec_reports s') = Some (RunFailed aid reason)) ∨
       e = AllocAlreadyExists (alloc_id_0 aid) ∨ e = PortExhaustion)
  end.
Proof.
  intros Hwf. unfold run_container. destruct (map_contains aid (sec_allocs s)) eqn:Hc.
  { intros [= <- <-]. split_and!; auto. }
  apply map_contains_false in Hc.
  destruct (if match ro_cached o with Ok b => b | Err _ => false end then Ok tt else ro_pull o) as [[]|e].
  2: { intros [= <- <-]. split_and!; [done..|]. left. eexists. apply last_snoc. }
  set (s1 := report (StatusUpdate aid Starting) (report (StatusUpdate aid Pulling) s)).
  assert (sec_allocs s1 = sec_allocs s ∧ sec_ports s1 = sec_ports s ∧ sec_waiters s1 = sec_waiters s) as (E1 & E2 & E3) by done.
  clearbody s1. destruct (run_port aid spec s1) as [[port s2]|] eqn:Hport.
  2: { intros [= <- <-]. split_and!; auto. }
  unfold run_port in Hport.
  destruct (ro_run o) as [[]|e]; intros [= <- <-].
  - exists (mkLocalAlloc aid (set_host_port port spec) Running port (fresh (dom (sec_buffers s2)))), port.
    assert (sec_allocs s2 = sec_allocs s ∧ (is_Some port ↔ is_Some (spec_port spec)) ∧
      ∀ p, port = Some p → allocated (sec_ports s2) !! p = Some aid ∧ allocated (sec_ports s) !! p = None) as (Ea & Hs & Hp).
    { destruct (spec_port spec); [|simplify_eq; split_and!; [done| |done]; split; by intros []].
      destruct (allocate aid (sec_ports s1)) as [[q|] p'] eqn:Eal; [|done]. simplify_eq. split_and!; [done| |].
      - split; by eexists.
      - intros p [= <-]. simpl. rewrite E2 in Eal. destruct (allocate_release _ _ _ _ Hwf Eal) as [-> _].
        rewrite lookup_insert_eq. split; [done|]. unfold allocate in Eal.
        destruct (lowest (available (sec_ports s))) as [q'|] eqn:El; [|done]. simplify_eq.
        apply lowest_spec in El as [El _]. by destruct (proj1 Hwf q El). }
    simpl. unfold map_insert. simpl. assert (hm_contains aid (sec_allocs s2) = false) as ->.
    { unfold hm_contains. apply bool_decide_eq_false. rewrite Ea, Hc. by intros []. }
    simpl. rewrite lookup_insert_eq. split_and!; try done; try apply last_snoc; apply Hs.
  - assert (sec_allocs (release_opt port s2) = sec_allocs s ∧ sec_ports (release_opt port s2) = sec_ports s ∧
            sec_waiters (release_opt port s2) = sec_waiters s) as (Ea & Ep & Ew).
    { destruct (spec_port spec); [|by simplify_eq].
      destruct (allocate aid (sec_ports s1)) as [[q|] p'] eqn:Eal; [|done]. simplify_eq. simpl.
      rewrite E2 in Eal. destruct (allocate_release _ _ _ _ Hwf Eal) as [_ ->]. done. }
    split_and!; [done..|]. left. eexists. apply last_snoc.
Qed.

(** C34: recovery after a restart, on a node whose map is still empty. Exactly the managed containers that
    are not expected are stopped and removed. Every expected allocation whose container still runs is
    back in the map, running, with what was recovered of it, is reported as started, and its port is
    taken; every expected allocation whose container is gone is reported as stopped; nothing else gets
    into the map. *)
Theorem reconcile_recovers running info expected mesh s orphans s' :
  NoDup expected → sec_allocs s = ∅ →
  reconcile (Ok running) info expected mesh s = (orphans, s') →
  (∀ aid, aid ∈ orphans ↔ aid ∈ running ∧ aid ∉ expected) ∧
  (∀ aid r, aid ∈ expected → aid ∈ running → info aid = Some r →
     (∃ la, sec_allocs s' !! aid = Some la ∧ recovered_entry r aid la) ∧
     RunStarted aid (rec_host_port r) (mesh_address mesh (rec_host_port r)) ∈ sec_reports s' ∧
     (∀ p, rec_host_port r = Some p → pool_start (sec_ports s) ≤ p ≤ pool_end (sec_ports s) →
        is_Some (allocated (sec_ports s') !! p))) ∧
  (∀ aid, aid ∈ expected → aid ∉ running → StoppedReport aid (-1) ∈ sec_reports s') ∧
  (∀ aid, is_Some (sec_allocs s' !! aid) → aid ∈ expected ∧ aid ∈ running).
Proof.
  intros Hnd Hempty [= <- <-]. split.
  { intros aid. rewrite elem_of_filterb. split.
    - intros [H ?]. case_bool_decide as Hd; [done|]. rewrite elem_of_list_to_set in Hd. done.
    - intros [? Hn]. split; [done|]. case_bool_decide as Hd; [|done]. by apply elem_of_list_to_set in Hd. }
  set (run := list_to_set (C := gset AllocId) running).
  assert (∀ aid, aid ∈ running ↔ aid ∈ run) as Hrun by (intros; subst run; by rewrite elem_of_list_to_set).
  setoid_rewrite Hrun.
  assert (∀ aid, aid ∈ expected → sec_allocs s !! aid = None) as Hfresh by (intros; by rewrite Hempty).
  assert (∀ aid, is_Some (sec_allocs s !! aid) → False) as Hnone by (intros aid; rewrite Hempty, lookup_empty; by intros []).
  cut ((∀ aid r, aid ∈ expected → aid ∈ run → info aid = Some r →
     (∃ la, sec_allocs (foldl (rehydrate run info mesh) s expected) !! aid = Some la ∧ recovered_entry r aid la) ∧
     RunStarted aid (rec_host_port r) (mesh_address mesh (rec_host_port r)) ∈ sec_reports (foldl (rehydrate run info mesh) s expected) ∧
     (∀ p, rec_host_port r = Some p → pool_start (sec_ports s) ≤ p ≤ pool_end (sec_ports s) →
        is_Some (allocated (sec_ports (foldl (rehydrate run info mesh) s expected)) !! p))) ∧
    (∀ aid, aid ∈ expected → aid ∉ run → StoppedReport aid (-1) ∈ sec_reports (foldl (rehydrate run info mesh) s expected)) ∧
    (∀ aid, is_Some (sec_allocs (foldl (rehydrate run info mesh) s expected) !! aid) →
       is_Some (sec_allocs s !! aid) ∨ aid ∈ expected ∧ aid ∈ run)).
  { intros (H1 & H2 & H3). split_and!; [done..|]. intros aid [?%Hnone|?]%H3; done. }
  clear Hempty Hnone Hrun. revert s Hfresh. induction Hnd as [|a l Ha Hl IH]; intros s Hfresh; simpl.
  { split_and!; [by intros ?? ?%elem_of_nil|by intros ? ?%elem_of_nil|]. by left. }
  pose proof (rehydrate_frame run info mesh s a) as (F1 & F2 & F3).
  pose proof (rehydrate_pool run info mesh s a) as [P1 P2].
  set (s1 := rehydrate run info mesh s a) in *.
  pose proof (reconcile_frame run info mesh l s1) as (G1 & G2 & G3).
  destruct (IH s1) as (I1 & I2 & I3).
  { intros b Hb. rewrite F1; [apply Hfresh; by right|]. intros ->. done. }
  split_and!.
  - intros aid r [->|Hin]%elem_of_cons Hr Hi.
    + destruct (rehydrate_present run info mesh s a r Hr Hi) as ((la & Hla & Hrec) & Hrep & Hport); [apply Hfresh; left|].
      fold s1 in Hla, Hrep, Hport. split_and!; [|by apply G2|intros; apply G3; by apply Hport].
      exists la. split; [|done]. by rewrite G1.
    + rewrite <-P1, <-P2. by apply I1.
  - intros aid [->|Hin]%elem_of_cons Hr; [|by apply I2]. apply G2. subst s1. unfold rehydrate.
    rewrite bool_decide_eq_false_2 by done. simpl. set_solver.
  - intros aid [Hs|[? ?]]%I3; [|right; split; [by right|done]].
    destruct (decide (aid = a)) as [->|Hne]; [|left; by rewrite <-F1].
    destruct (decide (a ∈ run)); [right; split; [left|done]|].
    left. subst s1. unfold rehydrate in Hs. rewrite bool_decide_eq_false_2 in Hs by done. done.
Qed.

(** a log buffer that was filled from empty holds the most recent ten thousand lines, and asking for
    the last [n] lines returns the most recent [n] of them, oldest first. *)
Theorem log_tail_recent lines n :
  let buf := foldl (λ b l, log_push l b) [] lines in
  buf = drop (length lines - MAX_LINES) lines ∧
  log_tail n buf = drop (length lines - Nat.min n MAX_LINES) lines.
Proof.
  intros buf. assert (buf = drop (length lines - MAX_LINES) lines) as Hbuf.
  { subst buf. induction lines as [|x lines IH] using rev_ind; [done|].
    rewrite foldl_app, IH. cbn [foldl]. unfold log_push. rewrite length_drop, length_app. simpl.
    assert (1 ≤ MAX_LINES)%nat as Hmax by (unfold MAX_LINES; lia). revert Hmax. generalize MAX_LINES. intros k Hk.
    case_decide.
    - rewrite tail_of_drop, drop_app_le by lia. do 2 f_equal. lia.
    - rewrite drop_app_le by lia. do 2 f_equal. lia. }
  split; [done|]. rewrite Hbuf. unfold log_tail. rewrite firstn_rev, rev_involutive, drop_drop, length_drop.
  f_equal. lia.
Qed.

(** * Witnesses *)

Definition sample_pool : PortPool := with_range (mkHostTables None None None) 50000 50003.
Definition sample_spec (name : string) : ContainerSpec :=
  mkContainerSpec (mkAllocId name) KService None None "img" ∅ (Some 80) None f64_zero 0 [].
Definition sample_sec : Sec := mkSec sample_pool ∅ ∅ [] [].
Definition sample_recovered : RecoveredContainer := mkRecovered KService None None (Some 50002) f64_zero 0 "img" [].
Definition sample_info (aid : AllocId) : option RecoveredContainer := Some sample_recovered.

(** Two allocations run side by side, then the first one exits. *)
Lemma ports_exclusive_without_stop_witness : ∃ n, ports_exclusive (n_sec n) ∧ size (sec_allocs (n_sec n)) = 2%nat.
Proof.
  eexists. split.
  - apply (ports_exclusive_without_stop None sample_pool); [apply with_range_wf|].
    eapply rtc_l; [apply (step_run_begin None _ (mkAllocId "a") (sample_spec "a")); vm_compute; reflexivity|].
    eapply rtc_l; [apply step_pull_ok|].
    eapply rtc_l; [eapply step_port; vm_compute; reflexivity|].
    eapply rtc_l; [apply step_start_ok|].
    eapply rtc_l; [apply (step_run_begin None _ (mkAllocId "b") (sample_spec "b")); vm_compute; reflexivity|].
    eapply rtc_l; [apply step_pull_ok|].
    eapply rtc_l; [eapply step_port; vm_compute; reflexivity|].
    eapply rtc_l; [apply step_start_ok|].
    eapply rtc_l; [apply (step_waiter_mark None _ _ [] [mkWaiter (mkAllocId "b") (Some 50001) Waiting] (mkAllocId "a") (Some 50000) 0);
                   vm_compute; reflexivity|].
    apply rtc_refl.
  - vm_compute. reflexivity.
Defined.

Definition start_run (o : RunOutcome) : result unit NodeError * Sec :=
  run_container o (mkAllocId "a") (sample_spec "a") None sample_sec.

(** A start that succeeds, and one that fails after a port was taken. *)
Lemma run_container_outcome_witness :
  (∃ la, sec_allocs (start_run (mkRunOutcome (Ok true) (Ok tt) (Ok tt))).2 !! mkAllocId "a" = Some la ∧ la_status la = Running) ∧
  sec_ports (start_run (mkRunOutcome (Ok true) (Ok tt) (Err "no"))).2 = sample_pool.
Proof.
  split.
  - pose proof (run_container_outcome (mkRunOutcome (Ok true) (Ok tt) (Ok tt)) (mkAllocId "a") (sample_spec "a") None sample_sec
                _ _ (with_range_wf _ _ _) (surjective_pairing _)) as H.
    assert ((start_run (mkRunOutcome (Ok true) (Ok tt) (Ok tt))).1 = Ok tt) as E by (vm_compute; reflexivity).
    unfold start_run in *. rewrite E in H. destruct H as (la & port & H1 & H2 & _). exists la. split; [exact H1|exact H2].
  - pose proof (run_container_outcome (mkRunOutcome (Ok true) (Ok tt) (Err "no")) (mkAllocId "a") (sample_spec "a") None sample_sec
                _ _ (with_range_wf _ _ _) (surjective_pairing _)) as H.
    assert ((start_run (mkRunOutcome (Ok true) (Ok tt) (Err "no"))).1 = Err (ContainerdErr "no")) as E by (vm_compute; reflexivity).
    unfold start_run in *. rewrite E in H. destruct H as (_ & H & _). exact H.
Defined.

Lemma reconcile_recovers_witness :
  ∃ orphans s, reconcile (Ok [mkAllocId "a"; mkAllocId "x"]) sample_info [mkAllocId "a"; mkAllocId "b"] None sample_sec = (orphans, s) ∧
  mkAllocId "x" ∈ orphans ∧ is_Some (allocated (sec_ports s) !! 50002) ∧ StoppedReport (mkAllocId "b") (-1) ∈ sec_reports s.
Proof.
  eexists _, _. split; [apply surjective_pairing|].
  assert (NoDup [mkAllocId "a"; mkAllocId "b"]) as Hnd by (apply (bool_decide_unpack _); vm_compute; constructor).
  destruct (reconcile_recovers [mkAllocId "a"; mkAllocId "x"] sample_info [mkAllocId "a"; mkAllocId "b"] None sample_sec
              _ _ Hnd eq_refl (surjective_pairing _)) as (H1 & H2 & H3 & _).
  split; [|split].
  - apply H1. split; [right; left|]. apply (bool_decide_unpack _). vm_compute. constructor.
  - destruct (H2 (mkAllocId "a") sample_recovered) as (_ & _ & H); [left|left|reflexivity|].
    apply H; [reflexivity|]. vm_compute. split; discriminate.
  - apply H3; [right; left|]. apply (bool_decide_unpack _). vm_compute. constructor.
Defined.
