(* ===== verification/Oci.v ===== *)
(** What a container is made of ([src/crates/containerd/src]): the OCI runtime spec ([spec.rs]), the labels that survive
    a restart of the node ([spec.rs], [lib.rs]), the image's configuration ([image.rs]) and the usage figures
    ([stats.rs]), with the paths of the data directory ([src/crates/config/src/types/data_dir.rs]). serde_json, SHA-256
    and the protobuf decoders are parameters. The theorems show which environment a container gets, that what is
    recovered from the labels is what they were made from, with the timeout cut to whole seconds, and how layers,
    platforms and usage are read. *)

From Stdlib Require Import Ascii.
From S2P Require Import Prelude Types Env Rpc World Ports Secondary.
Local Open Scope Z_scope.

(** * Errors (error.rs) *)

(** The status codes the code tells apart. *)
Inductive Code := CodeNotFound | CodeAlreadyExists | CodeOther (msg : string).
Inductive ContainerdError :=
| Grpc (c : Code)
| ImagePull (image reason : string)
| CNotFound (id : string)
| CAlreadyExists (id : string)
| SpecBuild (e : string)
| LogIo (e : string)
| MetricsDecode (e : string).

(** * Paths (data_dir.rs) *)

(** [Path::join]: an absolute path replaces the base. *)
Definition path_join (base p : string) : string :=
  if starts_with "/" p then p
  else if ends_with "/" base || str_is_empty base then (base +:+ p)%string
  else (base +:+ "/" +:+ p)%string.
Definition raft_dir (root : string) : string := path_join root "raft".
Definition wireguard_dir (root : string) : string := path_join root "wireguard".
Definition logs_dir (root : string) : string := path_join root "logs".
Definition volumes_dir (root : string) : string := path_join root "volumes".
Definition ephemeral_dir (root : string) : string := path_join root "ephemeral".
Definition certs_dir (root : string) : string := path_join root "certs".
Definition node_json_path (root : string) : string := path_join root "node.json".
Definition pid_path (root : string) : string := path_join root "mill.pid".

(** * JSON values (serde_json::Value) *)

Inductive JV :=
| VNull
| VBool (b : bool)
| VNum (z : Z)
| VFloat (x : f64)
| VStr (s : string)
| VArr (l : list JV)
| VObj (l : list (string * JV)).
(** [Value::get(key)] and [value[key]]. *)
Definition jget (k : string) (v : JV) : option JV :=
  match v with
  | VObj l => snd <$> find_first (λ '(k', _), bool_decide (k' = k)) l
  | _ => None
  end.
Definition jindex (k : string) (v : JV) : JV := default VNull (jget k v).
Definition as_str (v : JV) : option string := match v with VStr s => Some s | _ => None end.
Definition as_f64 (v : JV) : option f64 := match v with VNum z => Some (f64_of_Z z) | VFloat x => Some x | _ => None end.
Definition as_array (v : JV) : option (list JV) := match v with VArr l => Some l | _ => None end.
(** [v.as_array().map(strings).unwrap_or_default()]. *)
Definition str_array (v : JV) : list string := default [] (filter_map as_str <$> as_array v).

(** * The image's configuration (image.rs) *)

Record ImageInfo := mkImageInfo {
  chain_id : string;
  default_command : list string;
  default_env : list string;
}.
(** [current_oci_arch]. *)
Definition current_oci_arch (arch : string) : string :=
  if bool_decide (arch = "x86_64") then "amd64" else if bool_decide (arch = "aarch64") then "arm64" else arch.

Section image.
(** serde_json's parser, SHA-256 in hexadecimal, the architecture, and containerd's stores: the digest an image points
    to, if it has a record and a target, and the bytes of a digest. *)
Context (json : string → result JV string) (sha256 : string → string) (arch : string).
Context (image_get : string → result (option (option string)) Code) (read_content : string → result string Code).

Definition is_linux (arch : string) (m : JV) : bool :=
  let plat := jget "platform" m in
  bool_decide (((plat ≫= jget "os") ≫= as_str) = Some "linux"%string) &&
  bool_decide (((plat ≫= jget "architecture") ≫= as_str) = Some arch).
Definition platform_digest (arch : string) (index : JV) : option string :=
  m ← find_first (is_linux arch) (default [] (as_array (jindex "manifests" index)));
  as_str (jindex "digest" m).
Fixpoint chain_from (chain : string) (ids : list string) : string :=
  match ids with
  | [] => chain
  | d :: ids => chain_from ("sha256:" +:+ sha256 (chain +:+ " " +:+ d))%string ids
  end.

Definition grpc {A} (r : result A Code) : result A ContainerdError :=
  match r with Ok a => Ok a | Err c => Err (Grpc c) end.
Definition pull_err {A} (image reason : string) (o : option A) : result A ContainerdError :=
  match o with Some a => Ok a | None => Err (ImagePull image reason) end.
Definition parse_json (image what text : string) : result JV ContainerdError :=
  match json text with
  | Ok v => Ok v
  | Err e => Err (ImagePull image ("invalid " +:+ what +:+ " JSON: " +:+ e)%string)
  end.

Definition image_info (image : string) : result ImageInfo ContainerdError :=
  result_bind (grpc (image_get image)) (λ img,
  result_bind (pull_err image "image record missing" img) (λ target,
  result_bind (pull_err image "image has no manifest target" target) (λ top_digest,
  result_bind (grpc (read_content top_digest)) (λ bytes,
  result_bind (parse_json image "manifest" bytes) (λ manifest,
  result_bind
    (match jget "manifests" manifest with
     | None => Ok manifest
     | Some _ =>
         result_bind (pull_err image ("no linux/" +:+ current_oci_arch arch +:+ " manifest found in image index")%string
                        (platform_digest (current_oci_arch arch) manifest)) (λ digest,
         result_bind (grpc (read_content digest)) (λ bytes, parse_json image "platform manifest" bytes))
     end) (λ manifest,
  result_bind (pull_err image "manifest missing config.digest" (as_str (jindex "digest" (jindex "config" manifest)))) (λ config_digest,
  result_bind (grpc (read_content config_digest)) (λ bytes,
  result_bind (parse_json image "image config" bytes) (λ config,
  result_bind (pull_err image "image config missing rootfs.diff_ids" (as_array (jindex "diff_ids" (jindex "rootfs" config)))) (λ ids,
  match filter_map as_str ids with
  | [] => Err (ImagePull image "image has no layers")
  | d :: ids =>
      let img_config := jindex "config" config in
      Ok (mkImageInfo (chain_from d ids) (str_array (jindex "Entrypoint" img_config) ++ str_array (jindex "Cmd" img_config))
            (str_array (jindex "Env" img_config)))
  end)))))))))).
End image.

(** * The runtime spec (spec.rs) *)

Record Mount := mkMount {
  mt_destination : string;
  mt_source : option string;
  mt_type : option string;
  mt_options : list string;
}.
Inductive Namespace := NsPid | NsIpc | NsUts | NsMount | NsNetwork.
Record OciSpec := mkOciSpec {
  oci_version : string;
  oci_args : list string;
  oci_env : list string;
  oci_cwd : string;
  oci_root_path : string;
  oci_readonly : bool;
  oci_cpu_quota : Z;
  oci_cpu_period : Z;
  oci_memory_limit : Z;
  oci_memory_swap : Z;
  oci_namespaces : option (list (Namespace * option string));
  oci_mounts : list Mount;
}.

(** [x as i64] for a float (towards zero, saturating, NaN is zero) and for a [u64]. *)
Definition i64_max : Z := 2 ^ 63 - 1.
Definition i64_min : Z := - 2 ^ 63.
Definition f64_as_i64 (x : f64) : Z :=
  match x with
  | S754_zero _ | S754_nan => 0
  | S754_infinity s => if s then i64_min else i64_max
  | S754_finite s m e =>
      let a := if 0 <=? e then Z.pos m * 2 ^ e else Z.pos m / 2 ^ (- e) in
      if s then Z.max i64_min (- a) else Z.min i64_max a
  end.
Definition u64_as_i64 (z : Z) : Z := if z <=? i64_max then z else z - 2 ^ 64.
Definition f64_mul : f64 → f64 → f64 := SFmul 53 1024.

(** [str::split_once] on a character. *)
Fixpoint split_once (c : ascii) (s : string) : option (string * string) :=
  match s with
  | EmptyString => None
  | String a s => if decide (a = c) then Some (EmptyString, s) else '(k, v) ← split_once c s; Some (String a k, v)
  end.

Definition volume_host_path (root : string) (vol : ContainerVolume) : string :=
  path_join (if cv_ephemeral vol then ephemeral_dir root else volumes_dir root) (cv_name vol).
Definition build_volume_mount (root : string) (vol : ContainerVolume) : Mount :=
  mkMount (cv_path vol) (Some (volume_host_path root vol)) (Some "bind"%string) ["rbind"; "rw"]%string.
Definition is_cgroup_v1 (m : Mount) : bool :=
  bool_decide (mt_destination m = "/sys/fs/cgroup"%string) && bool_decide (mt_type m = Some "cgroup"%string).

(** The environment: the image's, then the spec's over it. *)
Definition image_env (entries : list string) : gmap string string :=
  foldl (λ m e, match split_once "=" e with Some (k, v) => <[k := v]> m | None => m end) ∅ entries.
Definition merged_env `{HashIter} (spec_env : gmap string string) (entries : list string) : gmap string string :=
  foldl (λ m '(k, v), <[k := v]> m) (image_env entries) (hm_iter spec_env).

Definition netns_namespaces (path : string) : list (Namespace * option string) :=
  [(NsPid, None); (NsIpc, None); (NsUts, None); (NsMount, None); (NsNetwork, Some path)].

Section oci.
(** oci-spec's default mounts; its builders fail only when a field is missing, and none is. *)
Context `{HI : HashIter} (default_mounts : list Mount) (vars : gmap string string).

Definition build_oci_spec (root : string) (spec : ContainerSpec) (defaults : ImageInfo) : OciSpec :=
  let env := (λ '(k, v), k +:+ "=" +:+ v)%string <$> hm_iter (merged_env (spec_env spec) (default_env defaults)) in
  let args := match spec_command spec with Some cmd => cmd | None => default_command defaults end in
  let memory_limit := u64_as_i64 (spec_memory spec) in
  mkOciSpec "1.1.0" args env "/" "rootfs" false
    (f64_as_i64 (f64_mul (spec_cpu spec) (f64_of_Z 100000))) 100000 memory_limit memory_limit
    (netns_namespaces <$> vars !! "MILL_NETNS_PATH"%string)
    (filterb (λ m, negb (is_cgroup_v1 m)) default_mounts ++ (build_volume_mount root <$> spec_volumes spec)).
End oci.

(** * Labels (spec.rs) and recovery (lib.rs) *)

Definition show_kind (k : AllocKind) : string := match k with KService => "service" | KTask => "task" end.
Definition parse_u16 (s : string) : option Z := z ← parse_u64 s; if z <=? u16_max then Some z else None.

Section labels.
(** serde_json on volumes and commands, and the standard library's printing and reading of floats. *)
Context (volumes_json : list ContainerVolume → result string string) (volumes_from : string → option (list ContainerVolume)).
Context (command_json : list string → result string string) (command_from : string → option (list string)).
Context (show_f64 : f64 → string) (parse_f64 : string → option f64).

Definition label_json {A} (k : string) (json : A → result string string) (a : A) (m : gmap string string) : gmap string string :=
  match json a with Ok s => <[k := s]> m | Err _ => m end.
Definition build_labels (spec : ContainerSpec) : gmap string string :=
  let m := <["mill.alloc-id" := alloc_id_0 (spec_alloc_id spec)]> (<["mill.managed" := "true"]> ∅) in
  let m := match spec_host_port spec with Some port => <["mill.host-port" := pretty port]> m | None => m end in
  let m := <["mill.memory" := pretty (spec_memory spec)]> (<["mill.cpu" := show_f64 (spec_cpu spec)]> m) in
  let m := match spec_volumes spec with [] => m | l => label_json "mill.volumes" volumes_json l m end in
  let m := <["mill.kind" := show_kind (spec_kind spec)]> m in
  let m := match spec_timeout spec with Some t => <["mill.timeout" := pretty (t / 1000000000)]> m | None => m end in
  match spec_command spec with Some cmd => label_json "mill.command" command_json cmd m | None => m end%string.

(** [recover_info] on a container's labels and image. *)
Definition recover_info (labels : gmap string string) (image : string) : RecoveredContainer :=
  mkRecovered
    (match labels !! "mill.kind" with Some s => if bool_decide (s = "task") then KTask else KService | None => KService end)
    (secs <$> (labels !! "mill.timeout" ≫= parse_u64))
    (labels !! "mill.command" ≫= command_from)
    (labels !! "mill.host-port" ≫= parse_u16)
    (default f64_zero (labels !! "mill.cpu" ≫= parse_f64))
    (default 0 (labels !! "mill.memory" ≫= parse_u64))
    image
    (default [] (labels !! "mill.volumes" ≫= volumes_from))%string.
End labels.

(** * Usage (stats.rs, cgroups.rs) *)

Record CgroupMetrics := mkCgroupMetrics {
  cg_cpu : option (Z * Z);
  cg_memory : option Z;
}.
Record Metric := mkMetric {
  me_id : string;
  me_data : option string;
}.
(** [container_id] (container.rs). *)
Definition container_id (aid : AllocId) : string := ("mill-" +:+ alloc_id_0 aid)%string.

Section stats.
(** prost's decoder of the metrics message, and containerd's answer. *)
Context (decode_cgroups : string → result CgroupMetrics string).

Definition decode_metric (aid : AllocId) (m : Metric) : result ContainerStats ContainerdError :=
  match me_data m with
  | None => Err (MetricsDecode "missing metric data")
  | Some data =>
      match decode_cgroups data with
      | Err e => Err (MetricsDecode ("failed to decode cgroups: " +:+ e)%string)
      | Ok cg =>
          let cpu := match cg_cpu cg with
                     | Some (user, system) => f64_div (f64_of_Z (u64_add user system)) (f64_of_Z 1000000)
                     | None => f64_zero
                     end in
          Ok (mkContainerStats aid cpu (default 0 (cg_memory cg)))
      end
  end.
Definition collect (answer : result (list Metric) Code) (aid : AllocId) : result ContainerStats ContainerdError :=
  match answer with
  | Err c => Err (Grpc c)
  | Ok metrics =>
      match find_first (λ m, bool_decide (me_id m = container_id aid)) metrics with
      | None => Err (CNotFound (alloc_id_0 aid))
      | Some m => decode_metric aid m
      end
  end.
Definition collect_all (answer : result (list Metric) Code) : result (list ContainerStats) ContainerdError :=
  match answer with
  | Err c => Err (Grpc c)
  | Ok metrics =>
      Ok (filter_map (λ m, match strip_prefix "mill-" (me_id m) with
                           | Some id => match decode_metric (mkAllocId id) m with Ok s => Some s | Err _ => None end
                           | None => None
                           end) metrics)
  end.

(** The usage of one container is one of those collected for all. *)
Lemma collect_in_all answer aid s :
  collect answer aid = Ok s → ∃ l, collect_all answer = Ok l ∧ s ∈ l ∧ cs_alloc_id s = aid.
Proof.
  unfold collect, collect_all. destruct answer as [ms|]; [|done]. destruct (find_first _ ms) as [m|] eqn:E; [|done].
  intros Hs. apply find_first_Some in E as [Hin Hid%bool_decide_eq_true]. eexists. split; [done|]. split.
  - apply elem_of_filter_map. exists m. split; [done|]. rewrite Hid. unfold container_id. rewrite (proj2 (strip_prefix_Some _ _ _) eq_refl).
    destruct aid. simpl in *. by rewrite Hs.
  - unfold decode_metric in Hs. destruct (me_data m); [|done]. destruct (decode_cgroups s0); by simplify_eq.
Qed.
End stats.

(** * Theorems *)

(** ** The environment of a container *)

Lemma merged_env_union `{HI : HashIter} env entries : merged_env env entries = env ∪ image_env entries.
Proof. apply foldl_insert_iter. Qed.

(** A container's environment has one entry per variable: the spec's value where it sets the variable, else the
    image's, of whose entries the last one counts and those without an equals sign do not. *)
Theorem container_env `{HI : HashIter} mounts vars root spec info :
  let env := oci_env (build_oci_spec mounts vars root spec info) in
  (∃ kvs, env = (λ '(k, v), k +:+ "=" +:+ v)%string <$> kvs ∧ NoDup kvs.*1 ∧
     ∀ k v, (k, v) ∈ kvs ↔ spec_env spec !! k = Some v ∨ (spec_env spec !! k = None ∧ image_env (default_env info) !! k = Some v)) ∧
  (∀ entries e k, image_env (entries ++ [e]) !! k =
     match split_once "=" e with
     | Some (k', v) => if decide (k' = k) then Some v else image_env entries !! k
     | None => image_env entries !! k
     end).
Proof.
  split.
  - exists (hm_iter (merged_env (spec_env spec) (default_env info))). split_and!; [done|apply NoDup_hm_keys|].
    intros k v. by rewrite elem_of_hm_iter, merged_env_union, lookup_union_Some_raw.
  - intros entries e k. unfold image_env. rewrite foldl_app. simpl. destruct (split_once "=" e) as [[k' v]|]; [|done].
    case_decide as Hk; [subst; by rewrite lookup_insert_eq|by rewrite lookup_insert_ne].
Qed.

(** ** Volumes *)

Lemma path_join_plain base p :
  starts_with "/" p = false → ends_with "/" base = false → str_is_empty base = false → path_join base p = (base +:+ "/" +:+ p)%string.
Proof. intros H1 H2 H3. unfold path_join. by rewrite H1, H2, H3. Qed.
(** A directory of the data directory does not end in a slash. *)
Lemma subdir_ends root c d : c ≠ "/"%char → ends_with "/" (root +:+ "/" +:+ d +:+ String c "") = false.
Proof.
  intros Hc. unfold ends_with, strip_suffix. rewrite !str_rev_app. simpl.
  rewrite decide_False by congruence. done.
Qed.

(** A volume is mounted from its place in the data directory, persistent and ephemeral ones apart; but a volume whose
    name is an absolute path, which a configuration may contain, is mounted from that path of the host. *)
Theorem volume_host_path_cases root vol :
  str_is_empty root = false → ends_with "/" root = false →
  volume_host_path root vol =
    (if starts_with "/" (cv_name vol) then cv_name vol
     else root +:+ (if cv_ephemeral vol then "/ephemeral/" else "/volumes/") +:+ cv_name vol)%string.
Proof.
  intros Hne Hend. unfold volume_host_path, ephemeral_dir, volumes_dir. rewrite !(path_join_plain root) by done.
  destruct (starts_with "/" (cv_name vol)) eqn:Hn; [unfold path_join; by rewrite Hn|].
  destruct root as [|c root]; [done|]. destruct (cv_ephemeral vol).
  - rewrite path_join_plain; [by rewrite str_app_assoc|done|by apply (subdir_ends _ "l" "ephemera")|done].
  - rewrite path_join_plain; [by rewrite str_app_assoc|done|by apply (subdir_ends _ "s" "volume")|done].
Qed.

(** ** Labels *)

Section labels_theorems.
Context (volumes_json : list ContainerVolume → result string string) (volumes_from : string → option (list ContainerVolume)).
Context (command_json : list string → result string string) (command_from : string → option (list string)).
Context (show_f64 : f64 → string) (parse_f64 : string → option f64).

Lemma parse_u16_pretty z : 0 ≤ z ≤ u16_max → parse_u16 (pretty z) = Some z.
Proof.
  intros Hz. unfold parse_u16. rewrite parse_u64_pretty by (unfold u16_max, u64_max in *; lia). simpl.
  by rewrite (proj2 (Z.leb_le _ _)) by lia.
Qed.

(** C39: Everything a node recovers about a container from its labels is what the container was started with, except
    that a timeout is cut to whole seconds. *)
Theorem labels_round_trip spec :
  (∃ s, volumes_json (spec_volumes spec) = Ok s ∧ volumes_from s = Some (spec_volumes spec)) →
  (∀ c, spec_command spec = Some c → ∃ s, command_json c = Ok s ∧ command_from s = Some c) →
  parse_f64 (show_f64 (spec_cpu spec)) = Some (spec_cpu spec) →
  0 ≤ spec_memory spec ≤ u64_max →
  (∀ p, spec_host_port spec = Some p → 0 ≤ p ≤ u16_max) →
  (∀ t, spec_timeout spec = Some t → 0 ≤ t / 1000000000 ≤ u64_max) →
  recover_info volumes_from command_from parse_f64 (build_labels volumes_json command_json show_f64 spec) (spec_image spec) =
  mkRecovered (spec_kind spec) ((λ t, t / 1000000000 * 1000000000) <$> spec_timeout spec) (spec_command spec)
    (spec_host_port spec) (spec_cpu spec) (spec_memory spec) (spec_image spec) (spec_volumes spec).
Proof.
  intros (vs & Hvs1 & Hvs2) Hc Hcpu Hmem Hport Htime. unfold recover_info, build_labels.
  destruct (spec_host_port spec) as [p|], (spec_timeout spec) as [t|], (spec_command spec) as [c|], (spec_volumes spec) as [|v vs'].
  all: try destruct (Hc _ eq_refl) as (cs & Hcs1 & Hcs2).
  all: unfold label_json; rewrite ?Hvs1, ?Hcs1; simplify_map_eq; rewrite ?Hvs2, ?Hcs2, ?Hcpu; simpl;
    rewrite ?parse_u64_pretty, ?parse_u16_pretty by auto; simpl.
  all: f_equal; by destruct (spec_kind spec).
Qed.
End labels_theorems.

(** ** Images *)

Lemma find_first_split {A} (p : A → bool) l x :
  find_first p l = Some x → ∃ l1 l2, l = l1 ++ x :: l2 ∧ p x = true ∧ Forall (λ y, p y = false) l1.
Proof.
  induction l as [|y l IH]; simpl; [done|]. destruct (p y) eqn:E; intros H.
  - simplify_eq. by exists [], l.
  - destruct (IH H) as (l1 & l2 & -> & ? & ?). exists (y :: l1), l2. split_and!; [done..|by constructor].
Qed.

(** Of an image for several platforms, the layers of the first manifest for linux and this machine's architecture
    are used: what [image_info] returns is read from the configuration that manifest points to, and the chain
    identifier of its layers is computed by the rule of the image specification. *)
Theorem image_layers json sha256 arch image_get read_content image info :
  image_info json sha256 arch image_get read_content image = Ok info →
  ∃ manifest bytes config d ids,
    (∃ digest text top, image_get image = Ok (Some (Some digest)) ∧ read_content digest = Ok text ∧ json text = Ok top ∧
       match jget "manifests" top with
       | None => manifest = top
       | Some _ => ∃ m l1 l2 pd ptext, as_array (jindex "manifests" top) = Some (l1 ++ m :: l2) ∧ is_linux (current_oci_arch arch) m = true ∧
           Forall (λ m', is_linux (current_oci_arch arch) m' = false) l1 ∧
           as_str (jindex "digest" m) = Some pd ∧ read_content pd = Ok ptext ∧ json ptext = Ok manifest
       end) ∧
    (∃ cd, as_str (jindex "digest" (jindex "config" manifest)) = Some cd ∧ read_content cd = Ok bytes) ∧
    json bytes = Ok config ∧
    filter_map as_str <$> as_array (jindex "diff_ids" (jindex "rootfs" config)) = Some (d :: ids) ∧
    chain_id info = chain_from sha256 d ids ∧
    default_command info = str_array (jindex "Entrypoint" (jindex "config" config)) ++ str_array (jindex "Cmd" (jindex "config" config)).
Proof.
  unfold image_info, grpc, pull_err, parse_json.
  destruct (image_get image) as [[[digest|]|]|] eqn:E1; simpl; try done.
  destruct (read_content digest) as [text|] eqn:E2; simpl; [|done]. destruct (json text) as [top|] eqn:E3; simpl; [|done].
  destruct (match jget "manifests" top with None => _ | Some _ => _ end) as [manifest|] eqn:E4; simpl; [|done].
  destruct (as_str (jindex "digest" (jindex "config" manifest))) as [cd|] eqn:E5; simpl; [|done].
  destruct (read_content cd) as [bytes|] eqn:E6; simpl; [|done]. destruct (json bytes) as [config|] eqn:E7; simpl; [|done].
  destruct (as_array (jindex "diff_ids" _)) as [l|] eqn:E8; simpl; [|done].
  destruct (filter_map as_str l) as [|d ids] eqn:E9; [done|]. intros [= <-].
  exists manifest, bytes, config, d, ids. split_and!; [|by eauto|done|by rewrite E8; simpl; rewrite E9|done|done].
  exists digest, text, top. split_and!; [done..|]. destruct (jget "manifests" top) as [ms|] eqn:E10; [|by simplify_eq].
  destruct (platform_digest _ top) as [pd|] eqn:E11; simpl in E4; [|done].
  destruct (read_content pd) as [ptext|] eqn:E12; simpl in E4; [|done]. destruct (json ptext) eqn:E13; simplify_eq.
  unfold platform_digest in E11. apply bind_Some in E11 as (m & Hm & Hd). apply find_first_split in Hm as (l1 & l2 & Heq & Hl & Hf).
  exists m, l1, l2, pd, ptext. split_and!; try done. unfold jindex in *. rewrite E10 in *. simpl in *.
  destruct (as_array ms) as [l0|]; simpl in *; [by subst|]. by destruct l1.
Qed.

(** * Witnesses *)

Module OciExamples.
Definition ex_volumes_json (l : list ContainerVolume) : result string string := Ok ""%string.
Definition ex_volumes_from (s : string) : option (list ContainerVolume) := Some [].
Definition ex_f64 (x : f64) : string := "1.5".
Definition ex_spec : ContainerSpec :=
  mkContainerSpec (mkAllocId "web-1") KTask (Some 1500000000) (Some ["run"%string]) "nginx" ∅ (Some 80) (Some 50000) (f64_of_Z 1) (2 ^ 28) [].
Definition ex_config : JV :=
  VObj [("rootfs", VObj [("diff_ids", VArr [VStr "sha256:a"; VStr "sha256:b"])]); ("config", VObj [("Cmd", VArr [VStr "nginx"])])]%string.
Definition ex_json (s : string) : result JV string :=
  if bool_decide (s = "index") then
    Ok (VObj [("manifests", VArr [VObj [("platform", VObj [("os", VStr "linux"); ("architecture", VStr "arm64")]); ("digest", VStr "arm")];
                                  VObj [("platform", VObj [("os", VStr "linux"); ("architecture", VStr "amd64")]); ("digest", VStr "amd")]])])
  else if bool_decide (s = "amd") then Ok (VObj [("config", VObj [("digest", VStr "cfg")])])
  else Ok ex_config.
End OciExamples.
Import OciExamples.

Lemma volume_host_path_cases_witness :
  volume_host_path "/var/lib/mill" (mkContainerVolume "/etc" "/data" true) = "/etc"%string ∧
  volume_host_path "/var/lib/mill" (mkContainerVolume "db" "/data" false) = "/var/lib/mill/volumes/db"%string.
Proof.
  split; [rewrite (volume_host_path_cases "/var/lib/mill" (mkContainerVolume "/etc" "/data" true))|
          rewrite (volume_host_path_cases "/var/lib/mill" (mkContainerVolume "db" "/data" false))]; vm_compute; reflexivity.
Defined.

(** One and a half seconds become one. *)
Lemma labels_round_trip_witness :
  rec_timeout (recover_info ex_volumes_from (λ _, Some ["run"%string]) (λ _, Some (f64_of_Z 1))
    (build_labels ex_volumes_json (λ _, Ok "[]"%string) ex_f64 ex_spec) (spec_image ex_spec)) = Some 1000000000.
Proof.
  rewrite (labels_round_trip ex_volumes_json ex_volumes_from (λ _, Ok "[]"%string) (λ _, Some ["run"%string]) ex_f64 (λ _, Some (f64_of_Z 1)) ex_spec);
    [reflexivity|..].
  - exists ""%string. split; reflexivity.
  - intros c [= <-]. exists "[]"%string. split; reflexivity.
  - reflexivity.
  - split; vm_compute; discriminate.
  - intros p [= <-]. split; vm_compute; discriminate.
  - intros t [= <-]. split; vm_compute; discriminate.
Defined.

Lemma image_layers_witness :
  ∃ info, image_info ex_json (λ s, s) "x86_64" (λ _, Ok (Some (Some "index"%string))) Ok "nginx" = Ok info ∧
    chain_id info = "sha256:sha256:a sha256:b"%string.
Proof.
  destruct (image_info ex_json (λ s, s) "x86_64" (λ _, Ok (Some (Some "index"%string))) Ok "nginx") as [info|] eqn:E; [|vm_compute in E; discriminate].
  exists info. split; [reflexivity|].
  destruct (image_layers _ _ _ _ _ _ _ E) as (manifest & bytes & config & d & ids & _ & _ & _ & _ & Hc & _).
  vm_compute in E. injection E as <-. reflexivity.
Defined.
