(* ===== verification/Wire.v ===== *)
(** The JSON values that serde's derived code writes and reads for the messages between the primary and its nodes
    ([src/crates/node/src/rpc/protocol.rs]) and for the types inside them ([src/crates/config/src/types/{runtime,interface,bytesize_serde}.rs],
    [src/crates/containerd/src/logs.rs]), and the printing of a container's spec for diagnostics ([interface.rs]). A type's codec is an instance of
    one interface, with the values it keeps and the law that it gives them back; the codecs of the messages are built from those of
    their parts. The text of a JSON value is a parameter. The theorems show that commands and reports cross a connection unchanged,
    that a spec with a non-finite CPU share does not, and that the printed form of a spec depends on no value of its environment. *)

From S2P Require Import Prelude Types Addr Rpc Oci.
Local Open Scope Z_scope.

(** * Codecs *)

(** What a type's derived code does, the values that it keeps, and that it keeps them. *)
Class JsonCodec (A : Type) := {
  to_jv : A → JV;
  of_jv : JV → option A;
  jv_ok : A → Prop;
  of_to : ∀ a, jv_ok a → of_jv (to_jv a) = Some a;
}.

(** ** Objects *)

(** A field of an object: its value, if it is there; an error if the object has it twice or the value is no object. serde also
    accepts an array of the fields in order, which nothing writes; the model refuses it. *)
Definition field (k : string) (v : JV) : option (option JV) :=
  match v with
  | VObj l =>
      match filterb (λ '(n, _), bool_decide (n = k)) l with
      | [] => Some None
      | [(_, x)] => Some (Some x)
      | _ => None
      end
  | _ => None
  end.
(** A field that must be there, and one of an optional type, for which a missing field and [null] are [None]. *)
Definition required {A} (dec : JV → option A) (k : string) (v : JV) : option A := x ← field k v; y ← x; dec y.
Definition dec_opt {A} (dec : JV → option A) (x : JV) : option (option A) := match x with VNull => Some None | _ => Some <$> dec x end.
Definition optional {A} (dec : JV → option A) (k : string) (v : JV) : option (option A) :=
  x ← field k v; match x with None => Some None | Some x => dec_opt dec x end.
(** A field with [#[serde(default)]]. *)
Definition defaulted {A} (d : A) (dec : JV → option A) (k : string) (v : JV) : option A :=
  match field k v with None => None | Some None => Some d | Some (Some x) => dec x end.
Definition enc_opt {A} (enc : A → JV) (o : option A) : JV := from_option enc VNull o.

Lemma field_skip k n x l : n ≠ k → field k (VObj ((n, x) :: l)) = field k (VObj l).
Proof. intros Hn. unfold field. cbn [filterb]. by rewrite bool_decide_false. Qed.
Lemma field_none k : field k (VObj []) = Some None.
Proof. done. Qed.
Lemma field_here k x l : field k (VObj l) = Some None → field k (VObj ((k, x) :: l)) = Some (Some x).
Proof.
  unfold field. cbn [filterb]. rewrite bool_decide_true by done. by destruct (filterb _ l) as [|[] []].
Qed.
(** Look up every field of an object that is written out. *)
Ltac fields := repeat first [rewrite field_skip by discriminate | rewrite field_here by (repeat rewrite field_skip by discriminate; exact (field_none _)) | rewrite field_none].
(** Reading an object that was just written: look up its fields and read each value back. *)
Ltac read_back := unfold required, optional, defaulted; fields; cbn [mbind option_bind].

(** ** Plain values *)

Definition dec_uint (max : Z) (v : JV) : option Z := match v with VNum z => if (0 <=? z) && (z <=? max) then Some z else None | _ => None end.
Definition dec_i32 (v : JV) : option Z := match v with VNum z => if (- 2 ^ 31 <=? z) && (z <? 2 ^ 31) then Some z else None | _ => None end.
Definition dec_bool (v : JV) : option bool := match v with VBool b => Some b | _ => None end.
(** A float that is not finite is written as [null]; a whole number is read as one. *)
Definition is_finite (x : f64) : bool := match x with S754_zero _ | S754_finite _ _ _ => true | _ => false end.
Definition enc_f64 (x : f64) : JV := if is_finite x then VFloat x else VNull.
Definition dec_f64 (v : JV) : option f64 := as_f64 v.
(** Addresses are written as text. *)
Definition dec_ip (v : JV) : option IpAddr := s ← as_str v; parse_ip s.
Definition dec_sock (v : JV) : option SocketAddr := s ← as_str v; parse_sock s.
Definition dec_list {A} (dec : JV → option A) (v : JV) : option (list A) := l ← as_array v; mapM dec l.
(** A map with text keys: an object, in any order; a later entry for a key replaces an earlier one. *)
Section maps.
Context `{HI : HashIter} {K A : Type} `{Countable K} (key : K → string) (unkey : string → K).
Definition enc_map (enc : A → JV) (m : gmap K A) : JV := VObj ((λ '(k, a), (key k, enc a)) <$> hm_iter m).
Definition dec_map (dec : JV → option A) (v : JV) : option (gmap K A) :=
  match v with
  | VObj l => entries ← mapM (λ '(k, x), a ← dec x; Some (unkey k, a)) l; Some (hm_collect entries)
  | _ => None
  end.
End maps.
(** A [Duration] and a [SystemTime] after the epoch, in nanoseconds: whole seconds and the rest. *)
Definition enc_time (s n : string) (t : Z) : JV := VObj [(s, VNum (t / 1000000000)); (n, VNum (t mod 1000000000))].
Definition dec_time (s n : string) (v : JV) : option Z :=
  secs ← required (dec_uint u64_max) s v;
  nanos ← required (dec_uint u32_max) n v;
  if secs + nanos / 1000000000 <=? u64_max then Some (secs * 1000000000 + nanos) else None.
Definition time_ok (t : Z) : Prop := 0 ≤ t < 2 ^ 64 * 1000000000.
(** An enum: a text for a variant without data, else an object with the variant's name. *)
Definition variant (v : JV) : option (string * option JV) :=
  match v with
  | VStr s => Some (s, None)
  | VObj [(s, x)] => Some (s, Some x)
  | _ => None
  end.
(** A variant without data is also read from an object with [null]. *)
Definition is_unit (x : option JV) : bool := match x with None | Some VNull => true | _ => false end.

(** ** What is read back *)

Lemma bind_None_r {A B} (x : option A) (f : A → option B) : (∀ a, f a = None) → x ≫= f = None.
Proof. destruct x; simpl; auto. Qed.
Lemma dec_uint_ok max z : 0 ≤ z ≤ max → dec_uint max (VNum z) = Some z.
Proof. intros Hz. unfold dec_uint. destruct (Z.leb_spec 0 z), (Z.leb_spec z max); simpl; (done || lia). Qed.
Lemma dec_i32_ok z : - 2 ^ 31 ≤ z < 2 ^ 31 → dec_i32 (VNum z) = Some z.
Proof. intros Hz. unfold dec_i32. destruct (Z.leb_spec (- 2 ^ 31) z), (Z.ltb_spec z (2 ^ 31)); cbn [andb]; (done || lia). Qed.
Lemma dec_f64_ok x : is_finite x = true → dec_f64 (enc_f64 x) = Some x.
Proof. intros Hx. unfold enc_f64. by rewrite Hx. Qed.
Lemma dec_list_ok {A} (enc : A → JV) dec l : Forall (λ a, dec (enc a) = Some a) l → dec_list dec (VArr (enc <$> l)) = Some l.
Proof.
  intros Hl. unfold dec_list. cbn [as_array mbind option_bind]. induction Hl as [|a l Ha _ IH]; [done|].
  rewrite fmap_cons. simpl. rewrite Ha. simpl. by rewrite IH.
Qed.
Lemma dec_map_ok `{HashIter} {K A} `{Countable K} (key : K → string) unkey (enc : A → JV) dec (m : gmap K A) :
  (∀ k, unkey (key k) = k) → map_Forall (λ _ a, dec (enc a) = Some a) m → dec_map unkey dec (enc_map key enc m) = Some m.
Proof.
  intros Hkey Hm. unfold dec_map, enc_map. assert (Forall (λ '(_, a), dec (enc a) = Some a) (hm_iter m)) as Hall.
  { apply Forall_forall. intros [k a] Hin. apply elem_of_hm_iter in Hin. by apply (Hm k). }
  transitivity (entries ← Some (hm_iter m); Some (hm_collect entries)); [f_equal|cbn; by rewrite hm_collect_iter].
  induction Hall as [|[k a] l Ha _ IH]; [done|]. rewrite fmap_cons. simpl. rewrite Ha. simpl. rewrite Hkey, IH. done.
Qed.
Lemma dec_time_ok s n t : s ≠ n → time_ok t → dec_time s n (enc_time s n t) = Some t.
Proof.
  intros Hsn [Hlo Hhi]. unfold dec_time, enc_time, required. pose proof (Z.div_mod t 1000000000). pose proof (Z.mod_pos_bound t 1000000000).
  assert (0 ≤ t / 1000000000 < 2 ^ 64) as Hdiv by (split; [apply Z.div_pos; lia|apply Z.div_lt_upper_bound; lia]).
  rewrite (field_here s) by (by rewrite field_skip). rewrite field_skip, field_here by done. cbn [mbind option_bind].
  rewrite !dec_uint_ok by (unfold u64_max, u32_max; lia). cbn [mbind option_bind]. rewrite (Z.div_small (t mod _)) by lia.
  destruct (Z.leb_spec (t / 1000000000 + 0) u64_max); [f_equal; lia|unfold u64_max in *; lia].
Qed.
Lemma dec_opt_ok {A} (enc : A → JV) dec (o : option A) :
  (∀ a, o = Some a → dec (enc a) = Some a) → (∀ a, enc a ≠ VNull) → dec_opt dec (enc_opt enc o) = Some o.
Proof.
  intros Ho Hn. destruct o as [a|]; simpl; [|done]. specialize (Ho a eq_refl). specialize (Hn a). unfold dec_opt.
  destruct (enc a) eqn:E; [done|..]; rewrite Ho; done.
Qed.

(** * The types (runtime.rs, interface.rs, logs.rs, protocol.rs) *)

(** A newtype is written as what it wraps; [ByteSize] as its number of bytes. *)
Definition enc_alloc_id (id : AllocId) : JV := VStr (alloc_id_0 id).
Definition dec_alloc_id (v : JV) : option AllocId := mkAllocId <$> as_str v.
Definition enc_node_id (id : NodeId) : JV := VStr (node_id_0 id).
Definition dec_node_id (v : JV) : option NodeId := mkNodeId <$> as_str v.
Definition enc_bytesize (bytes : Z) : JV := VNum bytes.
Definition dec_bytesize (v : JV) : option Z := dec_uint u64_max v.
Definition enc_bytesize_opt (size : option Z) : JV := enc_opt enc_bytesize size.
Definition dec_bytesize_opt (v : JV) : option (option Z) := dec_opt dec_bytesize v.

Definition enc_kind (k : AllocKind) : JV := VStr (match k with KService => "Service" | KTask => "Task" end).
Definition dec_kind (v : JV) : option AllocKind :=
  '(name, x) ← variant v;
  if negb (is_unit x) then None
  else if bool_decide (name = "Service"%string) then Some KService
  else if bool_decide (name = "Task"%string) then Some KTask else None.
Definition enc_status (s : AllocStatus) : JV :=
  match s with
  | Pulling => VStr "Pulling"
  | Starting => VStr "Starting"
  | Running => VStr "Running"
  | Healthy => VStr "Healthy"
  | Stopped exit_code => VObj [("Stopped", VObj [("exit_code", VNum exit_code)])]
  | Failed reason => VObj [("Failed", VObj [("reason", VStr reason)])]
  end%string.
(** The variants without data, by name. *)
Definition unit_status (name : string) : option AllocStatus :=
  if bool_decide (name = "Pulling") then Some Pulling
  else if bool_decide (name = "Starting") then Some Starting
  else if bool_decide (name = "Running") then Some Running
  else if bool_decide (name = "Healthy") then Some Healthy else None.
Definition dec_alloc_status (v : JV) : option AllocStatus :=
  '(name, x) ← variant v;
  match unit_status name with
  | Some s => if is_unit x then Some s else None
  | None =>
      data ← x;
      if bool_decide (name = "Stopped"%string) then Stopped <$> required dec_i32 "exit_code" data
      else if bool_decide (name = "Failed"%string) then Failed <$> required as_str "reason" data
      else None
  end.
Definition enc_stream (s : LogStream) : JV := VStr (match s with Stdout => "Stdout" | Stderr => "Stderr" end).
Definition dec_stream (v : JV) : option LogStream :=
  '(name, x) ← variant v;
  if negb (is_unit x) then None
  else if bool_decide (name = "Stdout"%string) then Some Stdout
  else if bool_decide (name = "Stderr"%string) then Some Stderr else None.

Definition enc_volume (c : ContainerVolume) : JV :=
  VObj [("name", VStr (cv_name c)); ("path", VStr (cv_path c)); ("ephemeral", VBool (cv_ephemeral c))]%string.
Definition dec_volume (v : JV) : option ContainerVolume :=
  name ← required as_str "name" v;
  path ← required as_str "path" v;
  ephemeral ← required dec_bool "ephemeral" v;
  Some (mkContainerVolume name path ephemeral).
Definition enc_resources (r : NodeResources) : JV :=
  VObj [("cpu_total", enc_f64 (cpu_total r)); ("cpu_available", enc_f64 (cpu_available r)); ("memory_total", enc_bytesize (memory_total r));
        ("memory_available", enc_bytesize (memory_available r))]%string.
Definition dec_resources (v : JV) : option NodeResources :=
  cpu_total ← required dec_f64 "cpu_total" v;
  cpu_available ← required dec_f64 "cpu_available" v;
  memory_total ← required dec_bytesize "memory_total" v;
  memory_available ← required dec_bytesize "memory_available" v;
  Some (mkNodeResources cpu_total cpu_available memory_total memory_available).
Definition enc_stats (s : ContainerStats) : JV :=
  VObj [("alloc_id", enc_alloc_id (cs_alloc_id s)); ("cpu_usage", enc_f64 (cs_cpu_usage s)); ("memory_usage", enc_bytesize (cs_memory_usage s))]%string.
Definition dec_stats (v : JV) : option ContainerStats :=
  alloc_id ← required dec_alloc_id "alloc_id" v;
  cpu_usage ← required dec_f64 "cpu_usage" v;
  memory_usage ← required dec_bytesize "memory_usage" v;
  Some (mkContainerStats alloc_id cpu_usage memory_usage).
Definition enc_credentials (c : RegistryCredentials) : JV := VObj [("username", VStr (rc_username c)); ("password", VStr (rc_password c))]%string.
Definition dec_credentials (v : JV) : option RegistryCredentials :=
  username ← required as_str "username" v;
  password ← required as_str "password" v;
  Some (mkRegistryCredentials username password).
Definition enc_volume_info (i : VolumeInfo) : JV :=
  VObj [("name", VStr (vi_name i)); ("size_bytes", VNum (vi_size_bytes i)); ("alloc_id", enc_opt enc_alloc_id (vi_alloc_id i))]%string.
Definition dec_volume_info (v : JV) : option VolumeInfo :=
  name ← required as_str "name" v;
  size_bytes ← required (dec_uint u64_max) "size_bytes" v;
  alloc_id ← optional dec_alloc_id "alloc_id" v;
  Some (mkVolumeInfo name size_bytes alloc_id).
Definition enc_log_line (l : LogLine) : JV :=
  VObj [("timestamp", enc_time "secs_since_epoch" "nanos_since_epoch" (ll_timestamp l)); ("stream", enc_stream (ll_stream l));
        ("content", VStr (ll_content l))]%string.
Definition dec_log_line (v : JV) : option LogLine :=
  timestamp ← required (dec_time "secs_since_epoch" "nanos_since_epoch") "timestamp" v;
  stream ← required dec_stream "stream" v;
  content ← required as_str "content" v;
  Some (mkLogLine timestamp stream content).

Definition enc_auth_request (a : AuthRequest) : JV := VObj [("token"%string, VStr (auth_token a))].
Definition dec_auth_request (v : JV) : option AuthRequest := mkAuthRequest <$> required as_str "token" v.
Definition enc_auth_response (a : AuthResponse) : JV := VObj [("ok"%string, VBool (auth_ok a))].
Definition dec_auth_response (v : JV) : option AuthResponse := mkAuthResponse <$> required dec_bool "ok" v.

Section messages.
Context `{HI : HashIter}.
Definition enc_spec (s : ContainerSpec) : JV :=
  VObj [("alloc_id", enc_alloc_id (spec_alloc_id s)); ("kind", enc_kind (spec_kind s)); ("timeout", enc_opt (enc_time "secs" "nanos") (spec_timeout s));
        ("command", enc_opt (λ c, VArr (VStr <$> c)) (spec_command s)); ("image", VStr (spec_image s)); ("env", enc_map id VStr (spec_env s));
        ("port", enc_opt VNum (spec_port s)); ("host_port", enc_opt VNum (spec_host_port s)); ("cpu", enc_f64 (spec_cpu s));
        ("memory", enc_bytesize (spec_memory s)); ("volumes", VArr (enc_volume <$> spec_volumes s))]%string.
Definition dec_spec (v : JV) : option ContainerSpec :=
  alloc_id ← required dec_alloc_id "alloc_id" v;
  kind ← defaulted KService dec_kind "kind" v;
  timeout ← optional (dec_time "secs" "nanos") "timeout" v;
  command ← optional (dec_list as_str) "command" v;
  image ← required as_str "image" v;
  env ← required (dec_map id as_str) "env" v;
  port ← optional (dec_uint u16_max) "port" v;
  host_port ← optional (dec_uint u16_max) "host_port" v;
  cpu ← required dec_f64 "cpu" v;
  memory ← required dec_bytesize "memory" v;
  volumes ← required (dec_list dec_volume) "volumes" v;
  Some (mkContainerSpec alloc_id kind timeout command image env port host_port cpu memory volumes).
Definition enc_heartbeat (h : Heartbeat) : JV :=
  VObj [("node_id", enc_node_id (hb_node_id h)); ("alloc_statuses", enc_map alloc_id_0 enc_status (hb_alloc_statuses h));
        ("resources", enc_resources (hb_resources h)); ("stats", VArr (enc_stats <$> hb_stats h)); ("volumes", VArr (enc_volume_info <$> hb_volumes h))]%string.
Definition dec_heartbeat (v : JV) : option Heartbeat :=
  node_id ← required dec_node_id "node_id" v;
  alloc_statuses ← required (dec_map mkAllocId dec_alloc_status) "alloc_statuses" v;
  resources ← required dec_resources "resources" v;
  stats ← required (dec_list dec_stats) "stats" v;
  volumes ← required (dec_list dec_volume_info) "volumes" v;
  Some (mkHeartbeat node_id alloc_statuses resources stats volumes).

Definition tagged (name : string) (fields : list (string * JV)) : JV := VObj [(name, VObj fields)].
Definition enc_command (c : NodeCommand) : JV :=
  match c with
  | Run alloc_id spec auth => tagged "Run" [("alloc_id", enc_alloc_id alloc_id); ("spec", enc_spec spec); ("auth", enc_opt enc_credentials auth)]
  | Stop alloc_id => tagged "Stop" [("alloc_id", enc_alloc_id alloc_id)]
  | Pull image auth => tagged "Pull" [("image", VStr image); ("auth", enc_opt enc_credentials auth)]
  | LogTail alloc_id lines => tagged "LogTail" [("alloc_id", enc_alloc_id alloc_id); ("lines", VNum lines)]
  | LogFollow alloc_id => tagged "LogFollow" [("alloc_id", enc_alloc_id alloc_id)]
  | LogUnfollow alloc_id => tagged "LogUnfollow" [("alloc_id", enc_alloc_id alloc_id)]
  end%string.
Definition dec_command (v : JV) : option NodeCommand :=
  '(name, x) ← variant v;
  data ← x;
  let alloc_id := required dec_alloc_id "alloc_id" data in
  if bool_decide (name = "Run") then
    id ← alloc_id; spec ← required dec_spec "spec" data; auth ← optional dec_credentials "auth" data; Some (Run id spec auth)
  else if bool_decide (name = "Stop") then id ← alloc_id; Some (Stop id)
  else if bool_decide (name = "Pull") then image ← required as_str "image" data; auth ← optional dec_credentials "auth" data; Some (Pull image auth)
  else if bool_decide (name = "LogTail") then id ← alloc_id; lines ← required (dec_uint u64_max) "lines" data; Some (LogTail id lines)
  else if bool_decide (name = "LogFollow") then id ← alloc_id; Some (LogFollow id)
  else if bool_decide (name = "LogUnfollow") then id ← alloc_id; Some (LogUnfollow id)
  else None%string.
Definition enc_report (r : NodeReport) : JV :=
  match r with
  | HeartbeatReport hb => VObj [("Heartbeat", enc_heartbeat hb)]
  | RunStarted alloc_id host_port address =>
      tagged "RunStarted" [("alloc_id", enc_alloc_id alloc_id); ("host_port", enc_opt VNum host_port); ("address", enc_opt (λ a, VStr (show_sock a)) address)]
  | StoppedReport alloc_id exit_code => tagged "Stopped" [("alloc_id", enc_alloc_id alloc_id); ("exit_code", VNum exit_code)]
  | RunFailed alloc_id reason => tagged "RunFailed" [("alloc_id", enc_alloc_id alloc_id); ("reason", VStr reason)]
  | PullComplete image => tagged "PullComplete" [("image", VStr image)]
  | PullFailed image reason => tagged "PullFailed" [("image", VStr image); ("reason", VStr reason)]
  | LogLines alloc_id lines => tagged "LogLines" [("alloc_id", enc_alloc_id alloc_id); ("lines", VArr (enc_log_line <$> lines))]
  | StatusUpdate alloc_id status => tagged "StatusUpdate" [("alloc_id", enc_alloc_id alloc_id); ("status", enc_status status)]
  end%string.
Definition dec_report (v : JV) : option NodeReport :=
  '(name, x) ← variant v;
  data ← x;
  let alloc_id := required dec_alloc_id "alloc_id" data in
  if bool_decide (name = "Heartbeat") then HeartbeatReport <$> dec_heartbeat data
  else if bool_decide (name = "RunStarted") then
    id ← alloc_id; host_port ← optional (dec_uint u16_max) "host_port" data; address ← optional dec_sock "address" data; Some (RunStarted id host_port address)
  else if bool_decide (name = "Stopped") then id ← alloc_id; code ← required dec_i32 "exit_code" data; Some (StoppedReport id code)
  else if bool_decide (name = "RunFailed") then id ← alloc_id; reason ← required as_str "reason" data; Some (RunFailed id reason)
  else if bool_decide (name = "PullComplete") then image ← required as_str "image" data; Some (PullComplete image)
  else if bool_decide (name = "PullFailed") then image ← required as_str "image" data; reason ← required as_str "reason" data; Some (PullFailed image reason)
  else if bool_decide (name = "LogLines") then id ← alloc_id; lines ← required (dec_list dec_log_line) "lines" data; Some (LogLines id lines)
  else if bool_decide (name = "StatusUpdate") then id ← alloc_id; status ← required dec_alloc_status "status" data; Some (StatusUpdate id status)
  else None%string.
End messages.

(** * Reading back what was written *)

(** What the code can put into a value: numbers of their width, finite floats, times that a [Duration] holds, and addresses that
    are read as they are printed. *)
Definition byte_count (z : Z) : Prop := 0 ≤ z ≤ u64_max.
Definition port_number (z : Z) : Prop := 0 ≤ z ≤ u16_max.
Definition exit_code_ok (z : Z) : Prop := - 2 ^ 31 ≤ z < 2 ^ 31.
Definition finite (x : f64) : Prop := is_finite x = true.
Definition status_ok (s : AllocStatus) : Prop := match s with Stopped c => exit_code_ok c | _ => True end.
Definition resources_ok (r : NodeResources) : Prop :=
  finite (cpu_total r) ∧ finite (cpu_available r) ∧ byte_count (memory_total r) ∧ byte_count (memory_available r).
Definition stats_ok (s : ContainerStats) : Prop := finite (cs_cpu_usage s) ∧ byte_count (cs_memory_usage s).
Definition volume_info_ok (i : VolumeInfo) : Prop := byte_count (vi_size_bytes i).
Definition log_line_ok (l : LogLine) : Prop := time_ok (ll_timestamp l).
Definition spec_ok (s : ContainerSpec) : Prop :=
  (∀ t, spec_timeout s = Some t → time_ok t) ∧ (∀ p, spec_port s = Some p → port_number p) ∧
  (∀ p, spec_host_port s = Some p → port_number p) ∧ finite (spec_cpu s) ∧ byte_count (spec_memory s).
Definition heartbeat_ok (h : Heartbeat) : Prop :=
  map_Forall (λ _ s, status_ok s) (hb_alloc_statuses h) ∧ resources_ok (hb_resources h) ∧ Forall stats_ok (hb_stats h) ∧
  Forall volume_info_ok (hb_volumes h).
(** An IPv4 address and its port; an IPv6 address that is read as it is printed. *)
Definition sock_ok (a : SocketAddr) : Prop :=
  match a with SockV4 ip p => 0 ≤ ip < 2 ^ 32 ∧ port_number p | SockV6 _ _ _ _ => parse_sock (show_sock a) = Some a end.
Definition command_ok (c : NodeCommand) : Prop :=
  match c with Run _ spec _ => spec_ok spec | LogTail _ lines => 0 ≤ lines ≤ u64_max | _ => True end.
Definition report_ok (r : NodeReport) : Prop :=
  match r with
  | HeartbeatReport hb => heartbeat_ok hb
  | RunStarted _ host_port address =>
      (∀ p, host_port = Some p → port_number p) ∧ (∀ a, address = Some a → sock_ok a)
  | StoppedReport _ exit_code => exit_code_ok exit_code
  | LogLines _ lines => Forall log_line_ok lines
  | StatusUpdate _ status => status_ok status
  | _ => True
  end.

Lemma alloc_id_back id : dec_alloc_id (enc_alloc_id id) = Some id.
Proof. by destruct id. Qed.
Lemma node_id_back id : dec_node_id (enc_node_id id) = Some id.
Proof. by destruct id. Qed.
Lemma bytesize_back z : byte_count z → dec_bytesize (enc_bytesize z) = Some z.
Proof. apply dec_uint_ok. Qed.
Lemma kind_back k : dec_kind (enc_kind k) = Some k.
Proof. by destruct k. Qed.
Lemma stream_back s : dec_stream (enc_stream s) = Some s.
Proof. by destruct s. Qed.
Lemma status_back s : status_ok s → dec_alloc_status (enc_status s) = Some s.
Proof.
  destruct s; try done; intros Hs; unfold dec_alloc_status, enc_status; cbn [variant mbind option_bind].
  - change (unit_status "Stopped") with (@None AllocStatus). cbn iota. rewrite bool_decide_true by done. unfold required. fields.
    cbn [mbind option_bind]. by rewrite dec_i32_ok.
Qed.
Lemma volume_back c : dec_volume (enc_volume c) = Some c.
Proof. destruct c. unfold dec_volume, enc_volume. by read_back. Qed.
Lemma credentials_back c : dec_credentials (enc_credentials c) = Some c.
Proof. destruct c. unfold dec_credentials, enc_credentials. by read_back. Qed.
(** Read the fields of an object back, one after the other, with the lemmas on its parts. *)
Ltac back1 :=
  first [rewrite alloc_id_back | rewrite node_id_back | rewrite kind_back | rewrite stream_back | rewrite volume_back | rewrite credentials_back
        |rewrite bytesize_back by done | rewrite dec_uint_ok by done | rewrite status_back by done | rewrite dec_i32_ok by done
        |rewrite dec_f64_ok by done | rewrite dec_time_ok by done]; cbn [mbind option_bind fmap option_fmap option_map].
Ltac back := read_back; cbn [mbind option_bind fmap option_fmap option_map as_str]; repeat back1; try done.

Lemma resources_back r : resources_ok r → dec_resources (enc_resources r) = Some r.
Proof. intros (?&?&?&?). destruct r. unfold dec_resources, enc_resources. back. Qed.
Lemma stats_back s : stats_ok s → dec_stats (enc_stats s) = Some s.
Proof. intros (?&?). destruct s. unfold dec_stats, enc_stats. back. Qed.
Lemma volume_info_back i : volume_info_ok i → dec_volume_info (enc_volume_info i) = Some i.
Proof.
  intros Hi. destruct i as [n z o]. unfold dec_volume_info, enc_volume_info, volume_info_ok in *. back.
  rewrite dec_opt_ok; [done|intros; apply alloc_id_back|done].
Qed.
Lemma log_line_back l : log_line_ok l → dec_log_line (enc_log_line l) = Some l.
Proof. intros Hl. destruct l. unfold dec_log_line, enc_log_line, log_line_ok in *. back. Qed.

(** The variant of a message that was written: its name decides the branch. *)
Ltac branch := cbn [variant tagged mbind option_bind]; repeat (first [rewrite bool_decide_true by done | rewrite bool_decide_false by done]).

Lemma sock_back a : sock_ok a → parse_sock (show_sock a) = Some a.
Proof. destruct a as [ip p|]; [|done]. intros [Hip Hp]. by apply ipv4_round_trip. Qed.
Section messages_back.
Context `{HI : HashIter}.
Lemma strings_back c : dec_list as_str (VArr (VStr <$> c)) = Some c.
Proof. apply dec_list_ok. by apply Forall_forall. Qed.
Lemma env_back (env : gmap string string) : dec_map id as_str (enc_map id VStr env) = Some env.
Proof. by apply dec_map_ok. Qed.
Lemma spec_back s : spec_ok s → dec_spec (enc_spec s) = Some s.
Proof.
  intros (Ht & Hp & Hh & Hc & Hm). destruct s. unfold dec_spec, enc_spec. back.
  rewrite (dec_opt_ok (enc_time _ _)) by (done || intros; apply dec_time_ok; auto). cbn [mbind option_bind].
  rewrite (dec_opt_ok (λ c, VArr (VStr <$> c))) by (done || intros; apply strings_back). cbn [mbind option_bind as_str].
  rewrite env_back. cbn [mbind option_bind].
  rewrite !(dec_opt_ok VNum) by (done || intros; apply dec_uint_ok; first [by apply Hp|by apply Hh]). cbn [mbind option_bind]. repeat back1.
  rewrite dec_list_ok; [done|]. apply Forall_forall. intros ? _. apply volume_back.
Qed.
Lemma spec_not_back s : is_finite (spec_cpu s) = false → dec_spec (enc_spec s) = None.
Proof.
  intros Hc. assert (required dec_f64 "cpu" (enc_spec s) = None) as Hcpu.
  { unfold enc_spec. read_back. unfold enc_f64. by rewrite Hc. }
  unfold dec_spec. repeat first [rewrite Hcpu; done | apply bind_None_r; intros ?].
Qed.
Lemma heartbeat_back h : heartbeat_ok h → dec_heartbeat (enc_heartbeat h) = Some h.
Proof.
  intros (Hs & Hr & Ht & Hv). destruct h. unfold dec_heartbeat, enc_heartbeat. back.
  rewrite dec_map_ok; [|by intros []|exact (map_Forall_impl _ _ _ Hs (λ _ s, status_back s))]. cbn [mbind option_bind].
  rewrite resources_back by done. cbn [mbind option_bind].
  rewrite (dec_list_ok enc_stats) by exact (Forall_impl _ _ _ Ht stats_back). cbn [mbind option_bind].
  by rewrite (dec_list_ok enc_volume_info) by exact (Forall_impl _ _ _ Hv volume_info_back).
Qed.
Lemma command_back c : command_ok c → dec_command (enc_command c) = Some c.
Proof.
  intros Hc. destruct c; unfold dec_command, enc_command; branch; back.
  - rewrite spec_back by done. cbn [mbind option_bind]. by rewrite (dec_opt_ok enc_credentials) by (done || intros; apply credentials_back).
  - by rewrite (dec_opt_ok enc_credentials) by (done || intros; apply credentials_back).
Qed.
Lemma report_back r : report_ok r → dec_report (enc_report r) = Some r.
Proof.
  intros Hr. destruct r; unfold dec_report, enc_report; branch; back.
  - by rewrite heartbeat_back.
  - destruct Hr as [Hp Ha]. rewrite (dec_opt_ok VNum) by (done || intros; apply dec_uint_ok; by apply Hp). cbn [mbind option_bind].
    rewrite (dec_opt_ok (λ a, VStr (show_sock a))); [done| |done]. intros a ->. unfold dec_sock. cbn [as_str mbind option_bind]. auto using sock_back.
  - rewrite dec_list_ok by exact (Forall_impl _ _ _ Hr log_line_back). done.
Qed.

#[export] Program Instance json_auth_request : JsonCodec AuthRequest := {| to_jv := enc_auth_request; of_jv := dec_auth_request; jv_ok _ := True |}.
Next Obligation. by intros []. Qed.
#[export] Program Instance json_auth_response : JsonCodec AuthResponse := {| to_jv := enc_auth_response; of_jv := dec_auth_response; jv_ok _ := True |}.
Next Obligation. by intros []. Qed.
#[export] Instance json_spec : JsonCodec ContainerSpec := {| to_jv := enc_spec; of_jv := dec_spec; jv_ok := spec_ok; of_to := spec_back |}.
#[export] Instance json_heartbeat : JsonCodec Heartbeat := {| to_jv := enc_heartbeat; of_jv := dec_heartbeat; jv_ok := heartbeat_ok; of_to := heartbeat_back |}.
#[export] Instance json_command : JsonCodec NodeCommand := {| to_jv := enc_command; of_jv := dec_command; jv_ok := command_ok; of_to := command_back |}.
#[export] Instance json_report : JsonCodec NodeReport := {| to_jv := enc_report; of_jv := dec_report; jv_ok := report_ok; of_to := report_back |}.
End messages_back.

(** * Printing a spec for diagnostics (interface.rs) *)

(** What [Debug] is given to print: the tree of names and values, before its text. *)
Inductive Dbg :=
| DStr (s : string)
| DName (s : string)
| DBool (b : bool)
| DNum (z : Z)
| DFloat (x : f64)
| DDuration (t : Z)
| DSize (bytes : Z)
| DOpt (o : option Dbg)
| DTuple (name : string) (l : list Dbg)
| DStruct (name : string) (l : list (string * Dbg))
| DList (l : list Dbg)
| DMap (l : list (Dbg * Dbg)).
(** The texts in it, which its text contains, and those of which it consists. *)
Fixpoint dbg_texts (d : Dbg) : list string :=
  match d with
  | DStr s | DName s => [s]
  | DOpt (Some d) => dbg_texts d
  | DTuple name l => name :: (l ≫= dbg_texts)
  | DStruct name l => name :: (l ≫= λ '(k, d), k :: dbg_texts d)
  | DList l => l ≫= dbg_texts
  | DMap l => l ≫= λ '(k, d), dbg_texts k ++ dbg_texts d
  | _ => []
  end.
Section debug.
Context `{HI : HashIter}.
Definition redacted_env (env : gmap string string) : gmap string string := (λ _, "<redacted>"%string) <$> env.
Definition debug_volume (c : ContainerVolume) : Dbg :=
  DStruct "ContainerVolume" [("name", DStr (cv_name c)); ("path", DStr (cv_path c)); ("ephemeral", DBool (cv_ephemeral c))]%string.
Definition debug_spec (s : ContainerSpec) : Dbg :=
  DStruct "ContainerSpec"
    [("alloc_id", DTuple "AllocId" [DStr (alloc_id_0 (spec_alloc_id s))]);
     ("kind", DName (match spec_kind s with KService => "Service" | KTask => "Task" end));
     ("timeout", DOpt (DDuration <$> spec_timeout s)); ("command", DOpt ((λ c, DList (DStr <$> c)) <$> spec_command s));
     ("image", DStr (spec_image s)); ("env", DMap ((λ '(k, v), (DStr k, DStr v)) <$> hm_iter (redacted_env (spec_env s))));
     ("port", DOpt (DNum <$> spec_port s)); ("host_port", DOpt (DNum <$> spec_host_port s)); ("cpu", DFloat (spec_cpu s));
     ("memory", DSize (spec_memory s)); ("volumes", DList (debug_volume <$> spec_volumes s))]%string.
End debug.
Definition with_env (env : gmap string string) (s : ContainerSpec) : ContainerSpec :=
  mkContainerSpec (spec_alloc_id s) (spec_kind s) (spec_timeout s) (spec_command s) (spec_image s) env (spec_port s) (spec_host_port s) (spec_cpu s)
    (spec_memory s) (spec_volumes s).

(** * Theorems *)

Section wire.
(** serde_json's text of a value. *)
Context (print : JV → string) (parse : string → result JV string).
Definition to_text {A} (enc : A → JV) (a : A) : result string string := Ok (print (enc a)).
Definition from_text {A} (dec : JV → option A) (s : string) : result A string :=
  result_bind (parse s) (λ v, match dec v with Some a => Ok a | None => Err "invalid type or missing field"%string end).
(** A JSON value that serde_json reads as it wrote it and that fits a frame. *)
Definition frame_fits (v : JV) : Prop := parse (print v) = Ok v ∧ Z.of_nat (String.length (print v)) ≤ MAX_FRAME_SIZE.

Lemma messages_cross {A} (enc : A → JV) dec (msgs : list A) :
  (∀ m, m ∈ msgs → dec (enc m) = Some m ∧ frame_fits (enc m)) →
  ∃ bytes, write_all (to_text enc) msgs = Ok bytes ∧ read_loop (from_text dec) (String.length bytes) bytes = (msgs, None).
Proof.
  intros Hall. assert (∃ bytes, write_all (to_text enc) msgs = Ok bytes) as [bytes Hw].
  { induction msgs as [|m msgs IH]; [by eexists|]. destruct IH as [bs Hbs]; [intros x Hx; apply Hall; by right|]. simpl. rewrite Hbs.
    destruct (Hall m) as (_ & _ & Hlen); [by left|]. unfold write_frame, to_text. rewrite wrap32_small
      by (unfold MAX_FRAME_SIZE, u32_max in *; lia). destruct (Z.ltb_spec MAX_FRAME_SIZE (Z.of_nat (String.length (print (enc m))))); [lia|].
    by eexists. }
  exists bytes. split; [done|]. apply (read_write_all (to_text enc)); [|done|lia]. intros m Hm.
  destruct (Hall m Hm) as (Hdec & Hp & Hlen). exists (print (enc m)). split_and!; [done| |unfold MAX_FRAME_SIZE, u32_max in *; lia].
  unfold from_text. rewrite Hp. simpl. by rewrite Hdec.
Qed.


(** A container whose CPU share is not a finite number cannot be started over a connection: the command is written all the same,
    and the node refuses its text. *)
Theorem nonfinite_cpu_not_read `{HashIter} id spec auth :
  let c := Run id spec auth in
  is_finite (spec_cpu spec) = false → parse (print (enc_command c)) = Ok (enc_command c) →
  to_text enc_command c = Ok (print (enc_command c)) ∧
  from_text dec_command (print (enc_command c)) = Err "invalid type or missing field"%string.
Proof.
  intros c Hcpu Hp. split; [done|]. unfold from_text. rewrite Hp. simpl. unfold dec_command, enc_command. branch. back.
  by rewrite spec_not_back.
Qed.
End wire.

(** The printed form of a spec depends on no value of its environment: only on the names. *)
Theorem debug_hides_env `{HashIter} s env : dom env = dom (spec_env s) → debug_spec (with_env env s) = debug_spec s.
Proof.
  intros Hdom. unfold debug_spec. cbn [with_env spec_alloc_id spec_kind spec_timeout spec_command spec_image spec_env spec_port spec_host_port spec_cpu
    spec_memory spec_volumes]. replace (redacted_env env) with (redacted_env (spec_env s)); [done|].
  apply map_eq. intros k. unfold redacted_env. rewrite !lookup_fmap. assert (k ∈ dom env ↔ k ∈ dom (spec_env s)) as Hk by by rewrite Hdom.
  rewrite !elem_of_dom in Hk. destruct (env !! k), (spec_env s !! k); simpl; try done; exfalso.
  - destruct Hk as [Hk _]. by destruct Hk.
  - destruct Hk as [_ Hk]. by destruct Hk.
Qed.
(** A size that fits is read back, alone and in an optional field. *)
Theorem bytesize_round_trip size :
  (∀ z, size = Some z → byte_count z) → dec_bytesize_opt (enc_bytesize_opt size) = Some size ∧ ∀ z, size = Some z → dec_bytesize (enc_bytesize z) = Some z.
Proof. intros Hs. split; [apply dec_opt_ok; [|done]|]; intros; by apply bytesize_back, Hs. Qed.

(** * The unit tests beside the code *)

(** Through the JSON value and back; the tests fall back to another message when that fails. *)
Definition serde_back {A} `{JsonCodec A} (fallback a : A) : A := default fallback (of_jv (to_jv a)).
Section wire_tests.
Local Open Scope string_scope.
#[local] Existing Instance stored_order.
Definition text_has (p s : string) : bool := bool_decide (is_Some (str_find p s)).
Definition half : f64 := f64_div (f64_of_Z 1) (f64_of_Z 2).
Definition run_spec : ContainerSpec :=
  mkContainerSpec (mkAllocId "test-run") KTask (Some (3600 * 1000000000)) (Some ["migrate"]) "app:1" ∅ None None half (256 * 2 ^ 20) [].
Definition node_command_serde_round_trip : bool :=
  let cmds := [Stop (mkAllocId "test-1"); Pull "nginx:latest" None; LogTail (mkAllocId "test-1") 100;
               Run (mkAllocId "test-run") run_spec (Some (mkRegistryCredentials "user" "pass"))] in
  forallb (λ cmd, bool_decide (serde_back (Stop (mkAllocId "fallback")) cmd = cmd)) cmds.
Definition node_report_serde_round_trip : bool :=
  let reports := [StoppedReport (mkAllocId "a") 0; RunFailed (mkAllocId "b") "oom"; PullComplete "redis:7"; PullFailed "bad:img" "not found"] in
  forallb (λ r, match serde_back (StoppedReport (mkAllocId "fallback") (-1)) r with StoppedReport _ (-1) => false | _ => true end) reports.
Definition heartbeat_serde_round_trip : bool :=
  let hb := mkHeartbeat (mkNodeId "test-node") (list_to_map [(mkAllocId "svc-1", Running); (mkAllocId "svc-2", Stopped 0)])
              (mkNodeResources (f64_of_Z 4) (f64_div (f64_of_Z 5) (f64_of_Z 2)) (8 * 2 ^ 30) (4 * 2 ^ 30)) [] [mkVolumeInfo "data" 1024 None] in
  let back := serde_back (mkHeartbeat (mkNodeId "fallback") ∅ (mkNodeResources f64_zero f64_zero 0 0) [] []) hb in
  Nat.eqb (size (hb_alloc_statuses back)) 2 && Nat.eqb (length (hb_volumes back)) 1.
(** What the text of the printed tree contains, for texts without characters that [Debug] escapes. *)
Definition container_spec_debug_redacts_env_values : bool :=
  let spec := mkContainerSpec (mkAllocId "test-1") KService None None "nginx:latest"
                (list_to_map [("DB_PASSWORD", "hunter2"); ("API_KEY", "sk-secret-key-12345")]) (Some 8080) (Some 50000) (f64_of_Z 1) (256 * 2 ^ 20) [] in
  let texts := dbg_texts (debug_spec spec) in
  existsb (text_has "DB_PASSWORD") texts && existsb (text_has "API_KEY") texts && negb (existsb (text_has "hunter2") texts) &&
  negb (existsb (text_has "sk-secret-key-12345") texts) && existsb (text_has "<redacted>") texts.
Lemma wire_tests_pass :
  node_command_serde_round_trip && node_report_serde_round_trip && heartbeat_serde_round_trip && container_spec_debug_redacts_env_values = true.
Proof. vm_compute. reflexivity. Qed.

(** A text of the values of three messages. *)
Definition toy_print (v : JV) : string :=
  match v with VObj [("Stop", _)] => "s" | VObj [("RunStarted", _)] => "started" | _ => "r" end.
Definition ex_started : NodeReport := RunStarted (mkAllocId "test-run") (Some 50000) (Some (SockV4 174260225 50000)).
Definition toy_parse (s : string) : result JV string :=
  Ok (if bool_decide (s = "s") then enc_command (Stop (mkAllocId "test-1"))
      else if bool_decide (s = "started") then enc_report ex_started else enc_command (Run (mkAllocId "test-run") run_spec None)).
End wire_tests.
