(* ===== verification/Containers.v ===== *)
(** The life of a container ([src/crates/containerd/src/container.rs], with the pulling of images of [image.rs] and the
    pipes of [logs.rs]) as the sequence of requests that are made to containerd and to the file system. Every answer is
    given by an oracle, so the theorems hold whatever fails, deletions included. They show what a failed start leaves behind, what a
    removal does, that stopping escalates exactly when the container does not exit in time, and when pulling falls back. *)

From S2P Require Import Prelude Types Env Rpc World Ports Secondary Oci.
Local Open Scope Z_scope.

#[global] Instance Code_eq_dec : EqDecision Code.
Proof. solve_decision. Defined.

(** * Requests *)

Inductive Req :=
| SnapshotPrepare (key parent : string)
| SnapshotMounts (key : string)
| SnapshotRemove (key : string)
| ContainerCreate (id image : string) (labels : gmap string string)
| ContainerDelete (id : string)
| ContainerGet (id : string)
| ContainerList (filter : string)
| TaskCreate (id stdout stderr : string)
| TaskStart (id : string)
| TaskDelete (id : string)
| TaskKill (id : string) (signal : Z)
| TaskWait (id : string)
| MakeLogDir (id : string)
| RemoveStaleFifo (id : string) (stream : LogStream)
| MakeFifo (id : string) (stream : LogStream)
| SpawnReaders (id : string)
| FifoCleanup (id : string)
| ImageTransfer (image : string) (authorization : option string)
| CtrPull (args : list string).

(** The requests made so far, with the code of those that failed. *)
Abbreviation Trace := (list (Req * option Code)).
Definition CM (A : Type) : Type := Trace → A * Trace.
#[global] Instance CM_ret : MRet CM := λ A a t, (a, t).
#[global] Instance CM_bind : MBind CM := λ A B k m t, let '(a, t) := m t in k a t.

Section containers.
(** What containerd answers to the request that is made after a number of others: nothing but success, or a code. *)
Context (status : nat → option Code).

Definition call (r : Req) : CM (result unit Code) := λ t,
  (match status (length t) with None => Ok tt | Some c => Err c end, t ++ [(r, status (length t))]).
(** What is done without containerd and the file system, and cannot fail. *)
Definition note (r : Req) : CM unit := λ t, (tt, t ++ [(r, None)]).
(** [match client.delete(..)]: not finding what is to be deleted is success. *)
Definition call_delete (r : Req) : CM (result unit Code) :=
  res ← call r;
  mret (match res with Err CodeNotFound => Ok tt | r => r end).
Definition delete_task (cid : string) : CM (result unit Code) := call_delete (TaskDelete cid).
Definition delete_snapshot (cid : string) : CM (result unit Code) := call_delete (SnapshotRemove cid).
Definition delete_container (cid : string) : CM (result unit Code) := call_delete (ContainerDelete cid).

(** ** Starting *)

(** The snapshot's mounts: of a fresh one, or of one that an earlier attempt left. *)
Definition prepare_rootfs (cid chain_id : string) : CM (result unit ContainerdError) :=
  res ← call (SnapshotPrepare cid chain_id);
  match res with
  | Ok _ => mret (Ok tt)
  | Err CodeAlreadyExists =>
      res ← call (SnapshotMounts cid);
      mret (match res with Ok _ => Ok tt | Err c => Err (Grpc c) end)
  | Err c => mret (Err (Grpc c))
  end.

(** [setup_fifos] (logs.rs): the directory, the two pipes, each after a stale one is removed, and their readers, with a token that is
    cancelled through the handle only. *)
Context (stale : LogStream → bool).
Definition log_io (c : Code) : ContainerdError := LogIo (match c with CodeOther m => m | _ => EmptyString end).
Definition io (r : Req) : CM (result unit ContainerdError) :=
  res ← call r;
  mret (match res with Ok _ => Ok tt | Err c => Err (log_io c) end).
Definition make_fifo (id : string) (stream : LogStream) : CM (result unit ContainerdError) :=
  res ← (if stale stream then io (RemoveStaleFifo id stream) else mret (Ok tt));
  match res with
  | Err e => mret (Err e)
  | Ok _ => io (MakeFifo id stream)
  end.
Definition setup_logs (id : string) : CM (result unit ContainerdError) :=
  res ← io (MakeLogDir id);
  match res with
  | Err e => mret (Err e)
  | Ok _ =>
      res ← make_fifo id Stdout;
      match res with
      | Err e => mret (Err e)
      | Ok _ =>
          res ← make_fifo id Stderr;
          match res with
          | Err e => mret (Err e)
          | Ok _ => _ ← note (SpawnReaders id); mret (Ok tt)
          end
      end
  end.

(** [create_and_start] from where the image's configuration has been read and the spec built. *)
Definition create_and_start (aid : AllocId) (image chain_id logs_dir : string) (labels : gmap string string)
    : CM (result unit ContainerdError) :=
  let cid := container_id aid in
  res ← prepare_rootfs cid chain_id;
  match res with
  | Err e => mret (Err e)
  | Ok _ =>
      res ← call (ContainerCreate cid image labels);
      match res with
      | Err CodeAlreadyExists => mret (Err (CAlreadyExists (alloc_id_0 aid)))
      | Err c => mret (Err (Grpc c))
      | Ok _ =>
          res ← setup_logs (alloc_id_0 aid);
          match res with
          | Err e =>
              _ ← delete_container cid;
              mret (Err e)
          | Ok _ =>
              let log_dir := path_join logs_dir (alloc_id_0 aid) in
              res ← call (TaskCreate cid (path_join log_dir "stdout") (path_join log_dir "stderr"));
              match res with
              | Err c =>
                  _ ← delete_container cid;
                  _ ← delete_snapshot cid;
                  _ ← call (FifoCleanup (alloc_id_0 aid));
                  mret (Err (Grpc c))
              | Ok _ =>
                  res ← call (TaskStart cid);
                  match res with
                  | Err c =>
                      _ ← delete_task cid;
                      _ ← delete_container cid;
                      _ ← delete_snapshot cid;
                      _ ← call (FifoCleanup (alloc_id_0 aid));
                      mret (Err (Grpc c))
                  | Ok _ => mret (Ok tt)
                  end
              end
          end
      end
  end.

(** ** Stopping and removing *)

(** [x as i32] for a [u32]. *)
Definition u32_as_i32 (z : Z) : Z := if z <? 2 ^ 31 then z else z - 2 ^ 32.

(** How waiting for the exit after SIGTERM ends: within ten seconds, with a code or an error, or not. *)
Context (exit_in_time : bool) (exit_status : Z).
Definition STOP_TIMEOUT : Z := 10000000000.
Definition stop (aid : AllocId) : CM (result Z ContainerdError) :=
  let cid := container_id aid in
  res ← call (TaskKill cid 15);
  match res with
  | Err CodeNotFound => mret (Err (CNotFound (alloc_id_0 aid)))
  | Err c => mret (Err (Grpc c))
  | Ok _ =>
      if exit_in_time then
        res ← call (TaskWait cid);
        mret (match res with Ok _ => Ok (u32_as_i32 exit_status) | Err c => Err (Grpc c) end)
      else
        res ← call (TaskKill cid 9);
        match res with
        | Err c => mret (Err (Grpc c))
        | Ok _ =>
            res ← call (TaskWait cid);
            mret (match res with Ok _ => Ok (u32_as_i32 exit_status) | Err c => Err (Grpc c) end)
        end
  end.
Definition remove (aid : AllocId) : CM (result unit ContainerdError) :=
  let cid := container_id aid in
  _ ← delete_task cid;
  res ← delete_container cid;
  match res with
  | Err CodeNotFound => mret (Err (CNotFound (alloc_id_0 aid)))
  | Err c => mret (Err (Grpc c))
  | Ok _ =>
      _ ← delete_snapshot cid;
      _ ← call (FifoCleanup (alloc_id_0 aid));
      mret (Ok tt)
  end.
(** [wait_exit], also the task that waits behind a handle, which turns an error into -1. *)
Definition wait_exit (aid : AllocId) : CM (result Z ContainerdError) :=
  res ← call (TaskWait (container_id aid));
  mret (match res with Ok _ => Ok (u32_as_i32 exit_status) | Err c => Err (Grpc c) end).

(** [cleanup_all]: stop and remove, whatever fails; the containers are handled at the same time, and here in turn. *)
Fixpoint cleanup_all (ids : list AllocId) : CM unit :=
  match ids with
  | [] => mret tt
  | aid :: ids => _ ← stop aid; _ ← remove aid; cleanup_all ids
  end.

(** ** Listing *)

Definition LABEL_MANAGED : string := "mill.managed".
Definition dquote : string := String (Ascii.ascii_of_nat 34) EmptyString.
(** The identifiers in the labels of the containers that the filter selects. *)
Definition list_managed (answer : list (gmap string string)) : CM (result (list AllocId) ContainerdError) :=
  res ← call (ContainerList ("labels." +:+ dquote +:+ LABEL_MANAGED +:+ dquote +:+ "==true"));
  mret (match res with
        | Err c => Err (Grpc c)
        | Ok _ => Ok (filter_map (λ labels, mkAllocId <$> labels !! "mill.alloc-id"%string) answer)
        end).
Definition get_container {A} (answer : option A) (aid : AllocId) : CM (result A ContainerdError) :=
  res ← call (ContainerGet (container_id aid));
  mret (match res with
        | Err CodeNotFound => Err (CNotFound (alloc_id_0 aid))
        | Err c => Err (Grpc c)
        | Ok _ => match answer with Some c => Ok c | None => Err (CNotFound (alloc_id_0 aid)) end
        end).

(** ** Pulling (image.rs) *)

(** base64, the message of a status, and whether the program [ctr] could be run at all. *)
Context (base64 : string → string) (message : Code → string) (ctr_runs : bool).
Definition is_cached_result (res : result unit Code) : result bool ContainerdError :=
  match res with
  | Ok _ => Ok true
  | Err CodeNotFound => Ok false
  | Err c => Err (Grpc c)
  end.
Definition pull_transfer (image : string) (auth : option RegistryCredentials) : CM (result unit ContainerdError) :=
  let header := (λ a, "Basic " +:+ base64 (rc_username a +:+ ":" +:+ rc_password a))%string <$> auth in
  res ← call (ImageTransfer image header);
  mret (match res with Ok _ => Ok tt | Err c => Err (ImagePull image (message c)) end).
Definition ctr_args (image : string) (auth : option RegistryCredentials) : list string :=
  ["-n"; "mill"; "images"; "pull"]%string ++
  (match auth with Some a => ["--user"; rc_username a +:+ ":" +:+ rc_password a]%string | None => [] end) ++ [image].
Definition pull_ctr (image : string) (auth : option RegistryCredentials) : CM (result unit ContainerdError) :=
  res ← call (CtrPull (ctr_args image auth));
  mret (match res with
        | Ok _ => Ok tt
        | Err c => Err (ImagePull image ((if ctr_runs then "ctr pull failed: " else "failed to run ctr: ") +:+ message c)%string)
        end).
Definition str_contains (p s : string) : bool := bool_decide (is_Some (str_find p s)).
Definition transfer_missing (reason : string) : bool := str_contains "not implemented" reason || str_contains "Unimplemented" reason.
Definition pull (image : string) (auth : option RegistryCredentials) : CM (result unit ContainerdError) :=
  res ← pull_transfer image auth;
  match res with
  | Ok _ => mret (Ok tt)
  | Err (ImagePull i reason) => if transfer_missing reason then pull_ctr image auth else mret (Err (ImagePull i reason))
  | Err e => mret (Err e)
  end.
End containers.

(** * What is left behind *)

Inductive Resource :=
| RSnapshot (key : string)
| RContainer (id : string)
| RTask (id : string)
| RLogDir (id : string)
| RFifo (id : string) (stream : LogStream)
| RReaders (id : string).
#[global] Instance Resource_eq_dec : EqDecision Resource.
Proof. solve_decision. Defined.
(** What a request creates, and what it deletes: the log directory goes with everything in it. *)
Definition creates (r : Req) : option Resource :=
  match r with
  | SnapshotPrepare key _ => Some (RSnapshot key)
  | ContainerCreate id _ _ => Some (RContainer id)
  | TaskCreate id _ _ => Some (RTask id)
  | MakeLogDir id => Some (RLogDir id)
  | MakeFifo id stream => Some (RFifo id stream)
  | SpawnReaders id => Some (RReaders id)
  | _ => None
  end.
Definition deletes (r : Req) (x : Resource) : bool :=
  match r, x with
  | SnapshotRemove key, RSnapshot key' => bool_decide (key = key')
  | ContainerDelete id, RContainer id' => bool_decide (id = id')
  | TaskDelete id, RTask id' => bool_decide (id = id')
  | FifoCleanup id, (RLogDir id' | RFifo id' _) => bool_decide (id = id')
  | _, _ => false
  end.
(** A deletion took effect, or there was nothing to delete. *)
Definition gone (answer : option Code) : bool := match answer with None | Some CodeNotFound => true | _ => false end.
(** The resources that were created and not deleted since: a request that was answered by an error had no effect. *)
Fixpoint left_behind (acc : list Resource) (t : Trace) : list Resource :=
  match t with
  | [] => acc
  | (r, answer) :: t =>
      let acc := filterb (λ x, negb (gone answer && deletes r x)) acc in
      let acc := match answer with None => acc ++ option_list (creates r) | Some _ => acc end in
      left_behind acc t
  end.
(** A resource that was created; one whose deletion was refused; and whether the task was asked for. *)
Definition created (t : Trace) (x : Resource) : Prop := ∃ r, (r, None) ∈ t ∧ creates r = Some x.
Definition undeleted (t : Trace) (x : Resource) : Prop := ∃ r c, (r, Some c) ∈ t ∧ c ≠ CodeNotFound ∧ deletes r x = true.
Definition task_requested (cid : string) (t : Trace) : Prop := ∃ o e a, (TaskCreate cid o e, a) ∈ t.

(** * Theorems *)

Lemma left_behind_app acc t t' : left_behind acc (t ++ t') = left_behind (left_behind acc t) t'.
Proof. revert acc. induction t as [|[r ok] t IH]; intros acc; simpl; [done|]. apply IH. Qed.
Lemma elem_of_left_behind acc t r a x :
  x ∈ left_behind acc (t ++ [(r, a)]) ↔
  (x ∈ left_behind acc t ∧ (gone a = true → deletes r x = false)) ∨ (a = None ∧ creates r = Some x).
Proof.
  rewrite left_behind_app. simpl.
  assert (x ∈ filterb (λ x, negb (gone a && deletes r x)) (left_behind acc t) ↔ x ∈ left_behind acc t ∧ (gone a = true → deletes r x = false)) as Hf.
  { rewrite elem_of_filterb, negb_true_iff, andb_false_iff. destruct (gone a), (deletes r x); naive_solver. }
  destruct a; [rewrite Hf; naive_solver|]. rewrite elem_of_app, Hf. destruct (creates r) as [y|]; simpl; rewrite ?list_elem_of_singleton, ?elem_of_nil; naive_solver.
Qed.

(** [ensures m Q t]: what [m] returns after the requests [t], and the requests then made, satisfy [Q]. *)
Definition ensures {A} (m : CM A) (Q : A → Trace → Prop) (t : Trace) : Prop := let '(a, t') := m t in Q a t'.

Section ensures_lemmas.
Context (status : nat → option Code).
Lemma ensures_ret {A} (a : A) (Q : A → Trace → Prop) t : Q a t → ensures (mret a) Q t.
Proof. done. Qed.
Lemma ensures_bind {A B} (m : CM A) (k : A → CM B) Q t : ensures m (λ a t', ensures (k a) Q t') t → ensures (m ≫= k) Q t.
Proof. unfold ensures, mbind, CM_bind. by destruct (m t). Qed.
Lemma ensures_mono {A} (m : CM A) (P Q : A → Trace → Prop) t : ensures m P t → (∀ a t', P a t' → Q a t') → ensures m Q t.
Proof. unfold ensures. destruct (m t). auto. Qed.
Lemma ensures_call r (Q : result unit Code → Trace → Prop) t :
  (status (length t) = None → Q (Ok tt) (t ++ [(r, None)])) →
  (∀ c, status (length t) = Some c → Q (Err c) (t ++ [(r, Some c)])) → ensures (call status r) Q t.
Proof. unfold ensures, call. destruct (status (length t)); auto. Qed.
Lemma ensures_note r (Q : unit → Trace → Prop) t : Q tt (t ++ [(r, None)]) → ensures (note r) Q t.
Proof. done. Qed.
(** The answer to a deletion is rarely looked at. *)
Lemma ensures_delete r (Q : result unit Code → Trace → Prop) t :
  (∀ res a, res ≠ Err CodeNotFound → (∀ c, res = Err c ↔ a = Some c ∧ c ≠ CodeNotFound) → Q res (t ++ [(r, a)])) → ensures (call_delete status r) Q t.
Proof.
  intros H. unfold call_delete. apply ensures_bind, ensures_call; intros; apply ensures_ret; [apply H; naive_solver|].
  destruct c; apply H; naive_solver.
Qed.
Lemma ensures_ignored r (Q : result unit Code → Trace → Prop) t :
  (∀ res a, Q res (t ++ [(r, a)])) → ensures (call status r) Q t.
Proof. intros H. apply ensures_call; auto. Qed.

(** The log set-up creates a prefix of its resources, and deletes none. *)
Definition log_request (id : string) (r : Req) : bool :=
  match r with
  | MakeLogDir i | RemoveStaleFifo i _ | MakeFifo i _ | SpawnReaders i => bool_decide (i = id)
  | _ => false
  end.
Definition log_resources (id : string) : list Resource := [RLogDir id; RFifo id Stdout; RFifo id Stderr; RReaders id].
Definition logs_set_up (id : string) (t : Trace) (fin : bool) (t' : Trace) : Prop :=
  ∃ s, t' = t ++ s ∧ Forall (λ x, log_request id x.1 = true) s ∧
    (∀ x, x ∈ left_behind [] t' ↔ x ∈ left_behind [] t ∨ created s x) ∧
    (∀ x, created s x → x ∈ log_resources id ∧ (x = RReaders id → fin = true)) ∧
    (fin = true → ∀ x, x ∈ log_resources id → created s x).

Lemma created_app s s' x : created (s ++ s') x ↔ created s x ∨ created s' x.
Proof. unfold created. setoid_rewrite elem_of_app. naive_solver. Qed.
Lemma created_cons r a s x : created ((r, a) :: s) x ↔ (a = None ∧ creates r = Some x) ∨ created s x.
Proof. unfold created. setoid_rewrite elem_of_cons. naive_solver. Qed.
Lemma created_nil x : ¬ created [] x.
Proof. by intros (r & ?%elem_of_nil & _). Qed.
Lemma logs_set_up_start id t : logs_set_up id t false t.
Proof.
  exists []. rewrite app_nil_r. split_and!; [done|constructor| | |done].
  - intros x. pose proof (created_nil x). tauto.
  - by intros x ?%created_nil.
Qed.
(** One more request of the set-up, which is not its last; and the last. *)
Lemma logs_set_up_step id t t' q a :
  logs_set_up id t false t' → log_request id q = true → (∀ x, creates q = Some x → x ∈ log_resources id ∧ x ≠ RReaders id) → (∀ x, deletes q x = false) →
  logs_set_up id t false (t' ++ [(q, a)]).
Proof.
  intros (s & -> & Hs & Hl & Hc & _) Hq Hx Hd. exists (s ++ [(q, a)]). rewrite app_assoc. split_and!; [done|rewrite Forall_app; by repeat constructor| | |done].
  - intros x. rewrite elem_of_left_behind, Hl, created_app, created_cons, Hd. pose proof (created_nil x). naive_solver.
  - intros x. rewrite created_app, created_cons. intros [H|[[_ H]|H%created_nil]]; [by apply Hc| |done]. destruct (Hx x H). done.
Qed.
Lemma logs_set_up_last id t t' :
  logs_set_up id t false t' → (∀ x, x ∈ log_resources id → x ≠ RReaders id → ∃ s, t' = t ++ s ∧ created s x) →
  logs_set_up id t true (t' ++ [(SpawnReaders id, None)]).
Proof.
  intros (s & -> & Hs & Hl & Hc & _) Hall. exists (s ++ [(SpawnReaders id, None)]). rewrite app_assoc.
  split_and!; [done|rewrite Forall_app; split; [done|]; constructor; [by apply bool_decide_eq_true|constructor]| | |].
  - intros x. rewrite elem_of_left_behind, Hl, created_app, created_cons. pose proof (created_nil x). simpl. naive_solver.
  - intros x. rewrite created_app, created_cons. intros [H|[[_ [= <-]]|H%created_nil]]; [split; [by apply Hc|done]|split; [set_solver|done]|done].
  - intros _ x Hx. rewrite created_app, created_cons. destruct (decide (x = RReaders id)) as [->|Hne]; [by auto|].
    destruct (Hall x Hx Hne) as (s' & ->%app_inv_head & H). by left.
Qed.
Lemma setup_logs_ensures stale id t :
  ensures (setup_logs status stale id) (λ r t', logs_set_up id t (match r with Ok _ => true | Err _ => false end) t') t.
Proof.
  assert (∀ q t', logs_set_up id t false t' → log_request id q = true →
    (∀ x, creates q = Some x → x ∈ log_resources id ∧ x ≠ RReaders id) → (∀ x, deletes q x = false) →
    ensures (io status q) (λ r t'', logs_set_up id t false t'' ∧ (r = Ok tt → t'' = t' ++ [(q, None)])) t') as Hio.
  { intros q t' Ht' Hq Hx Hd. unfold io. apply ensures_bind, ensures_call; intros; apply ensures_ret; (split; [by apply logs_set_up_step|done]). }
  assert (∀ stream t', logs_set_up id t false t' →
    ensures (make_fifo status stale id stream) (λ r t'', logs_set_up id t false t'' ∧
      (r = Ok tt → ∃ s, t'' = t' ++ s ∧ created s (RFifo id stream))) t') as Hfifo.
  { intros stream t' Ht'. unfold make_fifo. apply ensures_bind.
    assert (ensures (if stale stream then io status (RemoveStaleFifo id stream) else mret (Ok tt))
      (λ r t'', logs_set_up id t false t'' ∧ (r = Ok tt → ∃ s, t'' = t' ++ s)) t') as Hstale.
    { destruct (stale stream); [|apply ensures_ret; split; [done|]; exists []; by rewrite app_nil_r].
      eapply ensures_mono; [apply Hio; [done|by apply bool_decide_eq_true|done|done]|]. intros r t'' [? H]. split; [done|]. intros ->%H. by eexists. }
    eapply ensures_mono; [exact Hstale|]. intros [[]|e] t'' [Ht'' Hs]; [|by apply ensures_ret]. destruct (Hs eq_refl) as [s1 ->].
    eapply ensures_mono; [apply Hio; [done|by apply bool_decide_eq_true| |done]|].
    { intros x [= <-]. split; [|done]. destruct stream; set_solver. }
    intros r t3 [? H]. split; [done|]. intros ->%H. exists (s1 ++ [(MakeFifo id stream, None)]). rewrite app_assoc. split; [done|].
    rewrite created_app, created_cons. auto. }
  unfold setup_logs. apply ensures_bind. eapply ensures_mono; [apply (Hio (MakeLogDir id) t (logs_set_up_start id t)); [by apply bool_decide_eq_true| |done]|].
  { intros x [= <-]. split; [set_solver|done]. }
  intros [[]|e] t1 [H1 E1]; [|by apply ensures_ret]. specialize (E1 eq_refl). subst t1.
  apply ensures_bind. eapply ensures_mono; [by apply (Hfifo Stdout)|]. intros [[]|e] t2 [H2 E2]; [|by apply ensures_ret].
  destruct (E2 eq_refl) as (s2 & -> & C2). apply ensures_bind. eapply ensures_mono; [by apply (Hfifo Stderr)|].
  intros [[]|e] t3 [H3 E3]; [|by apply ensures_ret]. destruct (E3 eq_refl) as (s3 & -> & C3). apply ensures_bind, ensures_note, ensures_ret.
  apply logs_set_up_last; [done|]. intros x Hx Hne. exists ([(MakeLogDir id, None)] ++ s2 ++ s3). split; [by rewrite <-!app_assoc|].
  rewrite !created_app, created_cons. unfold log_resources in Hx. set_solver.
Qed.
End ensures_lemmas.

Ltac ensures_step :=
  lazymatch goal with
  | |- ensures (_ ≫= _) _ _ => apply ensures_bind
  | |- ensures (mret _) _ _ => apply ensures_ret
  | |- ensures (call _ (FifoCleanup _)) _ _ => apply ensures_ignored; intros ? ?
  | |- ensures (call _ _) _ _ => apply ensures_call; [intros ?|intros ? ?]
  | |- ensures (delete_task _ _) _ _ => apply ensures_delete; intros ? ? ? ?
  | |- ensures (delete_container _ _) _ _ => apply ensures_delete; intros ? ? ? ?
  | |- ensures (delete_snapshot _ _) _ _ => apply ensures_delete; intros ? ? ? ?
  | |- ensures (match ?x with _ => _ end) _ _ => destruct x
  end; cbn beta iota.

(** What a start that failed leaves behind, by the requests that were made. *)
Definition start_leftovers (cid id chain : string) (t : Trace) : Prop :=
  (∀ x, x ∈ left_behind [] t → x = RReaders id ∨ undeleted t x ∨ (¬ task_requested cid t ∧ (x = RSnapshot cid ∨ x ∈ log_resources id))) ∧
  (¬ task_requested cid t → ∀ x, created t x → x ≠ RContainer cid → x ∈ left_behind [] t) ∧
  (task_requested cid t → RReaders id ∈ left_behind [] t).

Lemma undeleted_snoc t r a x : undeleted (t ++ [(r, a)]) x ↔ undeleted t x ∨ ∃ c, a = Some c ∧ c ≠ CodeNotFound ∧ deletes r x = true.
Proof. unfold undeleted. setoid_rewrite elem_of_app. setoid_rewrite list_elem_of_singleton. naive_solver. Qed.
Lemma task_requested_snoc cid t r a : task_requested cid (t ++ [(r, a)]) ↔ task_requested cid t ∨ ∃ o e, r = TaskCreate cid o e.
Proof. unfold task_requested. setoid_rewrite elem_of_app. setoid_rewrite list_elem_of_singleton. naive_solver. Qed.
Lemma created_snoc t r a x : created (t ++ [(r, a)]) x ↔ created t x ∨ (a = None ∧ creates r = Some x).
Proof. rewrite created_app, created_cons. pose proof (created_nil x). tauto. Qed.
(** A resource that outlives a request for its deletion. *)
Lemma refused t r a x : (r, a) ∈ t → (gone a = true → deletes r x = false) → deletes r x = true → undeleted t x.
Proof.
  intros Hin Hg Hd. destruct a as [c|]; [|by rewrite Hg in Hd]. exists r, c. split_and!; [done| |done].
  intros ->. by rewrite Hg in Hd.
Qed.

(** What has been made when the log set-up starts: the snapshot, unless an earlier attempt left it, and the record. *)
Definition before_logs (cid chain : string) (t : Trace) : Prop :=
  ¬ task_requested cid t ∧
  (∀ x, x ∈ left_behind [] t ↔ created t x) ∧
  (∀ x, created t x → x = RSnapshot cid ∨ x = RContainer cid).
Lemma before_logs_step cid chain t q a :
  before_logs cid chain t → (∀ x, deletes q x = false) → (∀ o e, q ≠ TaskCreate cid o e) →
  (∀ x, creates q = Some x → x = RSnapshot cid ∨ x = RContainer cid) → before_logs cid chain (t ++ [(q, a)]).
Proof.
  intros (H1 & H2 & H3) Hd Hq Hx. split_and!.
  - rewrite task_requested_snoc. naive_solver.
  - intros x. rewrite elem_of_left_behind, created_snoc, H2, Hd. naive_solver.
  - intros x. rewrite created_snoc. naive_solver.
Qed.
Lemma before_logs_start cid chain : before_logs cid chain [].
Proof.
  split_and!; [by intros (? & ? & ? & ?%elem_of_nil)| |by intros x ?%created_nil].
  intros x. split; [by intros ?%elem_of_nil|by intros ?%created_nil].
Qed.
Lemma before_logs_leftovers cid id chain t :
  before_logs cid chain t → (∀ x, created t x → x ≠ RContainer cid) → start_leftovers cid id chain t.
Proof.
  intros (H1 & H2 & H3) Hc. split_and!; [|intros _ x Hx _; by apply H2|done]. intros x Hx. apply H2 in Hx as Hx'.
  destruct (H3 x Hx') as [->| ->]; [auto|by apply Hc in Hx'].
Qed.
Lemma task_requested_app cid t t' : task_requested cid (t ++ t') ↔ task_requested cid t ∨ task_requested cid t'.
Proof. unfold task_requested. setoid_rewrite elem_of_app. naive_solver. Qed.
Lemma undeleted_app t t' x : undeleted (t ++ t') x ↔ undeleted t x ∨ undeleted t' x.
Proof. unfold undeleted. setoid_rewrite elem_of_app. naive_solver. Qed.
(** What is there after the log set-up, complete or not. *)
Definition after_logs (cid id : string) (fin : bool) (t : Trace) : Prop :=
  ¬ task_requested cid t ∧ (∀ x, x ∈ left_behind [] t ↔ created t x) ∧
  (∀ x, created t x → x = RSnapshot cid ∨ x = RContainer cid ∨ x ∈ log_resources id) ∧
  (fin = true → ∀ x, x ∈ log_resources id → created t x).
Lemma logs_set_up_after cid id chain t fin t' : before_logs cid chain t → logs_set_up id t fin t' → after_logs cid id fin t'.
Proof.
  intros (H1 & H2 & H3) (s & -> & Hs & Hl & Hc & Hall). split_and!.
  - rewrite task_requested_app. intros [?|(o & e & a & Hin)]; [done|]. rewrite Forall_forall in Hs. by specialize (Hs _ Hin).
  - intros x. by rewrite Hl, created_app, H2.
  - intros x. rewrite created_app. intros [?%H3|[? _]%Hc]; naive_solver.
  - intros Hf x Hx. rewrite created_app. right. by apply Hall.
Qed.
(** Requests that only delete. *)
Definition only_deletes (dels : Trace) : Prop := Forall (λ x, creates x.1 = None) dels.
Lemma left_after_deletes t dels x :
  only_deletes dels → x ∈ left_behind [] (t ++ dels) ↔ x ∈ left_behind [] t ∧ ∀ r a, (r, a) ∈ dels → gone a = true → deletes r x = false.
Proof.
  intros Hd. induction dels as [|[r a] dels IH] using rev_ind.
  { rewrite app_nil_r. split; [|by intros [? _]]. intros Hx. split; [done|]. by intros r a ?%elem_of_nil. }
  apply Forall_app in Hd as [Hd Hr]. rewrite Forall_singleton in Hr. simpl in Hr.
  rewrite app_assoc, elem_of_left_behind, Hr. destruct (IH Hd) as [IH1 IH2]. split.
  - intros [[Hx H3]|[_ [=]]]. destruct (IH1 Hx) as [H1 H2]. split; [done|].
    intros r' a' [?|[= -> ->]%list_elem_of_singleton]%elem_of_app; eauto.
  - intros [H1 H2]. left. split; [apply IH2; split; [done|]; intros r' a' Hin; apply H2, elem_of_app; by left|].
    apply H2, elem_of_app. right. by apply list_elem_of_singleton.
Qed.
Lemma leftovers_after_task cid id chain t dels :
  only_deletes dels → task_requested cid t →
  (∀ x, x ∈ left_behind [] t → x = RReaders id ∨ ∃ r a, (r, a) ∈ dels ∧ deletes r x = true) →
  RReaders id ∈ left_behind [] t → start_leftovers cid id chain (t ++ dels).
Proof.
  intros Hd Ht Hx Hr. split_and!.
  - intros x [Hin Hg]%left_after_deletes; [|done]. destruct (Hx x Hin) as [?|(r & a & Hra & Hdel)]; [by left|]. right. left.
    apply (refused _ r a); [by apply elem_of_app; right|by apply Hg|done].
  - intros Hno. destruct Hno. by apply task_requested_app; left.
  - intros _. apply left_after_deletes; [done|]. split; [done|]. intros r a _ _. by destruct r.
Qed.
Lemma leftovers_after_logs cid id chain t a :
  after_logs cid id false t → start_leftovers cid id chain (t ++ [(ContainerDelete cid, a)]).
Proof.
  intros (H1 & H2 & H3 & _).
  assert (¬ task_requested cid (t ++ [(ContainerDelete cid, a)])) as Hno by (rewrite task_requested_snoc; naive_solver).
  split_and!; [|intros _ x|done].
  - intros x. rewrite elem_of_left_behind, H2. intros [[Hx Hg]|[_ [=]]]. destruct (H3 x Hx) as [->|[->|Hin]]; [by auto| |by auto].
    right. left. eapply refused; [apply elem_of_app; right; by apply list_elem_of_singleton|exact Hg|by apply bool_decide_eq_true].
  - rewrite created_snoc, elem_of_left_behind, H2. intros [Hx|[_ [=]]] Hne. left. split; [done|]. intros _. destruct x; try done.
    apply bool_decide_eq_false. congruence.
Qed.
Lemma removed_with_logs id x : x ∈ log_resources id → x = RReaders id ∨ deletes (FifoCleanup id) x = true.
Proof. unfold log_resources. rewrite !elem_of_cons, elem_of_nil. intros [->|[->|[->|[->|[]]]]]; auto; right; by apply bool_decide_eq_true. Qed.

Lemma prepare_ensures status cid chain :
  ensures (prepare_rootfs status cid chain) (λ _ t, before_logs cid chain t ∧ ∀ x, created t x → x ≠ RContainer cid) [].
Proof.
  pose proof (before_logs_start cid chain) as H0. unfold prepare_rootfs. repeat ensures_step.
  all: (split; [repeat (apply before_logs_step; [|done|done|naive_solver]); done|]).
  all: intros x; rewrite !created_snoc; intros Hx ->; simpl in Hx; pose proof (created_nil (RContainer cid)); naive_solver.
Qed.
Lemma logs_set_up_created id t fin t' : logs_set_up id t fin t' → ∀ x, created t x → created t' x.
Proof. intros (s & -> & _) x Hx. rewrite created_app. by left. Qed.
(** The end of a start whose task could not be created or started. *)
Lemma task_undone cid id chain t pre stdout stderr answer a1 a2 a3 :
  only_deletes pre → after_logs cid id true t → (answer = None → ∃ a, (TaskDelete cid, a) ∈ pre) →
  start_leftovers cid id chain ((t ++ [(TaskCreate cid stdout stderr, answer)]) ++
    pre ++ [(ContainerDelete cid, a1); (SnapshotRemove cid, a2); (FifoCleanup id, a3)]).
Proof.
  intros Hpre (H1 & H2 & H3 & H4) Htask. apply leftovers_after_task.
  - apply Forall_app. split; [done|]. by repeat constructor.
  - apply task_requested_snoc. right. eauto.
  - intros x. rewrite elem_of_left_behind, H2. intros [[Hx _]|[Ha [= <-]]].
    + destruct (H3 x Hx) as [->|[->|[->|Hlog]%removed_with_logs]]; [right|right|by left|right].
      * exists (SnapshotRemove cid), a2. split; [set_solver|by apply bool_decide_eq_true].
      * exists (ContainerDelete cid), a1. split; [set_solver|by apply bool_decide_eq_true].
      * exists (FifoCleanup id), a3. split; [set_solver|done].
    + right. destruct (Htask Ha) as [a Hin]. exists (TaskDelete cid), a. split; [set_solver|by apply bool_decide_eq_true].
  - rewrite elem_of_left_behind, H2. left. split; [apply H4; [done|]; unfold log_resources; set_solver|done].
Qed.

(** C40: What a start leaves behind, whichever of its requests fail. If it succeeds there are the container's record, its task, its log
    directory with both pipes and their readers, and the snapshot that it prepared. If it fails before the task is asked for, the record is
    deleted, if its deletion succeeds, and everything else that was made stays: the snapshot, and the directory and pipes of a log set-up that
    failed half-way. If the task could not be created or started, all that can stay is what was asked to be deleted and was not,
    because the deletion failed, and the readers of the pipes, which are never cancelled. *)
Theorem failed_start_cleans_up status stale aid image chain logs labels :
  let cid := container_id aid in
  let id := alloc_id_0 aid in
  ensures (create_and_start status stale aid image chain logs labels) (λ r t,
    match r with
    | Ok _ => (∀ x, x ∈ left_behind [] t ↔ created t x) ∧
              (∀ x, x ∈ RContainer cid :: RTask cid :: log_resources id → created t x) ∧
              (∀ x, created t x → x = RSnapshot cid ∨ x ∈ RContainer cid :: RTask cid :: log_resources id)
    | Err _ => start_leftovers cid id chain t
    end) [].
Proof.
  intros cid id. unfold create_and_start. fold cid id. apply ensures_bind.
  (* the snapshot *)
  eapply ensures_mono; [apply (prepare_ensures status cid chain)|]. intros [[]|e] t0 [H0 Hn0]; [|apply ensures_ret; by apply before_logs_leftovers].
  (* the record *)
  apply ensures_bind, ensures_call.
  2: { intros c _. assert (start_leftovers cid id chain (t0 ++ [(ContainerCreate cid image labels, Some c)])) as Hs.
       { apply before_logs_leftovers; [apply before_logs_step; [done|done|done|naive_solver]|]. intros x. rewrite created_snoc. intros [?|[[=] _]]. by apply Hn0. }
       destruct c; by apply ensures_ret. }
  intros _. assert (before_logs cid chain (t0 ++ [(ContainerCreate cid image labels, None)])) as H1
    by (apply before_logs_step; [done|done|done|naive_solver]).
  (* the pipes *)
  apply ensures_bind. eapply ensures_mono; [apply setup_logs_ensures|]. intros [[]|e] t2 Hlogs.
  2: { apply ensures_bind, ensures_delete. intros res a _ _. apply ensures_ret. by eapply leftovers_after_logs, logs_set_up_after. }
  pose proof (logs_set_up_created _ _ _ _ Hlogs (RContainer cid)) as Hcont.
  pose proof (logs_set_up_after _ _ _ _ _ _ H1 Hlogs) as Hafter. clear Hlogs.
  (* the task *)
  apply ensures_bind, ensures_call.
  2: { intros c _. repeat ensures_step. rewrite <-!app_assoc. rewrite (app_assoc t2). apply (task_undone _ _ _ _ []); [constructor|done|done]. }
  intros _. apply ensures_bind, ensures_call.
  2: { intros c _. repeat ensures_step. rewrite <-!app_assoc. rewrite (app_assoc t2). apply (task_undone _ _ _ _ [_; _]); [by repeat constructor|done|].
       intros _. eexists. right. left. }
  intros _. apply ensures_ret. destruct Hafter as (_ & H2 & H3 & H4). split_and!.
  - intros x. rewrite !elem_of_left_behind, !created_snoc, H2. naive_solver.
  - intros x. rewrite !created_snoc. intros [->|[->|Hx]%elem_of_cons]%elem_of_cons; [left; left; apply Hcont|naive_solver|]; [|by left; left; apply H4].
    rewrite created_snoc. naive_solver.
  - intros x. rewrite !created_snoc, !elem_of_cons. naive_solver.
Qed.
(** Removal of what a start leaves: if it succeeds the record is gone, and all that can stay is what was asked to be deleted and was not,
    and the readers; a removal that cannot delete the record stops there and says so, and not finding the record is not an error. *)
Theorem removed_leaves_nothing status aid t0 :
  let cid := container_id aid in
  let id := alloc_id_0 aid in
  (∀ x, x ∈ left_behind [] t0 → x ∈ RSnapshot cid :: RContainer cid :: RTask cid :: log_resources id) →
  ensures (remove status aid) (λ r t,
    (r = Ok tt → RContainer cid ∉ left_behind [] t ∧ ∀ x, x ∈ left_behind [] t → x = RReaders id ∨ undeleted t x) ∧
    (∀ i, r ≠ Err (CNotFound i)) ∧ (∀ e, r = Err e → ∃ c, last t = Some (ContainerDelete cid, Some c))) t0.
Proof.
  intros cid id Hall. unfold remove. fold cid id. apply ensures_bind, ensures_delete. intros res1 a1 _ _.
  apply ensures_bind, ensures_delete. intros res2 a2 Hnf Ha2. destruct res2 as [[]|c].
  2: { destruct (proj1 (Ha2 c) eq_refl) as [-> Hc]. destruct c; [done|..]; apply ensures_ret; (split_and!; [done|done|]); intros e _; rewrite last_snoc; by eexists. }
  assert (gone a2 = true) as Hg.
  { destruct a2 as [c|]; [|done]. destruct (decide (c = CodeNotFound)) as [->|Hne]; [done|].
    discriminate (proj2 (Ha2 c) (conj eq_refl Hne)). }
  repeat ensures_step. rewrite <-!app_assoc. simpl. split_and!; [intros _|done|done].
  match goal with |- context [t0 ++ ?l] => assert (only_deletes l) as Hd by (by repeat constructor); set (dels := l) in * end. split.
  - intros [_ Hno]%left_after_deletes; [|done]. assert (deletes (ContainerDelete cid) (RContainer cid) = true) as Ht by (by apply bool_decide_eq_true).
    rewrite (Hno (ContainerDelete cid) a2) in Ht; [done|unfold dels; set_solver|done].
  - intros x [Hx Hno]%left_after_deletes; [|done].
    assert (∀ r a, (r, a) ∈ dels → deletes r x = true → undeleted (t0 ++ dels) x) as Hu.
    { intros r' a' Hin Hdel. apply (refused _ r' a'); [by apply elem_of_app; right|by apply Hno|done]. }
    apply Hall in Hx. rewrite !elem_of_cons in Hx. destruct Hx as [->|[->|[->|[->|Hx]%removed_with_logs]]]; [right..|by left|right].
    + eapply (Hu (SnapshotRemove cid)); [unfold dels; repeat first [left|right]|by apply bool_decide_eq_true].
    + eapply (Hu (ContainerDelete cid)); [unfold dels; repeat first [left|right]|by apply bool_decide_eq_true].
    + eapply (Hu (TaskDelete cid)); [unfold dels; repeat first [left|right]|by apply bool_decide_eq_true].
    + eapply (Hu (FifoCleanup id)); [unfold dels; repeat first [left|right]|done].
Qed.

(** Stopping asks the container to terminate and kills it exactly when it has not exited in time; the code that is
    returned is the one it exited with, and a container that is not known is reported as such. *)
Theorem stop_escalates status in_time code aid :
  let cid := container_id aid in
  ensures (stop status in_time code aid) (λ r t,
    (∀ a, (TaskKill cid 9, a) ∈ t ↔ in_time = false ∧ status 0%nat = None ∧ a = status 1%nat) ∧
    (∀ c, r = Ok c → c = u32_as_i32 code ∧ last t = Some (TaskWait cid, None)) ∧
    (∀ id, r = Err (CNotFound id) ↔ id = alloc_id_0 aid ∧ status 0%nat = Some CodeNotFound)) [].
Proof.
  unfold stop. repeat ensures_step; cbn [app length] in *.
  all: split_and!; [intros a; rewrite ?elem_of_cons, elem_of_nil|by intros c' [=]; subst|intros id].
  all: naive_solver congruence.
Qed.

(** Pulling falls back to the command line tool exactly when the transfer failed with a message that says so in one of
    two ways: it is the text of the message that decides, not the status code. *)
Theorem pull_falls_back status base64 message ctr_runs image auth :
  ensures (pull status base64 message ctr_runs image auth) (λ r t,
    ((∃ ok, (CtrPull (ctr_args image auth), ok) ∈ t) ↔
       ∃ c, status 0%nat = Some c ∧ (str_contains "not implemented" (message c) || str_contains "Unimplemented" (message c)) = true) ∧
    (r = Ok tt ↔ status 0%nat = None ∨ (length t = 2%nat ∧ status 1%nat = None)) ∧ (length t ≤ 2)%nat) [].
Proof.
  unfold pull, pull_transfer, pull_ctr, transfer_missing.
  apply ensures_bind, ensures_bind, ensures_call; [intros H0|intros c H0]; apply ensures_ret; cbn [length app] in *; cbn beta iota.
  { apply ensures_ret. simpl. split_and!; [|naive_solver|lia]. rewrite H0. split; [|naive_solver].
    intros [ok [=]%list_elem_of_singleton]. }
  destruct (_ || _) eqn:Hm.
  - apply ensures_bind, ensures_call; [intros H1|intros c' H1]; apply ensures_ret; cbn [app length] in *.
    all: split_and!; [split; [eauto|intros _; eexists; right; left]|naive_solver|lia].
  - apply ensures_ret. cbn [app length] in *. split_and!; [|naive_solver lia|lia]. split.
    + intros [ok [=]%list_elem_of_singleton].
    + intros (c' & ? & ?). naive_solver congruence.
Qed.

(** * Examples *)

(** The second pipe cannot be made: the snapshot, the log directory and the first pipe stay. *)
Example half_set_up :
  let '(r, t) := create_and_start (λ n, if (n =? 4)%nat then Some (CodeOther "ENOSPC") else None) (λ _, false) (mkAllocId "web-1") "web:1"
                   "sha256:c" "/logs" ∅ [] in
  r = Err (LogIo "ENOSPC") ∧ left_behind [] t = [RSnapshot "mill-web-1"; RLogDir "web-1"; RFifo "web-1" Stdout].
Proof. vm_compute. by split. Qed.
(** The task cannot be created and the record cannot be deleted: the record stays, and the readers of the pipes. *)
Example record_stays :
  let '(r, t) := create_and_start (λ n, if (n =? 6)%nat || (n =? 7)%nat then Some (CodeOther "busy") else None) (λ _, false) (mkAllocId "web-1") "web:1"
                   "sha256:c" "/logs" ∅ [] in
  r = Err (Grpc (CodeOther "busy")) ∧ left_behind [] t = [RContainer "mill-web-1"; RReaders "web-1"].
Proof. vm_compute. by split. Qed.
