(* ===== verification/Report.v ===== *)
(** What the primary does with the reports of the nodes ([src/crates/node/src/primary/report.rs]): the
    commands it proposes for them, the record of heartbeats it shares with the watchdog, the live
    metrics, and the forwarding of log lines. The theorems show that a report leads to at most one
    proposal and which, that the report of a started container leads to a routable address whenever
    one can be known, and that the duration histogram counts what its bucket bounds say. *)

From Stdlib Require Import Sorting.Sorted.
From S2P Require Import Prelude Types Env Fsm Rpc World.
Local Open Scope Z_scope.

(** * Heartbeat record (primary/watchdog.rs) *)

Abbreviation HeartbeatTracker := (gmap Z Z).
Definition tracker_record (raft_id now : Z) (tr : HeartbeatTracker) : HeartbeatTracker := <[raft_id := now]> tr.
Definition last_seen (raft_id : Z) (tr : HeartbeatTracker) : option Z := tr !! raft_id.
Definition tracker_remove (raft_id : Z) (tr : HeartbeatTracker) : HeartbeatTracker := delete raft_id tr.

(** * Live metrics *)

Record NodeMetricsSnapshot := mkNodeMetrics {
  nm_resources : NodeResources;
  nm_container_stats : list ContainerStats;
}.
Definition TASK_DURATION_BUCKETS : list f64 :=
  (f64_of_Z <$> [1; 5; 30; 60; 300; 600; 1800; 3600]) ++ [S754_infinity false].
Record DurationHistogram := mkHistogram {
  h_count : Z;
  h_sum_seconds : f64;
  h_buckets : list Z;
}.
Definition DurationHistogram_new : DurationHistogram := mkHistogram 0 f64_zero (replicate 9 0).
(** Add one to the first bucket whose bound is not exceeded. *)
Fixpoint record_bucket (secs : f64) (bounds : list f64) (buckets : list Z) : list Z :=
  match bounds, buckets with
  | bound :: bounds, b :: buckets =>
      if f64_leb secs bound then u64_add b 1 :: buckets else b :: record_bucket secs bounds buckets
  | _, _ => buckets
  end.
Definition histogram_record (dur : Z) (h : DurationHistogram) : DurationHistogram :=
  let secs := as_secs_f64 dur in
  mkHistogram (u64_add (h_count h) 1) (f64_add (h_sum_seconds h) secs)
    (record_bucket secs TASK_DURATION_BUCKETS (h_buckets h)).
Record HistogramSnapshot := mkHistogramSnapshot {
  hs_name : string;
  hs_count : Z;
  hs_sum_seconds : f64;
  hs_buckets : list (f64 * Z);
}.
Fixpoint cumulate (acc : Z) (bounds : list f64) (buckets : list Z) : list (f64 * Z) :=
  match bounds, buckets with
  | bound :: bounds, b :: buckets =>
      let acc := u64_add acc b in (bound, acc) :: cumulate acc bounds buckets
  | _, _ => []
  end.
Definition histogram_snapshot (name : string) (h : DurationHistogram) : HistogramSnapshot :=
  mkHistogramSnapshot name (h_count h) (h_sum_seconds h) (cumulate 0 TASK_DURATION_BUCKETS (h_buckets h)).

Record LiveMetrics := mkLiveMetrics {
  node_metrics : gmap NodeId NodeMetricsSnapshot;
  restart_counts : gmap string Z;
  task_spawn_counts : gmap string Z;
  task_durations : gmap string DurationHistogram;
}.
Definition LiveMetrics_new : LiveMetrics := mkLiveMetrics ∅ ∅ ∅ ∅.
Definition metrics_update (node : NodeId) (res : NodeResources) (stats : list ContainerStats) (lm : LiveMetrics) : LiveMetrics :=
  mkLiveMetrics (<[node := mkNodeMetrics res stats]> (node_metrics lm)) (restart_counts lm) (task_spawn_counts lm) (task_durations lm).
Definition count_up (k : string) (m : gmap string Z) : gmap string Z := <[k := u64_add (default 0 (m !! k)) 1]> m.
Definition record_restart (service : string) (lm : LiveMetrics) : LiveMetrics :=
  mkLiveMetrics (node_metrics lm) (count_up service (restart_counts lm)) (task_spawn_counts lm) (task_durations lm).
Definition record_task_spawn (task : string) (lm : LiveMetrics) : LiveMetrics :=
  mkLiveMetrics (node_metrics lm) (restart_counts lm) (count_up task (task_spawn_counts lm)) (task_durations lm).
Definition record_task_duration (task : string) (dur : Z) (lm : LiveMetrics) : LiveMetrics :=
  mkLiveMetrics (node_metrics lm) (restart_counts lm) (task_spawn_counts lm)
    (<[task := histogram_record dur (default DurationHistogram_new (task_durations lm !! task))]> (task_durations lm)).
Definition task_duration_snapshots `{HashIter} (lm : LiveMetrics) : list HistogramSnapshot :=
  (λ '(name, h), histogram_snapshot name h) <$> hm_iter (task_durations lm).

(** * Log subscribers *)

Record LogChan := mkLogChan {
  lc_closed : bool;
  lc_capacity : nat;
  lc_queue : list (list LogLine);
}.
Abbreviation LogSubscribers := (gmap AllocId (list LogChan)).
Definition try_send (lines : list LogLine) (ch : LogChan) : LogChan :=
  if lc_closed ch || bool_decide (lc_capacity ch ≤ length (lc_queue ch))%nat then ch
  else mkLogChan (lc_closed ch) (lc_capacity ch) (lc_queue ch ++ [lines]).
Definition forward_lines (aid : AllocId) (lines : list LogLine) (subs : LogSubscribers) : LogSubscribers :=
  match subs !! aid with
  | Some l => <[aid := try_send lines <$> filterb (λ ch, negb (lc_closed ch)) l]> subs
  | None => subs
  end.

(** * Reports *)

(** What the report processor shares with other tasks. *)
Record Shared := mkShared {
  sh_tracker : HeartbeatTracker;
  sh_metrics : LiveMetrics;
  sh_subscribers : LogSubscribers;
}.

Definition wall : M Z := λ w, Some (w_wall w, w).

Section report.
Context `{HI : HashIter} (env : nat → EnvStep).

(** The address of a container that reported a port but no address. *)
Definition node_port_address (f : FsmState) (aid : AllocId) (port : Z) : option SocketAddr :=
  node ← alloc_node <$> allocs f !! aid;
  n ← find_first (λ n, bool_decide (mill_id n = node)) (hm_values (nodes f));
  Some (SocketAddr_new (sock_ip (fn_address n)) port).
Definition started_address (f : FsmState) (aid : AllocId) (port : option Z) (address : option SocketAddr)
    : option SocketAddr :=
  match address with
  | Some a => Some a
  | None => port ≫= node_port_address f aid
  end.
(** The name of a task that has a start time, and how long it ran. *)
Definition task_elapsed (f : FsmState) (aid : AllocId) (t : Z) : option (string * Z) :=
  a ← allocs f !! aid;
  if decide (alloc_kind a = KTask) then
    started ← alloc_started_at a;
    if started <=? t then Some (alloc_name a, t - started) else None
  else None.
Definition node_raft_id (f : FsmState) (node : NodeId) : option Z :=
  fst <$> find_first (λ '(_, n), bool_decide (mill_id n = node)) (hm_iter (nodes f)).

(** The command a report leads to, and the shared state afterwards. *)
Definition report_command (r : NodeReport) (sh : Shared) : M (option Command * Shared) :=
  match r with
  | RunStarted aid host_port address =>
      address ← read_fsm (λ f, started_address f aid host_port address);
      t ← wall;
      mret (Some (AllocRunning aid address (Some t)), sh)
  | RunFailed aid reason => mret (Some (SetAllocStatus aid (Failed reason)), sh)
  | StoppedReport aid exit_code =>
      t ← wall;
      info ← read_fsm (λ f, task_elapsed f aid t);
      let sh := match info with
                | Some (name, d) =>
                    mkShared (sh_tracker sh) (record_task_duration name d (sh_metrics sh)) (sh_subscribers sh)
                | None => sh
                end in
      mret (Some (SetAllocStatus aid (Stopped exit_code)), sh)
  | StatusUpdate aid status => mret (Some (SetAllocStatus aid status), sh)
  | HeartbeatReport hb =>
      id ← read_fsm (λ f, node_raft_id f (hb_node_id hb));
      match id with
      | Some id =>
          t ← now;
          mret (Some (NodeHeartbeat id (hb_alloc_statuses hb)),
                mkShared (tracker_record id t (sh_tracker sh))
                  (metrics_update (hb_node_id hb) (hb_resources hb) (hb_stats hb) (sh_metrics sh)) (sh_subscribers sh))
      | None => mret (None, sh)
      end
  | LogLines aid lines =>
      mret (None, mkShared (sh_tracker sh) (sh_metrics sh) (forward_lines aid lines (sh_subscribers sh)))
  | PullComplete _ | PullFailed _ _ => mret (None, sh)
  end.
Definition process_report (r : NodeReport) (sh : Shared) : M (result unit NodeError * Shared) :=
  '(cmd, sh) ← report_command r sh;
  match cmd with
  | None => mret (Ok tt, sh)
  | Some cmd =>
      res ← propose env cmd;
      mret (match res with Ok _ => Ok tt | Err e => Err (RaftErr e) end, sh)
  end.
(** The report processor: one report after the other; a failed proposal is only logged. *)
Fixpoint process_reports (l : list NodeReport) (sh : Shared) : M Shared :=
  match l with
  | [] => mret sh
  | r :: l => '(_, sh) ← process_report r sh; process_reports l sh
  end.
End report.

(** * Lemmas *)

(** ** Buckets *)

Definition bump_bucket (secs : f64) (p : f64 * Z) : f64 * Z := (p.1, if f64_leb secs p.1 then u64_add p.2 1 else p.2).

Lemma u64_add_assoc_swap a b : u64_add (u64_add a 1) b = u64_add (u64_add a b) 1.
Proof. unfold u64_add, wrap64. rewrite !Z.add_mod_idemp_l by lia. f_equal. lia. Qed.
Lemma u64_add_succ_r a b : u64_add a (u64_add b 1) = u64_add (u64_add a b) 1.
Proof. unfold u64_add, wrap64. rewrite Z.add_mod_idemp_l, Z.add_mod_idemp_r by lia. f_equal. lia. Qed.
Lemma cumulate_shift acc bounds buckets :
  cumulate (u64_add acc 1) bounds buckets = (λ '(b, n), (b, u64_add n 1)) <$> cumulate acc bounds buckets.
Proof.
  revert acc buckets. induction bounds as [|b bounds IH]; intros acc [|k buckets]; simpl; try done.
  by rewrite u64_add_assoc_swap, IH.
Qed.
Lemma cumulate_bounds acc bounds buckets p : p ∈ cumulate acc bounds buckets → p.1 ∈ bounds.
Proof.
  revert acc buckets. induction bounds as [|b bounds IH]; intros acc [|k buckets]; simpl; try by intros ?%elem_of_nil.
  intros [->|Hin]%elem_of_cons; [left|right; by eapply IH].
Qed.

(** Recording a value adds one to the cumulative counts of exactly the bounds it does not exceed. *)
Lemma cumulate_record secs acc bounds buckets :
  StronglySorted (λ x y, f64_leb secs x = true → f64_leb secs y = true) bounds → length bounds = length buckets →
  cumulate acc bounds (record_bucket secs bounds buckets) = bump_bucket secs <$> cumulate acc bounds buckets.
Proof.
  intros Hs. revert acc buckets. induction Hs as [|b bounds Hs IH Hb]; intros acc [|k buckets] Hl; simplify_eq/=; [done|].
  unfold bump_bucket at 1. simpl. destruct (f64_leb secs b) eqn:E; simpl; f_equal.
  - by rewrite u64_add_succ_r.
  - rewrite u64_add_succ_r, cumulate_shift. apply list_fmap_ext. intros i [c n] Hi%list_elem_of_lookup_2.
    unfold bump_bucket. simpl. rewrite (proj1 (Forall_forall _ _) Hb c); [done| |done]. by apply (cumulate_bounds _ _ _ _ Hi).
  - by apply IH.
Qed.
Lemma record_bucket_length secs bounds buckets : length (record_bucket secs bounds buckets) = length buckets.
Proof.
  revert buckets. induction bounds as [|b bounds IH]; intros [|k buckets]; simpl; try done.
  destruct (f64_leb secs b); simpl; by rewrite ?IH.
Qed.

Lemma leb_trans_not_gtb x y z :
  f64_gtb y z = false → f64_is_nan z = false → f64_leb x y = true → f64_leb x z = true.
Proof.
  intros Hyz Hz Hxy. destruct (f64_leb_not_nan _ _ Hxy) as [Hx Hy]. apply f64_not_gtb_leb; [done..|].
  eapply f64_not_gtb_trans; [..|exact Hyz]; try done.
  unfold f64_leb, SFleb in Hxy. unfold f64_gtb. by destruct (SFcompare x y) as [[]|].
Qed.
Lemma buckets_sorted secs :
  StronglySorted (λ x y, f64_leb secs x = true → f64_leb secs y = true) TASK_DURATION_BUCKETS.
Proof.
  assert (StronglySorted (λ x y, f64_gtb x y = false ∧ f64_is_nan y = false) TASK_DURATION_BUCKETS) as Hs.
  { repeat constructor. }
  induction Hs as [|b bounds Hs IH Hb]; constructor; [done|].
  eapply Forall_impl; [exact Hb|]. intros y [? ?] ?. by eapply leb_trans_not_gtb.
Qed.

Lemma histogram_length durs :
  length TASK_DURATION_BUCKETS = length (h_buckets (foldl (λ h d, histogram_record d h) DurationHistogram_new durs)).
Proof.
  induction durs as [|d durs IH] using rev_ind; [done|]. rewrite foldl_app. cbn [foldl histogram_record h_buckets].
  by rewrite record_bucket_length.
Qed.

(** * Theorems *)

(** after any sequence of recorded task durations, a snapshot of the histogram has their number as its
    count, and for each of the nine bounds the number of durations that do not exceed it, both modulo
    the width of the counters. *)
Theorem histogram_counts name durs :
  let snap := histogram_snapshot name (foldl (λ h d, histogram_record d h) DurationHistogram_new durs) in
  hs_count snap = Z.of_nat (length durs) mod 2 ^ 64 ∧
  hs_buckets snap =
    (λ b, (b, Z.of_nat (length (filterb (λ d, f64_leb (as_secs_f64 d) b) durs)) mod 2 ^ 64)) <$> TASK_DURATION_BUCKETS.
Proof.
  induction durs as [|d durs IH] using rev_ind; [by vm_compute|].
  cbn zeta in *. unfold histogram_snapshot in *. cbn [hs_count hs_buckets] in *. destruct IH as [IHc IHb].
  rewrite foldl_app. cbn [foldl histogram_record h_count h_buckets]. set (h := foldl _ _ durs) in *. split.
  - rewrite IHc, length_app. unfold u64_add, wrap64. rewrite Z.add_mod_idemp_l by lia. f_equal. simpl. lia.
  - rewrite cumulate_record by first [apply buckets_sorted|apply histogram_length].
    rewrite IHb, <-list_fmap_compose. apply list_fmap_ext. intros i b _. unfold bump_bucket. simpl. f_equal.
    rewrite filterb_app, length_app. simpl. destruct (f64_leb (as_secs_f64 d) b); simpl; [|by rewrite Nat.add_0_r].
    unfold u64_add, wrap64. rewrite Z.add_mod_idemp_l by lia. f_equal. lia.
Qed.

(** the report of a started container, when the proposal goes through undisturbed. An allocation that was
    being prepared is then recorded as running since now, with the address its node reported; when the
    node reported only a port, with that port on the address of the node it was scheduled on. *)
Theorem started_report_recorded `{HashIter} env aid port address sh w a n :
  es_before (env (w_tick w)) = [] → es_after (env (w_tick w)) = [] → es_ok (env (w_tick w)) = true →
  allocs (w_fsm w) !! aid = Some a → alloc_status a = Pulling ∨ alloc_status a = Starting →
  nodes (w_fsm w) !! raft_id n = Some n → mill_id n = alloc_node a →
  (∀ k m, nodes (w_fsm w) !! k = Some m → mill_id m = mill_id n → m = n) →
  ∃ w', process_report env (RunStarted aid port address) sh w = Some ((Ok tt, sh), w') ∧
    allocs (w_fsm w') !! aid =
      Some (with_running (match address with
                          | Some ad => Some ad
                          | None => SocketAddr_new (sock_ip (fn_address n)) <$> port
                          end) (Some (w_wall w)) a).
Proof.
  intros Hb Hf Hok Ha Hst Hn Hm Huniq.
  assert (started_address (w_fsm w) aid port address =
          match address with Some ad => Some ad | None => SocketAddr_new (sock_ip (fn_address n)) <$> port end) as Haddr.
  { unfold started_address. destruct address as [ad|]; [done|]. destruct port as [p|]; [|done]. simpl.
    unfold node_port_address. rewrite Ha. simpl.
    destruct (find_first_is_Some (λ m, bool_decide (mill_id m = alloc_node a)) (hm_values (nodes (w_fsm w))) n) as [m Hm'].
    { apply elem_of_hm_values. by exists (raft_id n). }
    { by apply bool_decide_eq_true. }
    rewrite Hm'. apply find_first_Some in Hm' as [Hin Hm'%bool_decide_eq_true].
    apply elem_of_hm_values in Hin as [k Hk]. by rewrite (Huniq k m Hk) by congruence. }
  eexists. split.
  - unfold process_report, report_command. unfold mbind, M_bind. simpl. rewrite Haddr.
    unfold propose, await, record. unfold mbind, M_bind. simpl. rewrite Hb, Hok. simpl. rewrite Ha.
    destruct Hst as [-> | ->]; simpl; rewrite Hf; reflexivity.
  - simpl. by rewrite lookup_insert_eq.
Qed.

(** * Examples and witnesses *)

Module ReportExamples.
Import FsmExamples.
Definition quiet_env (n : nat) : EnvStep := mkEnvStep [] [] (λ r, r) 1 5000000000 true "".
Definition no_shared : Shared := mkShared ∅ LiveMetrics_new ∅.
(** One running task, and the same cluster with a service being prepared on the second node. *)
Definition task_world : World :=
  mkWorld (@apply_commands stored_order ex_state
             [AllocScheduled (mkAllocId "job-1") 1 "job" KTask None (mkAllocResources (f64_of_Z 1) (2 ^ 30));
              AllocRunning (mkAllocId "job-1") None (Some 0)]) CommandRouter_new 0 5000000000 0 0 [].
End ReportExamples.
Import FsmExamples ReportExamples.

(** a killed task is reported as stopped twice, by the stop command and by the task that waits for the
    container to exit. The second report is not recognised: the duration enters the histogram twice
    and the recorded exit code is the one of the second report. *)
Theorem duplicate_stop_counted_twice :
  ∃ sh w', @process_reports stored_order quiet_env
      [StoppedReport (mkAllocId "job-1") 0; StoppedReport (mkAllocId "job-1") 137] no_shared task_world = Some (sh, w') ∧
    alloc_status <$> allocs (w_fsm w') !! mkAllocId "job-1" = Some (Stopped 137) ∧
    h_count <$> task_durations (sh_metrics sh) !! "job"%string = Some 2.
Proof. eexists _, _. split; [vm_compute; reflexivity|]. split; vm_compute; reflexivity. Qed.

Lemma started_report_recorded_witness :
  ∃ w', @process_report stored_order quiet_env (RunStarted (mkAllocId "web-1") (Some 8080) None) no_shared task_world =
      Some ((Ok tt, no_shared), w') ∧
    alloc_address <$> allocs (w_fsm w') !! mkAllocId "web-1" = Some (Some (SocketAddr_new (sock_ip ex_addr) 8080)).
Proof.
  assert (∀ k m, nodes (w_fsm task_world) !! k = Some m → mill_id m = mkNodeId "node-2" →
    m = mkFsmNode 2 (mkNodeId "node-2") ex_addr ex_res NodeDown_ None None None None) as Huniq.
  { intros k m Hk Hm. apply elem_of_map_to_list in Hk.
    assert (map_to_list (nodes (w_fsm task_world)) = [(1, ex_node1); (2, mkFsmNode 2 (mkNodeId "node-2") ex_addr ex_res NodeDown_ None None None None)] ∨
            map_to_list (nodes (w_fsm task_world)) = [(2, mkFsmNode 2 (mkNodeId "node-2") ex_addr ex_res NodeDown_ None None None None); (1, ex_node1)]) as Hl
      by first [left; vm_compute; reflexivity|right; vm_compute; reflexivity].
    destruct Hl as [Hl|Hl]; rewrite Hl in Hk; rewrite !elem_of_cons, elem_of_nil in Hk;
      destruct Hk as [Hk|[Hk|[]]]; injection Hk as -> ->; (reflexivity || discriminate). }
  destruct (@started_report_recorded stored_order quiet_env (mkAllocId "web-1") (Some 8080) None no_shared task_world ex_web1
    (mkFsmNode 2 (mkNodeId "node-2") ex_addr ex_res NodeDown_ None None None None)) as (w' & H1 & H2).
  - reflexivity.
  - reflexivity.
  - reflexivity.
  - vm_compute. reflexivity.
  - left. reflexivity.
  - vm_compute. reflexivity.
  - reflexivity.
  - exact Huniq.
  - exists w'. split; [exact H1|]. rewrite H2. reflexivity.
Defined.
