(* ===== verification/Routes.v ===== *)
(** Where traffic goes: the proxy's route table and request handling ([src/crates/proxy/src/proxy]), the DNS
    server ([src/crates/net/src/dns]), and the routes and records the primary computes for them from the
    cluster state ([src/crates/node/src/primary/proxy.rs], [src/crates/node/src/primary/dns.rs]). Parsing
    and printing of HTTP and DNS messages is third-party code; messages are records of what the source
    reads and writes. The theorems show that a lookup finds the longest matching prefix, that requests go
    only to active allocations of the service that owns the route, and when they are refused, and that DNS answers are the addresses of the active allocations. *)

From Stdlib Require Import Sorting.Sorted.
From S2P Require Import Prelude Types Fsm Rpc World Report.
Local Open Scope Z_scope.

(** * The route table (proxy/routes.rs) *)

Record RouteEntry := mkRouteEntry {
  re_path : string;
  re_backend : SocketAddr;
  re_websocket : bool;
}.
(** [RouteMatch] has the fields of an entry. *)
Abbreviation RouteMatch := RouteEntry.
Abbreviation RouteTable := (gmap string (list RouteEntry)).

Definition entry_of (r : ProxyRoute) : RouteEntry := mkRouteEntry (pr_path r) (pr_backend r) (pr_websocket r).
Definition path_len (e : RouteEntry) : nat := String.length (re_path e).
(** [sort_by]: a stable sort, longest path first. *)
Fixpoint insert_entry (e : RouteEntry) (l : list RouteEntry) : list RouteEntry :=
  match l with
  | [] => [e]
  | e' :: l' => if decide (path_len e' ≤ path_len e)%nat then e :: l else e' :: insert_entry e l'
  end.
Definition sort_entries (l : list RouteEntry) : list RouteEntry := foldr insert_entry [] l.
Definition push_route (m : RouteTable) (r : ProxyRoute) : RouteTable :=
  <[pr_hostname r := default [] (m !! pr_hostname r) ++ [entry_of r]]> m.
Definition RouteTable_new (proxy_routes : list ProxyRoute) : RouteTable :=
  sort_entries <$> foldl push_route ∅ proxy_routes.
Definition route_lookup (t : RouteTable) (hostname path : string) : option RouteMatch :=
  entries ← t !! hostname;
  find_first (λ e, starts_with (re_path e) path) entries.
Definition hostnames `{HashIter} (t : RouteTable) : list string := hm_keys t.

(** * Routes and records of the cluster (primary/proxy.rs, primary/dns.rs) *)

Section compute.
Context `{HI : HashIter}.

Definition service_addresses (f : FsmState) (name : string) : list SocketAddr :=
  filter_map alloc_address
    (filterb (λ a, bool_decide (alloc_name a = name) && is_active (alloc_status a) && bool_decide (is_Some (alloc_address a)))
       (hm_values (allocs f))).
Definition service_routes (f : FsmState) (service : string * ServiceDef) : list ProxyRoute :=
  let '(name, def) := service in
  let addrs := service_addresses f name in
  mjoin ((λ rd, (λ backend, mkProxyRoute (rd_hostname rd) (rd_path rd) backend (rd_websocket rd)) <$> addrs) <$> sd_routes def).
Definition compute_proxy_routes (f : FsmState) : list ProxyRoute :=
  match config f with
  | None => []
  | Some c => mjoin (service_routes f <$> hm_iter (services c))
  end.

Definition group_alloc (groups : gmap string (list SocketAddr)) (a : Alloc) : gmap string (list SocketAddr) :=
  if negb (is_active (alloc_status a)) then groups
  else match alloc_address a with
       | Some addr => <[alloc_name a := default [] (groups !! alloc_name a) ++ [addr]]> groups
       | None => groups
       end.
Definition compute_dns_records (f : FsmState) : list DnsRecord :=
  (λ '(name, addresses), mkDnsRecord name addresses) <$> hm_iter (foldl group_alloc ∅ (hm_values (allocs f))).
End compute.

(** * DNS (net/dns) *)

Inductive RecordType := TypeA | TypeOther (code : Z).
Inductive ResponseCode := NoError | FormErr | ServFail | NXDomain.
#[global] Instance RecordType_eq_dec : EqDecision RecordType.
Proof. solve_decision. Defined.
Record DnsQuery := mkDnsQuery {
  dq_name : string;
  dq_type : RecordType;
}.
Record DnsAnswer := mkDnsAnswer {
  da_name : string;
  da_ttl : Z;
  da_address : Z;
}.
Record DnsMessage := mkDnsMessage {
  dm_id : Z;
  dm_response : bool;
  dm_recursion_desired : bool;
  dm_recursion_available : bool;
  dm_code : ResponseCode;
  dm_queries : list DnsQuery;
  dm_answers : list DnsAnswer;
}.
Inductive QueryResult :=
| QResponse (m : DnsMessage)
| QForward.

Definition set_records (dns_records : list DnsRecord) : gmap string (list IpAddr) :=
  foldl (λ m r, <[dr_name r := sock_ip <$> dr_addresses r]> m) ∅ dns_records.
Definition response_from (query : DnsMessage) : DnsMessage :=
  mkDnsMessage (dm_id query) true (dm_recursion_desired query) true NoError (dm_queries query) [].
Definition set_code (c : ResponseCode) (m : DnsMessage) : DnsMessage :=
  mkDnsMessage (dm_id m) (dm_response m) (dm_recursion_desired m) (dm_recursion_available m) c (dm_queries m) (dm_answers m).
Definition add_answers (l : list DnsAnswer) (m : DnsMessage) : DnsMessage :=
  mkDnsMessage (dm_id m) (dm_response m) (dm_recursion_desired m) (dm_recursion_available m) (dm_code m) (dm_queries m)
    (dm_answers m ++ l).
Definition mill_suffix : string := ".mill.".
(** [name_ok]: whether [Name::from_utf8] accepts a name. *)
Definition handle_query (name_ok : string → bool) (msg : DnsMessage) (records : gmap string (list IpAddr)) : QueryResult :=
  match dm_queries msg with
  | [] => QResponse (set_code FormErr (response_from msg))
  | query :: _ =>
      let name := dq_name query in
      if negb (ends_with mill_suffix name) then QForward
      else
        let resp := response_from msg in
        if negb (bool_decide (dq_type query = TypeA)) then QResponse (set_code NoError resp)
        else
          let lookup_key := trim_end_matches (String.length name) mill_suffix name in
          match records !! lookup_key with
          | Some addrs =>
              QResponse (add_answers
                (filter_map (λ addr, match addr with
                                     | V4 ip => if name_ok name then Some (mkDnsAnswer name 5 ip) else None
                                     | V6 _ => None
                                     end) addrs) (set_code NoError resp))
          | None => QResponse (set_code NXDomain resp)
          end
  end.

(** * Requests (proxy/forward.rs, proxy/http.rs, proxy/https.rs) *)

Record HttpRequest := mkHttpRequest {
  rq_method : string;
  rq_path : string;
  rq_path_and_query : option string;
  rq_uri_host : option string;
  rq_headers : list (string * string);
}.
Inductive HttpResponse :=
| Text (status : Z) (body : string)
| Redirect (location : string)
| Upgraded (backend : SocketAddr)
| Forwarded (backend : SocketAddr) (method path_and_query : string) (headers : list (string * string)).

(** A header map: [get] is the first value, [insert] replaces all values, [remove] drops them. *)
Definition header_get (name : string) (h : list (string * string)) : option string :=
  snd <$> find_first (λ '(n, _), bool_decide (n = name)) h.
Definition header_remove (name : string) (h : list (string * string)) : list (string * string) :=
  filterb (λ '(n, _), negb (bool_decide (n = name))) h.
Definition header_insert (name value : string) (h : list (string * string)) : list (string * string) :=
  header_remove name h ++ [(name, value)].

Definition hop_by_hop : list string :=
  ["connection"; "keep-alive"; "proxy-authenticate"; "proxy-authorization"; "te"; "trailers"; "transfer-encoding"; "upgrade"].

Section requests.
(** [HeaderValue::to_str] succeeds on a value, and [HeaderValue::from_str] accepts a text; the address of
    a client is printed by the standard library. *)
Context (readable : string → bool) (writable : string → bool) (show_ip : IpAddr → string).

Definition header_str (name : string) (h : list (string * string)) : option string :=
  v ← header_get name h;
  if readable v then Some v else None.
Definition insert_if (name value : string) (h : list (string * string)) : list (string * string) :=
  if writable value then header_insert name value h else h.
Definition forward_headers (client_addr : SocketAddr) (is_tls : bool) (h : list (string * string)) : list (string * string) :=
  let forwarded_host := header_str "host" h in
  let client_ip := show_ip (sock_ip client_addr) in
  let xff_value := match header_str "x-forwarded-for" h with
                   | Some existing => (existing +:+ ", " +:+ client_ip)%string
                   | None => client_ip
                   end in
  let h := insert_if "x-forwarded-for" xff_value h in
  let h := insert_if "x-real-ip" client_ip h in
  let h := insert_if "x-forwarded-proto" (if is_tls then "https" else "http")%string h in
  let h := match forwarded_host with Some host => insert_if "x-forwarded-host" host h | None => h end in
  foldl (λ h name, header_remove name h) h hop_by_hop.

Definition lower (c : Ascii.ascii) : Ascii.ascii :=
  let n := Ascii.nat_of_ascii c in
  if ((65 <=? n) && (n <=? 90))%nat then Ascii.ascii_of_nat (n + 32) else c.
Fixpoint ascii_lower (s : string) : string :=
  match s with
  | EmptyString => EmptyString
  | String c s => String (lower c) (ascii_lower s)
  end.
Definition is_upgrade_request (req : HttpRequest) : bool :=
  match header_str "upgrade" (rq_headers req) with
  | Some v => bool_decide (ascii_lower v = "websocket"%string)
  | None => false
  end.
(** The part of a text before the first colon. *)
Definition before_colon (s : string) : string :=
  match str_find ":" s with Some i => str_take i s | None => s end.
Definition extract_host (req : HttpRequest) : option string :=
  match header_str "host" (rq_headers req) with
  | Some host =>
      let hostname := before_colon host in
      if str_is_empty hostname then rq_uri_host req else Some hostname
  | None => rq_uri_host req
  end.
(** The request as the backend gets it. *)
Definition forward_request (req : HttpRequest) (backend client_addr : SocketAddr) (is_tls : bool) : HttpResponse :=
  Forwarded backend (rq_method req) (default "/"%string (rq_path_and_query req))
    (forward_headers client_addr is_tls (rq_headers req)).
Definition https_redirect (host path : string) : HttpResponse := Redirect ("https://" +:+ host +:+ path)%string.
Definition healthz_response : HttpResponse := Text 200 ("ok" +:+ String (Ascii.ascii_of_nat 10) "")%string.
Definition line (s : string) : string := (s +:+ String (Ascii.ascii_of_nat 10) "")%string.

(** [backend_ok]: whether the backend, or the upgrade, could be reached. The second result is the route a
    metric is recorded for. *)
Definition proxy_to_backend (backend_ok : SocketAddr → bool) (req : HttpRequest) (hostname : string) (table : RouteTable)
    (client_addr : SocketAddr) (is_tls : bool) : HttpResponse * option (string * string) :=
  match route_lookup table hostname (rq_path req) with
  | Some m =>
      let key := Some (hostname, re_path m) in
      if re_websocket m && is_upgrade_request req then
        (if backend_ok (re_backend m) then Upgraded (re_backend m) else Text 502 (line "websocket upgrade failed"), key)
      else
        (if backend_ok (re_backend m) then forward_request req (re_backend m) client_addr is_tls
         else Text 502 (line "backend unavailable"), key)
  | None => (Text 404 (line "not found"), None)
  end.
(** [challenges]: the ACME challenges that are open. [has_cert]: the hostnames with a certificate. *)
Definition handle_http_request (challenges : gmap string string) (has_cert : string → bool) (backend_ok : SocketAddr → bool)
    (table : RouteTable) (client_addr : SocketAddr) (req : HttpRequest) : HttpResponse * option (string * string) :=
  match strip_prefix "/.well-known/acme-challenge/" (rq_path req) ≫= (λ token, challenges !! token) with
  | Some key_auth => (Text 200 key_auth, None)
  | None =>
      if bool_decide (rq_path req = "/healthz"%string) && bool_decide (rq_method req = "GET"%string) then (healthz_response, None)
      else
        match extract_host req with
        | None => (Text 400 (line "missing host header"), None)
        | Some hostname =>
            if has_cert hostname then (https_redirect hostname (default "/"%string (rq_path_and_query req)), None)
            else proxy_to_backend backend_ok req hostname table client_addr false
        end
  end.
Definition handle_https_request (backend_ok : SocketAddr → bool) (table : RouteTable) (client_addr : SocketAddr) (req : HttpRequest)
    : HttpResponse * option (string * string) :=
  match extract_host req with
  | None => (Text 400 (line "missing host header"), None)
  | Some hostname => proxy_to_backend backend_ok req hostname table client_addr true
  end.
End requests.

(** * Request metrics (proxy/metrics.rs) *)

Definition BUCKET_BOUNDS : list f64 :=
  ((λ ms, f64_div (f64_of_Z ms) (f64_of_Z 1000)) <$> [5; 10; 25; 50; 100; 250; 500; 1000; 2500; 5000; 10000]) ++ [S754_infinity false].
Record RouteCounters := mkRouteCounters {
  request_count : Z;
  latency_sum_us : Z;
  rc_buckets : list Z;
}.
Definition RouteCounters_new : RouteCounters := mkRouteCounters 0 0 (replicate 12 0).
Abbreviation ProxyMetrics := (gmap (string * string) RouteCounters).
Definition metrics_record (hostname path : string) (latency : Z) (m : ProxyMetrics) : ProxyMetrics :=
  let c := default RouteCounters_new (m !! (hostname, path)) in
  <[(hostname, path) :=
    mkRouteCounters (u64_add (request_count c) 1) (u64_add (latency_sum_us c) (wrap64 (latency / 1000)))
      (record_bucket (as_secs_f64 latency) BUCKET_BOUNDS (rc_buckets c))]> m.
Record RouteMetricsSnapshot := mkRouteMetricsSnapshot {
  rm_hostname : string;
  rm_path : string;
  rm_request_count : Z;
  rm_latency_sum_seconds : f64;
  rm_buckets : list (f64 * Z);
}.
Definition metrics_snapshot `{HashIter} (m : ProxyMetrics) : list RouteMetricsSnapshot :=
  (λ '((hostname, path), c),
    mkRouteMetricsSnapshot hostname path (request_count c) (f64_div (f64_of_Z (latency_sum_us c)) (f64_of_Z 1000000))
      (cumulate 0 BUCKET_BOUNDS (rc_buckets c))) <$> hm_iter m.

(** * Lemmas *)

(** ** The order of entries *)

Lemma insert_entry_perm e l : insert_entry e l ≡ₚ e :: l.
Proof.
  induction l as [|x l IH]; simpl; [done|]. case_decide; [done|]. rewrite IH. apply Permutation_swap.
Qed.
Lemma sort_entries_perm l : sort_entries l ≡ₚ l.
Proof. induction l as [|e l IH]; simpl; [done|]. by rewrite insert_entry_perm, IH. Qed.
Lemma sort_entries_sorted l : StronglySorted (λ a b, path_len b ≤ path_len a)%nat (sort_entries l).
Proof.
  induction l as [|e l IH]; simpl; [constructor|]. induction IH as [|x l' Hs IHs Hx]; simpl; [by repeat constructor|].
  case_decide as Hle.
  - constructor; [by constructor|]. constructor; [done|]. eapply Forall_impl; [exact Hx|]. simpl. lia.
  - constructor; [done|]. rewrite Forall_forall in *. intros y Hy. rewrite insert_entry_perm, elem_of_cons in Hy.
    destruct Hy as [->|Hy]; [lia|by apply Hx].
Qed.
(** Among equally long paths the first one stays first. *)
Lemma sort_entries_stable n l : filterb (λ e, bool_decide (path_len e = n)) (sort_entries l) = filterb (λ e, bool_decide (path_len e = n)) l.
Proof.
  induction l as [|e l IH]; simpl; [done|]. rewrite <-IH. clear IH.
  pose proof (sort_entries_sorted l) as Hs. induction Hs as [|x l' Hs IHs Hx]; [done|].
  cbn [insert_entry]. destruct (decide (path_len x ≤ path_len e)%nat) as [Hle|Hle]; [done|]. cbn [filterb]. rewrite IHs. cbn [filterb].
  destruct (bool_decide (path_len e = n)) eqn:E1, (bool_decide (path_len x = n)) eqn:E2; try done.
  apply bool_decide_eq_true in E1, E2. lia.
Qed.

Lemma find_first_sorted (p : RouteEntry → bool) l e :
  StronglySorted (λ a b, path_len b ≤ path_len a)%nat l → find_first p l = Some e →
  ∀ e', e' ∈ l → p e' = true → (path_len e' ≤ path_len e)%nat.
Proof.
  induction 1 as [|x l Hs IH Hx]; simpl; [done|]. destruct (p x) eqn:Ep.
  - intros [= ->] e' [->|Hin]%elem_of_cons _; [done|]. rewrite Forall_forall in Hx. by apply Hx.
  - intros Hf e' [->|Hin]%elem_of_cons Hp; [congruence|]. by apply IH.
Qed.

(** ** Grouping by hostname *)

Definition entries_for (host : string) (rs : list ProxyRoute) : list RouteEntry :=
  entry_of <$> filterb (λ r, bool_decide (pr_hostname r = host)) rs.
Lemma push_routes_lookup rs (m0 : RouteTable) host :
  default [] (foldl push_route m0 rs !! host) = default [] (m0 !! host) ++ entries_for host rs.
Proof.
  revert m0. induction rs as [|r rs IH]; intros m0; simpl; [by rewrite app_nil_r|]. rewrite IH. unfold push_route, entries_for. simpl.
  rewrite lookup_insert. case_decide as Hh.
  - rewrite bool_decide_eq_true_2 by done. simpl. subst. by rewrite <-app_assoc.
  - by rewrite bool_decide_eq_false_2.
Qed.
Lemma route_lookup_find rs host path :
  route_lookup (RouteTable_new rs) host path =
  find_first (λ e, starts_with (re_path e) path) (sort_entries (entries_for host rs)).
Proof.
  unfold route_lookup, RouteTable_new. rewrite lookup_fmap. pose proof (push_routes_lookup rs ∅ host) as Hl.
  rewrite lookup_empty in Hl. simpl in Hl. destruct (foldl push_route ∅ rs !! host); simpl in *; by subst; rewrite <-?Hl.
Qed.
Lemma elem_of_entries_for host rs e :
  e ∈ entries_for host rs ↔ ∃ r, r ∈ rs ∧ pr_hostname r = host ∧ e = entry_of r.
Proof.
  unfold entries_for. rewrite list_elem_of_fmap. split.
  - intros (r & -> & [Hr Hh%bool_decide_eq_true]%elem_of_filterb). eauto.
  - intros (r & Hr & Hh & ->). exists r. split; [done|]. apply elem_of_filterb. split; [done|]. by apply bool_decide_eq_true.
Qed.

(** ** Routes and records of a state *)

Section compute_lemmas.
Context `{HI : HashIter}.

(** An active allocation of a service that has an address. *)
Definition serves (f : FsmState) (name : string) (addr : SocketAddr) : Prop :=
  ∃ aid a, allocs f !! aid = Some a ∧ alloc_name a = name ∧ is_active (alloc_status a) = true ∧ alloc_address a = Some addr.

Lemma elem_of_service_addresses f name addr : addr ∈ service_addresses f name ↔ serves f name addr.
Proof.
  unfold service_addresses, serves. rewrite elem_of_filter_map. split.
  - intros (a & [[aid Ha]%elem_of_hm_values Hp]%elem_of_filterb & Haddr). exists aid, a.
    apply andb_true_iff in Hp as [[Hn%bool_decide_eq_true Hact]%andb_true_iff _]. done.
  - intros (aid & a & Ha & Hn & Hact & Haddr). exists a. split; [|done]. apply elem_of_filterb.
    split; [apply elem_of_hm_values; by exists aid|]. rewrite Hact, !bool_decide_eq_true_2 by (rewrite ?Haddr; eauto). done.
Qed.
Lemma elem_of_proxy_routes f r :
  r ∈ compute_proxy_routes f ↔
  ∃ c name def rd, config f = Some c ∧ services c !! name = Some def ∧ rd ∈ sd_routes def ∧
    rd_hostname rd = pr_hostname r ∧ rd_path rd = pr_path r ∧ rd_websocket rd = pr_websocket r ∧ serves f name (pr_backend r).
Proof.
  unfold compute_proxy_routes. destruct (config f) as [c|]; [|split; [by intros ?%elem_of_nil|by intros (? & ? & ? & ? & ? & _)]].
  rewrite list_elem_of_join. split.
  - intros (l & Hr & ([name def] & -> & Hd%elem_of_hm_iter)%list_elem_of_fmap). unfold service_routes in Hr.
    apply list_elem_of_join in Hr as (l & Hr & (rd & -> & Hrd)%list_elem_of_fmap).
    apply list_elem_of_fmap in Hr as (b & -> & Hb%elem_of_service_addresses). exists c, name, def, rd. done.
  - intros (c' & name & def & rd & [= <-] & Hd & Hrd & H1 & H2 & H3 & Hs).
    exists (service_routes f (name, def)). split; [|apply list_elem_of_fmap; exists (name, def); split; [done|by apply elem_of_hm_iter]].
    apply list_elem_of_join. eexists. split; [|apply list_elem_of_fmap; by exists rd].
    apply list_elem_of_fmap. exists (pr_backend r). split; [|by apply elem_of_service_addresses]. destruct r; simpl in *. by subst.
Qed.

Lemma group_lookup l (g : gmap string (list SocketAddr)) name :
  default [] (foldl group_alloc g l !! name) =
    default [] (g !! name) ++
    filter_map alloc_address (filterb (λ a, bool_decide (alloc_name a = name) && is_active (alloc_status a)) l).
Proof.
  revert g. induction l as [|a l IH]; intros g; simpl; [by rewrite app_nil_r|]. rewrite IH. unfold group_alloc.
  destruct (is_active (alloc_status a)); simpl; [|by rewrite andb_false_r]. rewrite andb_true_r.
  destruct (alloc_address a) as [addr|] eqn:Ea.
  - rewrite lookup_insert. case_decide as Hn.
    + rewrite bool_decide_eq_true_2 by done. simpl. rewrite Ea. subst. by rewrite <-app_assoc.
    + by rewrite bool_decide_eq_false_2.
  - case_bool_decide; simpl; by rewrite ?Ea.
Qed.
(** A group exists only when it has an address. *)
Lemma group_nonempty l (g : gmap string (list SocketAddr)) name :
  (∀ n, g !! n ≠ Some []) → foldl group_alloc g l !! name ≠ Some [].
Proof.
  revert g. induction l as [|a l IH]; intros g Hg; simpl; [done|]. apply IH. intros n. unfold group_alloc.
  destruct (negb _); [done|]. destruct (alloc_address a); [|done]. rewrite lookup_insert. case_decide; [|done].
  by destruct (default [] (g !! alloc_name a)).
Qed.
Lemma records_lookup f name :
  set_records (compute_dns_records f) !! name = (fmap sock_ip) <$> foldl group_alloc ∅ (hm_values (allocs f)) !! name.
Proof.
  set (g := foldl group_alloc ∅ (hm_values (allocs f))). unfold set_records, compute_dns_records. fold g.
  rewrite <-(hm_collect_map (λ _ l, sock_ip <$> l) g name). unfold hm_collect.
  generalize (∅ : gmap string (list IpAddr)) as m0. induction (hm_iter g) as [|[n l] it IH]; intros m0; simpl; [done|]. apply IH.
Qed.
End compute_lemmas.

(** ** Lookups *)

(** A lookup finds a route of the hostname whose path is a prefix, and none of the others is longer. *)
Lemma route_longest_prefix rs host path :
  match route_lookup (RouteTable_new rs) host path with
  | Some m =>
      ∃ r, r ∈ rs ∧ pr_hostname r = host ∧ m = entry_of r ∧ starts_with (pr_path r) path = true ∧
        ∀ r', r' ∈ rs → pr_hostname r' = host → starts_with (pr_path r') path = true →
          (String.length (pr_path r') ≤ String.length (pr_path r))%nat
  | None => ∀ r, r ∈ rs → pr_hostname r = host → starts_with (pr_path r) path = false
  end.
Proof.
  rewrite route_lookup_find. set (l := entries_for host rs).
  destruct (find_first _ (sort_entries l)) as [m|] eqn:E.
  - pose proof (find_first_sorted _ _ _ (sort_entries_sorted l) E) as Hmax.
    apply find_first_Some in E as [Hin Hp]. rewrite sort_entries_perm in Hin.
    apply elem_of_entries_for in Hin as (r & Hr & Hh & ->). exists r. split_and!; [done..|].
    intros r' Hr' Hh' Hp'. apply (Hmax (entry_of r')); [|done]. rewrite sort_entries_perm. apply elem_of_entries_for. eauto.
  - intros r Hr Hh. rewrite find_first_None in E. apply (E (entry_of r)). rewrite sort_entries_perm. apply elem_of_entries_for. eauto.
Qed.

Lemma trim_mill name : strip_suffix mill_suffix name = None →
  trim_end_matches (String.length (name +:+ mill_suffix)%string) mill_suffix (name +:+ mill_suffix)%string = name.
Proof.
  intros Hn. rewrite str_length_app. change (String.length mill_suffix) with 6%nat. rewrite Nat.add_comm. cbn [trim_end_matches plus].
  rewrite (proj2 (strip_suffix_Some mill_suffix (name +:+ mill_suffix)%string name) eq_refl). by rewrite Hn.
Qed.

(** * Theorems *)

(** A route of a configured service for a request, and the best one that leads to an allocation of that service that is running or
    healthy: no other such route has a longer path. *)
Definition route_matches (f : FsmState) (host : string) (req : HttpRequest) (name : string) (rd : RouteDef) : Prop :=
  (∃ c def, config f = Some c ∧ services c !! name = Some def ∧ rd ∈ sd_routes def) ∧
  rd_hostname rd = host ∧ starts_with (rd_path rd) (rq_path req) = true.
Definition best_route (f : FsmState) (host : string) (req : HttpRequest) (rd : RouteDef) (b : SocketAddr) : Prop :=
  ∃ name, route_matches f host req name rd ∧ serves f name b ∧
    ∀ name' rd' b', route_matches f host req name' rd' → serves f name' b' → (String.length (rd_path rd') ≤ String.length (rd_path rd))%nat.
(** What becomes of a request for a host. *)
Inductive proxied (readable writable : string → bool) (show_ip : IpAddr → string) (backend_ok : SocketAddr → bool) (f : FsmState)
    (client : SocketAddr) (is_tls : bool) (host : string) (req : HttpRequest) : HttpResponse → Prop :=
| to_backend rd b :
    best_route f host req rd b → rd_websocket rd && is_upgrade_request readable req = false → backend_ok b = true →
    proxied readable writable show_ip backend_ok f client is_tls host req (forward_request readable writable show_ip req b client is_tls)
| to_websocket rd b :
    best_route f host req rd b → rd_websocket rd = true → is_upgrade_request readable req = true → backend_ok b = true →
    proxied readable writable show_ip backend_ok f client is_tls host req (Upgraded b)
| bad_gateway rd b msg :
    best_route f host req rd b → backend_ok b = false →
    proxied readable writable show_ip backend_ok f client is_tls host req (Text 502 msg)
| no_route msg :
    (∀ name rd b, route_matches f host req name rd → ¬ serves f name b) →
    proxied readable writable show_ip backend_ok f client is_tls host req (Text 404 msg).

Section traffic.
Context `{HI : HashIter} (readable writable : string → bool) (show_ip : IpAddr → string) (backend_ok : SocketAddr → bool).
Lemma proxy_to_backend_proxied f client is_tls host req :
  proxied readable writable show_ip backend_ok f client is_tls host req
    (proxy_to_backend readable writable show_ip backend_ok req host (RouteTable_new (compute_proxy_routes f)) client is_tls).1.
Proof.
  unfold proxy_to_backend. pose proof (route_longest_prefix (compute_proxy_routes f) host (rq_path req)) as Hl.
  assert (∀ name rd b, route_matches f host req name rd → serves f name b →
    mkProxyRoute (rd_hostname rd) (rd_path rd) b (rd_websocket rd) ∈ compute_proxy_routes f) as Hin.
  { intros name rd b [(c & def & ? & ? & ?) _] Hs. apply elem_of_proxy_routes. exists c, name, def, rd. done. }
  destruct (route_lookup _ host (rq_path req)) as [m|].
  - destruct Hl as (r & Hr & Hh & -> & Hp & Hmax).
    apply elem_of_proxy_routes in Hr as (c & name & def & rd & Hc & Hd & Hrd & E1 & E2 & E3 & Hs).
    assert (best_route f host req rd (re_backend (entry_of r))) as Hbest.
    { exists name. split_and!; [split; [by exists c, def|by rewrite E1, E2]|done|].
      intros name' rd' b' Hm' Hs'. rewrite E2. specialize (Hmax _ (Hin _ _ _ Hm' Hs')). simpl in Hmax. apply Hmax; apply Hm'. }
    change (re_websocket (entry_of r)) with (pr_websocket r). rewrite <-E3.
    destruct (rd_websocket rd && is_upgrade_request readable req) eqn:Hw; simpl; destruct (backend_ok _) eqn:Hok; try (by eapply bad_gateway).
    + apply andb_true_iff in Hw as [? ?]. by eapply to_websocket.
    + by eapply to_backend.
  - apply no_route. intros name rd b Hm Hs. specialize (Hl _ (Hin _ _ _ Hm Hs)). simpl in Hl.
    destruct Hm as (_ & Hh & Hp). rewrite Hl in Hp; done.
Qed.

End traffic.

(** what the DNS server answers to an address query for a name in its zone, with the records of a
    cluster state: the name does not exist exactly when no active allocation of that name has an address,
    and the answers are exactly the IPv4 addresses of the active ones. *)
Theorem dns_answers_active `{HashIter} name_ok f msg q rest name :
  dm_queries msg = q :: rest → dq_type q = TypeA → dq_name q = (name +:+ mill_suffix)%string →
  strip_suffix mill_suffix name = None → name_ok (dq_name q) = true →
  ∃ m, handle_query name_ok msg (set_records (compute_dns_records f)) = QResponse m ∧ dm_id m = dm_id msg ∧ dm_response m = true ∧
    (dm_code m = NXDomain ↔ ∀ addr, ¬ serves f name addr) ∧ (dm_code m = NXDomain ∨ dm_code m = NoError) ∧
    ∀ ip, (∃ a, a ∈ dm_answers m ∧ da_address a = ip) ↔ ∃ addr, serves f name addr ∧ sock_ip addr = V4 ip.
Proof.
  intros Hq Ht Hn Hs Hok. unfold handle_query. rewrite Hq, Ht, Hn.
  rewrite (proj2 (ends_with_true mill_suffix (name +:+ mill_suffix)%string)) by (by exists name). cbn [negb].
  rewrite bool_decide_eq_true_2 by done. cbn [negb]. rewrite trim_mill by done. rewrite records_lookup.
  set (g := foldl group_alloc ∅ (hm_values (allocs f))).
  assert (∀ addr, addr ∈ default [] (g !! name) ↔ serves f name addr) as Hg.
  { intros addr. subst g. rewrite group_lookup, lookup_empty. simpl. rewrite elem_of_filter_map. unfold serves. split.
    - intros (a & [[aid Ha]%elem_of_hm_values [Hna%bool_decide_eq_true Hact]%andb_true_iff]%elem_of_filterb & Haddr). by exists aid, a.
    - intros (aid & a & Ha & Hna & Hact & Haddr). exists a. split; [|done]. apply elem_of_filterb.
      split; [apply elem_of_hm_values; by exists aid|]. by rewrite Hact, bool_decide_eq_true_2. }
  assert (g !! name ≠ Some []) as Hne by (apply group_nonempty; intros n; by rewrite lookup_empty).
  destruct (g !! name) as [addrs|]; simpl in *.
  - eexists. split_and!; [done..| |by right|].
    + simpl. split; [done|]. intros Hnone. destruct addrs as [|a addrs]; [done|]. destruct (Hnone a). apply Hg. left.
    + intros ip. simpl. split.
      * intros (a & (x & (addr & -> & Hin)%list_elem_of_fmap & Hx)%elem_of_filter_map & <-). exists addr.
        split; [by apply Hg|]. destruct (sock_ip addr); [|done]. rewrite <-Hn, Hok in Hx. by simplify_eq.
      * intros (addr & Hin%Hg & Hip). exists (mkDnsAnswer (dq_name q) 5 ip). split; [|done]. apply elem_of_filter_map. exists (V4 ip).
        split; [apply list_elem_of_fmap; by exists addr|]. by rewrite <-Hn, Hok.
  - eexists. split_and!; [done..| |by left|].
    + simpl. split; [|done]. intros _ addr Hs'%Hg. by apply elem_of_nil in Hs'.
    + intros ip. simpl. split; [by intros (a & ?%elem_of_nil & _)|]. intros (addr & Hs'%Hg & _). by apply elem_of_nil in Hs'.
Qed.

(** * Examples and witnesses *)

Module RouteExamples.
Import FsmExamples.
(** One healthy allocation of the service, with an address. *)
Definition ex_serving : FsmState :=
  @apply_commands stored_order ex_state
    [AllocScheduled (mkAllocId "web-2") 1 "web" KService None (mkAllocResources (f64_of_Z 1) (2 ^ 30));
     AllocRunning (mkAllocId "web-2") (Some (SockV4 167772161 8080)) None].
Definition ex_query : DnsMessage := mkDnsMessage 7 false true false NoError [mkDnsQuery "web.mill." TypeA] [].
End RouteExamples.
Import RouteExamples.

(** Two allocations, of which one has started and was never found healthy: it is routed to all the same. Every request goes to the
    same one of the two; when that one is unreachable the answer is 502, although the other would serve. *)
Definition ex_two_serving : FsmState :=
  @apply_commands stored_order ex_serving
    [Deploy (mkClusterConfig {["web"%string := mkServiceDef "web:1" 80 2 (mkResources (f64_of_Z 1) (2 ^ 30)) ∅ None None
                                                 [mkRouteDef "app.example" "/" false] []]} ∅);
     AllocScheduled (mkAllocId "web-3") 1 "web" KService None (mkAllocResources (f64_of_Z 1) (2 ^ 30));
     AllocRunning (mkAllocId "web-3") (Some (SockV4 167772162 8080)) None].
Definition ex_get : HttpRequest := mkHttpRequest "GET" "/" (Some "/"%string) None [("host", "app.example")]%string.
Definition ex_answer (backend_ok : SocketAddr → bool) : HttpResponse :=
  (handle_https_request (λ _, true) (λ _, true) (λ _, "10.0.0.9"%string) backend_ok
     (RouteTable_new (@compute_proxy_routes stored_order ex_two_serving)) (SockV4 167772169 4000) ex_get).1.
Example one_backend_only :
  (∃ m p h, ex_answer (λ _, true) = Forwarded (SockV4 167772162 8080) m p h) ∧
  ex_answer (λ b, bool_decide (b = SockV4 167772161 8080)) = Text 502 (line "backend unavailable") ∧
  alloc_status <$> (allocs ex_two_serving !! mkAllocId "web-3") = Some Running.
Proof. split_and!; [do 3 eexists|..]; vm_compute; reflexivity. Qed.

(** Longest prefix first, and the first of two equal ones. *)
Example lookup_ex :
  let r path backend := mkProxyRoute "h" path (SockV4 backend 80) false in
  re_backend <$> route_lookup (RouteTable_new [r "/" 1; r "/api" 2; r "/api" 3]) "h" "/api/x" = Some (SockV4 2 80).
Proof. vm_compute. reflexivity. Qed.

Lemma dns_answers_active_witness :
  ∃ m, handle_query (λ _, true) ex_query (set_records (@compute_dns_records stored_order ex_serving)) = QResponse m ∧
    ∃ a, a ∈ dm_answers m ∧ da_address a = 167772161.
Proof.
  destruct (@dns_answers_active stored_order (λ _, true) ex_serving ex_query (mkDnsQuery "web.mill." TypeA) [] "web")
    as (m & H1 & _ & _ & _ & _ & H2).
  - reflexivity.
  - reflexivity.
  - reflexivity.
  - vm_compute. reflexivity.
  - reflexivity.
  - exists m. split; [exact H1|]. apply H2. exists (SockV4 167772161 8080). split; [|reflexivity].
    exists (mkAllocId "web-2"). eexists. split; [vm_compute; reflexivity|]. split; [reflexivity|]. split; reflexivity.
Defined.
