(* ===== verification/Dns.v ===== *)
(** The DNS server ([src/crates/net/src/dns]): what is done with a datagram ([mod.rs]), and the forwarder that asks the upstream
    resolver for names outside the cluster ([forward.rs]). The format of messages is a parameter. The theorems show that a
    client is answered with the identifier of its query, that queries forwarded while the upstream answers in time get
    their own answers, and that after one late answer every client gets the answer to somebody else's query. *)

From S2P Require Import Prelude Types Addr Fsm Routes.
Local Open Scope Z_scope.
#[local] Arguments str_take : simpl never.

(** * The forwarder (forward.rs) *)

(** The forwarder's socket holds the datagrams that have arrived and were not read. *)
Record Forwarder := mkForwarder {
  fw_upstream : SocketAddr;
  fw_inbox : list string;
}.
Definition Forwarder_new (resolv_conf : option string) : Forwarder := mkForwarder (read_upstream_nameserver resolv_conf) [].
(** [forward]: [arrivals] are the datagrams that arrive before the timeout of three seconds. The socket is locked for the
    whole exchange, so exchanges follow each other. *)
Definition forward (arrivals : list string) (f : Forwarder) : result string string * Forwarder :=
  match fw_inbox f ++ arrivals with
  | [] => (Err ("upstream " +:+ show_sock (fw_upstream f) +:+ " timed out after 3s")%string, f)
  | bytes :: rest => (Ok (str_take 4096 bytes), mkForwarder (fw_upstream f) rest)
  end.
(** Exchanges in the order in which they get the lock, each with what arrives during it. *)
Fixpoint forward_all (exchanges : list (list string)) (f : Forwarder) : list (result string string) * Forwarder :=
  match exchanges with
  | [] => ([], f)
  | arrivals :: exchanges =>
      let '(r, f) := forward arrivals f in
      let '(rs, f) := forward_all exchanges f in
      (r :: rs, f)
  end.

(** * The server (mod.rs) *)

Inductive ServeAction :=
| Ignore
| Reply (bytes : string)
| Forwarded (query : DnsMessage).

Section serve.
Context (from_bytes : string → option DnsMessage) (to_vec : DnsMessage → option string) (name_ok : string → bool).

(** One datagram: dropped, answered, or handed to a task that forwards it. *)
Definition serve_datagram (records : gmap string (list IpAddr)) (bytes : string) : ServeAction :=
  match from_bytes bytes with
  | None => Ignore
  | Some msg =>
      match handle_query name_ok msg records with
      | QResponse resp => match to_vec resp with Some b => Reply b | None => Ignore end
      | QForward => Forwarded msg
      end
  end.
(** The end of a forwarding task. *)
Definition forwarded_reply (msg : DnsMessage) (r : result string string) : option string :=
  match r with
  | Ok bytes => Some bytes
  | Err _ => to_vec (set_code ServFail (response_from msg))
  end.

(** * Theorems *)

(** Whatever is sent to a client whose query is not forwarded, or whose forwarding fails, is a response that carries the
    identifier and the questions of its query; queries are forwarded exactly when their name is outside the cluster's
    zone. *)
Theorem dns_reply_matches_query records bytes msg :
  from_bytes bytes = Some msg →
  (∀ b, serve_datagram records bytes = Reply b →
     ∃ resp, to_vec resp = Some b ∧ dm_id resp = dm_id msg ∧ dm_queries resp = dm_queries msg ∧ dm_response resp = true) ∧
  (serve_datagram records bytes = Forwarded msg ↔ ∃ q rest, dm_queries msg = q :: rest ∧ ends_with mill_suffix (dq_name q) = false) ∧
  (∀ e, forwarded_reply msg (Err e) =
     to_vec (mkDnsMessage (dm_id msg) true (dm_recursion_desired msg) true ServFail (dm_queries msg) [])).
Proof.
  intros Hdec. unfold serve_datagram. rewrite Hdec. unfold handle_query. split_and!; [| |done].
  - intros b. destruct (dm_queries msg) as [|q rest] eqn:Hq; simpl.
    { destruct (to_vec _) as [b'|] eqn:Hv; [|done]. intros [= ->]. by eexists. }
    destruct (ends_with _ _); [|done]. simpl. case_bool_decide; simpl; [destruct (records !! _)|];
      (destruct (to_vec _) as [b'|] eqn:Hv; [|done]; intros [= ->]; by eexists).
  - destruct (dm_queries msg) as [|q rest]; simpl; [destruct (to_vec _); split; [done|by intros (? & ? & ? & _)|done|by intros (? & ? & ? & _)]|].
    destruct (ends_with mill_suffix (dq_name q)) eqn:He; simpl; [|split; eauto].
    split; [|intros (? & ? & [= <- <-] & ?); congruence]. repeat case_match; done.
Qed.
End serve.

(** With one datagram per exchange, what each exchange returns is what was waiting first: the inbox keeps its length. *)
Lemma forward_all_shift ans f l :
  Forall (λ a, str_take 4096 a = a) (fw_inbox f ++ ans) → fw_inbox f = l →
  ∃ f', forward_all ((λ a, [a]) <$> ans) f = (Ok <$> take (length ans) (l ++ ans), f') ∧
    fw_inbox f' = drop (length ans) (l ++ ans).
Proof.
  revert f l. induction ans as [|a ans IH]; intros f l Hsmall Hl; csimpl; [exists f; by rewrite Hl, app_nil_r|].
  unfold forward. rewrite Hl in *. destruct (l ++ [a]) as [|b rest] eqn:Hb; [by destruct l|].
  replace (l ++ a :: ans) with (b :: rest ++ ans) in * by (by rewrite cons_middle, app_assoc, Hb).
  apply Forall_cons in Hsmall as [Hb4 Hrest]. csimpl.
  destruct (IH (mkForwarder (fw_upstream f) rest) rest Hrest eq_refl) as (f' & -> & Hf'). exists f'. by rewrite Hb4.
Qed.

(** As long as the upstream answers every query within three seconds, with one datagram of at most 4096 bytes each, every
    exchange returns the answer to its own query and leaves nothing behind. *)
Theorem forwards_in_step f ans :
  fw_inbox f = [] → Forall (λ a, str_take 4096 a = a) ans →
  ∃ f', forward_all ((λ a, [a]) <$> ans) f = (Ok <$> ans, f') ∧ fw_inbox f' = [].
Proof.
  intros Hf Hsmall. destruct (forward_all_shift ans f []) as (f' & Hr & Hi); [by rewrite Hf|done|].
  exists f'. rewrite app_nil_l, take_ge, drop_ge in * by lia. done.
Qed.

(** One late answer displaces all that follow: when an exchange times out and its answer arrives during the next one, the
    next client is sent that answer, the one after it the answer of the client before, and so on, without an error and
    without end. *)
Theorem late_answer_displaces f late ans :
  fw_inbox f = [] → Forall (λ a, str_take 4096 a = a) (late :: ans) →
  ∃ e f', forward_all ([] :: match ans with [] => [] | a :: ans => [late; a] :: ((λ a, [a]) <$> ans) end) f =
    (Err e :: (Ok <$> take (length ans) (late :: ans)), f').
Proof.
  intros Hf Hsmall. csimpl. unfold forward at 1. rewrite Hf. csimpl. eexists.
  destruct ans as [|a ans]; [by eexists|]. csimpl. unfold forward at 1. rewrite Hf. csimpl.
  apply Forall_cons in Hsmall as [Hl Hsmall].
  destruct (forward_all_shift ans (mkForwarder (fw_upstream f) [a]) [a]) as (f' & -> & _); [done|done|].
  exists f'. by rewrite Hl.
Qed.

(** * Examples *)

Definition ex_forwarder : Forwarder := Forwarder_new None.
Lemma forwards_in_step_witness :
  ∃ f', forward_all [["a"]; ["b"]]%string ex_forwarder = ([Ok "a"; Ok "b"]%string, f') ∧ fw_inbox f' = [].
Proof. apply (forwards_in_step ex_forwarder ["a"; "b"]%string); [done|by repeat constructor]. Defined.
Lemma late_answer_displaces_witness :
  ∃ e f', forward_all [[]; ["one"; "two"]; ["three"]]%string ex_forwarder = ([Err e; Ok "one"; Ok "two"]%string, f').
Proof. apply (late_answer_displaces ex_forwarder "one" ["two"; "three"]%string); [done|by repeat constructor]. Defined.
Definition ex_dns_query : DnsMessage := mkDnsMessage 7 false true false NoError [mkDnsQuery "example.org." TypeA] [].
Lemma dns_reply_matches_query_witness :
  serve_datagram (λ _, Some ex_dns_query) (λ _, Some "bytes"%string) (λ _, true) ∅ "raw" = Forwarded ex_dns_query.
Proof.
  apply (dns_reply_matches_query (λ _, Some ex_dns_query) (λ _, Some "bytes"%string) (λ _, true) ∅ "raw" ex_dns_query eq_refl).
  by eexists _, _.
Defined.
