(* ===== verification/Certs.v ===== *)
(** Certificates ([src/crates/proxy/src]): the files of the certificate directory ([certs/file_store.rs]), the cache
    ([certs/cache.rs]), the watcher that sees to it that every routed host has a certificate ([lib.rs]), renewal
    ([acme/renewal.rs]) and the tokens of the ACME challenges ([acme/client.rs], [acme/challenges.rs]). PEM and X.509
    parsing, the ACME protocol and the generation of keys are parameters. The theorems show which certificate a host gets
    and when it has none, what renewal replaces, that a self-signed certificate is never replaced, what an interrupted save
    leaves, and when challenge tokens stay behind. *)

From S2P Require Import Prelude Types Env Addr Snapshot Routes.
Local Open Scope Z_scope.

(** * The directory of certificates (certs/file_store.rs) *)

Record CertPair := mkCertPair {
  cp_certs : list string;
  cp_key : string;
}.
#[global] Instance CertPair_eq_dec : EqDecision CertPair.
Proof. solve_decision. Defined.
Record CertInfo := mkCertInfo {
  ci_hostname : string;
  ci_expires : Z;
}.
Definition cert_path (host : string) : string := (host +:+ ".crt")%string.
Definition key_path (host : string) : string := (host +:+ ".key")%string.
Definition acme_path : string := "acme.json".

(** [chunks(64)], each followed by a line end. *)
Fixpoint pem_lines (fuel : nat) (s : string) : string :=
  match fuel with
  | O => EmptyString
  | S fuel => if str_is_empty s then EmptyString else (String.substring 0 64 s +:+ nl +:+ pem_lines fuel (str_drop 64 s))%string
  end.

Section store.
(** base64, the PEM reader (the certificates of a file, and its key, if it has one), the expiry in a certificate in
    seconds, and the fallback generator. *)
Context `{HI : HashIter} (base64 : string → string) (pem_certs : string → list (result string string)).
Context (pem_key : string → result (option string) string) (not_after : string → result Z string).

Definition pem_encode (label data : string) : string :=
  let encoded := base64 data in
  ("-----BEGIN " +:+ label +:+ "-----" +:+ nl +:+ pem_lines (S (String.length encoded)) encoded +:+ "-----END " +:+ label +:+ "-----" +:+ nl)%string.
Definition certs_of (pem : string) : list string :=
  filter_map (λ r, match r with Ok c => Some c | Err _ => None end) (pem_certs pem).
Definition cert_load (d : Dir) (host : string) : result (option CertPair) string :=
  match d !! cert_path host, d !! key_path host with
  | Some cert_pem, Some key_pem =>
      match certs_of cert_pem with
      | [] => Err ("no certs found in " +:+ cert_path host)
      | certs =>
          match pem_key key_pem with
          | Err e => Err ("read key " +:+ key_path host +:+ ": " +:+ e)
          | Ok None => Err ("no key found in " +:+ key_path host)
          | Ok (Some key) => Ok (Some (mkCertPair certs key))
          end
      end
  | _, _ => Ok None
  end%string.
Definition cert_pem (cp : CertPair) : string := foldr (λ c acc, pem_encode "CERTIFICATE" c +:+ acc)%string EmptyString (cp_certs cp).
(** [save] in an existing directory, with the file operations that complete before a failure. *)
Definition save_ops (host : string) (cp : CertPair) : list DiskOp :=
  [DCreate (cert_path host); DWrite (cert_path host) (cert_pem cp);
   DCreate (key_path host); DWrite (key_path host) (pem_encode "PRIVATE KEY" (cp_key cp))].
Definition cert_save (budget : nat) (d : Dir) (host : string) (cp : CertPair) : result unit string * Dir :=
  let '(ok, _, d) := run_ops budget (save_ops host cp) d in
  (if ok : bool then Ok tt else Err "write cert"%string, d).
(** [parse_cert_expiry], in nanoseconds. *)
Definition parse_cert_expiry (pem : string) : result Z string :=
  match certs_of pem with
  | [] => Err "no certificate found"%string
  | c :: _ => match not_after c with Err e => Err e | Ok t => Ok (if t <? 0 then 0 else secs t) end
  end.
Definition cert_list (d : Dir) : list CertInfo :=
  filter_map (λ '(name, pem), host ← strip_suffix ".crt" name;
                Some (mkCertInfo host (match parse_cert_expiry pem with Ok t => t | Err _ => 0 end))) (hm_iter d).
Definition load_acme_credentials (d : Dir) : option string := d !! acme_path.
Definition save_acme_credentials (budget : nat) (d : Dir) (json : string) : result unit string * Dir :=
  let '(ok, _, d) := run_ops budget [DCreate acme_path; DWrite acme_path json] d in
  (if ok : bool then Ok tt else Err "write acme.json"%string, d).

(** * The watcher (lib.rs) and renewal (acme/renewal.rs) *)

(** The directory, the cache, and the hosts for which a certificate was asked of the authority. *)
Record Certs := mkCerts {
  ct_dir : Dir;
  ct_cache : gmap string CertPair;
  ct_asked : list string;
}.
Definition has_cert (host : string) (s : Certs) : bool := hm_contains host (ct_cache s).
(** [SniByCertCache::resolve] (tls/resolver.rs). *)
Definition resolve_sni (server_name : option string) (s : Certs) : option CertPair := h ← server_name; ct_cache s !! h.
Definition cache_insert (host : string) (cp : CertPair) (s : Certs) : Certs :=
  mkCerts (ct_dir s) (<[host := cp]> (ct_cache s)) (ct_asked s).
Definition set_dir (d : Dir) (s : Certs) : Certs := mkCerts d (ct_cache s) (ct_asked s).
Definition ask (host : string) (s : Certs) : Certs := mkCerts (ct_dir s) (ct_cache s) (ct_asked s ++ [host]).

(** Whether rustls can use a pair's key; the authority's answer, if there is a client; the self-signed pair; and how many
    file operations of a save complete. Answers depend on how many were asked for before. *)
Context (usable : CertPair → bool) (acme : option (nat → string → result CertPair string)).
Context (self_signed : string → result CertPair string) (budget : string → nat).

(** Keep a pair that was obtained: a failed save is ignored. *)
Definition keep_pair (host : string) (cp : CertPair) (s : Certs) : Certs :=
  let s := set_dir (cert_save (budget host) (ct_dir s) host cp).2 s in
  if usable cp then cache_insert host cp s else s.
Definition fall_back (host : string) (s : Certs) : Certs :=
  match self_signed host with
  | Ok cp => keep_pair host cp s
  | Err _ => s
  end.
(** The pair of the store, if it can be read and used. *)
Definition stored_pair (host : string) (s : Certs) : option CertPair :=
  match cert_load (ct_dir s) host with
  | Ok (Some cp) => if usable cp then Some cp else None
  | _ => None
  end.
Definition ensure_cert (s : Certs) (host : string) : Certs :=
  if has_cert host s then s
  else
    match stored_pair host s with
    | Some cp => cache_insert host cp s
    | None =>
        match acme with
        | None => fall_back host s
        | Some get =>
            match get (length (ct_asked s)) host with
            | Ok cp => let s := keep_pair host cp (ask host s) in if usable cp then s else fall_back host s
            | Err _ => fall_back host (ask host s)
            end
        end
    end.
(** One change of the routes. *)
Definition watch_certs (hosts : list string) (s : Certs) : Certs := foldl ensure_cert s hosts.
(** What [start] loads into the cache. *)
Definition load_existing (s : Certs) : Certs :=
  foldl (λ s info, match cert_load (ct_dir s) (ci_hostname info) with
                   | Ok (Some cp) => if usable cp then cache_insert (ci_hostname info) cp s else s
                   | _ => s
                   end) s (cert_list (ct_dir s)).

Definition RENEWAL_WINDOW : Z := secs (30 * 24 * 60 * 60).
Definition CHECK_INTERVAL : Z := secs (24 * 60 * 60).
Definition renew_one (get : nat → string → result CertPair string) (threshold : Z) (s : Certs) (info : CertInfo) : Certs :=
  if threshold <? ci_expires info then s
  else
    let host := ci_hostname info in
    match get (length (ct_asked s)) host with
    | Err _ => ask host s
    | Ok cp =>
        let s := ask host s in
        match cert_save (budget host) (ct_dir s) host cp with
        | (Err _, d) => set_dir d s
        | (Ok _, d) => let s := set_dir d s in if usable cp then cache_insert host cp s else s
        end
    end.
Definition check_and_renew (get : nat → string → result CertPair string) (now : Z) (s : Certs) : Certs :=
  foldl (renew_one get (now + RENEWAL_WINDOW)) s (cert_list (ct_dir s)).
End store.

(** * Challenges (acme/challenges.rs, acme/client.rs) *)

Abbreviation ChallengeStore := (gmap string string).
(** What the authority does with an order: each authorization fails, offers no HTTP-01 challenge, or offers one with a
    token and key authorization that can or cannot be declared ready. *)
Inductive AuthzStep :=
| AuthzFailed
| NoHttpChallenge
| Challenge (token key_auth : string) (ready : bool).
Record OrderOutcome := mkOrderOutcome {
  oo_order : bool;
  oo_authz : list AuthzStep;
  oo_poll : result bool string;
  oo_finalize : option string;
  oo_certificate : option string;
}.
Section challenges.
(** The PEM reader, as above. *)
Context (pem_certs : string → list (result string string)) (pem_key : string → result (option string) string).
(** [pem_to_cert_pair]; unlike [cert_load], it refuses a chain with an unreadable certificate. *)
Fixpoint all_certs (l : list (result string string)) : result (list string) string :=
  match l with
  | [] => Ok []
  | Err e :: _ => Err ("failed to parse cert PEM: " +:+ e)%string
  | Ok c :: l => match all_certs l with Ok cs => Ok (c :: cs) | Err e => Err e end
  end.
Definition pem_to_cert_pair (cert_pem key_pem : string) : result CertPair string :=
  match all_certs (pem_certs cert_pem) with
  | Err e => Err e
  | Ok [] => Err "no certificates in PEM"
  | Ok certs =>
      match pem_key key_pem with
      | Err e => Err ("failed to parse key PEM: " +:+ e)
      | Ok None => Err "no private key in PEM"
      | Ok (Some key) => Ok (mkCertPair certs key)
      end
  end%string.

Definition remove_tokens (tokens : list string) (c : ChallengeStore) : ChallengeStore := foldl (λ c t, delete t c) c tokens.
(** The loop over the authorizations: the tokens so far, or the error, after which no token may be left to remove. *)
Fixpoint authorize (steps : list AuthzStep) (tokens : list string) (c : ChallengeStore) : result (list string) string * ChallengeStore :=
  match steps with
  | [] => (Ok tokens, c)
  | AuthzFailed :: _ => (Err "authorization", c)
  | NoHttpChallenge :: _ => (Err "no HTTP-01 challenge", c)
  | Challenge token key_auth ready :: steps =>
      let c := <[token := key_auth]> c in
      let tokens := (tokens ++ [token])%list in
      if ready then authorize steps tokens c else (Err "set_ready", remove_tokens tokens c)
  end%string.
Definition acquire_certificate (o : OrderOutcome) (c : ChallengeStore) : result CertPair string * ChallengeStore :=
  if negb (oo_order o) then (Err "new order", c)
  else
    match authorize (oo_authz o) [] c with
    | (Err e, c) => (Err e, c)
    | (Ok tokens, c) =>
        match oo_poll o with
        | Err e => (Err ("poll_ready: " +:+ e), c)
        | Ok false => (Err "not ready", remove_tokens tokens c)
        | Ok true =>
            match oo_finalize o with
            | None => (Err "finalize", c)
            | Some key_pem =>
                match oo_certificate o with
                | None => (Err "poll_certificate", c)
                | Some cert_pem => (pem_to_cert_pair cert_pem key_pem, remove_tokens tokens c)
                end
            end
        end
    end%string.
End challenges.

(** * Starting the server (lib.rs, acme/client.rs) *)

Section start.
Context `{HI : HashIter} (pem_certs : string → list (result string string)).
Context (pem_key : string → result (option string) string) (not_after : string → result Z string) (usable : CertPair → bool).
(** The ACME library: reading saved credentials, restoring an account from them, and registering a new one, which gives
    the credentials to save. *)
Context (read_creds restore : string → result unit string) (register : result string string).

(** [AcmeClient::new]: the credentials to save, if they are new. *)
Definition acme_new (saved : option string) : result (option string) string :=
  match saved with
  | Some json =>
      match read_creds json with
      | Err e => Err ("failed to parse saved credentials: " +:+ e)
      | Ok _ => match restore json with Err e => Err ("failed to restore account: " +:+ e) | Ok _ => Ok None end
      end
  | None => match register with Err e => Err ("failed to create account: " +:+ e) | Ok json => Ok (Some json) end
  end%string.
(** The ACME part of [start]: whether there is a client afterwards, and the directory. *)
Definition start_acme (budget : nat) (d : Dir) : bool * Dir :=
  match acme_new (load_acme_credentials d) with
  | Ok (Some json) => (true, (save_acme_credentials budget d json).2)
  | Ok None => (true, d)
  | Err _ => (false, d)
  end.
(** [start]: [listed], [http] and [https] say whether the directory can be listed and the listeners can be bound. The
    result says whether there is an ACME client, with which the renewal loop runs. *)
Definition proxy_start (configured listed http https : bool) (budget : nat) (d : Dir) : result (bool * Certs) string :=
  if negb listed then Err "failed to list certs"
  else
    let s := load_existing pem_certs pem_key not_after usable (mkCerts d ∅ []) in
    if negb http then Err "bind http"
    else if negb https then Err "bind https"
    else if negb configured then Ok (false, s)
    else let '(client, d) := start_acme budget (ct_dir s) in Ok (client, set_dir d s).
End start.

(** * Theorems *)

(** ** Tokens *)

Lemma remove_tokens_lookup tokens c t : remove_tokens tokens c !! t = if bool_decide (t ∈ tokens) then None else c !! t.
Proof.
  revert c. induction tokens as [|x tokens IH]; intros c; [by case_bool_decide; set_solver|].
  change (remove_tokens (x :: tokens) c) with (remove_tokens tokens (delete x c)). rewrite IH. destruct (decide (t = x)) as [->|Hne].
  - rewrite lookup_delete_eq. repeat case_bool_decide; set_solver.
  - rewrite lookup_delete_ne by done. repeat case_bool_decide; set_solver.
Qed.
(** The tokens a run of the loop offers. *)
Definition offered (steps : list AuthzStep) : list string :=
  filter_map (λ s, match s with Challenge t _ _ => Some t | _ => None end) steps.
Lemma authorize_spec steps tokens c :
  let '(r, c') := authorize steps tokens c in
  (∀ ts, r = Ok ts → ts = tokens ++ offered steps) ∧ (∀ t, t ∉ tokens → t ∉ offered steps → c' !! t = c !! t).
Proof.
  revert tokens c. induction steps as [|[| |t k ready] steps IH]; intros tokens c; simpl.
  { split; [intros ts [= <-]; by rewrite app_nil_r|done]. }
  1-2: by split.
  destruct ready.
  - specialize (IH (tokens ++ [t]) (<[t := k]> c)). destruct (authorize steps (tokens ++ [t]) (<[t := k]> c)) as [r c'].
    destruct IH as (IH1 & IH2). split.
    + intros ts Hr. rewrite (IH1 ts Hr), <-app_assoc. done.
    + intros t' Hn1 Hn2. rewrite IH2; [|set_solver..]. rewrite lookup_insert_ne; [done|]. set_solver.
  - split; [done|]. intros t' Hn1 Hn2. rewrite remove_tokens_lookup, bool_decide_false by set_solver.
    rewrite lookup_insert_ne; [done|]. set_solver.
Qed.
Definition all_ready (steps : list AuthzStep) : Prop := Forall (λ s, match s with Challenge _ _ b => b = true | _ => False end) steps.
Lemma authorize_ready steps tokens c :
  all_ready steps →
  ∃ c', authorize steps tokens c = (Ok (tokens ++ offered steps), c') ∧
    ∀ t, t ∈ offered steps ∨ is_Some (c !! t) → is_Some (c' !! t).
Proof.
  intros Hr. revert tokens c. induction Hr as [|[| |t k b] steps Hb Hr IH]; intros tokens c; try done; simpl.
  { eexists. rewrite app_nil_r. split; [done|]. intros t [?%elem_of_nil|?]; done. }
  subst b. destruct (IH (tokens ++ [t]) (<[t := k]> c)) as (c' & -> & Hc). exists c'. rewrite <-app_assoc. split; [done|].
  intros t' [[->|Hin]%elem_of_cons|Hs]; apply Hc; [right; by rewrite lookup_insert_eq|by left|right].
  destruct (decide (t' = t)) as [->|]; [by rewrite lookup_insert_eq|by rewrite lookup_insert_ne].
Qed.

(** When a certificate has been obtained none of its challenge tokens is left in the store, and other tokens are never
    touched; but when the authority fails after the challenges were accepted, they all stay. *)
Theorem challenge_tokens pem_certs pem_key o c :
  let '(r, c') := acquire_certificate pem_certs pem_key o c in
  (∀ t, t ∉ offered (oo_authz o) → c' !! t = c !! t) ∧
  (∀ cp, r = Ok cp → ∀ t, t ∈ offered (oo_authz o) → c' !! t = None) ∧
  (oo_order o = true → all_ready (oo_authz o) →
   (∃ e, oo_poll o = Err e) ∨ (oo_poll o = Ok true ∧ (oo_finalize o = None ∨ oo_certificate o = None)) →
   (∃ e, r = Err e) ∧ ∀ t, t ∈ offered (oo_authz o) → is_Some (c' !! t)).
Proof.
  unfold acquire_certificate. destruct (oo_order o); simpl; [|by split_and!].
  pose proof (authorize_spec (oo_authz o) [] c) as Hs. pose proof (authorize_ready (oo_authz o) [] c) as Hr.
  destruct (authorize (oo_authz o) [] c) as [[ts|e] c'].
  2: { destruct Hs as [_ Hs]. split_and!; [intros t Ht; apply Hs; [apply not_elem_of_nil|done]|done|].
       intros _ Hall. by destruct (Hr Hall) as (? & [=] & _). }
  destruct Hs as [Hts Hs]. rewrite (Hts ts eq_refl) in *. simpl in *.
  assert (∀ t, t ∉ offered (oo_authz o) → c' !! t = c !! t) as Hout by (intros t Ht; apply Hs; [apply not_elem_of_nil|done]).
  assert (∀ t, t ∉ offered (oo_authz o) → remove_tokens (offered (oo_authz o)) c' !! t = c !! t) as Hrem
    by (intros t Ht; rewrite remove_tokens_lookup, bool_decide_false by done; auto).
  assert (all_ready (oo_authz o) → ∀ t, t ∈ offered (oo_authz o) → is_Some (c' !! t)) as Hstay
    by (intros Hall t Ht; destruct (Hr Hall) as (c1 & [= <-] & Hc); auto).
  destruct (oo_poll o) as [[]|e]; [|by split_and!; [done..|naive_solver]|by split_and!; [done..|eauto]].
  destruct (oo_finalize o); simpl; [|by split_and!; [done..|eauto]].
  destruct (oo_certificate o); simpl; [|by split_and!; [done..|eauto]].
  split_and!; [done| |naive_solver]. intros cp _ t Ht. by rewrite remove_tokens_lookup, bool_decide_true.
Qed.

(** ** The store *)

Lemma cert_key_path_ne h h' : cert_path h ≠ key_path h'.
Proof.
  unfold cert_path, key_path. intros He. assert (strip_suffix ".crt" (h' +:+ ".key")%string = Some h) as Hs by (by apply strip_suffix_Some).
  unfold strip_suffix in Hs. rewrite str_rev_app in Hs. done.
Qed.
Lemma str_app_inj_r s t p : (s +:+ p)%string = (t +:+ p)%string → s = t.
Proof.
  intros He. assert (strip_suffix p (s +:+ p)%string = Some t) as Ht by (by apply strip_suffix_Some).
  assert (strip_suffix p (s +:+ p)%string = Some s) as Hs by (by apply strip_suffix_Some). congruence.
Qed.
Lemma cert_path_inj h h' : cert_path h = cert_path h' → h = h'.
Proof. apply str_app_inj_r. Qed.
Lemma key_path_inj h h' : key_path h = key_path h' → h = h'.
Proof. apply str_app_inj_r. Qed.

Section store_facts.
Context (base64 : string → string) (pem_certs : string → list (result string string)).
Context (pem_key : string → result (option string) string).
Local Notation load := (cert_load pem_certs pem_key).
Local Notation save := (cert_save base64).
Local Notation pem_of := (cert_pem base64).
Local Notation key_pem cp := (pem_encode base64 "PRIVATE KEY" (cp_key cp)).

(** The PEM reader reads back what [save] writes for a pair, and finds nothing in an empty file. *)
Record PemReads (cp : CertPair) : Prop := {
  reads_certs : pem_certs (pem_of cp) = Ok <$> cp_certs cp;
  reads_key : pem_key (key_pem cp) = Ok (Some (cp_key cp));
  reads_some : cp_certs cp ≠ [];
  reads_no_certs : pem_certs EmptyString = [];
  reads_no_key : pem_key EmptyString = Ok None;
}.
Lemma certs_of_pem cp : PemReads cp → certs_of pem_certs (pem_of cp) = cp_certs cp.
Proof.
  intros H. unfold certs_of. rewrite (reads_certs _ H). clear H. induction (cp_certs cp) as [|c l IH]; [done|]. simpl. by f_equal.
Qed.
(** The directory after each number of completed operations. *)
Lemma save_dir n d host cp :
  save n d host cp =
    match n with
    | 0%nat => (Err "write cert"%string, d)
    | 1%nat => (Err "write cert"%string, <[cert_path host := EmptyString]> d)
    | 2%nat => (Err "write cert"%string, <[cert_path host := pem_of cp]> d)
    | 3%nat => (Err "write cert"%string, <[key_path host := EmptyString]> (<[cert_path host := pem_of cp]> d))
    | _ => (Ok tt, <[key_path host := key_pem cp]> (<[cert_path host := pem_of cp]> d))
    end.
Proof.
  pose proof (cert_key_path_ne host host) as Hne. unfold cert_save, save_ops.
  generalize dependent (cert_path host). generalize (key_path host). intros k c Hne.
  destruct n as [|[|[|[|n]]]]; simpl; rewrite ?lookup_insert_eq; simpl; rewrite ?insert_insert_eq; simpl;
    rewrite ?lookup_insert_eq; simpl; rewrite ?insert_insert_eq; done.
Qed.
Lemma load_both d host c k :
  d !! cert_path host = Some c → d !! key_path host = Some k → certs_of pem_certs c ≠ [] →
  load d host = match pem_key k with
                | Err e => Err ("read key " +:+ key_path host +:+ ": " +:+ e)%string
                | Ok None => Err ("no key found in " +:+ key_path host)%string
                | Ok (Some key) => Ok (Some (mkCertPair (certs_of pem_certs c) key))
                end.
Proof. intros Hc Hk Hn. unfold cert_load. rewrite Hc, Hk. by destruct (certs_of pem_certs c). Qed.

(** What can be read back after a save over an older pair, by how much of it was done before it failed or the process
    stopped. A completed save reads back as saved; but a save that stops between the two files leaves the new
    certificate with the old key, which reads as a valid pair, and a save that stops inside a file leaves nothing that
    can be read: the old pair is lost although the new one was never complete. *)
Theorem interrupted_save d host old cp n :
  PemReads old → PemReads cp → load d host = Ok (Some old) →
  load (save n d host cp).2 host =
    match n with
    | 0%nat => Ok (Some old)
    | 1%nat => Err ("no certs found in " +:+ cert_path host)%string
    | 2%nat => Ok (Some (mkCertPair (cp_certs cp) (cp_key old)))
    | 3%nat => Err ("no key found in " +:+ key_path host)%string
    | _ => Ok (Some cp)
    end.
Proof.
  intros Ho Hn Hload. rewrite save_dir. pose proof (cert_key_path_ne host host) as Hne.
  destruct (d !! cert_path host) as [c|] eqn:Hc; [|unfold cert_load in Hload; by rewrite Hc in Hload].
  destruct (d !! key_path host) as [k|] eqn:Hk; [|unfold cert_load in Hload; by rewrite Hc, Hk in Hload].
  assert (pem_key k = Ok (Some (cp_key old))) as Hold.
  { unfold cert_load in Hload. rewrite Hc, Hk in Hload. destruct (certs_of pem_certs c); [done|].
    destruct (pem_key k) as [[key|]|]; [|done..]. by injection Hload as <-. }
  destruct n as [|[|[|[|n]]]]; simpl; [done|..].
  - unfold cert_load. rewrite lookup_insert_eq, lookup_insert_ne, Hk by done. unfold certs_of. by rewrite (reads_no_certs _ Hn).
  - rewrite (load_both _ host (pem_of cp) k); rewrite ?lookup_insert_eq, ?lookup_insert_ne by done; rewrite ?certs_of_pem by done;
      [|done..|apply Hn]. by rewrite Hold.
  - rewrite (load_both _ host (pem_of cp) EmptyString); rewrite ?lookup_insert_eq, ?lookup_insert_ne, ?lookup_insert_eq by done;
      rewrite ?certs_of_pem by done; [|done..|apply Hn]. by rewrite (reads_no_key _ Hn).
  - rewrite (load_both _ host (pem_of cp) (key_pem cp)); rewrite ?lookup_insert_eq, ?lookup_insert_ne, ?lookup_insert_eq by done;
      rewrite ?certs_of_pem by done; [|done..|apply Hn]. rewrite (reads_key _ Hn). by destruct cp.
Qed.
End store_facts.

(** ** The watcher and renewal *)

Section watcher.
Context (base64 : string → string) (pem_certs : string → list (result string string)).
Context (pem_key : string → result (option string) string).
Context (usable : CertPair → bool) (acme : option (nat → string → result CertPair string)).
Context (self_signed : string → result CertPair string) (budget : string → nat).
Local Notation keep := (keep_pair base64 usable budget).
Local Notation fall := (fall_back base64 usable self_signed budget).
Local Notation ensure := (ensure_cert base64 pem_certs pem_key usable acme self_signed budget).
Local Notation watch := (watch_certs base64 pem_certs pem_key usable acme self_signed budget).

Lemma has_cert_true h s : has_cert h s = true ↔ is_Some (ct_cache s !! h).
Proof. unfold has_cert, hm_contains. apply bool_decide_eq_true. Qed.
Lemma keep_cache h cp s h' : ct_cache (keep h cp s) !! h' = if usable cp && bool_decide (h = h') then Some cp else ct_cache s !! h'.
Proof.
  unfold keep_pair, cache_insert, set_dir. destruct (usable cp); simpl; [|done].
  case_bool_decide as He; [subst; by rewrite lookup_insert_eq|by rewrite lookup_insert_ne].
Qed.
Lemma fall_other h s h' : h ≠ h' → ct_cache (fall h s) !! h' = ct_cache s !! h'.
Proof. intros Hne. unfold fall_back. destruct (self_signed h); [|done]. by rewrite keep_cache, bool_decide_false, andb_false_r. Qed.
(** A pass over one host leaves the cached certificates of the others alone, and its own if it has one. *)
Lemma ensure_keeps h s h' cp : ct_cache s !! h' = Some cp → ct_cache (ensure s h) !! h' = Some cp.
Proof.
  intros Hc. unfold ensure_cert. destruct (has_cert h s) eqn:Hh; [done|].
  assert (h ≠ h') as Hne by (intros ->; unfold has_cert, hm_contains in Hh; rewrite Hc in Hh; by case_bool_decide; [|destruct H]).
  destruct (stored_pair _ _ _ h s) as [cp'|]; [unfold cache_insert; simpl; by rewrite lookup_insert_ne|].
  destruct acme as [get|]; [|by rewrite fall_other].
  destruct (get _ h) as [cp'|e]; [|by rewrite fall_other].
  destruct (usable cp') eqn:Hu; rewrite ?fall_other, keep_cache by done; by rewrite bool_decide_false, andb_false_r.
Qed.
Lemma watch_keeps hosts s h cp : ct_cache s !! h = Some cp → ct_cache (watch hosts s) !! h = Some cp.
Proof. revert s. induction hosts as [|x hosts IH]; intros s Hc; [done|]. apply IH, ensure_keeps, Hc. Qed.

Lemma ensure_other h s h' : h ≠ h' → ct_cache (ensure s h) !! h' = ct_cache s !! h'.
Proof.
  intros Hne. unfold ensure_cert. destruct (has_cert h s); [done|].
  destruct (stored_pair _ _ _ h s) as [cp'|]; [unfold cache_insert; simpl; by rewrite lookup_insert_ne|].
  destruct acme as [get|]; [|by rewrite fall_other]. destruct (get _ h) as [cp'|e]; [|by rewrite fall_other].
  destruct (usable cp'); rewrite ?fall_other, keep_cache by done; by rewrite bool_decide_false, andb_false_r.
Qed.
Lemma watch_other hosts s h : h ∉ hosts → ct_cache (watch hosts s) !! h = ct_cache s !! h.
Proof.
  revert s. induction hosts as [|x hosts IH]; intros s Hh; [done|]. apply not_elem_of_cons in Hh as [Hne Hh].
  change (ct_cache (watch hosts (ensure s x)) !! h = ct_cache s !! h). rewrite IH by done. by apply ensure_other.
Qed.
Lemma watch_nothing hosts s : (∀ h, h ∈ hosts → is_Some (ct_cache s !! h)) → watch hosts s = s.
Proof.
  intros Hall. induction hosts as [|x hosts IH]; [done|]. unfold watch_certs in *. simpl.
  assert (ensure s x = s) as ->; [|apply IH; set_solver].
  unfold ensure_cert. by rewrite (proj2 (has_cert_true x s)) by set_solver.
Qed.

(** The sources of a certificate for a host, in order of preference: the cache, the store, the authority, if there is one, and a
    self-signed pair; the first that has a pair which can be used is taken. *)
Definition usable_pair (r : result CertPair string) : option CertPair :=
  match r with Ok cp => if usable cp then Some cp else None | Err _ => None end.
Definition sources (h : string) (s : Certs) : list (option CertPair) :=
  [ct_cache s !! h; stored_pair pem_certs pem_key usable h s; get ← acme; usable_pair (get (length (ct_asked s)) h); usable_pair (self_signed h)].
Definition first_source (l : list (option CertPair)) : option CertPair := foldr (λ o acc, match o with Some cp => Some cp | None => acc end) None l.

Lemma fall_cache h s : ct_cache s !! h = None → ct_cache (fall h s) !! h = usable_pair (self_signed h).
Proof.
  intros Hn. unfold fall_back, usable_pair. destruct (self_signed h) as [cp|]; [|done]. rewrite keep_cache, bool_decide_true, andb_true_r by done.
  by destruct (usable cp).
Qed.
Lemma ensure_chosen h s : ct_cache (ensure s h) !! h = first_source (sources h s).
Proof.
  unfold ensure_cert, sources, first_source. simpl. destruct (has_cert h s) eqn:Hh.
  { apply has_cert_true in Hh as [cp Hcp]. by rewrite Hcp. }
  assert (ct_cache s !! h = None) as Hn by (apply eq_None_not_Some; rewrite <-has_cert_true; congruence). rewrite Hn.
  destruct (stored_pair _ _ _ h s) as [cp|]; [apply lookup_insert_eq|]. destruct acme as [get|]; simpl; [|rewrite fall_cache by done; by destruct (usable_pair _)].
  destruct (get _ h) as [cp|e]; simpl; [|rewrite fall_cache by done; by destruct (usable_pair _)].
  destruct (usable cp) eqn:Hu; [by rewrite keep_cache, Hu, bool_decide_true by done|].
  rewrite fall_cache; [by destruct (usable_pair _)|]. by rewrite keep_cache, Hu.
Qed.
Lemma watch_app l1 l2 s : watch (l1 ++ l2) s = watch l2 (watch l1 s).
Proof. apply foldl_app. Qed.
Lemma watch_chosen l1 h l2 s : h ∉ l2 → ct_cache (watch (l1 ++ h :: l2) s) !! h = first_source (sources h (watch l1 s)).
Proof.
  intros Hh. rewrite watch_app. change (ct_cache (watch l2 (ensure (watch l1 s) h)) !! h = first_source (sources h (watch l1 s))).
  rewrite watch_other by done. apply ensure_chosen.
Qed.
Lemma first_source_self h s cp : self_signed h = Ok cp → usable cp = true → is_Some (first_source (sources h s)).
Proof. intros Hs Hu. unfold sources, first_source, usable_pair at 2. simpl. rewrite Hs, Hu. repeat case_match; eauto. Qed.

(** C23: After a change of the routes the TLS resolver has, for the server name of every routed host, the certificate of the first
    source that has one that can be used: the cache, the store, the certificate authority, a self-signed one; in particular a host
    for which a self-signed pair can be generated and used has a certificate whatever the store and the authority answered, and a
    host has none only if all four fail. Certificates that were there before are the same, and a further pass over hosts that
    have a certificate changes nothing and asks the authority for nothing. *)
Theorem certs_available hosts s :
  (∀ l1 h l2, hosts = l1 ++ h :: l2 → h ∉ l2 → resolve_sni (Some h) (watch hosts s) = first_source (sources h (watch l1 s))) ∧
  (∀ h cp, h ∈ hosts → self_signed h = Ok cp → usable cp = true → is_Some (resolve_sni (Some h) (watch hosts s))) ∧
  (∀ h cp, resolve_sni (Some h) s = Some cp → resolve_sni (Some h) (watch hosts s) = Some cp) ∧
  (∀ hosts', (∀ h, h ∈ hosts' → is_Some (resolve_sni (Some h) (watch hosts s))) → watch hosts' (watch hosts s) = watch hosts s).
Proof.
  split_and!; [|intros h cp Hin Hself Hu|intros h cp; apply watch_keeps|intros hosts' Hall; by apply watch_nothing].
  - intros l1 h l2 -> Hh. by apply watch_chosen.
  - apply list_elem_of_split in Hin as (l1 & l2 & ->). rewrite watch_app.
    destruct (first_source_self h (watch l1 s) cp Hself Hu) as [cp' Hcp]. exists cp'. apply (watch_keeps l2 (ensure (watch l1 s) h)).
    by rewrite ensure_chosen.
Qed.

(** *** Renewal *)

Context `{HI : HashIter} (not_after : string → result Z string).
Local Notation listed := (cert_list pem_certs not_after).
Local Notation renew get := (renew_one base64 usable budget get).
Local Notation check get := (check_and_renew base64 pem_certs not_after usable budget get).
Definition due (threshold : Z) (infos : list CertInfo) : list string :=
  filter_map (λ i, if threshold <? ci_expires i then None else Some (ci_hostname i)) infos.
(** One certificate: who is asked, and what can be in the cache and in the directory afterwards. *)
Lemma renew_spec get th s i :
  let s' := renew get th s i in
  ct_asked s' = ct_asked s ++ due th [i] ∧
  ∀ h, ct_cache s' !! h = ct_cache s !! h ∨
       h = ci_hostname i ∧ ci_expires i ≤ th ∧
       ∃ cp, get (length (ct_asked s)) h = Ok cp ∧ usable cp = true ∧ ct_cache s' !! h = Some cp.
Proof.
  assert (due th [i] = if th <? ci_expires i then [] else [ci_hostname i]) as -> by (unfold due; simpl; by destruct (_ <? _)).
  unfold renew_one. simpl. destruct (th <? ci_expires i) eqn:Hth; [rewrite app_nil_r; auto|]. apply Z.ltb_ge in Hth.
  destruct (get _ _) as [cp|e] eqn:Hget; [|by split; [|left]].
  destruct (cert_save _ _ _ _ _) as [[[]|e] d]; [|by split; [|left]].
  destruct (usable cp) eqn:Hu; [|by split; [|left]]. split; [done|]. intros h. unfold cache_insert. simpl.
  destruct (decide (ci_hostname i = h)) as [<-|]; [|left; by rewrite lookup_insert_ne].
  right. split_and!; [done..|]. exists cp. by rewrite lookup_insert_eq.
Qed.
Lemma renew_all get th s infos :
  let s' := foldl (renew get th) s infos in
  ct_asked s' = ct_asked s ++ due th infos ∧
  ∀ h, ct_cache s' !! h = ct_cache s !! h ∨
       h ∈ due th infos ∧ ∃ n cp, get n h = Ok cp ∧ usable cp = true ∧ ct_cache s' !! h = Some cp.
Proof.
  revert s. induction infos as [|i infos IH]; intros s; simpl; [rewrite app_nil_r; by split; [|left]|].
  destruct (renew_spec get th s i) as [Ha Hc]. destruct (IH (renew get th s i)) as [IHa IHc]. split.
  - rewrite IHa, Ha, <-app_assoc. f_equal. unfold due. simpl. by destruct (th <? ci_expires i).
  - intros h. specialize (Hc h). specialize (IHc h).
    destruct IHc as [->|(Hin & n & cp & Hg & Hu & Hl)].
    + destruct Hc as [->|(-> & Hle & cp & Hg & Hu & Hl)]; [by left|]. right. split; [|eauto].
      unfold due. simpl. rewrite (proj2 (Z.ltb_ge _ _) Hle). left.
    + right. split; [|eauto 10]. unfold due in *. simpl. destruct (th <? ci_expires i); [done|by right].
Qed.

(** A renewal check asks the authority once for every certificate of the directory that expires within thirty days, in
    the order of the listing, and for no other; afterwards each cached certificate is the old one, or, for a host that
    was due, a usable one the authority issued: a failed renewal keeps the old certificate. *)
Theorem renewal_exact get now s :
  let s' := check get now s in
  let hosts := due (now + secs (30 * 24 * 60 * 60)) (listed (ct_dir s)) in
  ct_asked s' = ct_asked s ++ hosts ∧
  ∀ h, resolve_sni (Some h) s' = resolve_sni (Some h) s ∨
       h ∈ hosts ∧ ∃ n cp, get n h = Ok cp ∧ usable cp = true ∧ resolve_sni (Some h) s' = Some cp.
Proof. apply renew_all. Qed.

Lemma listed_host d h i :
  i ∈ listed d → ci_hostname i = h →
  ∃ pem, d !! cert_path h = Some pem ∧ ci_expires i = match parse_cert_expiry pem_certs not_after pem with Ok t => t | Err _ => 0 end.
Proof.
  unfold cert_list. rewrite elem_of_filter_map. intros ([name pem] & Hin & Hi) <-.
  destruct (strip_suffix ".crt" name) as [h'|] eqn:Hs; [|done]. apply strip_suffix_Some in Hs as ->. injection Hi as <-. simpl.
  rewrite hm_iter_perm in Hin. apply elem_of_map_to_list in Hin. eauto.
Qed.

(** When the authority fails for a new host the self-signed certificate that is generated instead is final: it is cached
    and stored like a real one, no later change of the routes asks for the host again, and no renewal check asks for it
    while the certificate is valid for thirty more days, whatever the authority would answer by then. *)
Theorem self_signed_is_final get s host e cp c cs t now get' :
  acme = Some get → has_cert host s = false → stored_pair pem_certs pem_key usable host s = None →
  get (length (ct_asked s)) host = Err e →
  self_signed host = Ok cp → usable cp = true → PemReads base64 pem_certs pem_key cp → (4 ≤ budget host)%nat →
  cp_certs cp = c :: cs → not_after c = Ok t → now + secs (30 * 24 * 60 * 60) < secs t → 0 ≤ now →
  let s1 := ensure s host in
  resolve_sni (Some host) s1 = Some cp ∧ cert_load pem_certs pem_key (ct_dir s1) host = Ok (Some cp) ∧
  ensure s1 host = s1 ∧
  (∃ hosts, ct_asked (check get' now s1) = ct_asked s1 ++ hosts ∧ host ∉ hosts) ∧
  resolve_sni (Some host) (check get' now s1) = Some cp.
Proof.
  intros Hacme Hno Hst Hget Hself Hu Hpem Hb Hcs Ht Hlate Hnow s1.
  assert (s1 = keep host cp (ask host s)) as Hs1.
  { unfold s1, ensure_cert. rewrite Hno, Hst, Hacme, Hget. unfold fall_back. by rewrite Hself. }
  assert (ct_cache s1 !! host = Some cp) as Hcache by (by rewrite Hs1, keep_cache, Hu, bool_decide_true).
  assert (ct_dir s1 = <[key_path host := pem_encode base64 "PRIVATE KEY" (cp_key cp)]> (<[cert_path host := cert_pem base64 cp]> (ct_dir s))) as Hdir.
  { rewrite Hs1. unfold keep_pair. rewrite Hu. unfold cache_insert, set_dir, ask. simpl. rewrite save_dir.
    destruct (budget host) as [|[|[|[|n]]]]; [lia..|done]. }
  pose proof (cert_key_path_ne host host) as Hne.
  assert (∀ i, i ∈ listed (ct_dir s1) → ci_hostname i = host → ci_expires i = secs t) as Hexp.
  { intros i Hin Hi. destruct (listed_host _ _ _ Hin Hi) as (pem & Hpm & ->). rewrite Hdir, lookup_insert_ne, lookup_insert_eq in Hpm by done.
    injection Hpm as <-. unfold parse_cert_expiry. rewrite (certs_of_pem _ _ _ _ Hpem), Hcs, Ht.
    destruct (t <? 0) eqn:Hneg; [|done]. apply Z.ltb_lt in Hneg. unfold secs in *. lia. }
  assert (host ∉ due (now + RENEWAL_WINDOW) (listed (ct_dir s1))) as Hdue.
  { unfold due. rewrite elem_of_filter_map. intros (i & Hin & Hi). destruct (_ <? _) eqn:Hlt; [done|]. injection Hi as Hi.
    rewrite (Hexp i Hin Hi) in Hlt. unfold RENEWAL_WINDOW in *. apply Z.ltb_ge in Hlt. lia. }
  destruct (renew_all get' (now + RENEWAL_WINDOW) s1 (listed (ct_dir s1))) as [Hasked Hren].
  split_and!; [done| | |by eexists|].
  - rewrite Hdir, (load_both _ _ _ host (cert_pem base64 cp) (pem_encode base64 "PRIVATE KEY" (cp_key cp)));
      rewrite ?lookup_insert_eq, ?lookup_insert_ne, ?lookup_insert_eq by done; rewrite ?(certs_of_pem _ _ _ _ Hpem); [|done..|apply Hpem].
    rewrite (reads_key _ _ _ _ Hpem). by destruct cp.
  - unfold ensure_cert. by rewrite (proj2 (has_cert_true host s1)) by eauto.
  - destruct (Hren host) as [He|[Hin _]]; [|done]. unfold resolve_sni. simpl. unfold check_and_renew. by rewrite He.
Qed.
End watcher.

(** ** Starting *)

Section starting.
Context `{HI : HashIter} (pem_certs : string → list (result string string)).
Context (pem_key : string → result (option string) string) (not_after : string → result Z string) (usable : CertPair → bool).
Context (read_creds restore : string → result unit string) (register : result string string).
Local Notation start := (proxy_start pem_certs pem_key not_after usable read_creds restore register).

(** What [start] has cached is a usable pair of the directory, and it leaves the directory alone. *)
Lemma load_existing_spec s :
  let s' := load_existing pem_certs pem_key not_after usable s in
  ct_dir s' = ct_dir s ∧
  (∀ h cp, ct_cache s' !! h = Some cp →
     ct_cache s !! h = Some cp ∨ cert_load pem_certs pem_key (ct_dir s) h = Ok (Some cp) ∧ usable cp = true).
Proof.
  unfold load_existing. generalize (cert_list pem_certs not_after (ct_dir s)) as infos. intros infos.
  revert s. induction infos as [|i infos IH]; intros s; simpl; [by split; [|left]|].
  destruct (cert_load pem_certs pem_key (ct_dir s) (ci_hostname i)) as [[cp|]|e] eqn:Hl; [|apply IH..].
  destruct (usable cp) eqn:Hu; [|apply IH]. destruct (IH (cache_insert (ci_hostname i) cp s)) as [Hd Hc].
  split; [done|]. intros h cp' Hh. destruct (Hc h cp' Hh) as [Hins|?]; [|by right]. unfold cache_insert in Hins. simpl in Hins.
  destruct (decide (ci_hostname i = h)) as [<-|Hne]; [rewrite lookup_insert_eq in Hins; naive_solver|rewrite lookup_insert_ne in Hins; auto].
Qed.

(** The proxy starts whenever the directory can be read and the ports are free, whatever happens to the ACME account, with
    usable stored certificates only. But an account whose credentials file was cut short when it was first written is
    lost for good: this and every later start goes on without a client, and no certificate is requested or renewed. *)
Theorem torn_credentials_disable_acme d json budget :
  d !! acme_path = None → register = Ok json → (∃ e, read_creds EmptyString = Err e) →
  ∃ s, start true true true true 1 d = Ok (true, s) ∧
    (∀ h cp, ct_cache s !! h = Some cp → cert_load pem_certs pem_key d h = Ok (Some cp) ∧ usable cp = true) ∧
    ∃ s', start true true true true budget (ct_dir s) = Ok (false, s') ∧ ct_dir s' = ct_dir s.
Proof.
  intros Hnone Hreg [e He]. unfold proxy_start, start_acme, load_acme_credentials. simpl.
  destruct (load_existing_spec (mkCerts d ∅ [])) as [Hd Hc]. simpl in *. rewrite Hd, Hnone. simpl. rewrite Hreg.
  eexists. split; [done|]. split.
  - intros h cp Hh. destruct (Hc h cp Hh) as [Hx|?]; [by rewrite lookup_empty in Hx|done].
  - simpl. set (d1 := <[acme_path := EmptyString]> d).
    destruct (load_existing_spec (mkCerts d1 ∅ [])) as [Hd1 _]. simpl in *. rewrite Hd1. unfold d1.
    rewrite lookup_insert_eq. unfold acme_new. rewrite He. eexists. split; [done|]. done.
Qed.
End starting.

(** ** Examples: data of one line, kept as it is; a certificate names its expiry *)

Definition ex_pem_certs (s : string) : list (result string string) :=
  Ok <$> filter (λ l, starts_with "-----" l = false) (str_lines s).
Definition ex_pem_key (s : string) : result (option string) string :=
  Ok (head (filter (λ l, starts_with "-----" l = false) (str_lines s))).
Definition ex_not_after (c : string) : result Z string := if decide (c = "self"%string) then Ok (10 * 365 * 24 * 60 * 60) else Err "x509"%string.
Definition ex_pair (name : string) : CertPair := mkCertPair [name] (name +:+ "-key")%string.
Definition ex_self (host : string) : result CertPair string := Ok (ex_pair "self").
Definition ex_denied (n : nat) (host : string) : result CertPair string := Err "rate limited"%string.

(** No pair is generated for a name that is not ASCII; the other host has one. *)
Definition ex_ascii_self (h : string) : result CertPair string :=
  if forallb (λ c, (Ascii.nat_of_ascii c <? 128)%nat) (String.list_ascii_of_string h) then Ok (ex_pair "self") else Err "invalid IA5 string"%string.
Lemma certs_available_witness :
  let s := watch_certs id ex_pem_certs ex_pem_key (λ _, true) (Some ex_denied) ex_ascii_self (λ _, 0%nat)
             ["ü.test"%string; "b.test"%string] (mkCerts ∅ ∅ []) in
  is_Some (resolve_sni (Some "b.test"%string) s) ∧ resolve_sni (Some "ü.test"%string) s = None.
Proof.
  intros s. destruct (certs_available id ex_pem_certs ex_pem_key (λ _, true) (Some ex_denied) ex_ascii_self (λ _, 0%nat)
                        ["ü.test"%string; "b.test"%string] (mkCerts ∅ ∅ [])) as (Hfirst & Hself & _).
  split; [eapply Hself; [right; left|vm_compute; reflexivity|reflexivity]|].
  etrans; [apply (Hfirst [] "ü.test"%string ["b.test"%string] eq_refl)|]; [|vm_compute; reflexivity].
  apply (bool_decide_unpack _). vm_compute. exact I.
Defined.
Lemma interrupted_save_witness :
  let d := (cert_save id 4 ∅ "a.test" (ex_pair "old")).2 in
  cert_load ex_pem_certs ex_pem_key (cert_save id 2 d "a.test" (ex_pair "new")).2 "a.test"
  = Ok (Some (mkCertPair ["new"%string] "old-key")).
Proof.
  intros d. apply (interrupted_save id ex_pem_certs ex_pem_key d "a.test" (ex_pair "old") (ex_pair "new") 2);
    [split; vm_compute; done..|vm_compute; reflexivity].
Defined.
Lemma self_signed_is_final_witness :
  let s := mkCerts ∅ ∅ [] in
  let s1 := ensure_cert id ex_pem_certs ex_pem_key (λ _, true) (Some ex_denied) ex_self (λ _, 4%nat) s "a.test" in
  let s2 := check_and_renew (HI := stored_order) id ex_pem_certs ex_not_after (λ _, true) (λ _, 4%nat) (λ _ h, Ok (ex_pair h)) 0 s1 in
  resolve_sni (Some "a.test") s2 = Some (ex_pair "self").
Proof.
  intros s s1 s2.
  eapply (self_signed_is_final (HI := stored_order) id ex_pem_certs ex_pem_key (λ _, true) (Some ex_denied) ex_self (λ _, 4%nat)
            ex_not_after ex_denied s "a.test" "rate limited" (ex_pair "self") "self" [] (10 * 365 * 24 * 60 * 60) 0 (λ _ h, Ok (ex_pair h)));
    try (vm_compute; reflexivity); [split; vm_compute; done|done].
Defined.
Lemma torn_credentials_disable_acme_witness :
  ∃ s s', let start := proxy_start (HI := stored_order) ex_pem_certs ex_pem_key ex_not_after (λ _, true)
                         (λ j, if str_is_empty j then Err "EOF"%string else Ok tt) (λ _, Ok tt) (Ok "{}"%string) true true true true in
    start 1%nat ∅ = Ok (true, s) ∧ start 2%nat (ct_dir s) = Ok (false, s').
Proof.
  destruct (torn_credentials_disable_acme (HI := stored_order) ex_pem_certs ex_pem_key ex_not_after (λ _, true)
              (λ j, if str_is_empty j then Err "EOF"%string else Ok tt) (λ _, Ok tt) (Ok "{}"%string) ∅ "{}" 2)
    as (s & Hs & _ & s' & Hs' & _); [done|done|by eexists|by exists s, s'].
Defined.
