(* ===== verification/Tasks.v ===== *)
(** One-off tasks and the removal of nodes ([src/crates/node/src/primary/tasks.rs],
    [src/crates/node/src/primary/nodes.rs]), as procedures of the effect monad. The theorems show what a
    spawned task has gone through when its spawner gets an answer, that a spawn which fails after
    scheduling leaves its reservation behind, that a drain stops an allocation of a configured service
    only after a replacement was recorded healthy, and what happens to the volumes of a drained node. *)

From S2P Require Import Prelude Types Env Fsm Scheduler Rpc World Plan Deploy.
Local Open Scope Z_scope.

(** * Tasks (primary/tasks.rs) *)

Record SpawnTaskRequest := mkSpawnTaskRequest {
  str_task : option string;
  str_image : option string;
  str_cpu : f64;
  str_memory : string;
  str_env : gmap string string;
  str_timeout : option string;
}.
Record SpawnTaskResponse := mkSpawnTaskResponse {
  stp_id : string;
  stp_node : string;
  stp_status : string;
  stp_address : option string;
}.

(** What a request asks for, once resolved. *)
Record ResolvedTask := mkResolvedTask {
  rt_name : string;
  rt_image : string;
  rt_resources : Resources;
  rt_env : gmap string EnvValue;
  rt_timeout : option Z;
  rt_command : option (list string);
}.

Section tasks.
Context `{HI : HashIter} (env : nat → EnvStep) (fuel : nat) (vars : gmap string string).
Context (decrypt : string → string → result string string).
(** [str::parse::<ByteSize>] and [humantime::parse_duration]. *)
Context (parse_bytesize : string → result Z string) (parse_duration : string → result Z string).

Definition resolve_task (request : SpawnTaskRequest) : M (result ResolvedTask DeployError) :=
  match str_task request, str_image request with
  | Some template, None =>
      def ← read_fsm (λ f, config f ≫= (λ c, tasks c !! template));
      def ←? ok_or def (DeployNode (ServiceNotFound template));
      let timeout := if (td_timeout def =? 0)%Z then None else Some (td_timeout def) in
      mret (Ok (mkResolvedTask template (td_image def) (td_resources def) (td_env def) timeout (td_command def)))
  | None, Some img =>
      memory ←? mret (match parse_bytesize (str_memory request) with
                      | Ok m => Ok m
                      | Err e => Err (EnvResolution ("invalid memory: " +:+ e))
                      end);
      let resources := mkResources (str_cpu request) memory in
      suffix ← rand_suffix;
      mret (Ok (mkResolvedTask ("task-" +:+ suffix) img resources (Literal <$> str_env request) None None))
  | _, _ => throw (DeployNode (BadRequest "must specify exactly one of 'task' or 'image'"))
  end%string.
(** The request's timeout overrides the one of the template. *)
Definition effective_timeout (request : SpawnTaskRequest) (def_timeout : option Z) : result (option Z) DeployError :=
  match str_timeout request with
  | Some s =>
      match parse_duration s with
      | Ok d => Ok (Some d)
      | Err e => Err (EnvResolution ("invalid timeout: " +:+ e)%string)
      end
  | None => Ok def_timeout
  end.
Definition override_env (over : gmap string string) (defs : gmap string EnvValue) : gmap string EnvValue :=
  foldl (λ m '(k, v), <[k := Literal v]> m) defs (hm_iter over).
Definition task_spec (aid : AllocId) (t : ResolvedTask) (timeout : option Z) (e : gmap string string) : ContainerSpec :=
  mkContainerSpec aid KTask timeout (rt_command t) (rt_image t) e None None
    (res_cpu (rt_resources t)) (res_memory (rt_resources t)) [].

Definition spawn_task (request : SpawnTaskRequest) : M (result SpawnTaskResponse DeployError) :=
  t ←? resolve_task request;
  timeout_dur ←? mret (effective_timeout request (rt_timeout t));
  let env_defs := override_env (str_env request) (rt_env t) in
  suffix ← rand_suffix;
  let aid := mkAllocId (rt_name t +:+ "-" +:+ suffix) in
  node ← read_fsm (λ f, schedule_on f (mkScheduleRequest (rt_resources t) (rt_name t) KTask None) []);
  node ←? ok_or node (SchedulingFailed (rt_name t) 0);
  raft_node_id ← read_fsm (λ f, raft_id_for f node);
  raft_node_id ←? ok_or raft_node_id (SchedulingFailed (rt_name t) 0);
  _ ←? propose_ok env (AllocScheduled aid raft_node_id (rt_name t) KTask None (alloc_resources_from (rt_resources t)));
  _ ← record (EMetric (MetricTaskSpawn (rt_name t)));
  e ←? read_fsm (λ f, resolve_env decrypt f env_defs);
  _ ←? lift_err DeployNode (send env node (Run aid (task_spec aid t timeout_dur e) None));
  _ ←? wait_for_status env fuel aid (deploy_timeout vars);
  _ ← match timeout_dur with
      | Some dur => record (ESpawn (SpawnKill dur (alloc_id_0 aid)))
      | None => mret tt
      end;
  address ← read_fsm (λ f, show_sock <$> (allocs f !! aid ≫= alloc_address));
  mret (Ok (mkSpawnTaskResponse (alloc_id_0 aid) (node_id_0 node) "running" address))%string.

Definition kill_task (id : string) : M (result unit DeployError) :=
  let aid := mkAllocId id in
  info ← read_fsm (λ f, (λ a, (bool_decide (alloc_kind a = KTask), alloc_node a)) <$> allocs f !! aid);
  match info with
  | Some (true, node) => lift_err DeployNode (send env node (Stop aid))
  | Some (false, _) => throw (DeployNode (NotATask id))
  | None => throw (DeployNode (AllocNotFound id))
  end.
End tasks.

(** * Nodes (primary/nodes.rs) *)

Section nodes.
Context `{HI : HashIter} (env : nat → EnvStep) (fuel : nat) (vars : gmap string string).
Context (decrypt : string → string → result string string) (has_driver : bool).

(** The volumes attached to a node, and the allocations that are still active on it. *)
Definition attached_to (node : NodeId) (f : FsmState) : list string :=
  fst <$> filterb (λ '(_, vol), bool_decide (vol_state vol = VolAttached node)) (list_volumes f).
Definition node_mill_id (raft_id : Z) (f : FsmState) : NodeId :=
  default (mkNodeId "") (mill_id <$> nodes f !! raft_id).
Definition active_on (raft_id : Z) (f : FsmState) : list (AllocId * string * AllocKind) * NodeId :=
  match nodes f !! raft_id with
  | None => ([], mkNodeId "")
  | Some n =>
      ((λ a, (alloc_id a, alloc_name a, alloc_kind a)) <$>
         filterb (λ a, bool_decide (alloc_node a = mill_id n) && negb (is_terminal (alloc_status a))) (hm_values (allocs f)),
       mill_id n)
  end.

Definition detach_volume (vol_name : string) : M unit :=
  _ ← (if has_driver then _ ← cloud env (CloudDetach vol_name); mret tt else mret tt);
  _ ← propose env (VolumeDetached vol_name);
  mret tt.
(** Bring up a replacement; [false] when the old allocation must be kept. *)
Definition replace_service (started : Z) (name : string) : M bool :=
  def ← read_fsm (λ f, config f ≫= (λ c, services c !! name));
  match def with
  | None => mret true
  | Some def =>
      suffix ← rand_suffix;
      r ← start_alloc env fuel vars decrypt started name def (mkAllocId (name +:+ "-" +:+ suffix)) 0;
      match r with
      | Ok _ => _ ← send_json_event env "progress" [("service", JStr name); ("phase", JStr "migrated")]; mret true
      | Err e => _ ← send_json_event env "failed" [("service", JStr name); ("reason", JStr (show_deploy_error e))]; mret false
      end
  end%string.
Definition drain_alloc (started : Z) (node : NodeId) (entry : AllocId * string * AllocKind) : M unit :=
  let '(aid, name, kind) := entry in
  go_on ← (if decide (kind = KService) then replace_service started name else mret true);
  if go_on : bool then
    _ ← send env node (Stop aid);
    send_json_event env "progress" [("service", JStr name); ("phase", JStr "stopped")]
  else mret tt%string.

(** The three parts of [drain_node]: mark the node and detach its volumes, migrate or stop its
    allocations. *)
Definition drain_volumes (raft_id : Z) : M unit :=
  node ← read_fsm (node_mill_id raft_id);
  vols ← read_fsm (attached_to node);
  for_each vols detach_volume.
Definition drain_allocs (started raft_id : Z) : M (result unit DeployError) :=
  '(entries, node) ← read_fsm (active_on raft_id);
  _ ← for_each entries (drain_alloc started node);
  el ← elapsed started;
  _ ← send_json_event env "done" [("elapsed", JF64 el)];
  mret (Ok tt)%string.
Definition drain_node (raft_id : Z) : M (result unit DeployError) :=
  started ← now;
  resp ←? propose_ok env (NodeDrain raft_id);
  match resp with
  | RespError e => throw (DeployNode (RaftRejected e))
  | RespOk =>
      _ ← send_json_event env "progress" [("phase", JStr "started")];
      _ ← drain_volumes raft_id;
      drain_allocs started raft_id
  end%string.

Definition remove_node (raft_id : Z) : M (result unit NodeError) :=
  resp ←? lift_err RaftErr (propose env (NodeRemove raft_id));
  match resp with
  | RespOk => mret (Ok tt)
  | RespError e => throw (RaftRejected e)
  end.
End nodes.

(** * Specifications *)

(** What happened since the last stop command. *)
Definition since_stop (t : list Effect) : list Effect :=
  foldl (λ acc e, if is_stop e then [] else acc ++ [e]) [] t.
(** A replacement for the service was brought up. *)
Definition replacement_healthy (health : Effect → option AllocId) (name : string) (t : list Effect) : Prop :=
  ∃ e suffix, e ∈ t ∧ health e = Some (mkAllocId (name +:+ "-" +:+ suffix)%string).
Definition configured (f : FsmState) (name : string) : Prop := is_Some (config f ≫= (λ c, services c !! name)).
(** A stop command of a drain is for an allocation of the node; when it belongs to a configured service
    a replacement was brought up since the stop command before. *)
Definition drain_justified `{HashIter} (health : Effect → option AllocId) (f : FsmState) (raft_id : Z) (before : list Effect) (e : Effect) : Prop :=
  match e with
  | ESend node (Stop aid) _ =>
      node = (active_on raft_id f).2 ∧ ∃ name kind, (aid, name, kind) ∈ (active_on raft_id f).1 ∧
        (kind = KService → configured f name → replacement_healthy health name (since_stop before))
  | _ => True
  end.
Definition attaches (e : Effect) : bool :=
  match e with
  | ECloud (CloudAttach _ _) _ | EPropose (VolumeAttached _ _) _ => true
  | _ => false
  end.

(** * Lemmas *)

Lemma since_stop_app t1 t2 : Forall (λ e, is_stop e = false) t2 → since_stop (t1 ++ t2) = since_stop t1 ++ t2.
Proof.
  intros Ht. unfold since_stop. rewrite foldl_app. generalize (foldl (λ acc e, if is_stop e then [] else acc ++ [e]) [] t1).
  induction Ht as [|e t He Ht IH]; intros acc; simpl; [by rewrite app_nil_r|]. rewrite He, IH, <-app_assoc. done.
Qed.

Lemma since_stop_sub t : since_stop t ⊆ t.
Proof.
  unfold since_stop. assert (∀ acc t', foldl (λ acc e, if is_stop e then [] else acc ++ [e]) acc t' ⊆ acc ++ t') as H.
  { intros acc t'. revert acc. induction t' as [|e t' IH]; intros acc; simpl; [intros x; by rewrite app_nil_r|].
    destruct (is_stop e); (etrans; [apply IH|]); intros x; rewrite ?elem_of_app, ?elem_of_cons, ?elem_of_nil; tauto. }
  apply (H []).
Qed.
Lemma drain_justified_accepted `{HashIter} f raft_id seen e :
  Forall accepted seen → drain_justified health_committed f raft_id seen e → drain_justified healthy_of f raft_id seen e.
Proof.
  intros Ha. destruct e; simpl; try done. case_match; try done. intros (-> & name & kind & Hin & Hr). split; [done|].
  exists name, kind. split; [done|]. intros Hk Hc. destruct (Hr Hk Hc) as (e & suffix & He & Heq). exists e, suffix. split; [done|].
  rewrite <-accepted_healthy; [done|]. apply (proj1 (Forall_forall _ _) Ha). by apply since_stop_sub.
Qed.

Lemma config_kept `{HashIter} f cmd : (∀ c, cmd ≠ Deploy c) → config (apply_command f cmd).1 = config f.
Proof.
  intros Hc. destruct cmd; try (by destruct (Hc cfg)); simpl; unfold apply_heartbeat, apply_node_remove; repeat case_match; done.
Qed.

Section lemmas.
Context `{HI : HashIter} (env : nat → EnvStep) (fuel : nat) (vars : gmap string string).
Context (decrypt : string → string → result string string) (has_driver : bool).

(** ** The configuration during a drain *)

Section keeps.
Context (P : FsmState → Prop).
Hypothesis env_keeps : ∀ n cmd f, cmd ∈ es_before (env n) ++ es_after (env n) → P f → P (apply_command f cmd).1.
Hypothesis propose_keeps : ∀ f cmd, (∀ c, cmd ≠ Deploy c) → P f → P (apply_command f cmd).1.
Lemma drain_alloc_keeps started node entry : keeps P (drain_alloc env fuel vars decrypt started node entry).
Proof.
  unfold drain_alloc, replace_service. destruct entry as [[aid name] kind].
  repeat first [apply start_alloc_keeps; auto|keeps_step|case_match].
Qed.
End keeps.

(** ** One allocation of the node *)

Lemma drain_justified_no_stop health f raft_id seen e : is_stop e = false → drain_justified health f raft_id seen e.
Proof. destruct e; simpl; try done. by case_match. Qed.

(** The proposals of a drain are accepted while no other task removes a node. *)
Lemma drain_alloc_accepted started node entry w :
  no_removals env → fsm_wf (w_fsm w) →
  ends (drain_alloc env fuel vars decrypt started node entry) (λ _ w' t, fsm_wf (w_fsm w') ∧ Forall accepted t) w.
Proof.
  intros Hrm Hwf. apply (ends_keeps fsm_wf); [|done|].
  { apply drain_alloc_keeps; intros; by apply apply_command_wf. }
  destruct entry as [[aid name] kind]. unfold drain_alloc. apply ends_bind.
  apply (ends_mono _ (λ _ _ t, Forall accepted t)).
  { case_decide; [|by apply ends_ret]. unfold replace_service. apply ends_bind, ends_read.
    destruct (config (w_fsm w) ≫= _) as [def|]; [|by apply ends_ret].
    apply ends_bind, (silent_keeps fsm_wf); [apply keeps_suffix|apply always_suffix|done|]. intros suffix w1 Hwf1. simpl.
    apply ends_bind. eapply ends_mono; [by apply start_alloc_accepted|]. intros [[]|e] w2 t2 Ht2; apply ends_bind, ends_event; intros w3;
      apply ends_ret; all_ok. }
  intros b w1 t1 Ht1. destruct b; [|apply ends_ret; all_ok].
  apply ends_bind, ends_send. intros r w2. apply ends_event. intros w3. all_ok.
Qed.

Lemma replace_service_healthy started name w :
  ends (replace_service env fuel vars decrypt started name)
    (λ b _ t, Forall (λ e, is_stop e = false) t ∧
       (b = true → configured (w_fsm w) name → replacement_healthy health_committed name t) ∧
       (b = false → ∃ reason, EEvent "failed" [("service", JStr name); ("reason", JStr reason)] ∈ t)%string) w.
Proof.
  unfold replace_service. apply ends_bind, ends_read. unfold configured.
  destruct (config (w_fsm w) ≫= _) as [def|]; simpl.
  2: { apply ends_ret. split_and!; [constructor| |done]. by intros _ []. }
  apply ends_bind. eapply (always_ends (λ _, False)); [apply always_suffix|]. intros suffix w1 t1 Ht1.
  destruct t1; [|by inversion_clear Ht1]. simpl. apply ends_bind.
  eapply ends_mono; [apply ends_and; [apply start_alloc_healthy|by apply (start_alloc_always _ _ _ _ (λ e, is_stop e = false))]|].
  intros r w2 t2 [Hh Hns]. destruct r as [[]|e]; apply ends_bind, ends_event; intros w3; apply ends_ret.
  - split_and!; [by apply Forall_app; split; [|repeat constructor]| |done]. intros _ _.
    destruct (Hh eq_refl) as (e & He & Heq). exists e, suffix. split; [set_solver|done].
  - split_and!; [by apply Forall_app; split; [|repeat constructor]|done|]. intros _. exists (show_deploy_error e). set_solver.
Qed.

Lemma drain_alloc_ordered f raft_id started seen aid name kind w :
  (aid, name, kind) ∈ (active_on raft_id f).1 → config (w_fsm w) = config f →
  ends (drain_alloc env fuel vars decrypt started (active_on raft_id f).2 (aid, name, kind))
    (λ _ _ t, ordered (drain_justified health_committed f raft_id) seen t ∧
       ((∃ res, ESend (active_on raft_id f).2 (Stop aid) res ∈ t) ∨
        kind = KService ∧ ∃ reason, EEvent "failed" [("service", JStr name); ("reason", JStr reason)] ∈ t)%string) w.
Proof.
  intros Hin Hcfg. unfold drain_alloc. apply ends_bind.
  set (Q := λ (b : bool) (_ : World) t, Forall (λ e, is_stop e = false) t ∧
       (b = true → kind = KService → configured f name → replacement_healthy health_committed name t) ∧
       (b = false → kind = KService ∧ ∃ reason, EEvent "failed" [("service", JStr name); ("reason", JStr reason)] ∈ t)%string).
  apply (ends_mono _ Q).
  { case_decide as Hk; [|apply ends_ret; split_and!; [constructor|by intros|done]].
    eapply ends_mono; [apply replace_service_healthy|]. unfold configured. rewrite Hcfg.
    intros b w1 t (H1 & H2 & H3). split_and!; [done|by auto|by auto]. }
  intros b w1 t (Hns & Ht & Hf). assert (ordered (drain_justified health_committed f raft_id) seen t) as Ho.
  { eapply ordered_Forall; [|exact Hns]. intros. by apply drain_justified_no_stop. }
  destruct b.
  2: { apply ends_ret. rewrite app_nil_r. split; [done|]. right. by apply Hf. }
  apply ends_bind, ends_send. intros r w2. apply ends_event. intros w3. split.
  - apply ordered_app. split; [done|]. split; [|by repeat split]. split; [done|]. exists name, kind. split; [done|].
    intros Hk Hc. rewrite since_stop_app by done.
    destruct (Ht eq_refl Hk Hc) as (e & suffix & He & ?). exists e, suffix. split; [set_solver|done].
  - left. exists r. set_solver.
Qed.
End lemmas.

(** ** Waiting for a task *)

(** The allocation has left the states in which a container is prepared, without failing. *)
Definition has_started (f : FsmState) (aid : AllocId) : Prop :=
  ∃ a, allocs f !! aid = Some a ∧
    match alloc_status a with Running | Healthy | Stopped _ => True | _ => False end.

Lemma wait_status_started env fuel aid timeout w :
  ∀ `{HI : HashIter}, ends (wait_for_status env fuel aid timeout)
    (λ r w' t, t = [] ∧ (r = Ok tt → has_started (w_fsm w') aid)) w.
Proof.
  intros HI. apply ends_bind. intros t0 w0 [= <- <-]. exists []. rewrite app_nil_r. split; [done|]. simpl.
  generalize (w_now w + timeout) as deadline. intros deadline. revert w.
  induction fuel as [|n IH]; intros w; simpl; [by intros a w'|].
  assert (ends (t' ← now; if deadline <=? t' then throw (HealthCheckTimeout (alloc_id_0 aid))
     else ok ← changed_in_time env;
          if ok : bool then wait_for_status_loop env n aid deadline
          else throw (HealthCheckTimeout (alloc_id_0 aid)))
     (λ r w' t, t = [] ∧ (r = Ok tt → has_started (w_fsm w') aid)) w) as Hagain.
  { apply ends_bind. intros t' w' [= <- <-]. exists []. rewrite app_nil_r. split; [done|].
    case_match; [by apply ends_ret|]. apply ends_bind.
    eapply (always_ends (λ _, False)); [apply changed_always|]. intros ok w1 t1 Ht1.
    destruct t1; [|by inversion_clear Ht1]. destruct ok; [apply IH|by apply ends_ret]. }
  apply ends_bind, ends_read. destruct (allocs (w_fsm w) !! aid) as [a|] eqn:Ea; simpl; [|apply Hagain].
  destruct (alloc_status a) eqn:Es; try apply Hagain; apply ends_ret; (split; [done|]); try done;
    intros _; exists a; by rewrite Es.
Qed.

(** * Theorems *)

Section spawn_theorems.
Context `{HI : HashIter} (env : nat → EnvStep) (fuel : nat) (vars : gmap string string).
Context (decrypt : string → string → result string string).
Context (parse_bytesize : string → result Z string) (parse_duration : string → result Z string).

(** what a finished [spawn_task] has done. On success the task was scheduled, then the run command was
    delivered, and nothing else was proposed or sent; its allocation has started by now, and a kill
    timer runs exactly when a timeout applies. On failure at most the scheduling was proposed and no
    timer runs: an allocation that was scheduled is not marked failed. *)
Theorem spawn_task_outcome req w r w' :
  spawn_task env fuel vars decrypt parse_bytesize parse_duration req w = Some (r, w') →
  ∃ t, w_trace w' = w_trace w ++ t ∧
    match r with
    | Ok resp =>
        ∃ aid node id name res spec answer,
          t = [EPropose (AllocScheduled aid id name KTask None res) (Ok answer); EMetric (MetricTaskSpawn name);
               ESend node (Run aid spec None) (Ok tt)] ++
              match spec_timeout spec with Some d => [ESpawn (SpawnKill d (alloc_id_0 aid))] | None => [] end ∧
          stp_id resp = alloc_id_0 aid ∧ stp_node resp = node_id_0 node ∧
          spec_alloc_id spec = aid ∧ spec_kind spec = KTask ∧ spec_port spec = None ∧ spec_volumes spec = [] ∧
          has_started (w_fsm w') aid ∧ stp_address resp = show_sock <$> (allocs (w_fsm w') !! aid ≫= alloc_address)
    | Err _ =>
        (∀ task, ESpawn task ∉ t) ∧
        ∀ cmd answer, EPropose cmd answer ∈ t → ∃ aid id name res, cmd = AllocScheduled aid id name KTask None res
    end.
Proof.
  intros Hrun. revert r w' Hrun. match goal with |- ∀ r w', _ → ∃ t, _ ∧ @?P r w' t => change (ends (spawn_task env fuel vars decrypt parse_bytesize parse_duration req) P w) end.
  unfold spawn_task. apply ends_bind_ok.
  eapply (always_ends (λ _, False)); [unfold resolve_task; solve_always|]. intros [rt|e] w1 t1 Ht1;
    (destruct t1; [|by inversion_clear Ht1]); [|split; [by intros task ?%elem_of_nil|by intros cmd answer ?%elem_of_nil]].
  apply ends_bind_ok, ends_ret. destruct (effective_timeout _ _ _) as [timeout|e]; [|split; [by intros task ?%elem_of_nil|by intros cmd answer ?%elem_of_nil]].
  apply ends_bind. eapply (always_ends (λ _, False)); [apply always_suffix|]. intros suffix w2 t2 Ht2.
  destruct t2; [|by inversion_clear Ht2]. set (aid := mkAllocId _).
  apply ends_bind, ends_read, ends_bind_ok, ends_ok_or; [|split; [by intros task ?%elem_of_nil|by intros cmd answer ?%elem_of_nil]]. intros node _.
  apply ends_bind, ends_read, ends_bind_ok, ends_ok_or; [|split; [by intros task ?%elem_of_nil|by intros cmd answer ?%elem_of_nil]]. intros id _.
  apply ends_bind_ok, ends_propose_ok.
  2: { intros e w3. simpl. split; [intros task; set_solver|]. intros cmd answer.
       rewrite list_elem_of_singleton. intros [= -> ->]. eauto. }
  intros answer w3. apply ends_bind, ends_record. intros w4 _ _ _ _. simpl.
  assert (∀ rest, Forall (λ e, match e with EPropose _ _ | ESpawn _ => False | _ => True end) rest →
    (∀ task, ESpawn task ∉ EPropose (AllocScheduled aid id (rt_name rt) KTask None (alloc_resources_from (rt_resources rt))) (Ok answer) ::
                           EMetric (MetricTaskSpawn (rt_name rt)) :: rest) ∧
    (∀ cmd answer', EPropose cmd answer' ∈ EPropose (AllocScheduled aid id (rt_name rt) KTask None (alloc_resources_from (rt_resources rt))) (Ok answer) ::
                           EMetric (MetricTaskSpawn (rt_name rt)) :: rest →
       ∃ aid id name res, cmd = AllocScheduled aid id name KTask None res)) as Hfail.
  { intros rest Hr. rewrite Forall_forall in Hr. split; [intros task|intros cmd answer']; rewrite !elem_of_cons;
      (intros [Heq|[Heq|Hin]]; [try done|done|by apply Hr in Hin]). simplify_eq. eauto. }
  apply ends_bind_ok, ends_read. destruct (resolve_env _ _ _) as [e|e]; [|by apply Hfail].
  apply ends_bind_ok, ends_lift_err, ends_send. intros [[]|e'] w5; [|by apply Hfail; repeat constructor].
  apply ends_bind_ok. eapply ends_mono; [apply wait_status_started|]. intros [[]|e'] w6 t6 [-> Hst];
    [|by apply Hfail; repeat constructor].
  specialize (Hst eq_refl). apply ends_bind.
  destruct timeout as [d|]; [apply ends_record; intros w7 Hw7 _ _ _; rewrite <-Hw7 in Hst|apply ends_ret];
    apply ends_bind, ends_read, ends_ret; eexists aid, node, id, _, _, (task_spec aid rt ltac:(first [exact (Some d)|exact None]) e), answer;
    (split; [simpl; reflexivity|]); by split_and!.
Qed.
End spawn_theorems.

Section drain_theorems.
Context `{HI : HashIter} (env : nat → EnvStep) (fuel : nat) (vars : gmap string string).
Context (decrypt : string → string → result string string) (has_driver : bool).

(** a drain never attaches a volume anywhere: it detaches every volume of the node, in the cloud and in
    the cluster state, and the replacements it starts run without them. *)
Theorem drain_never_attaches raft_id :
  (∀ w u w', drain_volumes env has_driver raft_id w = Some (u, w') →
     ∃ t, w_trace w' = w_trace w ++ t ∧
       ∀ vol, vol ∈ attached_to (node_mill_id raft_id (w_fsm w)) (w_fsm w) →
         (∃ r, EPropose (VolumeDetached vol) r ∈ t) ∧ (has_driver = true → ∃ ok, ECloud (CloudDetach vol) ok ∈ t)) ∧
  (∀ w r w', drain_node env fuel vars decrypt has_driver raft_id w = Some (r, w') →
     ∃ t, w_trace w' = w_trace w ++ t ∧ Forall (λ e, attaches e = false) t).
Proof.
  split.
  - intros w u w' Hrun. revert u w' Hrun.
    match goal with |- ∀ r w', _ → ∃ t, _ ∧ @?P r w' t => change (ends (drain_volumes env has_driver raft_id) P w) end.
    unfold drain_volumes. apply ends_bind, ends_read, ends_bind, ends_read. simpl.
    generalize (attached_to (node_mill_id raft_id (w_fsm w)) (w_fsm w)) as vols. revert w.
    intros w vols. revert w. induction vols as [|v vols IH]; intros w; simpl.
    { apply ends_ret. by intros vol ?%elem_of_nil. }
    apply ends_bind. apply (ends_mono _ (λ _ _ t, (∃ r, EPropose (VolumeDetached v) r ∈ t) ∧
      (has_driver = true → ∃ ok, ECloud (CloudDetach v) ok ∈ t))).
    { unfold detach_volume. apply ends_bind. destruct has_driver.
      - apply ends_bind, ends_cloud; intros msg w1; apply ends_ret; apply ends_bind, ends_propose; intros r w2; apply ends_ret;
          (split; [exists r; set_solver|intros _]); [exists true|exists false]; set_solver.
      - apply ends_ret, ends_bind, ends_propose. intros r w2. apply ends_ret. split; [exists r; set_solver|done]. }
    intros u w1 t1 [[r Hr] Hc]. eapply ends_mono; [apply IH|]. intros u' w2 t2 Ht2 vol. rewrite elem_of_cons. intros [Heq|Hin]; [rewrite Heq|].
    + split; [exists r; set_solver|]. intros Hd. destruct (Hc Hd) as [ok ?]. exists ok. set_solver.
    + destruct (Ht2 vol Hin) as [[r' ?] Hc']. split; [exists r'; set_solver|]. intros Hd. destruct (Hc' Hd) as [ok ?].
      exists ok. set_solver.
  - intros w r w' Hrun. revert r w' Hrun. apply (λ H : always _ _, H w).
    unfold drain_node, drain_volumes, drain_allocs, detach_volume, drain_alloc, replace_service, elapsed.
    repeat first [apply start_alloc_always; intros; done|always_step|case_match|done|progress intros].
Qed.

(** C8: draining a node, from the moment its active allocations are listed, while no deploy changes the
    configuration. Every stop command goes to the drained node and is for one of those allocations;
    when the allocation belongs to a configured service, a replacement of that service was brought up
    after the stop command before it: its health was committed, and while no other task removes a node (from a state whose records
    are stored under their own identifiers) the state machine recorded it. And every listed allocation is either told to stop, or it
    belongs to a service whose replacement failed, which is reported. *)
Theorem drain_replaces_first started raft_id w r w' :
  (∀ n c, Deploy c ∉ es_before (env n) ++ es_after (env n)) →
  drain_allocs env fuel vars decrypt started raft_id w = Some (r, w') →
  ∃ t, w_trace w' = w_trace w ++ t ∧
    (∀ t1 e t2, t = t1 ++ e :: t2 → drain_justified health_committed (w_fsm w) raft_id t1 e) ∧
    (no_removals env → fsm_wf (w_fsm w) → ∀ t1 e t2, t = t1 ++ e :: t2 → drain_justified healthy_of (w_fsm w) raft_id t1 e) ∧
    ∀ aid name kind, (aid, name, kind) ∈ (active_on raft_id (w_fsm w)).1 →
      (∃ res, ESend (active_on raft_id (w_fsm w)).2 (Stop aid) res ∈ t) ∨
      kind = KService ∧ ∃ reason, EEvent "failed" [("service", JStr name); ("reason", JStr reason)] ∈ t.
Proof.
  intros Henv. set (f := w_fsm w). set (node := (active_on raft_id f).2).
  set (handled := λ (t : list Effect) '(aid, name, kind),
    (∃ res, ESend node (Stop aid) res ∈ t) ∨
    kind = KService ∧ ∃ reason, EEvent "failed" [("service", JStr name); ("reason", JStr reason)] ∈ t).
  assert (∀ l w1 seen, l ⊆ (active_on raft_id f).1 → config (w_fsm w1) = config f →
    ends (for_each l (drain_alloc env fuel vars decrypt started node))
      (λ _ _ t, ordered (drain_justified health_committed f raft_id) seen t ∧ Forall (handled t) l) w1) as Hloop.
  { induction l as [|[[aid name] kind] l IH]; intros w1 seen Hl Hcfg; cbn [for_each]; [apply ends_ret; by split|].
    apply ends_bind. eapply ends_mono.
    { apply (ends_keeps (λ f', config f' = config f)); [|done|apply (drain_alloc_ordered _ _ _ _ has_driver f raft_id started seen); [set_solver|done]].
      apply drain_alloc_keeps.
      - intros n cmd g Hc Hg. rewrite config_kept; [done|]. intros c ->. by destruct (Henv n c).
      - intros g cmd Hc Hg. by rewrite config_kept. }
    intros _ w2 t2 (Hcfg2 & Ho & Hh). eapply ends_mono; [apply (IH w2 (seen ++ t2)); [set_solver|done]|].
    intros _ w3 t3 (Ho3 & Hh3). split; [by apply ordered_app|]. constructor.
    - destruct Hh as [[res ?]|[? [reason ?]]]; [left; exists res|right; split; [done|]; exists reason]; set_solver.
    - eapply Forall_impl; [exact Hh3|]. intros [[a n] k] [[res ?]|[? [reason ?]]];
        [left; exists res|right; split; [done|]; exists reason]; set_solver. }
  assert (no_removals env → fsm_wf f → ends (drain_allocs env fuel vars decrypt started raft_id) (λ _ _ t, Forall accepted t) w) as Hacc.
  { intros Hrm Hwf. unfold drain_allocs. apply ends_bind, ends_read. destruct (active_on raft_id (w_fsm w)) as [entries node'].
    apply ends_bind. assert (∀ l w1, fsm_wf (w_fsm w1) →
      ends (for_each l (drain_alloc env fuel vars decrypt started node')) (λ _ _ t, Forall accepted t) w1) as Hl.
    { induction l as [|x l IH]; intros w1 Hwf1; cbn [for_each]; [by apply ends_ret|]. apply ends_bind.
      eapply ends_mono; [by apply drain_alloc_accepted|]. intros _ w2 t2 [Hwf2 Ht2]. eapply ends_mono; [by apply IH|]. intros. by apply Forall_app. }
    eapply ends_mono; [by apply Hl|]. intros u1 w1 t1 Ht1. apply ends_bind. eapply (always_ends accepted); [unfold elapsed; solve_always|].
    intros el w2 t2 Ht2. apply ends_bind, ends_event. intros w3. apply ends_ret. all_ok. }
  cut (ends (drain_allocs env fuel vars decrypt started raft_id)
    (λ _ _ t, ordered (drain_justified health_committed f raft_id) [] t ∧ Forall (handled t) (active_on raft_id f).1) w).
  { intros He Hrun. destruct (He r w' Hrun) as (t & Ht & Ho & Hh). exists t.
    assert (∀ t1 e t2, t = t1 ++ e :: t2 → drain_justified health_committed f raft_id t1 e) as Hj.
    { intros t1 e t2 ->. exact (ordered_split _ [] _ t1 _ t2 Ho eq_refl). }
    split_and!; [done|done| |].
    - intros Hrm Hwf t1 e t2 Heq. apply drain_justified_accepted; [|exact (Hj t1 e t2 Heq)].
      destruct (Hacc Hrm Hwf r w' Hrun) as (t' & Ht' & Ha). rewrite Ht in Ht'. apply app_inv_head in Ht' as <-.
      rewrite Heq in Ha. by apply Forall_app in Ha as [? _].
    - intros aid name kind Hin. by apply (proj1 (Forall_forall _ _) Hh (aid, name, kind)). }
  unfold drain_allocs. apply ends_bind, ends_read. fold f. destruct (active_on raft_id f) as [entries node'] eqn:Ea.
  apply ends_bind. eapply ends_mono; [apply (Hloop entries w []); done|]. intros _ w1 t1 [Ho1 Hh1].
  apply ends_bind. eapply (always_ends (λ _, False)); [unfold elapsed; solve_always|]. intros el w2 t2 Ht2.
  destruct t2; [|by inversion_clear Ht2]. apply ends_bind, ends_event. intros w3. apply ends_ret. split.
  - simpl. rewrite ordered_app. by repeat split.
  - eapply Forall_impl; [exact Hh1|]. intros [[a n] k] [[res ?]|[? [reason ?]]];
      [left; exists res|right; split; [done|]; exists reason]; set_solver.
Qed.
End drain_theorems.

(** * Examples and witnesses *)

Module TaskExamples.
Import FsmExamples DeployExamples.
Definition ex_task_request : SpawnTaskRequest :=
  mkSpawnTaskRequest None (Some "job:1") (f64_of_Z 1) "1073741824" ∅ (Some "60s").
Definition ex_bytesize (s : string) : result Z string :=
  match parse_u64 s with Some n => Ok n | None => Err "not a size" end.
Definition ex_duration (s : string) : result Z string := Ok (secs 60).
(** The same cluster with no connection to any node. *)
Definition ex_unreachable : World := mkWorld ex_state CommandRouter_new 0 0 0 0 [].
(** The container of the task is reported as running. *)
Definition ex_task_env (n : nat) : EnvStep :=
  mkEnvStep [AllocRunning (mkAllocId "task-00-01") None None] [] (λ r, r) 1 0 true "".
(** Both nodes are up, and the first one is being drained. *)
Definition ex_draining : World :=
  mkWorld (@apply_commands stored_order (set_config (Some ex_config) ex_state) [NodeHeartbeat 2 ∅; NodeDrain 1])
    (w_router (ex_world None)) 0 0 0 0 [].
End TaskExamples.
Import FsmExamples DeployExamples TaskExamples.

(** a task that was scheduled on a node which cannot be reached is reported as failed, but its allocation
    stays in the state of a container being prepared and its memory stays reserved. *)
Theorem failed_spawn_keeps_reservation :
  ∃ e w', @spawn_task stored_order (ex_silent 9) 5 ∅ ex_decrypt ex_bytesize ex_duration ex_task_request ex_unreachable = Some (Err e, w') ∧
    alloc_status <$> allocs (w_fsm w') !! mkAllocId "task-00-01" = Some Pulling ∧
    memory_available <$> @node_available_resources stored_order (w_fsm ex_unreachable) 1 = Some (7 * 2 ^ 30) ∧
    memory_available <$> @node_available_resources stored_order (w_fsm w') 1 = Some (6 * 2 ^ 30).
Proof.
  eexists _, _. split; [vm_compute; reflexivity|]. split_and!; vm_compute; reflexivity.
Qed.

Lemma spawn_task_outcome_witness :
  ∃ resp w' t, @spawn_task stored_order ex_task_env 5 ∅ ex_decrypt ex_bytesize ex_duration ex_task_request (ex_world None) = Some (Ok resp, w') ∧
    w_trace w' = w_trace (ex_world None) ++ t ∧ has_started (w_fsm w') (mkAllocId (stp_id resp)).
Proof.
  destruct (@spawn_task stored_order ex_task_env 5 ∅ ex_decrypt ex_bytesize ex_duration ex_task_request (ex_world None)) as [[r w']|] eqn:E;
    [|vm_compute in E; discriminate].
  destruct (@spawn_task_outcome stored_order ex_task_env 5 ∅ ex_decrypt ex_bytesize ex_duration ex_task_request (ex_world None) r w' E)
    as (t & H1 & H2).
  destruct r as [resp|e]; [|vm_compute in E; discriminate].
  destruct H2 as (aid & node & id & name & res & spec & answer & _ & Hid & _ & _ & _ & _ & _ & Hst & _).
  exists resp, w', t. split; [reflexivity|]. split; [exact H1|]. rewrite Hid. destruct aid. exact Hst.
Defined.

Lemma drain_replaces_first_witness :
  ∃ r w' t, @drain_allocs stored_order ex_env 5 ∅ ex_decrypt 0 1 ex_draining = Some (r, w') ∧
    w_trace w' = w_trace ex_draining ++ t ∧
    (∀ t1 e t2, t = t1 ++ e :: t2 → @drain_justified stored_order healthy_of (w_fsm ex_draining) 1 t1 e) ∧
    ESend (mkNodeId "node-1") (Stop (mkAllocId "web-0")) (Ok tt) ∈ w_trace w'.
Proof.
  destruct (@drain_allocs stored_order ex_env 5 ∅ ex_decrypt 0 1 ex_draining) as [[r w']|] eqn:E; [|vm_compute in E; discriminate].
  destruct (@drain_replaces_first stored_order ex_env 5 ∅ ex_decrypt false 0 1 ex_draining r w') as (t & H1 & _ & H2 & _).
  - intros n c. simpl. rewrite list_elem_of_singleton. discriminate.
  - exact E.
  - exists r, w', t. split; [reflexivity|]. split; [exact H1|]. split; [apply H2; [exact ex_env_no_removals|]|].
    { apply (@apply_commands_keeps stored_order fsm_wf); [intros; by apply apply_command_wf|exact (ex_world_wf (Some ex_config))]. }
    vm_compute in E. injection E as <- <-. apply list_elem_of_lookup. exists 7%nat. reflexivity.
Defined.
