(* ===== verification/Watchdog.v ===== *)
(** The watchdog of the primary ([src/crates/node/src/primary/watchdog.rs]): it declares silent nodes down
    and their allocations failed, removes and re-adds WireGuard peers, and restarts under-replicated
    services with a backoff. The theorems show that a node is declared down exactly when it was ready
    and silent for the timeout, which services are restarted, how often and after which delay, and that
    a service some of whose replicas are still starting is given too many new ones. *)

From S2P Require Import Prelude Types Env Fsm Scheduler Rpc World Plan Deploy Report.
Local Open Scope Z_scope.

Record RestartState := mkRestartState {
  attempts : Z;
  last_attempt_at : Z;
}.
(** The local variables of the watchdog task, with the heartbeat record it shares with the report
    processor, and how far the environment's heartbeats are in that record. *)
Record WatchState := mkWatchState {
  wd_tracker : HeartbeatTracker;
  wd_seen : nat;
  node_discovered : gmap Z Z;
  backoff : gmap string RestartState;
  prev_statuses : gmap Z NodeStatus;
}.
Definition set_tracker (tr : HeartbeatTracker) (seen : nat) (st : WatchState) : WatchState :=
  mkWatchState tr seen (node_discovered st) (backoff st) (prev_statuses st).
Definition set_discovered (d : gmap Z Z) (st : WatchState) : WatchState :=
  mkWatchState (wd_tracker st) (wd_seen st) d (backoff st) (prev_statuses st).
Definition set_backoff (b : gmap string RestartState) (st : WatchState) : WatchState :=
  mkWatchState (wd_tracker st) (wd_seen st) (node_discovered st) b (prev_statuses st).
Definition set_prev (p : gmap Z NodeStatus) (st : WatchState) : WatchState :=
  mkWatchState (wd_tracker st) (wd_seen st) (node_discovered st) (backoff st) p.

(** A loop that threads a state. *)
Fixpoint fold_m {A S} (body : S → A → M S) (l : list A) (s : S) : M S :=
  match l with
  | [] => mret s
  | x :: l => s ← body s x; fold_m body l s
  end.

Section watchdog.
Context `{HI : HashIter} (env : nat → EnvStep) (fuel : nat) (vars : gmap string string).
Context (decrypt : string → string → result string string).
(** The heartbeats that the report processor records during each wait. *)
Context (beats : nat → gmap Z Z).
(** Whether a WireGuard mesh is configured. *)
Context (has_mesh : bool).

Definition absorb (from upto : nat) (tr : HeartbeatTracker) : HeartbeatTracker :=
  foldl (λ tr n, beats n ∪ tr) tr (seq from (upto - from)).
(** The heartbeat record as it is at this moment. *)
Definition sync (st : WatchState) : M WatchState := λ w,
  Some (set_tracker (absorb (wd_seen st) (w_tick w) (wd_tracker st)) (Nat.max (wd_seen st) (w_tick w)) st, w).

(** * Silent nodes *)

Definition mark_node_allocs_failed (node : NodeId) (st : WatchState) : M WatchState :=
  als ← read_fsm (λ f, (λ a, (alloc_id a, alloc_kind a, alloc_name a)) <$>
          filterb (λ a, bool_decide (alloc_node a = node) && negb (is_terminal (alloc_status a))) (hm_values (allocs f)));
  fold_m (λ st '(aid, kind, name),
    _ ← propose env (SetAllocStatus aid (Failed "node down"));
    mret (if decide (kind = KService) then set_backoff (delete name (backoff st)) st else st)) als st.

(** [now.duration_since(effective)], which is never negative. *)
Definition silence (t : Z) (id : Z) (st : WatchState) : Z :=
  let discovered_at := default t (node_discovered st !! id) in
  Z.max 0 (t - default discovered_at (last_seen id (wd_tracker st))).

Definition check_node (t : Z) (st : WatchState) (node : Z * NodeId * NodeStatus) : M WatchState :=
  let '(id, mid, status) := node in
  if negb (bool_decide (status = NodeReady)) then mret st
  else
    st ← sync st;
    if silence t id st <? heartbeat_timeout vars then mret st
    else
      wg_pubkey ← read_fsm (λ f, nodes f !! id ≫= wireguard_pubkey);
      r ← propose env (NodeDown id);
      match r with
      | Err _ => mret st
      | Ok _ =>
          _ ← match has_mesh, wg_pubkey with
              | true, Some pubkey => _ ← mesh env (RemovePeer pubkey); mret tt
              | _, _ => mret tt
              end;
          mark_node_allocs_failed mid st
      end.

Definition current_nodes (f : FsmState) : list (Z * NodeId * NodeStatus) :=
  (λ n, (raft_id n, mill_id n, fn_status n)) <$> hm_values (nodes f).
(** New nodes get a grace period from now on; nodes that are gone are forgotten. *)
Definition discover (t : Z) (ids : list Z) (d : gmap Z Z) : gmap Z Z :=
  foldl (λ d id, match d !! id with Some _ => d | None => <[id := t]> d end) d ids.
Definition forget_gone (ids : gset Z) (d : gmap Z Z) (tr : HeartbeatTracker) : gmap Z Z * HeartbeatTracker :=
  (filter (λ '(id, _), id ∈ ids) d,
   foldl (λ tr id, if bool_decide (id ∈ ids) then tr else tracker_remove id tr) tr (hm_keys d)).

Definition check_heartbeats (st : WatchState) : M WatchState :=
  t ← now;
  ns ← read_fsm current_nodes;
  let ids := (λ '(id, _, _), id) <$> ns in
  st ← sync st;
  let d := discover t ids (node_discovered st) in
  let '(d, tr) := forget_gone (list_to_set ids) d (wd_tracker st) in
  fold_m (check_node t) ns (set_discovered d (set_tracker tr (wd_seen st) st)).

(** * WireGuard peers of nodes that came back *)

Definition snapshot_statuses (st : WatchState) : M WatchState :=
  ns ← read_fsm (λ f, (λ n, (raft_id n, fn_status n)) <$> hm_values (nodes f));
  mret (set_prev (hm_collect ns) st).
Definition recovered_peers (prev : gmap Z NodeStatus) (f : FsmState) : list PeerInfo :=
  filter_map (λ n,
    if bool_decide (prev !! raft_id n = Some NodeDown_) && bool_decide (fn_status n = NodeReady) then
      (λ pubkey, mkPeerInfo (mill_id n) pubkey None (sock_ip (fn_address n))) <$> wireguard_pubkey n
    else None) (hm_values (nodes f)).
Definition reconcile_wireguard_peers (st : WatchState) : M WatchState :=
  if has_mesh then
    recovered ← read_fsm (recovered_peers (prev_statuses st));
    _ ← for_each recovered (λ peer, _ ← mesh env (AddPeer peer); mret tt);
    snapshot_statuses st
  else snapshot_statuses st.

(** * Restarting services *)

Definition active_count (f : FsmState) (name : string) : Z :=
  count_u32 (filterb (λ a, is_active (alloc_status a)) (list_service_allocs f name)).
Definition non_terminal_count (f : FsmState) (name : string) : Z :=
  count_u32 (filterb (λ a, negb (is_terminal (alloc_status a))) (list_service_allocs f name)).
(** The delay before the next restart. *)
Definition backoff_delay (s : RestartState) : Z :=
  default 0 (restart_backoff !! Z.to_nat (Z.min (attempts s) (Z.of_nat (length restart_backoff) - 1))).

Definition check_service (t : Z) (st : WatchState) (service : string * ServiceDef) : M WatchState :=
  let '(name, def) := service in
  active ← read_fsm (λ f, active_count f name);
  non_terminal ← read_fsm (λ f, non_terminal_count f name);
  if sd_replicas def <=? active then mret (set_backoff (delete name (backoff st)) st)
  else if sd_replicas def <=? non_terminal then mret st
  else
    match backoff st !! name with
    | None => mret (set_backoff (<[name := mkRestartState 0 t]> (backoff st)) st)
    | Some s =>
        if Z.max 0 (t - last_attempt_at s) <? backoff_delay s then mret st
        else
          let st := set_backoff (<[name := mkRestartState (u64_add (attempts s) 1) t]> (backoff st)) st in
          let needed := sd_replicas def - active in
          _ ← record (EMetric (MetricRestart name));
          _ ← for_each (seqZ 0 needed) (λ _, record (ESpawn (SpawnRestart name def)));
          mret st
    end.
Definition config_services (f : FsmState) : list (string * ServiceDef) :=
  match config f with
  | Some c => hm_iter (services c)
  | None => []
  end.
Definition check_service_restarts (st : WatchState) : M WatchState :=
  t ← now;
  svcs ← read_fsm config_services;
  let names : gset string := list_to_set (fst <$> svcs) in
  fold_m (check_service t) svcs (set_backoff (filter (λ '(name, _), name ∈ names) (backoff st)) st).

(** What a spawned restart does. *)
Definition restart_replica (name : string) (def : ServiceDef) : M (result unit DeployError) :=
  suffix ← rand_suffix;
  started ← now;
  start_alloc env fuel vars decrypt started name def (mkAllocId (name +:+ "-" +:+ suffix)) 0.

(** * The loop *)

Definition watchdog_round (st : WatchState) : M WatchState :=
  st ← check_heartbeats st;
  st ← reconcile_wireguard_peers st;
  check_service_restarts st.
(** Wait for the next tick; the wait ends otherwise when the watchdog is cancelled. *)
Fixpoint watchdog_loop (rounds : nat) (st : WatchState) : M WatchState :=
  match rounds with
  | O => λ _, None
  | S rounds =>
      '(ticked, _) ← await_outcome env;
      if ticked : bool then st ← watchdog_round st; watchdog_loop rounds st
      else mret st
  end.
Definition spawn_watchdog (tracker : HeartbeatTracker) (rounds : nat) : M WatchState := λ w,
  watchdog_loop rounds (mkWatchState tracker (w_tick w) ∅ ∅ ∅) w.
End watchdog.

(** * Specifications *)

(** How long a node has been silent when the watchdog looks: since its last heartbeat, or since the
    watchdog first saw it. *)
Definition silent_for (beats : nat → gmap Z Z) (st : WatchState) (w : World) (id : Z) : Z :=
  Z.max 0 (w_now w - default (default (w_now w) (node_discovered st !! id))
                       (absorb beats (wd_seen st) (w_tick w) (wd_tracker st) !! id)).

(** A restart is due: the service lacks active replicas, not enough others are on their way, and the
    delay since the last attempt has passed. *)
Definition restart_due `{HashIter} (f : FsmState) (t : Z) (state : option RestartState) (name : string) (def : ServiceDef) : bool :=
  (active_count f name <? sd_replicas def) && (non_terminal_count f name <? sd_replicas def) &&
  match state with
  | Some s => backoff_delay s <=? Z.max 0 (t - last_attempt_at s)
  | None => false
  end.
(** The backoff state of a service after a round. *)
Definition next_state `{HashIter} (f : FsmState) (t : Z) (state : option RestartState) (name : string) (def : ServiceDef) : option RestartState :=
  if sd_replicas def <=? active_count f name then None
  else if sd_replicas def <=? non_terminal_count f name then state
  else match state with
       | None => Some (mkRestartState 0 t)
       | Some s => Some (if restart_due f t state name def then mkRestartState (u64_add (attempts s) 1) t else s)
       end.
Definition service_effects `{HashIter} (f : FsmState) (t : Z) (state : option RestartState) (name : string) (def : ServiceDef) : list Effect :=
  if restart_due f t state name def then
    EMetric (MetricRestart name) ::
    replicate (Z.to_nat (sd_replicas def - active_count f name)) (ESpawn (SpawnRestart name def))
  else [].
(** The restarts of a service among some effects. *)
Definition restarts_of (name : string) (t : list Effect) : list ServiceDef :=
  filter_map (λ e, match e with
                   | ESpawn (SpawnRestart n def) => if decide (n = name) then Some def else None
                   | _ => None
                   end) t.

(** * Lemmas *)

(** A loop whose body preserves [I] and has effects that satisfy [Q] of its element. *)
Lemma ends_fold_m {A S} (body : S → A → M S) (I : S → Prop) (Q : A → list Effect → Prop) l s w :
  I s → (∀ s x w, x ∈ l → I s → ends (body s x) (λ s' _ t, I s' ∧ Q x t) w) →
  ends (fold_m body l s) (λ s' _ t, I s' ∧ ∃ ts, t = concat ts ∧ Forall2 Q l ts) w.
Proof.
  revert s w. induction l as [|x l IH]; intros s w HI Hb; simpl.
  { apply ends_ret. split; [done|]. by exists []. }
  apply ends_bind. eapply ends_mono; [apply Hb; [left|done]|]. intros s1 w1 t1 [HI1 Hq1].
  eapply ends_mono; [apply IH; [done|]; intros; apply Hb; [by right|done]|]. intros s2 w2 t2 [HI2 (ts & -> & Hts)].
  split; [done|]. exists (t1 :: ts). by split; [|constructor].
Qed.
Lemma elem_of_concat_Forall2 {A B} (Q : A → list B → Prop) l ts e :
  Forall2 Q l ts → e ∈ concat ts → ∃ x t, x ∈ l ∧ Q x t ∧ e ∈ t.
Proof.
  induction 1 as [|x t l ts Hq Hts IH]; simpl; [by intros ?%elem_of_nil|].
  intros [Hin|Hin]%elem_of_app; [exists x, t; split_and!; [left|done..]|].
  destruct (IH Hin) as (x' & t' & ? & ? & ?). exists x', t'. split_and!; [by right|done..].
Qed.
Lemma Forall2_elem_concat {A B} (Q : A → list B → Prop) l ts x :
  Forall2 Q l ts → x ∈ l → ∃ t, Q x t ∧ ∀ e, e ∈ t → e ∈ concat ts.
Proof.
  induction 1 as [|y t l ts Hq Hts IH]; [by intros ?%elem_of_nil|]. intros [->|Hin]%elem_of_cons.
  - exists t. split; [done|]. intros e He. apply elem_of_app. by left.
  - destruct (IH Hin) as (t' & ? & Hsub). exists t'. split; [done|]. intros e He. apply elem_of_app. right. by apply Hsub.
Qed.

Section heartbeats.
Context `{HI : HashIter} (env : nat → EnvStep) (vars : gmap string string) (beats : nat → gmap Z Z) (has_mesh : bool).

Lemma absorb_lookup from upto tr id :
  absorb beats from upto tr !! id = tr !! id ∨
  ∃ n t, (from ≤ n)%nat ∧ beats n !! id = Some t ∧ absorb beats from upto tr !! id = Some t.
Proof.
  unfold absorb. generalize (upto - from)%nat as k. intros k. revert from tr. induction k as [|k IH]; intros from tr; simpl; [by left|].
  destruct (IH (S from) (beats from ∪ tr)) as [Heq|(n & t & ? & ? & ?)]; [|right; exists n, t; split_and!; [lia|done..]].
  rewrite Heq. destruct (beats from !! id) as [t|] eqn:E.
  - right. exists from, t. split_and!; [lia|done|]. by apply lookup_union_Some_l.
  - left. by rewrite lookup_union_r.
Qed.

(** What the tracker says of a node, compared to what it said at the start of the check. *)
Definition tracked (t0 : Z) (tick0 : nat) (base : option Z) (id : Z) (now_says : option Z) : Prop :=
  now_says = base ∨ ∃ n t, (tick0 ≤ n)%nat ∧ beats n !! id = Some t ∧ now_says = Some t.
Definition check_inv (t0 : Z) (tick0 : nat) (base : gmap Z Z) (d : gmap Z Z) (st : WatchState) : Prop :=
  node_discovered st = d ∧ (tick0 ≤ wd_seen st)%nat ∧ ∀ id, tracked t0 tick0 (base !! id) id (wd_tracker st !! id).

Lemma sync_inv t0 tick0 base d st w :
  check_inv t0 tick0 base d st → ends (sync beats st) (λ st' w' t, w' = w ∧ t = [] ∧ check_inv t0 tick0 base d st') w.
Proof.
  intros (Hd & Hs & Ht) st' w' [= <- <-]. exists []. rewrite app_nil_r. split_and!; [done..|].
  split; [done|]. split; [cbn [wd_seen set_tracker]; lia|]. intros id. cbn [wd_tracker set_tracker].
  destruct (absorb_lookup (wd_seen st) (w_tick w) (wd_tracker st) id) as [-> |(n & t & ? & ? & ->)]; [apply Ht|].
  right. exists n, t. split_and!; [lia|done..].
Qed.

(** Proposals of the check. *)
Definition down_effect (e : Effect) : Prop :=
  match e with
  | EPropose (SetAllocStatus _ (Failed r)) _ => r = "node down"%string
  | EMesh (RemovePeer _) _ => True
  | _ => False
  end.

Lemma mark_failed_spec t0 tick0 base d node st w :
  check_inv t0 tick0 base d st →
  ends (mark_node_allocs_failed env node st) (λ st' _ t, check_inv t0 tick0 base d st' ∧ Forall down_effect t) w.
Proof.
  intros Hinv. unfold mark_node_allocs_failed. apply ends_bind, ends_read.
  eapply ends_mono; [apply (ends_fold_m _ (check_inv t0 tick0 base d) (λ _ t, Forall down_effect t)); [done|]|].
  - intros s [[aid kind] name] w1 _ Hs. apply ends_bind, ends_propose. intros r w2. apply ends_ret.
    split; [|by repeat constructor]. by case_decide.
  - intros s w1 t [Hs (ts & -> & Hts)]. split; [done|]. simpl. clear -Hts.
    induction Hts; simpl; [constructor|]. by apply Forall_app.
Qed.

(** The effects of the check of one node. *)
Definition node_effects (t0 : Z) (tick0 : nat) (base d : gmap Z Z) (x : Z * NodeId * NodeStatus) (t : list Effect) : Prop :=
  let silent := Z.max 0 (t0 - default (default t0 (d !! x.1.1)) (base !! x.1.1)) in
  (∀ e, e ∈ t → down_effect e ∨
     (∃ r, e = EPropose (NodeDown x.1.1) r) ∧ x.2 = NodeReady ∧ heartbeat_timeout vars ≤ silent) ∧
  (x.2 = NodeReady → heartbeat_timeout vars ≤ silent → (∀ n, (tick0 ≤ n)%nat → beats n !! x.1.1 = None) →
     ∃ r, EPropose (NodeDown x.1.1) r ∈ t).

Lemma check_node_spec t0 tick0 base d st x w :
  (∀ n id t, (tick0 ≤ n)%nat → beats n !! id = Some t → t0 ≤ t) → check_inv t0 tick0 base d st →
  ends (check_node env vars beats has_mesh t0 st x)
    (λ st' _ t, check_inv t0 tick0 base d st' ∧ node_effects t0 tick0 base d x t) w.
Proof.
  intros Hbeats Hinv. destruct x as [[id mid] status]. unfold check_node, node_effects. simpl.
  case_bool_decide as Hready; simpl.
  2: { apply ends_ret. split; [done|]. split; [by intros e ?%elem_of_nil|done]. }
  apply ends_bind. eapply ends_mono; [by apply sync_inv|]. intros st1 w1 t1 (-> & -> & Hinv1).
  destruct Hinv1 as (Hd & Hseen & Htr). pose proof (Htr id) as Hid.
  set (silent := Z.max 0 (t0 - default (default t0 (d !! id)) (base !! id))).
  assert (silence t0 id st1 = silent ∨ silence t0 id st1 = 0 ∧ ∃ n, (tick0 ≤ n)%nat ∧ is_Some (beats n !! id)) as Hsil.
  { unfold silence, last_seen. rewrite Hd. destruct Hid as [-> |(n & t & Hn & Hb & ->)]; [by left|].
    right. simpl. specialize (Hbeats n id t Hn Hb). split; [lia|eauto]. }
  assert (0 ≤ silent) as Hpos by lia.
  destruct (silence t0 id st1 <? heartbeat_timeout vars) eqn:Elt.
  { apply Z.ltb_lt in Elt. apply ends_ret. split; [done|]. split; [by intros e ?%elem_of_nil|].
    intros _ Hto Hnone. destruct Hsil as [Hsil|(_ & n & Hn & [t Hb])]; [lia|]. by rewrite Hnone in Hb. }
  apply Z.ltb_ge in Elt. assert (heartbeat_timeout vars ≤ silent) as Hto by lia.
  apply ends_bind, ends_read, ends_bind, ends_propose. intros r w2.
  assert (∀ rest, Forall down_effect rest → node_effects t0 tick0 base d (id, mid, status) (EPropose (NodeDown id) r :: rest)) as Heff.
  { intros rest Hrest. split; simpl.
    - intros e [->|Hin]%elem_of_cons; [right; split_and!; [by exists r|done..]|left]. by eapply Forall_forall in Hrest.
    - intros _ _ _. exists r. left. }
  destruct r as [resp|e]; [|apply ends_ret; split; [done|by apply Heff]].
  apply ends_bind.
  apply (ends_mono _ (λ _ _ t, Forall down_effect t)).
  { destruct has_mesh; [|by apply ends_ret]. destruct (nodes (w_fsm w) !! id ≫= wireguard_pubkey) as [k|]; [|by apply ends_ret].
    apply ends_bind, ends_mesh. intros ok w3. apply ends_ret. by repeat constructor. }
  intros _ w3 t3 Ht3. eapply ends_mono; [by apply mark_failed_spec|]. intros st' w4 t4 [Hinv4 Ht4].
  split; [done|]. apply Heff. by apply Forall_app.
Qed.

Lemma discover_keep t ids d id x : d !! id = Some x → discover t ids d !! id = Some x.
Proof.
  unfold discover. revert d. induction ids as [|j ids IH]; intros d Hx; simpl; [done|]. apply IH.
  destruct (d !! j) eqn:Ej; [done|]. rewrite lookup_insert_ne; [done|]. intros ->. congruence.
Qed.
Lemma discover_lookup t ids d id : id ∈ ids → discover t ids d !! id = Some (default t (d !! id)).
Proof.
  revert d. induction ids as [|i ids IH]; intros d; [by intros ?%elem_of_nil|].
  change (discover t (i :: ids) d) with (discover t ids (match d !! i with Some _ => d | None => <[i := t]> d end)).
  intros [->|Hin]%elem_of_cons.
  - apply discover_keep. destruct (d !! i) as [x|] eqn:Ei; [done|]. by rewrite lookup_insert_eq.
  - rewrite IH by done. destruct (d !! i) eqn:Ei; [done|]. rewrite lookup_insert. case_decide as Hi; [|done].
    subst. by rewrite Ei.
Qed.
Lemma forget_tracker ids d tr id : id ∈ ids → (forget_gone ids d tr).2 !! id = tr !! id.
Proof.
  intros Hin. unfold forget_gone. simpl. generalize (hm_keys d) as l. intros l. revert tr.
  induction l as [|j l IH]; intros tr; simpl; [done|]. rewrite IH. case_bool_decide; [done|].
  unfold tracker_remove. rewrite lookup_delete_ne; [done|]. intros ->. done.
Qed.
End heartbeats.

(** ** Restarts *)

Definition add_trace (t : list Effect) (w : World) : World :=
  mkWorld (w_fsm w) (w_router w) (w_now w) (w_wall w) (w_counter w) (w_tick w) (w_trace w ++ t).
Lemma add_trace_app t1 t2 w : add_trace t2 (add_trace t1 w) = add_trace (t1 ++ t2) w.
Proof. unfold add_trace. simpl. by rewrite <-app_assoc. Qed.
Lemma add_trace_nil w : add_trace [] w = w.
Proof. destruct w. unfold add_trace. simpl. by rewrite app_nil_r. Qed.

Lemma for_each_record {A} (l : list A) e w :
  for_each l (λ _, record e) w = Some (tt, add_trace (replicate (length l) e) w).
Proof.
  revert w. induction l as [|x l IH]; intros w; [by rewrite add_trace_nil|].
  cbn [for_each]. unfold mbind, M_bind. simpl. change (mkWorld _ _ _ _ _ _ _) with (add_trace [e] w).
  rewrite IH. by rewrite add_trace_app.
Qed.

Section restarts.
Context `{HI : HashIter}.

Lemma check_service_run t st name def w :
  check_service t st (name, def) w =
    Some (set_backoff (partial_alter (λ _, next_state (w_fsm w) t (backoff st !! name) name def) name (backoff st)) st,
          add_trace (service_effects (w_fsm w) t (backoff st !! name) name def) w).
Proof.
  unfold check_service. rewrite !run_read. unfold next_state, service_effects, restart_due.
  set (active := active_count (w_fsm w) name). set (nt := non_terminal_count (w_fsm w) name).
  assert (∀ x, partial_alter (λ _, x) name (backoff st) = match x with Some s => <[name := s]> (backoff st) | None => delete name (backoff st) end) as Hpa.
  { by intros [s|]. }
  rewrite Hpa. destruct (sd_replicas def <=? active) eqn:Ea.
  { rewrite (proj2 (Z.ltb_ge active (sd_replicas def))) by (by apply Z.leb_le). simpl. by rewrite add_trace_nil. }
  rewrite (proj2 (Z.ltb_lt active (sd_replicas def))) by (by apply Z.leb_gt). simpl.
  destruct (sd_replicas def <=? nt) eqn:En.
  { rewrite (proj2 (Z.ltb_ge nt (sd_replicas def))) by (by apply Z.leb_le). simpl. rewrite add_trace_nil.
    destruct (backoff st !! name) eqn:Eb; unfold set_backoff; [rewrite insert_id by done|rewrite delete_id by done]; by destruct st. }
  rewrite (proj2 (Z.ltb_lt nt (sd_replicas def))) by (by apply Z.leb_gt). simpl.
  destruct (backoff st !! name) as [s|] eqn:Eb; [|by rewrite add_trace_nil].
  destruct (Z.max 0 (t - last_attempt_at s) <? backoff_delay s) eqn:Ed.
  - rewrite (proj2 (Z.leb_gt _ _)) by (by apply Z.ltb_lt). rewrite add_trace_nil, insert_id by done. by destruct st.
  - rewrite (proj2 (Z.leb_le _ _)) by (by apply Z.ltb_ge). unfold mbind at 1, M_bind at 1. simpl.
    change (mkWorld _ _ _ _ _ _ _) with (add_trace [EMetric (MetricRestart name)] w).
    unfold mbind, M_bind. rewrite for_each_record, add_trace_app, length_seqZ. done.
Qed.

Lemma restarts_app name t1 t2 : restarts_of name (t1 ++ t2) = restarts_of name t1 ++ restarts_of name t2.
Proof. apply filter_map_app. Qed.
Lemma restarts_effects f t state n def name :
  restarts_of name (service_effects f t state n def) =
    if decide (n = name) then
      (if restart_due f t state n def then replicate (Z.to_nat (sd_replicas def - active_count f n)) def else [])
    else [].
Proof.
  unfold service_effects. destruct (restart_due f t state n def); [|by case_decide]. unfold restarts_of. simpl.
  induction (Z.to_nat _) as [|k IH]; simpl; case_decide; try done; by rewrite IH.
Qed.

(** A round over a list of services with different names. *)
Lemma check_services_run t l st w :
  NoDup l.*1 →
  ∃ b ef, fold_m (check_service t) l st w = Some (set_backoff b st, add_trace ef w) ∧
    (∀ name, name ∉ l.*1 → b !! name = backoff st !! name ∧ restarts_of name ef = []) ∧
    (∀ name def, (name, def) ∈ l →
       b !! name = next_state (w_fsm w) t (backoff st !! name) name def ∧
       restarts_of name ef = restarts_of name (service_effects (w_fsm w) t (backoff st !! name) name def)).
Proof.
  revert st w. induction l as [|[n d] l IH]; intros st w Hnd; cbn [fold_m].
  { exists (backoff st), []. rewrite add_trace_nil. split_and!; [by destruct st|done|by intros ?? ?%elem_of_nil]. }
  apply NoDup_cons in Hnd as [Hn Hnd]. rewrite (run_bind _ _ _ _ _ (check_service_run t st n d w)).
  set (st1 := set_backoff _ st). set (e1 := service_effects _ _ _ n d).
  destruct (IH st1 (add_trace e1 w) Hnd) as (b & ef & Hrun & Hout & Hin). exists b, (e1 ++ ef). split_and!.
  - rewrite Hrun, add_trace_app. by destruct st.
  - intros name [Hne Hl]%not_elem_of_cons. destruct (Hout name Hl) as [-> Hr]. simpl in Hne. subst st1. simpl.
    rewrite lookup_partial_alter_ne by done. split; [done|]. rewrite restarts_app, Hr. subst e1.
    rewrite restarts_effects. by rewrite decide_False.
  - intros name def [[= -> ->]|Hl]%elem_of_cons.
    + destruct (Hout n Hn) as [-> Hr]. subst st1. simpl. rewrite lookup_partial_alter_eq. split; [done|].
      by rewrite restarts_app, Hr, app_nil_r.
    + destruct (Hin name def Hl) as [-> Hr]. assert (n ≠ name) as Hne.
      { intros ->. apply Hn. apply list_elem_of_fmap. by exists (name, def). }
      subst st1. simpl. rewrite lookup_partial_alter_ne by done. split; [done|].
      rewrite restarts_app. subst e1. rewrite restarts_effects, decide_False by done. simpl in Hr |- *. rewrite Hr.
      by rewrite lookup_partial_alter_ne.
Qed.
End restarts.

(** * Theorems *)

(** C6: the watchdog declares a node down exactly when it should. Every node it proposes to be down is a ready
    node that was silent for at least the timeout (counted from its last heartbeat, or from when it was
    first seen); every ready node that was silent for that long and is not heard from while the check
    runs is proposed to be down; and apart from that it only marks allocations failed because of a node
    that is down. *)
Theorem node_down_iff_silent `{HashIter} env vars beats has_mesh st w st' w' :
  (∀ n id t, (w_tick w ≤ n)%nat → beats n !! id = Some t → w_now w ≤ t) →
  check_heartbeats env vars beats has_mesh st w = Some (st', w') →
  ∃ t, w_trace w' = w_trace w ++ t ∧
    (∀ e, e ∈ t → down_effect e ∨
       ∃ n r, e = EPropose (NodeDown (raft_id n)) r ∧ n ∈ hm_values (nodes (w_fsm w)) ∧ fn_status n = NodeReady ∧
         heartbeat_timeout vars ≤ silent_for beats st w (raft_id n)) ∧
    (∀ n, n ∈ hm_values (nodes (w_fsm w)) → fn_status n = NodeReady →
       heartbeat_timeout vars ≤ silent_for beats st w (raft_id n) →
       (∀ k, (w_tick w ≤ k)%nat → beats k !! raft_id n = None) →
       ∃ r, EPropose (NodeDown (raft_id n)) r ∈ t).
Proof.
  intros Hbeats. revert st' w'.
  match goal with |- ∀ r w', _ → ∃ t, _ ∧ @?P r w' t => change (ends (check_heartbeats env vars beats has_mesh st) P w) end.
  unfold check_heartbeats. apply ends_bind. intros t0 w0 [= <- <-]. exists []. split; [by rewrite app_nil_r|].
  apply ends_bind, ends_read. apply ends_bind. intros st1 w1 [= <- <-]. exists []. split; [by rewrite app_nil_r|].
  set (ns := current_nodes (w_fsm w)). set (ids := (λ '(id, _, _), id) <$> ns).
  set (tr := absorb beats (wd_seen st) (w_tick w) (wd_tracker st)).
  cbn [node_discovered set_tracker wd_tracker wd_seen app].
  destruct (forget_gone (list_to_set ids) (discover (w_now w) ids (node_discovered st)) tr) as [d tr'] eqn:Eforget.
  assert (∀ id, id ∈ ids → d !! id = Some (default (w_now w) (node_discovered st !! id)) ∧ tr' !! id = tr !! id) as Hbase.
  { intros id Hin. assert (id ∈ (list_to_set ids : gset Z)) as Hset by (by apply elem_of_list_to_set). split.
    - replace d with (forget_gone (list_to_set ids) (discover (w_now w) ids (node_discovered st)) tr).1 by (by rewrite Eforget).
      simpl. apply map_lookup_filter_Some. split; [by apply discover_lookup|done].
    - replace tr' with (forget_gone (list_to_set ids) (discover (w_now w) ids (node_discovered st)) tr).2 by (by rewrite Eforget).
      by apply forget_tracker. }
  assert (∀ id, id ∈ ids → Z.max 0 (w_now w - default (default (w_now w) (d !! id)) (tr' !! id)) = silent_for beats st w id) as Hsilent.
  { intros id Hin. destruct (Hbase id Hin) as [-> ->]. done. }
  eapply ends_mono.
  { apply (ends_fold_m _ (check_inv beats (w_now w) (w_tick w) tr' d) (node_effects vars beats (w_now w) (w_tick w) tr' d)).
    - split; [done|]. split; [cbn; lia|]. intros id. by left.
    - intros s x w2 _ Hs. by apply check_node_spec. }
  intros s w2 t [_ (ts & -> & Hts)]. split.
  - intros e He. destruct (elem_of_concat_Forall2 _ _ _ _ Hts He) as (x & t & Hx & [Heff _] & Hin).
    destruct (Heff e Hin) as [?|[[r ->] [Hready Hto]]]; [by left|right].
    apply list_elem_of_fmap in Hx as (n & -> & Hn). exists n, r. split_and!; [done..|].
    rewrite <-Hsilent; [done|]. apply list_elem_of_fmap. exists (raft_id n, mill_id n, fn_status n). split; [done|].
    apply list_elem_of_fmap. by exists n.
  - intros n Hn Hready Hto Hnone.
    destruct (Forall2_elem_concat _ _ _ (raft_id n, mill_id n, fn_status n) Hts) as (t & [_ Hcomp] & Hsub).
    { apply list_elem_of_fmap. by exists n. }
    destruct Hcomp as [r Hr]; [done| |done|exists r; by apply Hsub]. simpl. rewrite Hsilent; [done|].
    apply list_elem_of_fmap. exists (raft_id n, mill_id n, fn_status n). split; [done|]. apply list_elem_of_fmap. by exists n.
Qed.

(** C7: one round over the services, which always completes and waits for nothing. A service that is not
    configured is forgotten. A configured one is restarted exactly when a restart is due: fewer active
    replicas than configured, fewer allocations on their way than configured, and the backoff delay of
    the attempts so far has passed since the last one; then one restart is started for every replica
    that is not active, and the attempt is recorded. A service seen short of replicas for the first time
    is only noted, and one that has all its replicas starts again without backoff. *)
Theorem restart_decisions `{HashIter} st w :
  ∃ st' w' t, check_service_restarts st w = Some (st', w') ∧ w_trace w' = w_trace w ++ t ∧ w_fsm w' = w_fsm w ∧
    ∀ name,
      match config (w_fsm w) ≫= (λ c, services c !! name) with
      | None => backoff st' !! name = None ∧ restarts_of name t = []
      | Some def =>
          backoff st' !! name = next_state (w_fsm w) (w_now w) (backoff st !! name) name def ∧
          restarts_of name t =
            if restart_due (w_fsm w) (w_now w) (backoff st !! name) name def
            then replicate (Z.to_nat (sd_replicas def - active_count (w_fsm w) name)) def else []
      end.
Proof.
  unfold check_service_restarts. rewrite run_now, run_read. set (svcs := config_services (w_fsm w)).
  set (st1 := set_backoff _ st).
  assert (NoDup svcs.*1) as Hnd.
  { subst svcs. unfold config_services. destruct (config (w_fsm w)); [apply NoDup_hm_keys|constructor]. }
  destruct (check_services_run (w_now w) svcs st1 w Hnd) as (b & ef & -> & Hout & Hin).
  eexists _, _, ef. split_and!; [done..|]. intros name.
  assert (∀ def, (name, def) ∈ svcs ↔ config (w_fsm w) ≫= (λ c, services c !! name) = Some def) as Hsvcs.
  { intros def. subst svcs. unfold config_services. destruct (config (w_fsm w)) as [c|]; simpl; [|by rewrite elem_of_nil].
    by rewrite elem_of_hm_iter. }
  destruct (config (w_fsm w) ≫= _) as [def|] eqn:Edef.
  - destruct (Hin name def) as [Hb Hr]; [by apply Hsvcs|]. assert (backoff st1 !! name = backoff st !! name) as Hst1.
    { subst st1. simpl. rewrite map_lookup_filter. destruct (backoff st !! name) as [s|]; [|done]. simpl.
      rewrite option_guard_True; [done|]. apply elem_of_list_to_set, list_elem_of_fmap. exists (name, def).
      split; [done|]. by apply Hsvcs. }
    simpl. rewrite Hb, Hr, restarts_effects, Hst1, decide_True by done. done.
  - destruct (Hout name) as [Hb Hr].
    { intros ([n def] & -> & Hl)%list_elem_of_fmap. by apply Hsvcs in Hl. }
    simpl. rewrite Hb. split; [|done]. subst st1. simpl. rewrite map_lookup_filter.
    destruct (backoff st !! name) as [s|]; [|done]. simpl. rewrite option_guard_False; [done|].
    rewrite elem_of_list_to_set. intros ([n def] & -> & Hl)%list_elem_of_fmap. by apply Hsvcs in Hl.
Qed.

(** * Examples and witnesses *)

Module WatchdogExamples.
Import FsmExamples DeployExamples ReportExamples.
(** Three replicas are wanted; one is healthy and one is still being prepared. *)
Definition ex_three : ServiceDef :=
  mkServiceDef "web:1" 80 3 (mkResources (f64_of_Z 1) (2 ^ 30)) ∅ None None [] [].
Definition ex_short : World :=
  mkWorld (set_config (Some (mkClusterConfig {["web" := ex_three]}%string ∅)) ex_state) CommandRouter_new (secs 100) 0 0 0 [].
Definition ex_watch : WatchState := mkWatchState ∅ 0 {[1 := 0; 2 := 0]} {["web"%string := mkRestartState 0 (secs 10)]} ∅.
End WatchdogExamples.
Import FsmExamples DeployExamples ReportExamples WatchdogExamples.

(** the watchdog overshoots: with three replicas wanted, one healthy and one being prepared, it starts two
    more, so that four allocations of the service are on their way. *)
Theorem restart_overshoots :
  ∃ st' w', @check_service_restarts stored_order ex_watch ex_short = Some (st', w') ∧
    @active_count stored_order (w_fsm ex_short) "web" = 1 ∧ @non_terminal_count stored_order (w_fsm ex_short) "web" = 2 ∧
    restarts_of "web" (w_trace w') = [ex_three; ex_three] ∧ sd_replicas ex_three = 3.
Proof. eexists _, _. split; [vm_compute; reflexivity|]. split_and!; vm_compute; reflexivity. Qed.

Lemma node_down_iff_silent_witness :
  ∃ st' w' t, @check_heartbeats stored_order quiet_env ∅ (λ _, ∅) false ex_watch ex_short = Some (st', w') ∧
    w_trace w' = w_trace ex_short ++ t ∧ ∃ r, EPropose (NodeDown 1) r ∈ t.
Proof.
  destruct (@check_heartbeats stored_order quiet_env ∅ (λ _, ∅) false ex_watch ex_short) as [[st' w']|] eqn:E;
    [|vm_compute in E; discriminate].
  destruct (@node_down_iff_silent stored_order quiet_env ∅ (λ _, ∅) false ex_watch ex_short st' w') as (t & H1 & _ & H2).
  - intros n id t _. rewrite lookup_empty. discriminate.
  - exact E.
  - exists st', w', t. split; [reflexivity|]. split; [exact H1|]. apply (H2 ex_node1).
    + apply elem_of_hm_values. exists 1. vm_compute. reflexivity.
    + reflexivity.
    + vm_compute. discriminate.
    + intros k _. apply lookup_empty.
Defined.
