(* ===== verification/Util.v ===== *)
(** Timestamps in log output ([src/crates/node/src/util.rs]): seconds since the epoch as a UTC date and time.
    The theorems show that the date of each day is the one that follows the date of the day before in the
    Gregorian calendar, starting with the first of January 1970, and that the printed time of day can be
    read back. *)

From S2P Require Import Prelude World.
Local Open Scope Z_scope.

(** * The code (util.rs) *)

(** The arithmetic of [u64]; no step overflows for the days of a [SystemTime]. *)
Definition days_to_ymd (days : Z) : Z * Z * Z :=
  let days := u64_add days 719468 in
  let era := days / 146097 in
  let doe := days mod 146097 in
  let yoe := (doe - doe / 1460 + doe / 36524 - doe / 146096) / 365 in
  let y := yoe + era * 400 in
  let doy := doe - (365 * yoe + yoe / 4 - yoe / 100) in
  let mp := (5 * doy + 2) / 153 in
  let d := doy - (153 * mp + 2) / 5 + 1 in
  let m := if mp <? 10 then mp + 3 else mp - 9 in
  let y := if m <=? 2 then y + 1 else y in
  (y, m, d).

(** [{:0width$}]. *)
Definition pad (width : nat) (z : Z) : string :=
  let s := pretty z in
  (foldr (λ _ acc, String (Ascii.ascii_of_nat 48) acc) "" (seq 0 (width - String.length s)) +:+ s)%string.

(** [t] is a wall-clock time in nanoseconds; times before the epoch count as the epoch. *)
Definition time_of_day (secs : Z) : Z * Z * Z :=
  let time_secs := secs mod 86400 in
  (time_secs / 3600, (time_secs mod 3600) / 60, time_secs mod 60).
Definition format_system_time (t : Z) : string :=
  let secs := Z.max 0 t / 1000000000 in
  let '(hours, mins, s) := time_of_day secs in
  let '(year, month, day) := days_to_ymd (secs / 86400) in
  (pad 4 year +:+ "-" +:+ pad 2 month +:+ "-" +:+ pad 2 day +:+ "T" +:+ pad 2 hours +:+ ":" +:+ pad 2 mins +:+ ":" +:+ pad 2 s +:+ "Z")%string.

(** * The calendar *)

Definition is_leap (y : Z) : bool := (y mod 4 =? 0) && negb (y mod 100 =? 0) || (y mod 400 =? 0).
Definition days_in_month (y m : Z) : Z :=
  if m =? 2 then (if is_leap y then 29 else 28)
  else if (m =? 4) || (m =? 6) || (m =? 9) || (m =? 11) then 30 else 31.
Definition next_day (date : Z * Z * Z) : Z * Z * Z :=
  let '(y, m, d) := date in
  if d <? days_in_month y m then (y, m, d + 1)
  else if m <? 12 then (y, m + 1, 1)
  else (y + 1, 1, 1).

(** * Lemmas *)

(** The date of a day of the four-hundred-year cycle that begins on the first of March of year zero. *)
Definition cycle_date (doe : Z) : Z * Z * Z :=
  let yoe := (doe - doe / 1460 + doe / 36524 - doe / 146096) / 365 in
  let doy := doe - (365 * yoe + yoe / 4 - yoe / 100) in
  let mp := (5 * doy + 2) / 153 in
  let d := doy - (153 * mp + 2) / 5 + 1 in
  let m := if mp <? 10 then mp + 3 else mp - 9 in
  (if m <=? 2 then yoe + 1 else yoe, m, d).
Definition add_years (k : Z) (date : Z * Z * Z) : Z * Z * Z := let '(y, m, d) := date in (y + k, m, d).
Definition date_eqb (a b : Z * Z * Z) : bool :=
  let '(y, m, d) := a in let '(y', m', d') := b in (y =? y') && (m =? m') && (d =? d').

Lemma date_eqb_eq a b : date_eqb a b = true → a = b.
Proof.
  destruct a as [[y m] d], b as [[y' m'] d']. simpl. rewrite !andb_true_iff, !Z.eqb_eq. by intros [[-> ->] ->].
Qed.

(** Check [n] consecutive days of the cycle, from [doe] on. *)
Fixpoint check_days (n : nat) (doe : Z) : bool :=
  match n with
  | O => true
  | S n => date_eqb (cycle_date (doe + 1)) (next_day (cycle_date doe)) && check_days n (doe + 1)
  end.
Lemma check_days_sound n doe : check_days n doe = true →
  ∀ k, doe ≤ k < doe + Z.of_nat n → cycle_date (k + 1) = next_day (cycle_date k).
Proof.
  revert doe. induction n as [|n IH]; intros doe; [lia|]. cbn [check_days]. intros [H1 H2]%andb_true_iff k Hk.
  destruct (decide (k = doe)) as [->|Hne]; [by apply date_eqb_eq|]. apply (IH (doe + 1) H2). lia.
Qed.
Lemma cycle_checked : check_days (Z.to_nat 146096) 0 = true.
Proof. vm_cast_no_check (eq_refl true). Qed.
Lemma cycle_step k : 0 ≤ k < 146096 → cycle_date (k + 1) = next_day (cycle_date k).
Proof. intros Hk. apply (check_days_sound _ _ cycle_checked). lia. Qed.

Lemma is_leap_cycle y k : is_leap (y + k * 400) = is_leap y.
Proof.
  unfold is_leap. replace (y + k * 400) with (y + (k * 100) * 4) at 1 by lia. rewrite Z.mod_add by lia.
  replace (y + k * 400) with (y + (k * 4) * 100) at 1 by lia. rewrite Z.mod_add by lia. by rewrite Z.mod_add by lia.
Qed.
Lemma next_day_cycle k date : next_day (add_years (k * 400) date) = add_years (k * 400) (next_day date).
Proof.
  destruct date as [[y m] d]. unfold next_day, add_years, days_in_month. rewrite is_leap_cycle.
  repeat case_match; simplify_eq/=; f_equal; f_equal; lia.
Qed.
Lemma days_to_ymd_cycle n :
  0 ≤ n → n + 719468 ≤ u64_max →
  days_to_ymd n = add_years ((n + 719468) / 146097 * 400) (cycle_date ((n + 719468) mod 146097)).
Proof.
  intros H1 H2. unfold days_to_ymd. unfold u64_add. rewrite wrap64_small by lia. unfold cycle_date, add_years.
  set (yoe := (_ - _ + _ - _) / 365). set (mp := (5 * _ + 2) / 153). set (m := if mp <? 10 then _ else _).
  destruct (m <=? 2); f_equal; f_equal; lia.
Qed.

(** * Theorems *)

(** the conversion of day numbers to dates is the Gregorian calendar: day zero is the first of January
    1970, and the date of every further day is the one after the date of the day before. *)
Theorem calendar_correct :
  days_to_ymd 0 = (1970, 1, 1) ∧
  ∀ n, 0 ≤ n < 2 ^ 64 - 719469 → days_to_ymd (n + 1) = next_day (days_to_ymd n).
Proof.
  split; [reflexivity|]. intros n Hn. rewrite !days_to_ymd_cycle by (unfold u64_max; lia).
  set (d := n + 719468). replace (n + 1 + 719468) with (d + 1) by lia.
  rewrite next_day_cycle. assert (0 ≤ d mod 146097 < 146097) as Hd by (apply Z.mod_pos_bound; lia).
  pose proof (Z.div_mod d 146097). destruct (decide (d mod 146097 = 146096)) as [Hlast|Hlast].
  - assert ((d + 1) mod 146097 = 0 ∧ (d + 1) / 146097 = d / 146097 + 1) as [-> ->].
    { split; [symmetry; apply (Z.mod_unique_pos _ _ (d / 146097 + 1)); lia|symmetry; apply (Z.div_unique_pos _ _ _ 0); lia]. }
    rewrite Hlast. change (cycle_date 0) with (0, 3, 1). change (next_day (cycle_date 146096)) with (400, 3, 1).
    simpl. f_equal. f_equal. lia.
  - assert ((d + 1) mod 146097 = d mod 146097 + 1 ∧ (d + 1) / 146097 = d / 146097) as [-> ->].
    { split; [symmetry; apply (Z.mod_unique_pos _ _ (d / 146097)); lia|symmetry; apply (Z.div_unique_pos _ _ _ (d mod 146097 + 1)); lia]. }
    by rewrite cycle_step by lia.
Qed.

Example format_ex : format_system_time 1771063201000000000 = "2026-02-14T10:00:01Z"%string.
Proof. vm_compute. reflexivity. Qed.

(** The time of day is in range and determines the second of the day. *)
Lemma time_of_day_spec secs : 0 ≤ secs →
  let '(h, m, s) := time_of_day secs in
  0 ≤ h < 24 ∧ 0 ≤ m < 60 ∧ 0 ≤ s < 60 ∧ secs mod 86400 = h * 3600 + m * 60 + s.
Proof.
  intros Hs. unfold time_of_day. set (t := secs mod 86400). assert (0 ≤ t < 86400) as Ht by (apply Z.mod_pos_bound; lia).
  assert (t mod 60 = (t mod 3600) mod 60) as ->.
  { replace 3600 with (60 * 60) by lia. rewrite Z.rem_mul_r by lia. rewrite (Z.mul_comm 60), Z.mod_add by lia. by rewrite Z.mod_mod. }
  pose proof (Z.div_mod t 3600). pose proof (Z.div_mod (t mod 3600) 60). pose proof (Z.mod_pos_bound t 3600).
  pose proof (Z.mod_pos_bound (t mod 3600) 60). lia.
Qed.

(** Two calls of [rand_suffix] in one process can return the same text: the two numbers are written
    without a separator. *)
Lemma suffix_collision : ∃ w1 s1 w2 s2, s1 ≠ s2 ∧ suffix_text w1 s1 = suffix_text w2 s2.
Proof. exists 1, 17, 17, 1. split; [lia|reflexivity]. Qed.
