(* ===== verification/Logs.v ===== *)
(** Logs across the cluster: the stream that the control API starts ([src/crates/node/src/primary/logs.rs]), the
    secondary's command loop with the tasks that follow a container's output ([src/crates/node/src/secondary/mod.rs])
    and the forwarder that fills its buffers ([src/crates/node/src/secondary/logs.rs]). The theorems say which lines a
    client is sent and which commands the nodes are, that without following the stream ends after the first batch
    that arrives however many allocations match, that a following stream does not end when its client leaves, that a
    line is reported at most once per allocation, and that one client's leaving cuts off the others. *)

From S2P Require Import Prelude Types Fsm Ports Rpc World Secondary Report Util.
Local Open Scope Z_scope.

(** * Streaming (primary/logs.rs) *)

(** Channels of subscribers, by allocation; a channel is closed when its receiver is gone. *)
Record Subs := mkSubs {
  su_map : gmap AllocId (list nat);
  su_closed : gset nat;
}.
Definition subscribe (c : nat) (ids : list AllocId) (s : Subs) : Subs :=
  mkSubs (foldl (λ m id, <[id := default [] (m !! id) ++ [c]]> m) (su_map s) ids) (su_closed s).
(** The cleanup at the end: closed channels go, and entries without channels. *)
Definition unsubscribe (ids : list AllocId) (s : Subs) : Subs :=
  mkSubs (foldl (λ m id, match m !! id with
                         | None => m
                         | Some l =>
                             match filterb (λ c, negb (bool_decide (c ∈ su_closed s))) l with
                             | [] => delete id m
                             | l => <[id := l]> m
                             end
                         end) (su_map s) ids) (su_closed s).

Definition stream_name (s : LogStream) : string := match s with Stdout => "stdout" | Stderr => "stderr" end.
Definition line_event (line : LogLine) : list (string * Json) :=
  [("ts", JStr (format_system_time (ll_timestamp line))); ("stream", JStr (stream_name (ll_stream line)));
   ("line", JStr (ll_content line))]%string.

Section stream.
(** [batches n] is what the subscription's channel gives when it is read at step [n]: lines, or its end. *)
Context `{HI : HashIter} (env : nat → EnvStep) (batches : nat → option (list LogLine)).

(** [progress.send(..).await]: whether the client is still there. *)
Definition progress_send (event : string) (data : list (string * Json)) : M bool :=
  '(ok, _) ← await_outcome env;
  if ok : bool then _ ← record (EEvent event data); mret true else mret false.
Fixpoint send_lines (lines : list LogLine) : M unit :=
  match lines with
  | [] => mret tt
  | line :: lines =>
      ok ← progress_send "" (line_event line);
      if ok : bool then send_lines lines else mret tt
  end.
Definition log_recv : M (option (list LogLine)) :=
  n ← tick;
  _ ← await_outcome env;
  mret (batches n).
Fixpoint forward_loop (fuel : nat) (follow : bool) : M unit :=
  match fuel with
  | O => λ _, None
  | S fuel =>
      r ← log_recv;
      match r with
      | None => mret tt
      | Some lines =>
          _ ← send_lines lines;
          if follow then forward_loop fuel follow else mret tt
      end
  end.

Definition matching_allocs (name : string) (f : FsmState) : list (AllocId * NodeId) :=
  (λ a, (alloc_id a, alloc_node a)) <$>
    filterb (λ a, bool_decide (alloc_name a = name) || bool_decide (alloc_id_0 (alloc_id a) = name)) (hm_values (allocs f)).
(** The stream, with the channel it makes and the subscribers before and after. *)
Definition stream_logs (fuel : nat) (chan : nat) (subs : Subs) (name : string) (follow : bool) (tail : Z) : M Subs :=
  allocs ← read_fsm (matching_allocs name);
  let alloc_ids := allocs.*1 in
  match allocs with
  | [] =>
      _ ← progress_send "error" [("", JStr ("no allocations found for '" +:+ name +:+ "'"))];
      mret subs
  | _ =>
      let subs := subscribe chan alloc_ids subs in
      _ ← for_each allocs (λ '(id, node), _ ← send env node (LogTail id tail); mret tt);
      _ ← (if follow then for_each allocs (λ '(id, node), _ ← send env node (LogFollow id); mret tt) else mret tt);
      _ ← forward_loop fuel follow;
      _ ← (if follow then for_each allocs (λ '(id, node), _ ← send env node (LogUnfollow id); mret tt) else mret tt);
      mret (unsubscribe alloc_ids subs)
  end%string.
End stream.

(** * The command loop (secondary/mod.rs) *)

(** What the container runtime answers to a command. *)
Record CmdOutcome := mkCmdOutcome {
  co_run : RunOutcome;
  co_stop : result Z string;
  co_pull : result unit string;
}.
(** The node, the follows by allocation, the running tasks that follow a buffer, by token and with the lines each has yet
    to report, and the next token. *)
Record SecLoop := mkSecLoop {
  sl_sec : Sec;
  sl_follows : gmap AllocId nat;
  sl_tasks : gmap nat (AllocId * nat * list LogLine);
  sl_next : nat;
}.
Definition with_sec (s : Sec) (st : SecLoop) : SecLoop := mkSecLoop s (sl_follows st) (sl_tasks st) (sl_next st).
(** Remove an allocation's follow and cancel its task. *)
Definition cancel_follow (aid : AllocId) (st : SecLoop) : SecLoop :=
  match sl_follows st !! aid with
  | Some token => mkSecLoop (sl_sec st) (delete aid (sl_follows st)) (delete token (sl_tasks st)) (sl_next st)
  | None => st
  end.
Definition log_follow (aid : AllocId) (st : SecLoop) : SecLoop :=
  let st := cancel_follow aid st in
  match map_log_buffer aid (sec_allocs (sl_sec st)) with
  | None => st
  | Some buf =>
      mkSecLoop (sl_sec st) (<[aid := sl_next st]> (sl_follows st)) (<[sl_next st := (aid, buf, [])]> (sl_tasks st)) (S (sl_next st))
  end.
Definition buffer_of (aid : AllocId) (s : Sec) : option LogBuffer :=
  map_log_buffer aid (sec_allocs s) ≫= λ b, sec_buffers s !! b.
Definition handle_command (o : CmdOutcome) (mesh_ip : option IpAddr) (cmd : NodeCommand) (st : SecLoop) : SecLoop :=
  match cmd with
  | Run aid spec _ => with_sec (run_container (co_run o) aid spec mesh_ip (sl_sec st)).2 st
  | Stop aid => with_sec (stop_container (co_stop o) aid (sl_sec st)).2 st
  | Pull image _ => with_sec (pull_image (co_pull o) image (sl_sec st)) st
  | LogTail aid lines =>
      let log_lines := match buffer_of aid (sl_sec st) with Some buf => log_tail (Z.to_nat lines) buf | None => [] end in
      with_sec (report (LogLines aid log_lines) (sl_sec st)) st
  | LogFollow aid => log_follow aid st
  | LogUnfollow aid => cancel_follow aid st
  end.
Definition SecLoop_new (s : Sec) : SecLoop := mkSecLoop s ∅ ∅ 0.
(** [run]: recovery, then the commands until their channel is closed, then every follow is cancelled; containers are left as
    they are. *)
Definition close_loop `{HashIter} (st : SecLoop) : SecLoop :=
  foldl (λ st aid, cancel_follow aid st) st (hm_keys (sl_follows st)).
Definition secondary_run `{HashIter} (listed : result (list AllocId) string) (info : AllocId → option RecoveredContainer)
    (expected : list AllocId) (mesh_ip : option IpAddr) (cmds : list (CmdOutcome * NodeCommand)) (s : Sec) : list AllocId * SecLoop :=
  let '(orphans, s) := reconcile listed info expected mesh_ip s in
  (orphans, close_loop (foldl (λ st '(o, cmd), handle_command o mesh_ip cmd st) (SecLoop_new s) cmds)).

(** [LogBuffer::push] from the forwarder: the line goes to the tasks that follow the buffer, where a task that is more
    than the channel's capacity behind loses its oldest lines, and into the buffer. *)
Definition BROADCAST_CAPACITY : nat := Z.to_nat 4096.
Definition broadcast_push (b : nat) (line : LogLine) (task : AllocId * nat * list LogLine) : AllocId * nat * list LogLine :=
  let '(aid, b', q) := task in
  if decide (b' = b) then (aid, b', (if decide (BROADCAST_CAPACITY ≤ length q)%nat then tail q else q) ++ [line]) else task.
Definition forward_line (b : nat) (line : LogLine) (st : SecLoop) : SecLoop :=
  let s := sl_sec st in
  mkSecLoop (mkSec (sec_ports s) (sec_allocs s) (alter (log_push line) b (sec_buffers s)) (sec_reports s) (sec_waiters s))
    (sl_follows st) (broadcast_push b line <$> sl_tasks st) (sl_next st).

(** The command loop, the forwarders, the tasks that follow and the exit waiters, interleaved. A task ends when the
    buffer's last user is gone and it has reported everything. *)
Inductive loop_step : SecLoop → SecLoop → Prop :=
| ls_command st o mesh_ip cmd : loop_step st (handle_command o mesh_ip cmd st)
| ls_line st b line : loop_step st (forward_line b line st)
| ls_report st t aid b line q :
    sl_tasks st !! t = Some (aid, b, line :: q) →
    loop_step st (mkSecLoop (report (LogLines aid [line]) (sl_sec st)) (sl_follows st) (<[t := (aid, b, q)]> (sl_tasks st)) (sl_next st))
| ls_closed st t aid b :
    sl_tasks st !! t = Some (aid, b, []) → (∀ id a, sec_allocs (sl_sec st) !! id = Some a → la_log a ≠ b) →
    loop_step st (mkSecLoop (sl_sec st) (sl_follows st) (delete t (sl_tasks st)) (sl_next st))
| ls_exit st exit aid port : loop_step st (with_sec (exit_waiter exit aid port (sl_sec st)) st).

(** Every task is the one its allocation's follow points to. *)
Definition follows_inv (st : SecLoop) : Prop :=
  (∀ t aid b q, sl_tasks st !! t = Some (aid, b, q) → sl_follows st !! aid = Some t ∧ (t < sl_next st)%nat) ∧
  (∀ aid t, sl_follows st !! aid = Some t → (t < sl_next st)%nat).

Lemma cancel_follow_inv aid st : follows_inv st → follows_inv (cancel_follow aid st) ∧
  (∀ t b q, sl_tasks (cancel_follow aid st) !! t ≠ Some (aid, b, q)) ∧ sl_next (cancel_follow aid st) = sl_next st.
Proof.
  intros [Ht Hf]. unfold cancel_follow. destruct (sl_follows st !! aid) as [t0|] eqn:E; simpl.
  - split; [split; simpl|split; [|done]].
    + intros t a b q [Hne Hq]%lookup_delete_Some. destruct (Ht t a b q Hq) as [Ha ?]. split; [|done].
      apply lookup_delete_Some. split; [|done]. intros <-. congruence.
    + intros a t [_ Ha]%lookup_delete_Some. by eapply Hf.
    + intros t b q [Hne Hq]%lookup_delete_Some. destruct (Ht t aid b q Hq). congruence.
  - split; [done|split; [|done]]. intros t b q Hq. destruct (Ht t aid b q Hq). congruence.
Qed.
Lemma log_follow_inv aid st : follows_inv st → follows_inv (log_follow aid st).
Proof.
  intros H. apply (cancel_follow_inv aid) in H as ([Ht Hf] & Hno & _). unfold log_follow.
  destruct (map_log_buffer aid _) as [buf|]; [|done]. split; simpl.
  - intros t a b q [[<- [= <- <- <-]]|[Hne Hq]]%lookup_insert_Some; [rewrite lookup_insert_eq; split; [done|lia]|].
    destruct (Ht t a b q Hq) as [Ha ?]. split; [|lia]. rewrite lookup_insert_ne; [done|]. intros <-. by apply Hno in Hq.
  - intros a t [[<- <-]|[_ Ha]]%lookup_insert_Some; [lia|]. apply Hf in Ha. lia.
Qed.
Lemma follows_inv_step st st' : loop_step st st' → follows_inv st → follows_inv st'.
Proof.
  intros Hstep [Ht Hf]. destruct Hstep as [st o mesh_ip cmd|st b line|st t0 a0 b0 l0 q0 E|st t0 a0 b0 E _|].
  - destruct cmd; simpl; [by split..| |]; [by apply log_follow_inv|by apply cancel_follow_inv].
  - split; simpl; [|done]. intros t a b' q. rewrite lookup_fmap. destruct (sl_tasks st !! t) as [[[a' b1] q']|] eqn:E; simpl; [|done].
    specialize (Ht t a' b1 q' E). case_decide; intros [= <- <- <-]; done.
  - split; simpl; [|done]. intros t a b q [[<- [= <- <- <-]]|[_ Hq]]%lookup_insert_Some; by eapply Ht.
  - split; simpl; [|done]. intros t a b q [_ Hq]%lookup_delete_Some. by eapply Ht.
  - by split.
Qed.

(** At most one task follows an allocation's output, so that every line is reported at most once; and a request to
    stop following ends it, also when several streams had asked to follow, which then all go without. *)
Theorem one_follower_per_alloc s st :
  rtc loop_step (SecLoop_new s) st →
  (∀ aid t t' b b' q q', sl_tasks st !! t = Some (aid, b, q) → sl_tasks st !! t' = Some (aid, b', q') → t = t') ∧
  (∀ aid o o' mesh t b q,
     let st' := handle_command o mesh (LogUnfollow aid) (handle_command o' mesh (LogFollow aid) (handle_command o mesh (LogFollow aid) st)) in
     sl_tasks st' !! t ≠ Some (aid, b, q)).
Proof.
  intros Hs. assert (follows_inv st) as Hi.
  { assert (follows_inv (SecLoop_new s)) as H0 by (split; simpl; intros *; by rewrite lookup_empty).
    revert Hs H0. generalize (SecLoop_new s). induction 1; eauto using follows_inv_step. }
  split.
  - intros aid t t' b b' q q' H1 H2. destruct Hi as [Ht _]. destruct (Ht _ _ _ _ H1), (Ht _ _ _ _ H2). congruence.
  - intros aid o o' mesh t b q. simpl. by apply cancel_follow_inv, log_follow_inv, log_follow_inv.
Qed.

Lemma cancel_follow_sec aid st :
  sl_sec (cancel_follow aid st) = sl_sec st ∧ sl_follows (cancel_follow aid st) = delete aid (sl_follows st).
Proof. unfold cancel_follow. destruct (sl_follows st !! aid) eqn:E; [done|]. by rewrite delete_id. Qed.
Lemma close_loop_spec `{HashIter} st :
  follows_inv st → sl_sec (close_loop st) = sl_sec st ∧ sl_follows (close_loop st) = ∅ ∧ sl_tasks (close_loop st) = ∅.
Proof.
  intros Hi. assert (∀ l st, follows_inv st → let st' := foldl (λ st aid, cancel_follow aid st) st l in
    follows_inv st' ∧ sl_sec st' = sl_sec st ∧ ∀ aid, is_Some (sl_follows st' !! aid) → is_Some (sl_follows st !! aid) ∧ aid ∉ l) as Hl.
  { clear st Hi. induction l as [|a l IH]; intros st Hi; cbn [foldl]; [split_and!; [done..|]; intros aid Ha; split; [done|apply not_elem_of_nil]|].
    destruct (cancel_follow_sec a st) as [Hs Hf]. destruct (IH _ (proj1 (cancel_follow_inv a st Hi))) as (H1 & H2 & H3). split_and!; [done|congruence|].
    intros aid [[t Ha] Hn]%H3. rewrite Hf in Ha. apply lookup_delete_Some in Ha as [Hne Ha]. split; [by eexists|]. set_solver. }
  destruct (Hl (hm_keys (sl_follows st)) st Hi) as ([Ht _] & H2 & H3). fold (close_loop st) in *.
  assert (sl_follows (close_loop st) = ∅) as Hf.
  { apply map_eq. intros aid. rewrite lookup_empty. destruct (sl_follows (close_loop st) !! aid) as [t|] eqn:E; [|done].
    destruct (H3 aid (ex_intro _ t E)) as [Ha Hn]. destruct Hn. by apply elem_of_hm_keys. }
  split_and!; [done|done|]. apply map_eq. intros t. rewrite lookup_empty.
  destruct (sl_tasks (close_loop st) !! t) as [[[aid b] q]|] eqn:E; [|done]. destruct (Ht t aid b q E) as [Ha _]. by rewrite Hf, lookup_empty in Ha.
Qed.
Lemma commands_inv mesh cmds st : follows_inv st → follows_inv (foldl (λ st '(o, cmd), handle_command o mesh cmd st) st cmds).
Proof. revert st. induction cmds as [|[o c] cmds IH]; intros st Hi; [done|]. apply IH. eapply follows_inv_step; [apply ls_command|done]. Qed.

(** A node that stops leaves its containers as they are: when the command channel closes, the map of allocations, the ports
    and the buffers are what the last command left, no follower is left, and nothing is reported. *)
Theorem secondary_stop_keeps `{HashIter} listed info expected mesh cmds s :
  let st := (secondary_run listed info expected mesh cmds s).2 in
  sl_sec st = sl_sec (foldl (λ st '(o, cmd), handle_command o mesh cmd st) (SecLoop_new (reconcile listed info expected mesh s).2) cmds) ∧
  sl_follows st = ∅ ∧ sl_tasks st = ∅.
Proof.
  cbn zeta. unfold secondary_run. destruct (reconcile listed info expected mesh s) as [orphans s']. apply close_loop_spec, commands_inv.
  split; simpl; intros *; by rewrite lookup_empty.
Qed.

(** * The stream *)

(** Who is still open stays subscribed, whoever cleans up. *)
Lemma unsubscribe_keeps_open c id ids s :
  c ∉ su_closed s → c ∈ default [] (su_map s !! id) → c ∈ default [] (su_map (unsubscribe ids s) !! id).
Proof.
  unfold unsubscribe. simpl. intros Hc. generalize (su_map s). induction ids as [|i ids IH]; intros m Hm; simpl; [done|]. apply IH.
  destruct (m !! i) as [l|] eqn:E; [|done]. destruct (decide (i = id)) as [->|Hne].
  - rewrite E in Hm. simpl in Hm. assert (c ∈ filterb (λ c, negb (bool_decide (c ∈ su_closed s))) l) as Hin.
    { apply elem_of_filterb. split; [done|]. by apply negb_true_iff, bool_decide_eq_false. }
    destruct (filterb _ l); [by apply elem_of_nil in Hin|]. by rewrite lookup_insert_eq.
  - destruct (filterb _ l); [by rewrite lookup_delete_ne|by rewrite lookup_insert_ne].
Qed.
Lemma subscribe_all c id ids s : id ∈ ids → c ∈ default [] (su_map (subscribe c ids s) !! id).
Proof.
  unfold subscribe. simpl. generalize (su_map s). 
  assert (∀ (ids : list AllocId) (m : gmap AllocId (list nat)), c ∈ default [] (m !! id) → c ∈ default [] (foldl (λ m id, <[id := default [] (m !! id) ++ [c]]> m) m ids !! id)) as Hkeep.
  { intros l. induction l as [|i l IH]; intros m Hm; simpl; [done|]. apply IH. destruct (decide (i = id)) as [->|].
    - rewrite lookup_insert_eq. simpl. set_solver.
    - by rewrite lookup_insert_ne. }
  induction ids as [|i ids IH]; intros m; [by intros ?%elem_of_nil|]. simpl. intros [->|Hin]%elem_of_cons; [|by apply IH].
  apply Hkeep. rewrite lookup_insert_eq. simpl. set_solver.
Qed.

Section stream_theorems.
Context `{HI : HashIter} (env : nat → EnvStep) (batches : nat → option (list LogLine)).

Lemma send_tick_spec node cmd w :
  ends (_ ← send env node cmd; mret tt) (λ _ w' t, w_tick w' = S (w_tick w) ∧ ∃ r, t = [ESend node cmd r]) w.
Proof.
  apply ends_bind, ends_bind, ends_await. intros w1 Ht. apply ends_bind, ends_record. intros w2 _ _ Ht2 _. apply ends_ret, ends_ret.
  split; [congruence|]. by eexists.
Qed.
Definition sent_to (cmd : AllocId → NodeCommand) (x : AllocId * NodeId) (e : Effect) : Prop := ∃ r, e = ESend x.2 (cmd x.1) r.
Lemma send_all_spec cmd l w :
  ends (for_each l (λ '(id, node), _ ← send env node (cmd id); mret tt))
    (λ _ w' t, w_tick w' = (w_tick w + length l)%nat ∧ Forall2 (sent_to cmd) l t) w.
Proof.
  revert w. induction l as [|[id node] l IH]; intros w; simpl; [apply ends_ret; split; [lia|constructor]|].
  apply ends_bind. eapply ends_mono; [apply send_tick_spec|]. intros [] w1 t1 (Ht & r & ->).
  eapply ends_mono; [apply IH|]. intros [] w2 t2 [Ht2 Hf]. split; [lia|]. constructor; [by exists r|done].
Qed.
Definition line_effect (line : LogLine) : Effect := EEvent "" (line_event line).
Lemma send_lines_spec lines w :
  ends (send_lines env lines) (λ _ _ t, ∃ k, t = line_effect <$> take k lines ∧
    ((k < length lines)%nat → ∃ n, (w_tick w ≤ n)%nat ∧ es_ok (env n) = false)) w.
Proof.
  revert w. induction lines as [|l lines IH]; intros w; simpl; [apply ends_ret; exists 0%nat; split; [done|simpl; lia]|].
  apply ends_bind, ends_bind, ends_await. intros w1 Ht. simpl. destruct (es_ok (env (w_tick w))) eqn:Hok.
  - apply ends_bind, ends_record. intros w2 _ _ Ht2 _. apply ends_ret. simpl. eapply ends_mono; [apply IH|].
    intros [] w3 t3 (k & -> & Hk). exists (S k). split; [done|]. intros Hlt. destruct Hk as (n & ? & ?); [lia|].
    exists n. split; [lia|done].
  - apply ends_ret, ends_ret. exists 0%nat. split; [done|]. intros _. exists (w_tick w). split; [lia|done].
Qed.

Lemma total_send_lines lines : total (send_lines env lines).
Proof.
  induction lines as [|l lines IH]; simpl; [apply total_ret|]. unfold progress_send.
  repeat first [total_step | progress case_match | done | progress intros].
Qed.

(** A stream that does not follow sends the tail command to every matching allocation's node, and then to its client
    the lines of the first batch that arrives, in order and all of them unless the client leaves, and nothing else,
    however many allocations match; and it leaves its subscription behind in the table. *)
Theorem tail_sends_one_batch fuel chan subs name tail w :
  let allocs := matching_allocs name (w_fsm w) in
  allocs ≠ [] → (0 < fuel)%nat → chan ∉ su_closed subs →
  ∃ subs' w' t1 t2, stream_logs env batches fuel chan subs name false tail w = Some (subs', w') ∧
    w_trace w' = w_trace w ++ t1 ++ t2 ∧ Forall2 (sent_to (λ id, LogTail id tail)) allocs t1 ∧
    match batches (w_tick w + length allocs)%nat with
    | None => t2 = []
    | Some lines => ∃ k, t2 = line_effect <$> take k lines ∧ ((k < length lines)%nat → ∃ n, es_ok (env n) = false)
    end ∧
    (∀ id, id ∈ allocs.*1 → chan ∈ default [] (su_map subs' !! id)).
Proof.
  intros allocs Hne Hfuel Hchan. destruct fuel as [|fuel]; [lia|].
  assert (total (stream_logs env batches (S fuel) chan subs name false tail)) as Htot.
  { unfold stream_logs, progress_send. cbn [forward_loop]. unfold log_recv, send.
    repeat first [total_step | case_match | apply total_send_lines | apply total_tick | done | progress intros]. }
  destruct (Htot w) as [[subs' w'] Hrun].
  assert (ends (stream_logs env batches (S fuel) chan subs name false tail) (λ subs' _ t, ∃ t1 t2, t = t1 ++ t2 ∧
    Forall2 (sent_to (λ id, LogTail id tail)) allocs t1 ∧
    match batches (w_tick w + length allocs)%nat with
    | None => t2 = []
    | Some lines => ∃ k, t2 = line_effect <$> take k lines ∧ ((k < length lines)%nat → ∃ n, es_ok (env n) = false)
    end ∧ subs' = unsubscribe allocs.*1 (subscribe chan allocs.*1 subs)) w) as Hends.
  { unfold stream_logs. apply ends_bind, ends_read. fold allocs. destruct allocs as [|a l] eqn:Ea; [done|]. rewrite <-Ea in *. cbn zeta.
    apply ends_bind. eapply ends_mono; [apply send_all_spec|]. intros [] w1 t1 [Ht1 Hf]. apply ends_bind, ends_ret. cbn beta.
    apply ends_bind, ends_bind, ends_bind. intros n w1' [= <- <-]. exists []. rewrite app_nil_r. split; [done|]. simpl.
    apply ends_bind, ends_await. intros w2 Ht2. apply ends_ret. simpl. rewrite Ht1. destruct (batches _) as [lines|].
    - apply ends_bind. eapply ends_mono; [apply send_lines_spec|]. intros [] w3 t3 (k & -> & Hk). apply ends_ret, ends_bind, ends_ret, ends_ret.
      exists t1, (line_effect <$> take k lines). split_and!; [by simpl; rewrite !app_nil_r|done| |done]. exists k. split; [done|]. intros Hlt. destruct (Hk Hlt) as (n & _ & ?). eauto.
    - apply ends_ret, ends_bind, ends_ret, ends_ret. by eexists t1, []. }
  destruct (Hends _ _ Hrun) as (t & Ht & t1 & t2 & -> & H1 & H2 & ->). eexists _, w', t1, t2. split_and!; [done..|].
  intros id Hid. apply unsubscribe_keeps_open; [done|]. by apply subscribe_all.
Qed.

(** A stream that follows does not end when its client leaves: as long as its channel is not closed, which its own
    subscription prevents, it neither returns nor tells the nodes to stop following, even if nothing can be sent to
    the client any more. *)
Theorem follow_never_ends fuel chan subs name tail w :
  matching_allocs name (w_fsm w) ≠ [] → (∀ n, is_Some (batches n)) →
  stream_logs env batches fuel chan subs name true tail w = None.
Proof.
  intros Hne Hb. unfold stream_logs. rewrite run_read. destruct (matching_allocs name (w_fsm w)) as [|a l]; [done|].
  assert (∀ w, forward_loop env batches fuel true w = None) as Hloop.
  { clear w Hne. induction fuel as [|fuel IH]; intros w; simpl; [done|]. unfold log_recv. rewrite bind_assoc, run_tick, bind_assoc.
    unfold mbind at 1, M_bind. destruct (await_outcome env w) as [[? w1]|]; [|done]. rewrite ret_bind.
    destruct (Hb (w_tick w)) as [lines ->]. unfold mbind, M_bind. destruct (send_lines env lines w1) as [[? w2]|]; [|done]. apply IH. }
  unfold mbind, M_bind. repeat (case_match; simplify_eq/=; try done). congruence.
Qed.
End stream_theorems.

(** * Witnesses *)

Module LogExamples.
Import FsmExamples ReportExamples.
Definition ex_batches (n : nat) : option (list LogLine) := Some [mkLogLine 0 Stdout "hello"].
Definition no_subs : Subs := mkSubs ∅ ∅.
Definition log_sec : Sec := mkSec sample_pool (<[mkAllocId "a" := mkLocalAlloc (mkAllocId "a") (sample_spec "a") Running None 0]> ∅) (<[0%nat := []]> ∅) [] [].
Definition all_ok : CmdOutcome := mkCmdOutcome (mkRunOutcome (Ok true) (Ok tt) (Ok tt)) (Ok 0) (Ok tt).
End LogExamples.
Import FsmExamples ReportExamples LogExamples.

Lemma one_follower_per_alloc_witness :
  ∃ st, rtc loop_step (SecLoop_new log_sec) st ∧ sl_tasks st !! 0%nat = Some (mkAllocId "a", 0%nat, []) ∧
    ∀ t b q, sl_tasks st !! t = Some (mkAllocId "a", b, q) → 0%nat = t.
Proof.
  assert (rtc loop_step (SecLoop_new log_sec) (handle_command all_ok None (LogFollow (mkAllocId "a")) (SecLoop_new log_sec))) as Hs
    by (apply rtc_once; constructor).
  eexists. split; [exact Hs|]. split; [reflexivity|]. intros t b q Ht.
  eapply (one_follower_per_alloc log_sec _ Hs); [reflexivity|exact Ht].
Defined.

(** Two allocations match; the lines of one batch are sent. *)
Lemma tail_sends_one_batch_witness :
  length (@matching_allocs stored_order "web" (w_fsm task_world)) = 2%nat ∧
  ∃ subs' w' t1 t2, @stream_logs stored_order quiet_env ex_batches 1 7 no_subs "web" false 200 task_world = Some (subs', w') ∧
    w_trace w' = w_trace task_world ++ t1 ++ t2 ∧ length t2 = 1%nat.
Proof.
  split; [vm_compute; reflexivity|].
  destruct (@tail_sends_one_batch stored_order quiet_env ex_batches 1 7 no_subs "web" 200 task_world)
    as (subs' & w' & t1 & t2 & H1 & H2 & _ & (k & -> & Hk) & _); [vm_compute; discriminate|lia|set_solver|].
  eexists subs', w', t1, _. split; [exact H1|]. split; [exact H2|]. destruct k as [|k]; [|simpl; rewrite take_nil; reflexivity].
  destruct Hk as [n Hn]; [simpl; lia|discriminate].
Defined.

Lemma follow_never_ends_witness : @stream_logs stored_order quiet_env ex_batches 10 7 no_subs "web" true 200 task_world = None.
Proof.
  apply (@follow_never_ends stored_order quiet_env ex_batches 10 7 no_subs "web" 200 task_world); [vm_compute; discriminate|].
  intros n. exists [mkLogLine 0 Stdout "hello"]. reflexivity.
Defined.
