(* ===== verification/Views.v ===== *)
(** What the control API shows of the cluster ([src/crates/node/src/primary/api/handlers.rs], the handlers that
    only read, and the response types of [src/crates/config/src/types/api.rs]): pure functions of the cluster
    state and of the live metrics. The theorems show that the views list every record once, whatever order the
    maps iterate in, with the counts that the records themselves give, and that the metrics page can contain
    the same series twice. *)

From S2P Require Import Prelude Types Fsm World Report Routes Util.
Local Open Scope Z_scope.

(** * Responses (types/api.rs) *)

Record StatusResponse := mkStatusResponse {
  st_node_count : Z;
  st_service_count : Z;
  st_task_count : Z;
  st_cpu_total : f64;
  st_cpu_available : f64;
  st_memory_total_bytes : Z;
  st_memory_available_bytes : Z;
}.
Record NodeResponse := mkNodeResponse {
  nr_id : string;
  nr_address : string;
  nr_status : string;
  nr_cpu_total : f64;
  nr_cpu_available : f64;
  nr_memory_total_bytes : Z;
  nr_memory_available_bytes : Z;
  nr_alloc_count : Z;
}.
Record AllocResponse := mkAllocResponse {
  ar_id : string;
  ar_node : string;
  ar_status : string;
  ar_address : option string;
  ar_cpu : f64;
  ar_memory : Z;
  ar_started_at : option string;
}.
Record ReplicaCount := mkReplicaCount {
  rc_desired : Z;
  rc_healthy : Z;
}.
Record ServiceResponse := mkServiceResponse {
  sv_name : string;
  sv_image : string;
  sv_replicas : ReplicaCount;
  sv_allocations : list AllocResponse;
}.
Record TaskResponse := mkTaskResponse {
  tr_id : string;
  tr_name : string;
  tr_node : string;
  tr_status : string;
  tr_address : option string;
  tr_cpu : f64;
  tr_memory : Z;
}.
Record VolumeResponse := mkVolumeResponse {
  vr_name : string;
  vr_state : string;
  vr_node : option string;
  vr_cloud_id : string;
}.

Definition TaskResponse_from (a : Alloc) : TaskResponse :=
  mkTaskResponse (alloc_id_0 (alloc_id a)) (alloc_name a) (node_id_0 (alloc_node a)) (show_alloc_status (alloc_status a))
    (show_sock <$> alloc_address a) (alloc_cpu (alloc_resources a)) (alloc_memory (alloc_resources a)).

(** * Views (api/handlers.rs) *)

(** [iter.count()] of something that fits in memory. *)
Definition count {A} (l : list A) : Z := Z.of_nat (length l).

Section views.
Context `{HI : HashIter}.

(** One round of the loop of [get_status]: total and available CPU, total and available memory. *)
Definition add_node (f : FsmState) (acc : f64 * f64 * Z * Z) (entry : Z * FsmNode) : f64 * f64 * Z * Z :=
  let '(cpu, cpu_avail, mem, mem_avail) := acc in
  let '(id, node) := entry in
  let cpu := f64_add cpu (cpu_total (fn_resources node)) in
  let mem := u64_add mem (memory_total (fn_resources node)) in
  match node_available_resources f id with
  | Some avail => (cpu, f64_add cpu_avail (cpu_available avail), mem, u64_add mem_avail (memory_available avail))
  | None => (cpu, cpu_avail, mem, mem_avail)
  end.
Definition get_status (f : FsmState) : StatusResponse :=
  let '(cpu, cpu_avail, mem, mem_avail) := foldl (add_node f) (f64_zero, f64_zero, 0, 0) (hm_iter (nodes f)) in
  let service_count := match config f with Some c => Z.of_nat (size (services c)) | None => 0 end in
  let task_count := count (filterb (λ a, bool_decide (alloc_kind a = KTask)) (hm_values (allocs f))) in
  mkStatusResponse (Z.of_nat (size (nodes f))) service_count task_count cpu cpu_avail mem mem_avail.

Definition node_view (f : FsmState) (entry : Z * FsmNode) : NodeResponse :=
  let '(id, node) := entry in
  let avail := node_available_resources f id in
  let alloc_count := count (filterb (λ a, bool_decide (alloc_node a = mill_id node) && negb (is_terminal (alloc_status a)))
                              (hm_values (allocs f))) in
  mkNodeResponse (node_id_0 (mill_id node)) (show_sock (fn_address node)) (show_node_status (fn_status node))
    (cpu_total (fn_resources node)) (default f64_zero (cpu_available <$> avail))
    (memory_total (fn_resources node)) (default 0 (memory_available <$> avail)) alloc_count.
Definition get_nodes (f : FsmState) : list NodeResponse := node_view f <$> hm_iter (nodes f).

Definition alloc_view (a : Alloc) : AllocResponse :=
  mkAllocResponse (alloc_id_0 (alloc_id a)) (node_id_0 (alloc_node a)) (show_alloc_status (alloc_status a))
    (show_sock <$> alloc_address a) (alloc_cpu (alloc_resources a)) (alloc_memory (alloc_resources a))
    (format_system_time <$> alloc_started_at a).
Definition service_view (f : FsmState) (entry : string * ServiceDef) : ServiceResponse :=
  let '(name, def) := entry in
  let allocs := alloc_view <$> filterb (λ a, bool_decide (alloc_kind a = KService)) (list_service_allocs f name) in
  let healthy := count (filterb (λ a, bool_decide (ar_status a = "healthy"%string)) allocs) in
  mkServiceResponse name (sd_image def) (mkReplicaCount (sd_replicas def) healthy) allocs.
Definition get_services (f : FsmState) : list ServiceResponse :=
  match config f with
  | Some c => service_view f <$> hm_iter (services c)
  | None => []
  end.

Definition get_tasks (f : FsmState) : list TaskResponse :=
  TaskResponse_from <$> filterb (λ a, bool_decide (alloc_kind a = KTask)) (hm_values (allocs f)).
Definition get_task (f : FsmState) (id : string) : option TaskResponse :=
  a ← allocs f !! mkAllocId id;
  if decide (alloc_kind a ≠ KTask) then None else Some (TaskResponse_from a).
Definition list_secrets (f : FsmState) : list string := list_secret_names f.
Definition volume_view (entry : string * FsmVolume) : VolumeResponse :=
  let '(name, vol) := entry in
  let node := match vol_state vol with VolAttached node => Some (node_id_0 node) | VolReady => None end in
  mkVolumeResponse name (show_volume_state (vol_state vol)) node (cloud_id vol).
Definition get_volumes (f : FsmState) : list VolumeResponse := volume_view <$> list_volumes f.
End views.

(** * The metrics page *)

Definition quote : string := String (Ascii.ascii_of_nat 34) EmptyString.

(** [name{k="v",...} value], one line. *)
Definition labels_text (labels : list (string * string)) : string :=
  str_join "," ((λ '(k, v), k +:+ "=" +:+ quote +:+ v +:+ quote) <$> labels)%string.
Definition sample (name : string) (labels : list (string * string)) (value : string) : string :=
  (name +:+ "{" +:+ labels_text labels +:+ "} " +:+ value +:+ nl)%string.
Definition help (name text type : string) : string :=
  ("# HELP " +:+ name +:+ " " +:+ text +:+ nl +:+ "# TYPE " +:+ name +:+ " " +:+ type +:+ nl)%string.
Definition concat_text (l : list string) : string := foldr String.append EmptyString l.

Section metrics.
(** [Display] of [f64]. *)
Context `{HI : HashIter} (show_f64 : f64 → string).

(** The lines of a histogram's buckets; the last bound is infinite. *)
Definition bucket_lines (name : string) (labels : list (string * string)) (buckets : list (f64 * Z)) : string :=
  concat_text ((λ '(le, c), sample name (labels ++ [("le", if f64_eqb le (S754_infinity false) then "+Inf" else show_f64 le)])
                              (pretty c)) <$> buckets)%string.

Definition node_cpu_line (f : FsmState) (live : gmap NodeId NodeMetricsSnapshot) (entry : Z * FsmNode) : string :=
  let '(id, node) := entry in
  let avail := match live !! mill_id node with
               | Some s => Some (cpu_available (nm_resources s))
               | None => cpu_available <$> node_available_resources f id
               end in
  match avail with
  | Some v => sample "mill_node_cpu_available" [("node", node_id_0 (mill_id node))] (show_f64 v)
  | None => ""
  end%string.
Definition node_memory_line (f : FsmState) (live : gmap NodeId NodeMetricsSnapshot) (entry : Z * FsmNode) : string :=
  let '(id, node) := entry in
  let avail := match live !! mill_id node with
               | Some s => Some (memory_available (nm_resources s))
               | None => memory_available <$> node_available_resources f id
               end in
  match avail with
  | Some v => sample "mill_node_memory_available_bytes" [("node", node_id_0 (mill_id node))] (pretty v)
  | None => ""
  end%string.

(** The usage of each container, as far as a node reported it. *)
Definition live_stats (live : gmap NodeId NodeMetricsSnapshot) : gmap AllocId (f64 * Z) :=
  foldl (λ m snap, foldl (λ m cs, <[cs_alloc_id cs := (cs_cpu_usage cs, cs_memory_usage cs)]> m) m (nm_container_stats snap))
    ∅ (hm_values live).
Definition alloc_labels (a : Alloc) : list (string * string) :=
  [("service", alloc_name a); ("node", node_id_0 (alloc_node a))]%string.
Definition alloc_cpu_line (stats : gmap AllocId (f64 * Z)) (a : Alloc) : string :=
  sample "mill_alloc_cpu_usage" (alloc_labels a) (show_f64 (default f64_zero (fst <$> stats !! alloc_id a))).
Definition alloc_memory_line (stats : gmap AllocId (f64 * Z)) (a : Alloc) : string :=
  sample "mill_alloc_memory_bytes" (alloc_labels a) (pretty (default 0 (snd <$> stats !! alloc_id a))).
Definition restart_line (f : FsmState) (entry : string * Z) : string :=
  let '(service, n) := entry in
  let node := default "unknown" (node_id_0 ∘ alloc_node <$>
                find_first (λ a, bool_decide (alloc_name a = service) && bool_decide (alloc_kind a = KService)) (hm_values (allocs f))) in
  sample "mill_alloc_restarts_total" [("service", service); ("node", node)] (pretty n)%string.

(** The part that is computed from the cluster state. *)
Definition state_metrics (live : gmap NodeId NodeMetricsSnapshot) (restarts : gmap string Z) (f : FsmState) : string :=
  let stats := live_stats live in
  concat_text (
    [help "mill_node_cpu_available" "Free CPU cores per node" "gauge"] ++ (node_cpu_line f live <$> hm_iter (nodes f)) ++
    [help "mill_node_memory_available_bytes" "Free memory per node in bytes" "gauge"] ++ (node_memory_line f live <$> hm_iter (nodes f)) ++
    [help "mill_alloc_cpu_usage" "CPU usage per allocation in cores" "gauge"] ++ (alloc_cpu_line stats <$> hm_values (allocs f)) ++
    [help "mill_alloc_memory_bytes" "Memory usage per allocation in bytes" "gauge"] ++ (alloc_memory_line stats <$> hm_values (allocs f)) ++
    (if decide (restarts = ∅) then []
     else help "mill_alloc_restarts_total" "Total service restart count" "counter" :: (restart_line f <$> hm_iter restarts))).

Definition proxy_labels (r : RouteMetricsSnapshot) : list (string * string) := [("route", rm_hostname r); ("path", rm_path r)]%string.
Definition proxy_latency (r : RouteMetricsSnapshot) : string :=
  let n := "mill_proxy_latency_seconds"%string in
  (bucket_lines (n +:+ "_bucket") (proxy_labels r) (rm_buckets r) +:+
   sample (n +:+ "_sum") (proxy_labels r) (show_f64 (rm_latency_sum_seconds r)) +:+
   sample (n +:+ "_count") (proxy_labels r) (pretty (rm_request_count r)))%string.
Definition proxy_text (routes : list RouteMetricsSnapshot) : string :=
  match routes with
  | [] => ""
  | _ =>
      help "mill_proxy_requests_total" "Total proxied requests per route" "counter" +:+
      concat_text ((λ r, sample "mill_proxy_requests_total" (proxy_labels r) (pretty (rm_request_count r))) <$> routes) +:+
      help "mill_proxy_latency_seconds" "Proxy request latency histogram per route" "histogram" +:+
      concat_text (proxy_latency <$> routes)
  end%string.
Definition spawn_text (counts : gmap string Z) : string :=
  if decide (counts = ∅) then ""%string
  else (help "mill_tasks_spawned_total" "Total task spawn count" "counter" +:+
        concat_text ((λ '(task, n), sample "mill_tasks_spawned_total" [("task", task)] (pretty n)) <$> hm_iter counts))%string.
Definition duration_lines (d : HistogramSnapshot) : string :=
  let n := "mill_tasks_duration_seconds"%string in
  let labels := [("task", hs_name d)]%string in
  (bucket_lines (n +:+ "_bucket") labels (hs_buckets d) +:+
   sample (n +:+ "_sum") labels (show_f64 (hs_sum_seconds d)) +:+
   sample (n +:+ "_count") labels (pretty (hs_count d)))%string.
Definition duration_text (durations : list HistogramSnapshot) : string :=
  match durations with
  | [] => ""
  | _ => help "mill_tasks_duration_seconds" "Task execution duration histogram" "histogram" +:+
         concat_text (duration_lines <$> durations)
  end%string.

Definition get_metrics (lm : LiveMetrics) (proxy : option ProxyMetrics) (f : FsmState) : string :=
  (state_metrics (node_metrics lm) (restart_counts lm) f +:+
   match proxy with Some m => proxy_text (metrics_snapshot m) | None => "" end +:+
   spawn_text (task_spawn_counts lm) +:+
   duration_text (task_duration_snapshots lm))%string.
End metrics.

(** * Theorems *)

Section view_lemmas.
Context `{HI : HashIter}.

Lemma count_filterb_fmap {A B} (g : A → B) (p : B → bool) l : count (filterb p (g <$> l)) = count (filterb (p ∘ g) l).
Proof.
  unfold count. f_equal. induction l as [|x l IH]; csimpl; [done|]. destruct (p (g x)); csimpl; by rewrite IH.
Qed.
Lemma filterb_ext {A} (p q : A → bool) l : (∀ x, p x = q x) → filterb p l = filterb q l.
Proof. intros E. induction l as [|x l IH]; simpl; [done|]. by rewrite E, IH. Qed.
Lemma filterb_filterb {A} (p q : A → bool) l : filterb p (filterb q l) = filterb (λ x, q x && p x) l.
Proof. induction l as [|x l IH]; simpl; [done|]. destruct (q x); simpl; [destruct (p x)|]; by rewrite IH. Qed.

(** Counting the records of a map that satisfy a predicate. *)
Lemma size_filterb `{Countable K} {A} (P : A → Prop) `{!∀ x, Decision (P x)} (m : gmap K A) :
  length (filterb (λ x, bool_decide (P x)) (hm_values m)) = size (filter (λ '(_, x), P x) m).
Proof.
  rewrite <-length_map_to_list, map_filter_alt. unfold hm_values.
  assert (∀ l : list (K * A), NoDup l.*1 → NoDup (filter (λ '(_, x), P x) l).*1) as Hnd.
  { induction l as [|[k x] l IH]; csimpl; intros Hl; [constructor|]. apply NoDup_cons in Hl as [Hk Hl].
    rewrite filter_cons. case_decide; [|by apply IH]. csimpl. apply NoDup_cons. split; [|by apply IH].
    intros ([k' y] & -> & [_ ?]%list_elem_of_filter)%list_elem_of_fmap. apply Hk, list_elem_of_fmap. by eexists. }
  rewrite map_to_list_to_map by (apply Hnd, NoDup_fst_map_to_list). rewrite <-(hm_iter_perm m).
  induction (hm_iter m) as [|[k x] l IH]; csimpl; [done|].
  rewrite filter_cons. case_bool_decide; case_decide; csimpl; congruence.
Qed.

Lemma shown_healthy st : bool_decide (show_alloc_status st = "healthy"%string) = bool_decide (st = Healthy).
Proof. by destruct st; apply bool_decide_ext. Qed.

(** What one round of the status loop adds to the memory. *)
Definition memory_avail (f : FsmState) (entry : Z * FsmNode) : Z :=
  default 0 (memory_available <$> node_available_resources f entry.1).
Definition sum_Z {A} (g : A → Z) (l : list A) : Z := foldr (λ x s, g x + s) 0 l.

Lemma sum_Z_nonneg {A} (g : A → Z) l : Forall (λ x, 0 ≤ g x) l → 0 ≤ sum_Z g l.
Proof. induction 1; simpl; lia. Qed.
Lemma sum_Z_le {A} (g h : A → Z) l : Forall (λ x, g x ≤ h x) l → sum_Z g l ≤ sum_Z h l.
Proof. induction 1; simpl; lia. Qed.

Lemma add_node_memory f l acc mem avail :
  acc.1.2 = mem → acc.2 = avail → 0 ≤ mem → 0 ≤ avail →
  Forall (λ e, 0 ≤ memory_avail f e ∧ 0 ≤ memory_total (fn_resources e.2)) l →
  mem + sum_Z (λ e, memory_total (fn_resources e.2)) l ≤ u64_max →
  avail + sum_Z (memory_avail f) l ≤ u64_max →
  let r := foldl (add_node f) acc l in
  r.1.2 = mem + sum_Z (λ e, memory_total (fn_resources e.2)) l ∧ r.2 = avail + sum_Z (memory_avail f) l.
Proof.
  revert acc mem avail.
  induction l as [|[nid node] l IH]; intros acc mem avail Em Ea Hm Ha Hl Hs1 Hs2; cbn [foldl sum_Z foldr] in *; [lia|].
  inversion_clear Hl as [|? ? [Ha1 Ht1] Hl']. cbn [snd] in *.
  assert (0 ≤ sum_Z (λ e, memory_total (fn_resources e.2)) l) as Hn1.
  { apply sum_Z_nonneg. eapply Forall_impl; [exact Hl'|]. naive_solver. }
  assert (0 ≤ sum_Z (memory_avail f) l) as Hn2.
  { apply sum_Z_nonneg. eapply Forall_impl; [exact Hl'|]. naive_solver. }
  unfold sum_Z in Hn1, Hn2.
  assert ((add_node f acc (nid, node)).1.2 = mem + memory_total (fn_resources node) ∧
          (add_node f acc (nid, node)).2 = avail + memory_avail f (nid, node)) as [E1 E2].
  { destruct acc as [[[c ca] m] ma]. simpl in Em, Ea. subst m ma. unfold add_node, memory_avail in *. cbn [fst] in *.
    assert (∀ x y, 0 ≤ x → 0 ≤ y → x + y ≤ u64_max → u64_add x y = x + y) as Hadd by (intros; apply wrap64_small; lia).
    destruct (node_available_resources f nid); cbn [fst snd default fmap option_fmap option_map id] in *;
      rewrite ?Hadd by lia; lia. }
  destruct (IH _ _ _ E1 E2) as [-> ->]; try done; unfold sum_Z; lia.
Qed.

Lemma available_le_total f id node :
  nodes f !! id = Some node → 0 ≤ memory_total (fn_resources node) →
  0 ≤ memory_avail f (id, node) ≤ memory_total (fn_resources node).
Proof.
  intros Hn Ht. unfold memory_avail, node_available_resources. simpl. rewrite Hn. simpl.
  assert (∀ l acc, 0 ≤ acc.2 → 0 ≤ (foldl (λ '(cpu_used, mem_used) alloc,
      if bool_decide (alloc_node alloc = mill_id node) then
        if is_terminal (alloc_status alloc) then (cpu_used, mem_used)
        else (f64_add cpu_used (alloc_cpu (alloc_resources alloc)), u64_add mem_used (alloc_memory (alloc_resources alloc)))
      else (cpu_used, mem_used)) acc l).2) as Hf.
  { induction l as [|a l IH]; intros [c m] Hacc; simpl in *; [done|]. apply IH.
    repeat case_match; simpl; try done. apply wrap64_range. }
  specialize (Hf (hm_values (allocs f)) (f64_zero, 0)). destruct (foldl _ _ _) as [c m]. simpl in *.
  unfold u64_saturating_sub. specialize (Hf ltac:(done)). lia.
Qed.
End view_lemmas.

(** The overview counts each record once and adds up the memory of all nodes; the free memory it reports is
    never more than the total, as long as the total fits in 64 bits. *)
Theorem status_counts `{HashIter} f :
  (∀ id n, nodes f !! id = Some n → 0 ≤ memory_total (fn_resources n)) →
  sum_Z (λ e, memory_total (fn_resources e.2)) (map_to_list (nodes f)) ≤ u64_max →
  let s := get_status f in
  st_node_count s = Z.of_nat (size (nodes f)) ∧
  st_task_count s = Z.of_nat (size (filter (λ '(_, a), alloc_kind a = KTask) (allocs f))) ∧
  st_memory_total_bytes s = sum_Z (λ e, memory_total (fn_resources e.2)) (map_to_list (nodes f)) ∧
  st_memory_available_bytes s = sum_Z (memory_avail f) (map_to_list (nodes f)) ∧
  st_memory_available_bytes s ≤ st_memory_total_bytes s.
Proof.
  intros Hnn Hsum. unfold get_status.
  assert (∀ {A} (g : A → Z) l1 l2, l1 ≡ₚ l2 → sum_Z g l1 = sum_Z g l2) as Hperm.
  { intros A g l1 l2. induction 1; simpl; lia. }
  assert (Forall (λ e, 0 ≤ memory_avail f e ∧ memory_avail f e ≤ memory_total (fn_resources e.2)) (hm_iter (nodes f))) as Hall.
  { apply Forall_forall. intros [id n] Hin%elem_of_hm_iter. split; eapply available_le_total; eauto. }
  assert (sum_Z (memory_avail f) (hm_iter (nodes f)) ≤ sum_Z (λ e, memory_total (fn_resources e.2)) (hm_iter (nodes f))) as Hle.
  { apply sum_Z_le. eapply Forall_impl; [exact Hall|]. naive_solver. }
  rewrite (Hperm _ _ _ _ (symmetry (hm_iter_perm (nodes f)))) in Hsum |- *.
  rewrite (Hperm _ (memory_avail f) _ _ (symmetry (hm_iter_perm (nodes f)))).
  destruct (add_node_memory f (hm_iter (nodes f)) (f64_zero, f64_zero, 0, 0) 0 0) as [E1 E2]; try done; try lia.
  { eapply Forall_impl; [exact Hall|]. intros e [? ?]. lia. }
  destruct (foldl _ _ _) as [[[c ca] m] ma]. simpl in *. subst. split_and!; try lia.
  unfold count. f_equal. apply (size_filterb (λ a, alloc_kind a = KTask)).
Qed.

(** The list of services shows every configured service once with its definition; its allocations are those of the
    cluster state that belong to it, and the number of healthy replicas is the number of allocations recorded
    healthy. *)
Theorem services_shown `{HashIter} f c :
  config f = Some c →
  (sv_name <$> get_services f) ≡ₚ (map_to_list (services c)).*1 ∧
  ∀ v, v ∈ get_services f →
    ∃ def, services c !! sv_name v = Some def ∧ sv_image v = sd_image def ∧ rc_desired (sv_replicas v) = sd_replicas def ∧
      rc_healthy (sv_replicas v) =
        Z.of_nat (size (filter (λ '(_, a), alloc_name a = sv_name v ∧ alloc_kind a = KService ∧ alloc_status a = Healthy) (allocs f))) ∧
      ∀ r, r ∈ sv_allocations v ↔ ∃ aid a, allocs f !! aid = Some a ∧ alloc_name a = sv_name v ∧ alloc_kind a = KService ∧ r = alloc_view a.
Proof.
  intros Hc. unfold get_services. rewrite Hc. split.
  { rewrite <-(hm_iter_perm (services c)), <-list_fmap_compose.
    erewrite list_fmap_ext; [done|]. by intros ? [] ?. }
  intros v ([name def] & -> & Hin%elem_of_hm_iter)%list_elem_of_fmap. exists def. simpl. split_and!; [done..| |].
  - rewrite count_filterb_fmap. unfold list_service_allocs. rewrite !filterb_filterb. unfold count. f_equal.
    rewrite <-(size_filterb (λ a, alloc_name a = name ∧ alloc_kind a = KService ∧ alloc_status a = Healthy)).
    f_equal. apply filterb_ext. intros a. simpl. rewrite shown_healthy, <-!bool_decide_and. apply bool_decide_ext. tauto.
  - intros r. rewrite list_elem_of_fmap. unfold list_service_allocs. split.
    + intros (a & -> & [[Hv Hn]%elem_of_filterb Hk]%elem_of_filterb). apply elem_of_hm_values in Hv as [aid ?].
      apply bool_decide_eq_true in Hn, Hk. by exists aid, a.
    + intros (aid & a & Ha & Hn & Hk & ->). exists a. split; [done|]. rewrite !elem_of_filterb, !bool_decide_eq_true.
      split_and!; [|done..]. apply elem_of_hm_values. by exists aid.
Qed.

(** The samples of the metrics page that concern allocations are labelled with the service and the node only: two
    replicas of a service on the same node give two samples of the same series. *)
Lemma metrics_same_series stats show_f64 a1 a2 :
  alloc_name a1 = alloc_name a2 → alloc_node a1 = alloc_node a2 → stats !! alloc_id a1 = stats !! alloc_id a2 →
  alloc_labels a1 = alloc_labels a2 ∧ alloc_cpu_line show_f64 stats a1 = alloc_cpu_line show_f64 stats a2.
Proof. intros Hn Hd Hs. unfold alloc_cpu_line, alloc_labels. by rewrite Hn, Hd, Hs. Qed.
