(* ===== verification/Api.v ===== *)
(** The control API ([src/crates/node/src/primary/api]): authentication, redirection to the leader, the table of
    endpoints and the handlers that change something, with the requests of joining nodes
    ([src/crates/node/src/daemon/mod.rs]). Matching of paths and decoding of bodies are done by axum and serde and
    are parameters. The theorems show that a request has an effect only when it carries the token and, for a
    change, only on the node that confirmed its leadership; that a joining node is offered an identifier and an
    address nobody has, that two nodes joining at once are offered the same ones and what becomes of them; that
    a secret is read back; and what deleting a volume does. *)

From S2P Require Import Prelude Types Env Addr Fsm Secrets Rpc World Plan Config Deploy Report Routes Tasks Util Views.
Local Open Scope Z_scope.

(** * Requests and responses *)

Record ApiError := mkApiError {
  ae_status : Z;
  ae_error : string;
}.
Definition OK : Z := 200.
Definition NO_CONTENT : Z := 204.
Definition BAD_REQUEST : Z := 400.
Definition UNAUTHORIZED : Z := 401.
Definition NOT_FOUND : Z := 404.
Definition CONFLICT : Z := 409.
Definition INTERNAL_SERVER_ERROR : Z := 500.
Definition SERVICE_UNAVAILABLE : Z := 503.
Definition internal (msg : string) : ApiError := mkApiError INTERNAL_SERVER_ERROR msg.

(** Joining nodes (daemon/mod.rs). *)
Definition WIREGUARD_PORT : Z := 51820.
Record JoinPeerInfo := mkJoinPeerInfo {
  jp_raft_id : Z;
  jp_endpoint : string;
  jp_tunnel_ip : IpAddr;
  jp_public_key : string;
}.
Record JoinInfoResponse := mkJoinInfoResponse {
  ji_subnet : string;
  ji_prefix_len : Z;
  ji_api_port : Z;
  ji_tunnel_ip : IpAddr;
  ji_next_raft_id : Z;
  ji_peers : list JoinPeerInfo;
}.
Record JoinRequest := mkJoinRequest {
  jr_node_id : string;
  jr_raft_id : Z;
  jr_advertise_addr : string;
  jr_tunnel_ip : IpAddr;
  jr_public_key : string;
  jr_resources : NodeResources;
  jr_instance_id : option string;
  jr_rpc_address : option SocketAddr;
}.
Record LogQuery := mkLogQuery {
  lq_follow : bool;
  lq_tail : Z;
}.
Definition default_follow : bool := true.
Definition default_tail : Z := 200.

Inductive ApiBody :=
| BEmpty
| BError (e : string)
| BStatus (r : StatusResponse)
| BNodes (l : list NodeResponse)
| BServices (l : list ServiceResponse)
| BTasks (l : list TaskResponse)
| BTask (r : TaskResponse)
| BSecrets (l : list string)
| BSecret (name value : string)
| BVolumes (l : list VolumeResponse)
| BText (s : string)
| BSpawned (r : SpawnTaskResponse)
| BJoinInfo (r : JoinInfoResponse)
| BBytes (s : string)
| BEvents (task : Spawned).
Inductive ApiResponse :=
| Reply (status : Z) (body : ApiBody)
| TemporaryRedirect (location : string).

(** The table of [router]. *)
Inductive Method := GET | POST | PUT | DELETE.
Inductive Endpoint :=
| EpStatus | EpNodes | EpServices | EpTasks | EpTask | EpSecrets | EpSecret | EpVolumes | EpMetrics | EpLogs | EpJoinInfo
| EpClusterKey
| EpDeploy | EpRestart | EpSpawnTask | EpDeleteTask | EpSetSecret | EpDeleteSecret | EpDeleteVolume | EpDrain | EpDeleteNode
| EpJoin.
#[global] Instance Endpoint_eq_dec : EqDecision Endpoint.
Proof. solve_decision. Defined.
Definition read_routes : list (string * Method * Endpoint) :=
  [("/v1/status", GET, EpStatus); ("/v1/nodes", GET, EpNodes); ("/v1/services", GET, EpServices); ("/v1/tasks", GET, EpTasks);
   ("/v1/tasks/{id}", GET, EpTask); ("/v1/secrets", GET, EpSecrets); ("/v1/secrets/{name}", GET, EpSecret);
   ("/v1/volumes", GET, EpVolumes); ("/v1/metrics", GET, EpMetrics); ("/v1/logs/{name}", GET, EpLogs);
   ("/v1/join-info", GET, EpJoinInfo); ("/v1/cluster-key", GET, EpClusterKey)]%string.
Definition write_routes : list (string * Method * Endpoint) :=
  [("/v1/deploy", POST, EpDeploy); ("/v1/restart/{service}", POST, EpRestart); ("/v1/tasks/spawn", POST, EpSpawnTask);
   ("/v1/tasks/{id}", DELETE, EpDeleteTask); ("/v1/secrets/{name}", PUT, EpSetSecret); ("/v1/secrets/{name}", DELETE, EpDeleteSecret);
   ("/v1/volumes/{name}", DELETE, EpDeleteVolume); ("/v1/nodes/{id}/drain", POST, EpDrain); ("/v1/nodes/{id}", DELETE, EpDeleteNode);
   ("/v1/join", POST, EpJoin)]%string.
Definition is_write (e : Endpoint) : bool := bool_decide (e ∈ write_routes.*2).

(** A request: the path, the path with the query, the [authorization] header and the body. *)
Record ApiRequest := mkApiRequest {
  aq_method : Method;
  aq_path : string;
  aq_path_and_query : option string;
  aq_authorization : option string;
  aq_body : string;
}.

(** [mpsc_to_sse]: an event without a name has only data. *)
Definition sse_event (event data : string) : option string * string :=
  (if str_is_empty event then None else Some event, data).

(** * Tunnel addresses *)

(** [for i in i..i + n]: the first address 10.99.0.0 + [i] that is not used. *)
Fixpoint free_tunnel_ip (used : list IpAddr) (n : nat) (i : Z) : option IpAddr :=
  match n with
  | O => None
  | S n =>
      let addr := V4 (174260224 + i) in
      if bool_decide (addr ∈ used) then free_tunnel_ip used n (i + 1) else Some addr
  end.
Definition allocate_tunnel_ip (used : list IpAddr) : option IpAddr := free_tunnel_ip used (Z.to_nat 65533) 1.

(** * Handlers (api/handlers.rs) *)

Section api.
Context `{HI : HashIter} (env : nat → EnvStep) (fuel : nat) (vars : gmap string string).
(** The cluster key's cipher; encryption draws a nonce, so it may answer differently each time. *)
Context (encrypt : nat → string → result (string * string) string) (decrypt : string → string → result string string).
Context (parse_bytesize parse_duration : string → result Z string) (hcl : string → result RawConfig string).
Context (show_f64 : f64 → string).
(** The application state: the token, the cluster key, what is configured, and the metrics at each moment. *)
Context (token cluster_key : string) (has_driver has_mesh has_network : bool).
Context (live : nat → LiveMetrics) (proxy : nat → option ProxyMetrics).
(** What openraft says of the leader, and what axum and serde do with a request. *)
Context (leader : nat → option Z) (readable header_ok : string → bool).
Context (pick : list (string * Method * Endpoint) → Method → string → option (Endpoint * string)).
Context (json_secret : string → result string Z) (json_spawn : string → result SpawnTaskRequest Z) (json_join : string → result JoinRequest Z).
Context (query_logs : option string → result (option bool * option Z) Z).

Definition api_error {A} (status : Z) (msg : string) : M (result A ApiError) := throw (mkApiError status msg).

Definition api_propose (cmd : Command) : M (result Z ApiError) :=
  r ← propose env cmd;
  match r with
  | Ok RespOk => mret (Ok NO_CONTENT)
  | Ok (RespError _) | Err _ => throw (internal "raft proposal failed")
  end.

Definition get_secret_value (name : string) : M (result (string * string) ApiError) :=
  encrypted ← read_fsm (λ f, get_secret f name);
  secret ←? ok_or encrypted (mkApiError NOT_FOUND "secret not found");
  match decrypt (encrypted_value secret) (es_nonce secret) with
  | Err _ => throw (internal "decryption failed")
  | Ok plaintext =>
      match from_utf8 plaintext with
      | Err _ => throw (internal "decryption failed")
      | Ok value => mret (Ok (name, value))
      end
  end.
Definition set_secret (name value : string) : M (result Z ApiError) :=
  n ← tick;
  match encrypt n value with
  | Err _ => throw (internal "encryption failed")
  | Ok (v, nonce) => api_propose (SecretSet name v nonce)
  end.
Definition delete_secret (name : string) : M (result Z ApiError) :=
  exists_ ← read_fsm (λ f, bool_decide (is_Some (get_secret f name)));
  if exists_ : bool then api_propose (SecretDelete name) else api_error NOT_FOUND "secret not found".

(** A call of the volume driver; [msg] is the text of its error. *)
Definition cloud_destroy (name : string) : M (result unit ApiError) :=
  '(ok, msg) ← await_outcome env;
  _ ← record (ECloud (CloudDestroy name) ok);
  if ok : bool then mret (Ok tt) else throw (internal ("cloud destroy failed: " +:+ msg)).
Definition delete_volume (name : string) : M (result Z ApiError) :=
  vol_state ← read_fsm (λ f, vol_state <$> volumes f !! name);
  match vol_state with
  | None => api_error NOT_FOUND "volume not found"
  | Some (VolAttached _) => api_error CONFLICT "volume is attached"
  | Some VolReady =>
      _ ←? (if has_driver then cloud_destroy name else mret (Ok tt));
      api_propose (VolumeDestroyed name)
  end%string.

Definition post_deploy (body : string) : M (result Spawned ApiError) :=
  match parse parse_bytesize parse_duration hcl body with
  | Err e => api_error BAD_REQUEST ("invalid config: " +:+ show_config_error e)%string
  | Ok cfg => _ ← record (ESpawn (SpawnDeploy cfg)); mret (Ok (SpawnDeploy cfg))
  end.
Definition post_restart (service : string) : M (result Spawned ApiError) :=
  exists_ ← read_fsm (λ f, match config f with Some c => hm_contains service (services c) | None => false end);
  if exists_ : bool then _ ← record (ESpawn (SpawnServiceRestart service)); mret (Ok (SpawnServiceRestart service))
  else api_error NOT_FOUND "service not found".
Definition post_drain (id : string) : M (result Spawned ApiError) :=
  raft_id ← read_fsm (λ f, raft_id_for f (mkNodeId id));
  raft_id ←? ok_or raft_id (mkApiError NOT_FOUND "node not found");
  _ ← record (ESpawn (SpawnDrain raft_id));
  mret (Ok (SpawnDrain raft_id)).
Definition get_logs (name : string) (query : LogQuery) : M Spawned :=
  _ ← record (ESpawn (SpawnLogs name (lq_follow query) (lq_tail query)));
  mret (SpawnLogs name (lq_follow query) (lq_tail query)).

(** What the spawned tasks do: the error of a deploy or restart is the last event of its stream, the error of a
    drain is only logged. *)
Definition run_spawned (task : Spawned) : M unit :=
  match task with
  | SpawnDeploy cfg =>
      r ← run_deploy env fuel vars decrypt has_driver cfg;
      match r with
      | Err e => send_json_event env "failed" [("reason", JStr (show_deploy_error e))]
      | Ok _ => mret tt
      end
  | SpawnServiceRestart service =>
      r ← run_restart env fuel vars decrypt has_driver service;
      match r with
      | Err e => send_json_event env "failed" [("reason", JStr (show_deploy_error e))]
      | Ok _ => mret tt
      end
  | SpawnDrain raft_id => _ ← drain_node env fuel vars decrypt has_driver raft_id; mret tt
  | _ => mret tt
  end%string.

Definition post_spawn_task (body : SpawnTaskRequest) : M (result SpawnTaskResponse ApiError) :=
  r ← spawn_task env fuel vars decrypt parse_bytesize parse_duration body;
  match r with
  | Ok resp => mret (Ok resp)
  | Err (SchedulingFailed _ _) => api_error SERVICE_UNAVAILABLE "no node with sufficient resources"
  | Err (DeployNode (BadRequest msg)) => api_error BAD_REQUEST msg
  | Err (DeployNode (ServiceNotFound _)) => api_error NOT_FOUND "task template not found"
  | Err _ => throw (internal "internal error")
  end.
Definition delete_task (id : string) : M (result Z ApiError) :=
  r ← kill_task env id;
  match r with
  | Ok _ => mret (Ok NO_CONTENT)
  | Err (DeployNode (AllocNotFound _)) => api_error NOT_FOUND "task not found"
  | Err (DeployNode (NotATask _)) => api_error BAD_REQUEST "allocation is not a task"
  | Err _ => throw (internal "internal error")
  end.
Definition delete_node (id : string) : M (result Z ApiError) :=
  raft_id ← read_fsm (λ f, raft_id_for f (mkNodeId id));
  raft_id ←? ok_or raft_id (mkApiError NOT_FOUND "node not found");
  r ← remove_node env raft_id;
  match r with
  | Ok _ => mret (Ok NO_CONTENT)
  | Err (RaftRejected _) => api_error CONFLICT "node has active allocations"
  | Err _ => throw (internal "internal error")
  end.

(** ** Joining *)

Definition peer_info (n : FsmNode) : JoinPeerInfo :=
  mkJoinPeerInfo (raft_id n)
    (match advertise_addr n with
     | Some a => (a +:+ ":" +:+ pretty WIREGUARD_PORT)%string
     | None => show_sock (fn_address n)
     end)
    (sock_ip (fn_address n)) (default ""%string (wireguard_pubkey n)).
Definition next_raft_id (f : FsmState) : Z := u64_add (foldr Z.max 0 (hm_keys (nodes f))) 1.
Definition get_join_info (f : FsmState) : result JoinInfoResponse ApiError :=
  let peers := peer_info <$> hm_values (nodes f) in
  match allocate_tunnel_ip (jp_tunnel_ip <$> peers) with
  | None => Err (internal "no tunnel IPs available")
  | Some ip => Ok (mkJoinInfoResponse "10.99.0.0/16" 16 4400 ip (next_raft_id f) peers)
  end.

Definition join_addr (body : JoinRequest) : SocketAddr :=
  default (SocketAddr_new (jr_tunnel_ip body) 4400) (parse_sock (show_ip (jr_tunnel_ip body) +:+ ":4400")%string).
Definition join_register (body : JoinRequest) : Command :=
  NodeRegister (jr_raft_id body) (mkNodeId (jr_node_id body)) (join_addr body) (jr_resources body) (Some (jr_public_key body))
    (jr_instance_id body) (jr_rpc_address body) (Some (jr_advertise_addr body)).
Definition join_peer (body : JoinRequest) : PeerInfo :=
  mkPeerInfo (mkNodeId (jr_node_id body)) (jr_public_key body)
    ((λ ip, SocketAddr_new ip WIREGUARD_PORT) <$> parse_ip (jr_advertise_addr body)) (jr_tunnel_ip body).
Definition add_wg_peer (peer : PeerInfo) : M (result unit ApiError) :=
  '(ok, msg) ← await_outcome env;
  _ ← record (EMesh (AddPeer peer) ok);
  if ok : bool then mret (Ok tt) else throw (internal ("wireguard add_peer: " +:+ msg)).
Definition post_join (body : JoinRequest) : M (result Z ApiError) :=
  let addr := (show_ip (jr_tunnel_ip body) +:+ ":4401")%string in
  _ ←? (if has_mesh then add_wg_peer (join_peer body) else mret (Ok tt));
  _ ← (if has_network then record (ERaft (SetPeer (jr_raft_id body) ("http://" +:+ addr)) true) else mret tt);
  _ ←? lift_err (λ e, internal ("add_learner: " +:+ e)) (raft_op env (AddLearner (jr_raft_id body) addr));
  member_ids ← read_fsm (λ f, hm_keys (nodes f) ++ [jr_raft_id body]);
  _ ←? lift_err (λ e, internal ("change_membership: " +:+ e)) (raft_op env (ChangeMembership member_ids));
  api_propose (join_register body).

(** * Middleware (api/auth.rs, api/leader.rs) and dispatch (api/mod.rs) *)

Definition reply {A} (f : A → ApiResponse) (m : M (result A ApiError)) : M ApiResponse :=
  r ← m;
  mret (match r with Ok a => f a | Err e => Reply (ae_status e) (BError (ae_error e)) end).
Definition status_only (s : Z) : ApiResponse := Reply s BEmpty.
(** A body or query that cannot be decoded is refused by axum, with a status of its own, before the handler runs. *)
Definition with_body {A} (b : result A Z) (k : A → M ApiResponse) : M ApiResponse :=
  match b with
  | Ok a => k a
  | Err status => mret (Reply status BEmpty)
  end.

Definition run_endpoint (e : Endpoint) (param : string) (req : ApiRequest) : M ApiResponse :=
  match e with
  | EpStatus => r ← read_fsm get_status; mret (Reply OK (BStatus r))
  | EpNodes => r ← read_fsm get_nodes; mret (Reply OK (BNodes r))
  | EpServices => r ← read_fsm get_services; mret (Reply OK (BServices r))
  | EpTasks => r ← read_fsm get_tasks; mret (Reply OK (BTasks r))
  | EpTask =>
      reply (λ r, Reply OK (BTask r))
        (r ← read_fsm (λ f, get_task f param); ok_or r (mkApiError NOT_FOUND "task not found"))
  | EpSecrets => r ← read_fsm list_secrets; mret (Reply OK (BSecrets r))
  | EpSecret => reply (λ '(name, value), Reply OK (BSecret name value)) (get_secret_value param)
  | EpVolumes => r ← read_fsm get_volumes; mret (Reply OK (BVolumes r))
  | EpMetrics =>
      n ← tick;
      r ← read_fsm (get_metrics show_f64 (live n) (proxy n));
      mret (Reply OK (BText r))
  | EpLogs =>
      with_body (query_logs (aq_path_and_query req)) (λ '(follow, tail),
        s ← get_logs param (mkLogQuery (default default_follow follow) (default default_tail tail));
        mret (Reply OK (BEvents s)))
  | EpJoinInfo => reply (λ r, Reply OK (BJoinInfo r)) (read_fsm get_join_info)
  | EpClusterKey => mret (Reply OK (BBytes cluster_key))
  | EpDeploy => reply (λ s, Reply OK (BEvents s)) (post_deploy (aq_body req))
  | EpRestart => reply (λ s, Reply OK (BEvents s)) (post_restart param)
  | EpSpawnTask => with_body (json_spawn (aq_body req)) (λ b, reply (λ r, Reply OK (BSpawned r)) (post_spawn_task b))
  | EpDeleteTask => reply status_only (delete_task param)
  | EpSetSecret => with_body (json_secret (aq_body req)) (λ v, reply status_only (set_secret param v))
  | EpDeleteSecret => reply status_only (delete_secret param)
  | EpDeleteVolume => reply status_only (delete_volume param)
  | EpDrain => reply (λ s, Reply OK (BEvents s)) (post_drain param)
  | EpDeleteNode => reply status_only (delete_node param)
  | EpJoin => with_body (json_join (aq_body req)) (λ b, reply status_only (post_join b))
  end.

Definition current_leader : M (option Z) :=
  n ← tick;
  _ ← await_outcome env;
  mret (leader n).
Definition require_leader (req : ApiRequest) (next : M ApiResponse) : M ApiResponse :=
  '(ok, _) ← await_outcome env;
  if ok : bool then next
  else
    leader_id ← current_leader;
    leader_addr ← read_fsm (λ f, id ← leader_id; fn_address <$> nodes f !! id);
    match leader_addr with
    | Some addr =>
        let location := ("http://" +:+ show_sock addr +:+ default "/" (aq_path_and_query req))%string in
        mret (if header_ok location then TemporaryRedirect location else Reply INTERNAL_SERVER_ERROR BEmpty)
    | None => mret (Reply SERVICE_UNAVAILABLE BEmpty)
    end.

Definition authorized (req : ApiRequest) : bool :=
  match aq_authorization req with
  | Some v => readable v && match strip_prefix "Bearer " v with Some t => bool_decide (t = token) | None => false end
  | None => false
  end.
Definition require_auth (req : ApiRequest) (next : M ApiResponse) : M ApiResponse :=
  if authorized req then next else mret (Reply UNAUTHORIZED BEmpty).

Definition api_request (req : ApiRequest) : M ApiResponse :=
  require_auth req
    match pick (read_routes ++ write_routes) (aq_method req) (aq_path req) with
    | None => mret (Reply NOT_FOUND BEmpty)
    | Some (e, param) =>
        if is_write e then require_leader req (run_endpoint e param req) else run_endpoint e param req
    end.
End api.

(** * Lemmas *)

Section api_lemmas.
Context `{HI : HashIter} (env : nat → EnvStep).

(** A handler's answer is a status and a body, never a redirection. *)
Definition replies (r : ApiResponse) : Prop := ∃ status body, r = Reply status body.
Definition answers (P : ApiResponse → Prop) (m : M ApiResponse) : Prop := ∀ w r w', m w = Some (r, w') → P r.

Lemma answers_bind {A} P (m : M A) (k : A → M ApiResponse) : (∀ a, answers P (k a)) → answers P (m ≫= k).
Proof. intros Hk w r w' Hrun. unfold mbind, M_bind in Hrun. destruct (m w) as [[a w1]|]; [|done]. by eapply Hk. Qed.
Lemma answers_ret (P : ApiResponse → Prop) r : P r → answers P (mret r).
Proof. by intros HP w r' w' [= <- <-]. Qed.
Lemma answers_reply {A} (f : A → ApiResponse) m : (∀ a, replies (f a)) → answers replies (reply f m).
Proof. intros Hf. apply answers_bind. intros [a|e]; apply answers_ret; [done|by eexists _, _]. Qed.
Lemma answers_with_body {A} (b : result A Z) k : (∀ a, answers replies (k a)) → answers replies (with_body b k).
Proof. intros Hk. destruct b; [apply Hk|]. apply answers_ret. by eexists _, _. Qed.

(** Running a request that is not for this node reads the state and nothing else. *)
Lemma always_nil {A} (p : Effect → Prop) (m : M A) w a w' :
  always p m → (∀ e, ~ p e) → m w = Some (a, w') → w_trace w' = w_trace w.
Proof.
  intros Hm Hp Hrun. destruct (Hm w a w' Hrun) as (t & -> & Ht). destruct t as [|e t]; [by rewrite app_nil_r|].
  apply Forall_cons in Ht as [He _]. by apply Hp in He.
Qed.
End api_lemmas.

Ltac replies_step :=
  lazymatch goal with
  | |- answers _ (with_body _ _) => apply answers_with_body; intros ?
  | |- answers _ (reply _ _) => apply answers_reply; intros ?
  | |- answers _ (mret _) => apply answers_ret; by eexists _, _
  | |- answers _ (_ ≫= _) => apply answers_bind; intros ?
  | |- replies _ => by eexists _, _
  end.
Ltac solve_replies := repeat first [replies_step | case_match | progress intros].

Section api_theorems.
Context `{HI : HashIter} (env : nat → EnvStep) (fuel : nat) (vars : gmap string string).
Context (encrypt : nat → string → result (string * string) string) (decrypt : string → string → result string string).
Context (parse_bytesize parse_duration : string → result Z string) (hcl : string → result RawConfig string).
Context (show_f64 : f64 → string) (token cluster_key : string) (has_driver has_mesh has_network : bool).
Context (live : nat → LiveMetrics) (proxy : nat → option ProxyMetrics).
Context (leader : nat → option Z) (readable header_ok : string → bool).
Context (pick : list (string * Method * Endpoint) → Method → string → option (Endpoint * string)).
Context (json_secret : string → result string Z) (json_spawn : string → result SpawnTaskRequest Z) (json_join : string → result JoinRequest Z).
Context (query_logs : option string → result (option bool * option Z) Z).

Local Abbreviation run := (run_endpoint env fuel vars encrypt decrypt parse_bytesize parse_duration hcl show_f64 cluster_key
  has_driver has_mesh has_network live proxy json_secret json_spawn json_join query_logs).
Local Abbreviation request := (api_request env fuel vars encrypt decrypt parse_bytesize parse_duration hcl show_f64 token
  cluster_key has_driver has_mesh has_network live proxy leader readable header_ok pick json_secret json_spawn json_join
  query_logs).

Lemma run_replies e param req : answers replies (run e param req).
Proof. destruct e; simpl; solve_replies. Qed.

(** The endpoints that read leave nothing behind but the task that follows logs. *)
Definition follows_logs (e : Effect) : Prop := ∃ name follow tail, e = ESpawn (SpawnLogs name follow tail).
Lemma read_effects e param req : is_write e = false → always follows_logs (run e param req).
Proof.
  unfold is_write. intros He. destruct e; try by vm_compute in He.
  all: unfold run_endpoint, reply, get_secret_value, get_logs, with_body.
  all: repeat first [apply always_tick | always_step | case_match | by do 3 eexists | progress intros].
Qed.
Lemma leader_gate req next w r w' :
  require_leader env leader header_ok req next w = Some (r, w') →
  (es_ok (env (w_tick w)) = true ∧ ∃ w1, next w1 = Some (r, w')) ∨
  (es_ok (env (w_tick w)) = false ∧ w_trace w' = w_trace w ∧
   match r with
   | TemporaryRedirect l => ∃ id n, leader (S (w_tick w)) = Some id ∧ nodes (w_fsm w') !! id = Some n ∧
       l = ("http://" +:+ show_sock (fn_address n) +:+ default "/" (aq_path_and_query req))%string
   | Reply s b => (s = SERVICE_UNAVAILABLE ∨ s = INTERNAL_SERVER_ERROR) ∧ b = BEmpty
   end).
Proof.
  unfold require_leader. intros Hrun. outcome_in Hrun w1 Ht Htr.
  destruct (es_ok (env (w_tick w))); [left; eauto|]. right.
  unfold current_leader in Hrun. rewrite bind_assoc, run_tick, bind_assoc in Hrun. outcome_in Hrun w2 Ht2 Htr2.
  rewrite ret_bind, run_read, Ht in Hrun. rewrite <-Htr, <-Htr2.
  destruct (leader (S (w_tick w))) as [id|] eqn:El; [|injection Hrun as <- <-; by auto].
  destruct (nodes (w_fsm w2) !! id) as [n|] eqn:En; simpl in Hrun; rewrite En in Hrun; [|injection Hrun as <- <-; by auto].
  injection Hrun as <- <-. destruct (header_ok _); eauto 10.
Qed.

(** The token check accepts the exact header only. *)
Lemma authorized_token req : authorized token readable req = true → aq_authorization req = Some ("Bearer " +:+ token)%string.
Proof.
  unfold authorized. destruct (aq_authorization req) as [v|]; [|done]. intros [_ H]%andb_prop.
  destruct (strip_prefix "Bearer " v) as [t|] eqn:Hs; [|done]. apply bool_decide_eq_true in H as ->. by apply strip_prefix_Some in Hs as ->.
Qed.

(** C9: A request has an effect only if it carries the cluster's token, and then only if it starts to follow logs or
    is a change that this node took on after it confirmed its leadership. Without the token the answer is 401 and
    nothing happens; a node that is not the leader answers a change with a redirection to the leader's address, or
    with an error when it does not know it, and does nothing else. *)
Theorem api_guarded req w r w' :
  request req w = Some (r, w') →
  (aq_authorization req ≠ Some ("Bearer " +:+ token)%string → r = Reply UNAUTHORIZED BEmpty ∧ w' = w) ∧
  (w_trace w' ≠ w_trace w →
     aq_authorization req = Some ("Bearer " +:+ token)%string ∧
     ∃ e param, pick (read_routes ++ write_routes) (aq_method req) (aq_path req) = Some (e, param) ∧
     ((e ∈ write_routes.*2 ∧ es_ok (env (w_tick w)) = true) ∨
      (e ∉ write_routes.*2 ∧ ∃ t, w_trace w' = w_trace w ++ t ∧ Forall follows_logs t))) ∧
  (∀ l, r = TemporaryRedirect l → w_trace w' = w_trace w ∧ es_ok (env (w_tick w)) = false ∧
     ∃ id n, leader (S (w_tick w)) = Some id ∧ nodes (w_fsm w') !! id = Some n ∧
       l = ("http://" +:+ show_sock (fn_address n) +:+ default "/" (aq_path_and_query req))%string).
Proof.
  unfold api_request, require_auth. destruct (authorized _ _ _) eqn:Ha.
  2: { intros [= <- <-]. by split_and!. }
  apply authorized_token in Ha. intros Hrun. split; [done|].
  destruct (pick _ _ _) as [[e param]|] eqn:Hp; [|injection Hrun as <- <-; by split].
  destruct (is_write e) eqn:Hw.
  - apply bool_decide_eq_true in Hw. apply leader_gate in Hrun as [[Hok [w1 Hrun]]|(Hok & Htr & Hr)]; [|by destruct r; naive_solver].
    split; [eauto 10|]. intros l ->. apply run_replies in Hrun as (? & ? & ?). done.
  - split; [|intros l ->; by apply run_replies in Hrun as (? & ? & ?)]. intros _. split; [done|].
    exists e, param. split; [done|]. right. split; [by apply bool_decide_eq_false in Hw|]. by eapply read_effects in Hrun.
Qed.
End api_theorems.

(** ** Joining *)

Section joining.
Context `{HI : HashIter}.

Lemma foldr_max_ge l x : x ∈ l → x ≤ foldr Z.max 0 l.
Proof. induction 1; simpl; lia. Qed.
Lemma foldr_max_le l b : 0 ≤ b → (∀ x, x ∈ l → x ≤ b) → 0 ≤ foldr Z.max 0 l ≤ b.
Proof.
  intros Hb. induction l as [|x l IH]; intros Hl; simpl; [lia|].
  assert (x ≤ b) by (apply Hl; left). assert (0 ≤ foldr Z.max 0 l ≤ b) by (apply IH; intros; apply Hl; by right). lia.
Qed.
(** The loop finds an address that is not used, or all of them are. *)
Lemma free_tunnel_ip_spec used n i :
  match free_tunnel_ip used n i with
  | Some ip => ip ∉ used ∧ ∃ j, i ≤ j < i + Z.of_nat n ∧ ip = V4 (174260224 + j)
  | None => ∀ j, i ≤ j < i + Z.of_nat n → V4 (174260224 + j) ∈ used
  end.
Proof.
  revert i. induction n as [|n IH]; intros i; simpl; [lia|]. case_bool_decide as Hu.
  - specialize (IH (i + 1)). destruct (free_tunnel_ip used n (i + 1)) as [ip|].
    + destruct IH as [? (j & ? & ->)]. split; [done|]. exists j. split; [lia|done].
    + intros j Hj. destruct (decide (j = i)) as [->|]; [done|]. apply IH. lia.
  - split; [done|]. exists i. split; [lia|done].
Qed.
(** Fewer addresses in use than there are: one is free. *)
Lemma free_tunnel_ip_some used n i : (length used < n)%nat → ∃ ip, free_tunnel_ip used n i = Some ip.
Proof.
  intros Hlen. pose proof (free_tunnel_ip_spec used n i) as H. destruct (free_tunnel_ip used n i) as [ip|]; [eauto|]. exfalso.
  set (all := (λ j, V4 (174260224 + j)) <$> seqZ i (Z.of_nat n)).
  assert (length all ≤ length used)%nat as Hle.
  { apply NoDup_incl_length; [apply NoDup_ListNoDup, NoDup_fmap_2, NoDup_seqZ; intros ?? [= ?]; lia|].
    intros ip (j & -> & Hj%elem_of_seqZ)%list_elem_of_In%list_elem_of_fmap. apply list_elem_of_In, H. lia. }
  unfold all in Hle. rewrite length_fmap, length_seqZ in Hle. lia.
Qed.
(** The next identifier is larger than all registered ones. *)
Lemma next_raft_id_fresh f id n :
  (∀ id n, nodes f !! id = Some n → id < u64_max) → nodes f !! id = Some n → id < next_raft_id f.
Proof.
  intros Hid Hn. assert (id ≤ foldr Z.max 0 (hm_keys (nodes f))) by (apply foldr_max_ge, elem_of_hm_keys; by eexists).
  assert (0 ≤ foldr Z.max 0 (hm_keys (nodes f)) ≤ u64_max - 1).
  { apply foldr_max_le; [by vm_compute|]. intros x [m Hx]%elem_of_hm_keys. specialize (Hid x m Hx). lia. }
  unfold next_raft_id, u64_add, wrap64. unfold u64_max in *. rewrite Z.mod_small by lia. lia.
Qed.
Lemma join_info_next f r : get_join_info f = Ok r → ji_next_raft_id r = next_raft_id f.
Proof. unfold get_join_info. destruct (allocate_tunnel_ip _); [|done]. by intros [= <-]. Qed.
Lemma get_join_info_ok f :
  (size (nodes f) < Z.to_nat 65533)%nat → ∃ r, get_join_info f = Ok r ∧ ji_next_raft_id r = next_raft_id f.
Proof.
  intros Hsize. unfold get_join_info. unfold allocate_tunnel_ip.
  destruct (free_tunnel_ip_some (jp_tunnel_ip <$> (peer_info <$> hm_values (nodes f))) (Z.to_nat 65533) 1) as [ip ->];
    [|by eexists]. rewrite !length_fmap. unfold hm_values. by rewrite length_fmap, hm_iter_perm, length_map_to_list.
Qed.

(** C15: What a joining node is told to use is its own: the identifier is larger than every registered one and the
    address is a host address of 10.99.0.0/16 that no registered node has; and as long as fewer than 65533 nodes are
    registered the request is answered. *)
Theorem join_info_fresh f :
  (∀ id n, nodes f !! id = Some n → id < u64_max) →
  (∀ r, get_join_info f = Ok r →
     (∀ id n, nodes f !! id = Some n → id < ji_next_raft_id r ∧ sock_ip (fn_address n) ≠ ji_tunnel_ip r) ∧
     ∃ i, 1 ≤ i ≤ 65533 ∧ ji_tunnel_ip r = V4 (174260224 + i)) ∧
  ((size (nodes f) < Z.to_nat 65533)%nat → ∃ r, get_join_info f = Ok r).
Proof.
  intros Hid. split; [|intros H; destruct (get_join_info_ok f H) as (r & ? & _); eauto].
  unfold get_join_info. set (used := jp_tunnel_ip <$> _).
  { intros r Hr. pose proof (free_tunnel_ip_spec used (Z.to_nat 65533) 1) as Hip. fold (allocate_tunnel_ip used) in Hip.
    destruct (allocate_tunnel_ip used) as [ip|]; [|done]. injection Hr as <-. cbn [ji_tunnel_ip ji_next_raft_id].
    rewrite Z2Nat.id in Hip by lia. destruct Hip as [Hfree (j & Hj & ->)].
    split; [|exists j; split; [lia|done]]. intros id n Hn. split.
    + by eapply next_raft_id_fresh.
    + intros Heq. apply Hfree. subst used.
      rewrite <-Heq, <-list_fmap_compose. apply list_elem_of_fmap. exists n. split; [done|]. apply elem_of_hm_values. eauto. }
Qed.
End joining.

(** ** Two nodes that join at once *)

Section collisions.
Context `{HI : HashIter} (env : nat → EnvStep) (has_mesh has_network : bool).
Hypothesis calm : ∀ n, es_before (env n) = [] ∧ es_after (env n) = [] ∧ es_ok (env n) = true.

(** The node that a join request registers. *)
Definition joined_node (b : JoinRequest) : FsmNode :=
  mkFsmNode (jr_raft_id b) (mkNodeId (jr_node_id b)) (join_addr b) (jr_resources b) NodeReady (Some (jr_public_key b))
    (jr_instance_id b) (jr_rpc_address b) (Some (jr_advertise_addr b)).

(** [m] returns [a] and leaves the state [f]. *)
Definition leaves {A} (m : M A) (w : World) (a : A) (f : FsmState) : Prop := ∃ w', m w = Some (a, w') ∧ w_fsm w' = f.
Lemma leaves_ret {A} (a : A) w : leaves (mret a) w a (w_fsm w).
Proof. by eexists. Qed.
Lemma leaves_bind {A B} (m : M A) (k : A → M B) w a f b g :
  leaves m w a f → (∀ w', w_fsm w' = f → leaves (k a) w' b g) → leaves (m ≫= k) w b g.
Proof. intros (w' & Hm & Hf) Hk. destruct (Hk w' Hf) as (w'' & Hk' & ?). exists w''. split; [|done]. by rewrite (run_bind _ _ _ _ _ Hm). Qed.
Lemma leaves_bind_ok {A B E} (m : M (result A E)) (k : A → M (result B E)) w a f b g :
  leaves m w (Ok a) f → (∀ w', w_fsm w' = f → leaves (k a) w' b g) → leaves (bind_ok m k) w b g.
Proof. intros Hm Hk. by eapply leaves_bind. Qed.
Lemma leaves_record e w : leaves (record e) w tt (w_fsm w).
Proof. by eexists. Qed.
Lemma leaves_read {A} (h : FsmState → A) w : leaves (read_fsm h) w (h (w_fsm w)) (w_fsm w).
Proof. by eexists. Qed.
Lemma leaves_outcome w : leaves (await_outcome env) w (true, es_msg (env (w_tick w))) (w_fsm w).
Proof. destruct (calm (w_tick w)) as (Hb & Ha & Ho). unfold leaves, await_outcome, await. rewrite Hb, Ha, Ho. by eexists. Qed.
Lemma leaves_propose cmd w : leaves (propose env cmd) w (Ok (apply_command (w_fsm w) cmd).2) (apply_command (w_fsm w) cmd).1.
Proof.
  destruct (calm (w_tick w)) as (Hb & Ha & Ho). unfold leaves, propose, await, mbind, M_bind. rewrite Hb, Ha, Ho.
  change (apply_commands (w_fsm w) []) with (w_fsm w). destruct (apply_command (w_fsm w) cmd) as [f' resp]. by eexists.
Qed.
Lemma leaves_raft_op op w : leaves (raft_op env op) w (Ok tt) (w_fsm w).
Proof.
  eapply leaves_bind; [apply leaves_outcome|]. intros w' <-. eapply leaves_bind; [apply leaves_record|].
  intros w'' <-. apply leaves_ret.
Qed.
Lemma leaves_lift_err {A E F} (h : E → F) (m : M (result A E)) w a f : leaves m w (Ok a) f → leaves (lift_err h m) w (Ok a) f.
Proof. intros Hm. eapply leaves_bind; [done|]. intros w' <-. apply leaves_ret. Qed.
Lemma leaves_join b w :
  leaves (post_join env has_mesh has_network b) w (Ok NO_CONTENT)
    (set_nodes (<[jr_raft_id b := joined_node b]> (nodes (w_fsm w))) (w_fsm w)).
Proof.
  eapply leaves_bind_ok with (a := tt) (f := w_fsm w).
  { destruct has_mesh; [|apply leaves_ret]. eapply leaves_bind; [apply leaves_outcome|]. intros w' <-.
    eapply leaves_bind; [apply leaves_record|]. intros w'' <-. apply leaves_ret. }
  intros w1 <-. eapply leaves_bind with (a := tt) (f := w_fsm w1).
  { destruct has_network; [apply leaves_record|apply leaves_ret]. }
  intros w2 <-. eapply leaves_bind_ok; [apply leaves_lift_err, leaves_raft_op|].
  intros w3 <-. eapply leaves_bind; [apply leaves_read|]. intros w4 <-.
  eapply leaves_bind_ok; [apply leaves_lift_err, leaves_raft_op|].
  intros w5 <-. eapply leaves_bind; [apply leaves_propose|]. intros w6 Hw6. simpl in Hw6. unfold joined_node. rewrite <-Hw6. apply leaves_ret.
Qed.

(** Two nodes that ask for join information before either is registered are offered the same identifier and
    address; both registrations are then accepted, and the second replaces the first, which is no longer known. *)
Theorem concurrent_joins_collide w r b1 b2 :
  get_join_info (w_fsm w) = Ok r → jr_raft_id b1 = ji_next_raft_id r → jr_raft_id b2 = ji_next_raft_id r →
  leaves (r1 ← post_join env has_mesh has_network b1; r2 ← post_join env has_mesh has_network b2; mret (r1, r2)) w
    (Ok NO_CONTENT, Ok NO_CONTENT) (set_nodes (<[ji_next_raft_id r := joined_node b2]> (nodes (w_fsm w))) (w_fsm w)).
Proof.
  intros Hr H1 H2. eapply leaves_bind; [apply leaves_join|]. intros w1 Hw1.
  eapply leaves_bind; [apply leaves_join|]. intros w2 Hw2. rewrite Hw1 in Hw2.
  replace (set_nodes _ _) with (w_fsm w2); [apply leaves_ret|]. rewrite Hw2, H1, H2. simpl. by rewrite insert_insert_eq.
Qed.
End collisions.

(** ** Secrets and volumes *)

Section secrets.
Context `{HI : HashIter} (env : nat → EnvStep) `{C : Aead} `{!AeadLaws C} (k : ClusterKey) (nonce : nat → string).
Hypothesis nonce_len : ∀ n, Z.of_nat (String.length (nonce n)) = NONCE_LEN.
(** Decryption, where it does not panic. *)
Context (dec : string → string → result string string).
Hypothesis dec_spec : ∀ c n r, decrypt k c n = Some r → dec c n = r.

(** A command that is not about a secret leaves it alone. *)
Definition spares_secret (name : string) (cmd : Command) : bool :=
  match cmd with
  | SecretSet n _ _ | SecretDelete n => negb (bool_decide (n = name))
  | _ => true
  end.
Lemma spared_secret name cmd f : spares_secret name cmd = true → get_secret (apply_command f cmd).1 name = get_secret f name.
Proof.
  unfold get_secret, spares_secret. intros H.
  destruct cmd; simpl; unfold apply_heartbeat, apply_node_remove; try apply negb_true_iff, bool_decide_eq_false in H;
    repeat (case_match; simpl); try done; by rewrite ?lookup_insert_ne, ?lookup_delete_ne by done.
Qed.
Lemma spared_secrets name cmds f :
  (∀ cmd, cmd ∈ cmds → spares_secret name cmd = true) → get_secret (apply_commands f cmds) name = get_secret f name.
Proof.
  revert f. induction cmds as [|cmd cmds IH]; intros f H; [done|].
  change (get_secret (apply_commands (apply_command f cmd).1 cmds) name = get_secret f name).
  rewrite IH by (intros; apply H; by right). apply spared_secret, H. left.
Qed.

Lemma set_secret_stored enc name value w w' s :
  (∀ n cmd, cmd ∈ es_after (env n) → spares_secret name cmd = true) →
  set_secret env enc name value w = Some (Ok s, w') →
  ∃ c n, enc (w_tick w) value = Ok (c, n) ∧ get_secret (w_fsm w') name = Some (mkEncryptedSecret c n).
Proof.
  intros Henv. unfold set_secret. rewrite run_tick. destruct (enc (w_tick w) value) as [[c n]|e]; [|done]. intros Hrun.
  exists c, n. split; [done|]. unfold api_propose, propose, await, mbind, M_bind in Hrun. simpl in Hrun.
  destruct (es_ok (env (w_tick w))); [|done]. injection Hrun as _ <-. simpl.
  rewrite spared_secrets by apply Henv. by unfold get_secret; simpl; rewrite lookup_insert_eq.
Qed.

(** C16: A secret that was accepted is read back, and a deploy that refers to it gets its value, as long as nobody
    else changes the secret. *)
Theorem secret_round_trip name value w w' s :
  from_utf8 value = Ok value →
  (∀ n cmd, cmd ∈ es_after (env n) → spares_secret name cmd = true) →
  set_secret env (λ n v, encrypt k (nonce n) v) name value w = Some (Ok s, w') →
  get_secret_value dec name w' = Some (Ok (name, value), w') ∧ resolve_env_part dec (w_fsm w') (Secret name) = Ok value.
Proof.
  intros Hv Henv Hset. apply set_secret_stored in Hset as (c & n & Henc & Hs); [|done].
  apply decrypt_encrypt, dec_spec in Henc; [|done].
  unfold get_secret_value, resolve_env_part. rewrite run_read, Hs. unfold ok_or, bind_ok. rewrite ret_bind. simpl.
  by rewrite Henc, Hv.
Qed.
End secrets.

(** Deleting a volume: one that is attached is refused without any effect; one that is not known is refused too;
    otherwise the cloud's volume is destroyed first, when there is a driver, and only if that succeeded is the
    volume removed from the cluster's state. *)
Theorem delete_volume_order `{HI : HashIter} env has_driver name w r w' :
  delete_volume env has_driver name w = Some (r, w') →
  match volumes (w_fsm w) !! name with
  | None => r = Err (mkApiError NOT_FOUND "volume not found") ∧ w' = w
  | Some v =>
      match vol_state v with
      | VolAttached _ => r = Err (mkApiError CONFLICT "volume is attached") ∧ w' = w
      | VolReady =>
          ∃ t, w_trace w' = w_trace w ++ t ∧
          match t with
          | [ECloud (CloudDestroy n) false] => has_driver = true ∧ n = name ∧ ∃ e, r = Err (internal e)
          | [ECloud (CloudDestroy n) true; EPropose c p] => has_driver = true ∧ n = name ∧ c = VolumeDestroyed name ∧ (r = Ok NO_CONTENT ↔ p = Ok RespOk)
          | [EPropose c p] => has_driver = false ∧ c = VolumeDestroyed name ∧ (r = Ok NO_CONTENT ↔ p = Ok RespOk)
          | _ => False
          end
      end
  end.
Proof.
  unfold delete_volume. rewrite run_read. destruct (volumes (w_fsm w) !! name) as [v|]; simpl; [|by intros [= <- <-]].
  destruct (vol_state v); [|by intros [= <- <-]].
  assert (∀ w, ends (api_propose env (VolumeDestroyed name)) (λ r _ t, ∃ p, t = [EPropose (VolumeDestroyed name) p] ∧ (r = Ok NO_CONTENT ↔ p = Ok RespOk)) w) as Hp.
  { intros w0. apply ends_bind, ends_propose. intros p w1. destruct p as [[]|]; apply ends_ret; simpl; eauto. 
    all: eexists; split; [done|]; by split. }
  revert r w'. refine (_ : ends _ _ w). destruct has_driver; apply ends_bind_ok; [|apply ends_ret].
  - apply ends_bind, ends_await. intros w1 _. simpl. apply ends_bind, ends_record. intros w2 _ _ _ _.
    destruct (es_ok _); apply ends_ret; simpl; [|eauto].
    eapply ends_mono; [apply Hp|]. intros r w' t (p & -> & H). done.
  - eapply ends_mono; [apply Hp|]. intros r w' t (p & -> & H). done.
Qed.

(** * Examples and witnesses *)

Module ApiExamples.
Import FsmExamples ReportExamples.
Definition ex_pick (routes : list (string * Method * Endpoint)) (m : Method) (path : string) : option (Endpoint * string) :=
  find_map (λ '(p, m', e), if bool_decide (p = path) && match m, m' with GET, GET | POST, POST | PUT, PUT | DELETE, DELETE => true | _, _ => false end
                           then Some (e, "job-1"%string) else None) routes.
Definition ex_request : ApiRequest := mkApiRequest DELETE "/v1/tasks/{id}" (Some "/v1/tasks/job-1"%string) (Some "Bearer tok"%string) "".
(** An environment in which this node is not the leader. *)
Definition follower_env (n : nat) : EnvStep := mkEnvStep [] [] (λ r, r) 1 5000000000 false "".
Definition ex_serve : M ApiResponse :=
  @api_request stored_order follower_env 5 ∅ (λ _ v, Ok (v, ""%string)) (λ c _, Ok c) (λ _, Ok 0) (λ _, Ok 0) (λ _, Err ""%string)
    (λ _, ""%string) "tok" "key" false false false (λ _, LiveMetrics_new) (λ _, None) (λ _, Some 1) (λ _, true) (λ _, true) ex_pick
    (λ b, Ok b) (λ _, Err 422) (λ _, Err 422) (λ _, Err 400) ex_request.
Definition ex_join (node : string) : JoinRequest :=
  mkJoinRequest node 3 "192.0.2.7" (V4 174260225) "pk" ex_res None None.
#[global] Instance plain_aead : Aead := {| aead_seal := λ _ _ p, Ok p; aead_open := λ _ _ c, Ok c |}.
#[global] Instance plain_aead_laws : AeadLaws plain_aead.
Proof. split. intros ???? [= ->]. done. Qed.
Definition ex_dec (c n : string) : result string string := match decrypt ex_key c n with Some r => r | None => Err ""%string end.
Definition vol_world : World :=
  mkWorld (@apply_commands stored_order ex_state [VolumeCreated "data" "vol-1"]) CommandRouter_new 0 5000000000 0 0 [].
End ApiExamples.
Import FsmExamples ReportExamples ApiExamples.

Lemma api_guarded_witness :
  ∃ w', ex_serve task_world = Some (TemporaryRedirect ("http://" +:+ show_sock ex_addr +:+ "/v1/tasks/job-1"), w') ∧
    w_trace w' = w_trace task_world.
Proof.
  assert (fst <$> ex_serve task_world = Some (TemporaryRedirect ("http://" +:+ show_sock ex_addr +:+ "/v1/tasks/job-1"))) as Hr
    by (vm_compute; reflexivity).
  remember (ex_serve task_world) as o eqn:E. destruct o as [[r w']|]; [|discriminate Hr]. 
  injection Hr as ->. symmetry in E.
  eexists. split; [reflexivity|]. unfold ex_serve in E.
  destruct (@api_guarded _ _ _ _ _ _ _ _ _ _ _ _ _ _ _ _ _ _ _ _ _ _ _ _ _ _ _ _ _ E) as (_ & _ & H).
  apply (H _ eq_refl).
Defined.

Lemma task_world_small : (size (nodes (w_fsm task_world)) < Z.to_nat 65533)%nat.
Proof. apply Nat2Z.inj_lt. rewrite Z2Nat.id by lia. vm_compute. reflexivity. Qed.
Lemma join_info_fresh_witness : ∃ r, @get_join_info stored_order (w_fsm task_world) = Ok r.
Proof.
  apply (@join_info_fresh stored_order (w_fsm task_world)); [|exact task_world_small].
  intros id n Hn. assert (Forall (λ i, i < u64_max) (@hm_keys stored_order _ _ _ _ (nodes (w_fsm task_world)))) as Hk
    by (apply (bool_decide_unpack _); vm_compute; exact I).
  rewrite Forall_forall in Hk. apply Hk, elem_of_hm_keys. eauto.
Defined.

Lemma concurrent_joins_collide_witness :
  ∃ w', (r1 ← @post_join stored_order quiet_env true true (ex_join "a");
         r2 ← @post_join stored_order quiet_env true true (ex_join "b"); mret (r1, r2)) task_world =
      Some ((Ok NO_CONTENT, Ok NO_CONTENT), w') ∧
    (mill_id <$> nodes (w_fsm w') !! 3) = Some (mkNodeId "b").
Proof.
  destruct (@get_join_info_ok stored_order (w_fsm task_world) task_world_small) as (r & E & Hid).
  assert (@next_raft_id stored_order (w_fsm task_world) = 3) as H3 by (vm_compute; reflexivity). rewrite H3 in Hid.
  destruct (@concurrent_joins_collide stored_order quiet_env true true (λ n, conj eq_refl (conj eq_refl eq_refl)) task_world r
    (ex_join "a") (ex_join "b") E (eq_sym Hid) (eq_sym Hid)) as (w' & H1 & H2).
  exists w'. split; [exact H1|]. rewrite H2, Hid. reflexivity.
Defined.

Lemma secret_round_trip_witness :
  ∃ w', @set_secret stored_order quiet_env (λ n v, encrypt ex_key "123456789012" v) "db" "pw" task_world = Some (Ok NO_CONTENT, w') ∧
    get_secret_value ex_dec "db" w' = Some (Ok ("db", "pw"), w')%string ∧
    @resolve_env_part stored_order ex_dec (w_fsm w') (Secret "db") = Ok "pw"%string.
Proof.
  destruct (@set_secret stored_order quiet_env (λ n v, encrypt ex_key "123456789012" v) "db" "pw" task_world) as [[r w']|] eqn:E;
    [|vm_compute in E; discriminate].
  assert (r = Ok NO_CONTENT) as -> by (vm_compute in E |- *; injection E as <- _; reflexivity).
  exists w'. split; [reflexivity|].
  refine (@secret_round_trip stored_order quiet_env plain_aead plain_aead_laws ex_key (λ _, "123456789012"%string) (λ _, eq_refl) ex_dec _
    "db" "pw" task_world w' _ _ _ E).
  - intros c n r Hr. unfold ex_dec. rewrite Hr. reflexivity.
  - reflexivity.
  - intros n cmd Hc. apply elem_of_nil in Hc. destruct Hc.
Defined.

Lemma delete_volume_order_witness :
  ∃ r w', @delete_volume stored_order quiet_env true "data" vol_world = Some (r, w') ∧
    ∃ t, w_trace w' = w_trace vol_world ++ t ∧ t = [ECloud (CloudDestroy "data") true; EPropose (VolumeDestroyed "data") (Ok RespOk)].
Proof.
  destruct (@delete_volume stored_order quiet_env true "data" vol_world) as [[r w']|] eqn:E; [|vm_compute in E; discriminate].
  exists r, w'. split; [reflexivity|]. pose proof (@delete_volume_order stored_order _ _ _ _ _ _ E) as H.
  assert (volumes (w_fsm vol_world) !! "data"%string = Some (mkFsmVolume "vol-1" VolReady)) as Hv by (vm_compute; reflexivity).
  rewrite Hv in H. simpl in H. destruct H as (t & Ht & _). exists t. split; [exact Ht|].
  vm_compute in E. injection E as _ <-. symmetry. exact Ht.
Defined.
