(* ===== verification/Daemon.v ===== *)
(** The daemon ([src/crates/node/src/daemon]: starting a cluster, joining one, restarting from the stored identity and
    leaving) and the commands that set up the mesh interface ([src/crates/net/src/wireguard]). A procedure is the
    sequence of actions it takes, the first that fails ending it; what fails is up to an oracle. The theorems show what
    an identity file leads to after a restart and in what order a node joins and leaves. *)

From Stdlib Require Import Ascii.
From S2P Require Import Prelude Types Env Addr Fsm Secrets Rpc World Plan Config Deploy Report Routes Tasks Util Views Api Oci.
Local Open Scope Z_scope.

(** * The stored identity (identity.rs) *)

Record PeerEntry := mkPeerEntry {
  pe_raft_id : Z;
  pe_advertise_addr : string;
  pe_tunnel_ip : IpAddr;
  pe_public_key : string;
}.
Record NodeIdentity := mkNodeIdentity {
  ni_node_id : string;
  ni_raft_id : Z;
  ni_cluster_token : string;
  ni_rpc_port : Z;
  ni_advertise_addr : string;
  ni_provider : option string;
  ni_provider_token : option string;
  ni_region : option string;
  ni_wireguard_subnet : string;
  ni_peers : list PeerEntry;
  ni_acme_email : option string;
  ni_acme_staging : option bool;
}.
Definition with_region (r : option string) (i : NodeIdentity) : NodeIdentity :=
  mkNodeIdentity (ni_node_id i) (ni_raft_id i) (ni_cluster_token i) (ni_rpc_port i) (ni_advertise_addr i) (ni_provider i)
    (ni_provider_token i) r (ni_wireguard_subnet i) (ni_peers i) (ni_acme_email i) (ni_acme_staging i).
Record AcmeConfig := mkAcmeConfig {
  ac_contact : list string;
  ac_directory_url : string;
}.
Definition ACME_PRODUCTION_URL : string := "https://acme-v02.api.letsencrypt.org/directory".
Definition ACME_STAGING_URL : string := "https://acme-staging-v02.api.letsencrypt.org/directory".
Definition acme_config (i : NodeIdentity) : option AcmeConfig :=
  email ← ni_acme_email i;
  Some (mkAcmeConfig ["mailto:" +:+ email]%string
          (if default false (ni_acme_staging i) then ACME_STAGING_URL else ACME_PRODUCTION_URL)).

(** * Actions *)

Record SecondaryConfig := mkSecondaryConfig {
  sc_expected_allocs : list AllocId;
  sc_node_id : NodeId;
  sc_mesh_ip : option IpAddr;
}.
Record PrimaryConfig := mkPrimaryConfig {
  pc_api_addr : SocketAddr;
  pc_auth_token : string;
  pc_rpc_token : string;
  pc_local_node_id : option NodeId;
  pc_volume_driver : option (string * string);
  pc_local_secondary : bool;
}.
Inductive Act :=
| ACommand (program : string) (args : list string) (stdin : option string)
| AWriteWgKey (private_key : string)
| ASaveClusterKey (k : ClusterKey)
| ALoadClusterKey
| ASaveIdentity (i : NodeIdentity)
| ALoadIdentity
| ARemoveIdentity
| AGet (path : string)
| APostJoin (req : JoinRequest)
| APostSse (path : string)
| ADelete (path : string)
| ASetPeer (id : Z) (url : string)
| AOpenRaft (id : Z)
| AInitialize
| APropose (cmd : Command)
| AStartSubsystems (acme : option AcmeConfig)
| ARunSecondary (cfg : SecondaryConfig)
| AStartPrimary (cfg : PrimaryConfig)
| ARaftListener (addr : SocketAddr)
| ARpcServer (addr : SocketAddr) (token : string)
| AWritePid
| AWaitSignal
| AShutdown
| ARemovePid
| AKill (pid : string).

(** A procedure: its result and the actions taken. *)
Definition Dm (A : Type) : Type := list Act → result A string * list Act.
#[global] Instance Dm_ret : MRet Dm := λ A a t, (Ok a, t).
#[global] Instance Dm_bind : MBind Dm := λ A B k m t,
  match m t with
  | (Ok a, t) => k a t
  | (Err e, t) => (Err e, t)
  end.
Definition fail {A} (e : string) : Dm A := λ t, (Err e, t).
Definition of_result {A} (r : result A string) : Dm A := λ t, (r, t).

Section daemon.
(** Which actions fail, by how many came before, and what a command prints. *)
Context `{HI : HashIter} (fails : nat → option string) (prints : nat → string).

Definition act (a : Act) : Dm unit := λ t,
  match fails (length t) with
  | None => (Ok tt, t ++ [a])
  | Some e => (Err e, t ++ [a])
  end.
(** An action whose failure is logged or ignored. *)
Definition attempt (a : Act) : Dm unit := λ t, (Ok tt, t ++ [a]).
(** [run_command] and [run_command_stdin] (wireguard/cmd.rs): the trimmed output. *)
Definition run_with (program : string) (args : list string) (stdin : option string) : Dm string := λ t,
  match fails (length t) with
  | None => (Ok (str_trim (prints (length t))), t ++ [ACommand program args stdin])
  | Some e => (Err e, t ++ [ACommand program args stdin])
  end.
Definition run_command (program : string) (args : list string) : Dm string := run_with program args None.
Definition run_command_stdin (program : string) (args : list string) (stdin : string) : Dm string := run_with program args (Some stdin).
Fixpoint each {A} (l : list A) (f : A → Dm unit) : Dm unit :=
  match l with
  | [] => mret tt
  | a :: l => _ ← f a; each l f
  end.

(** * The mesh interface (wireguard/mod.rs) *)

Record WireGuardIdentity := mkWireGuardIdentity {
  wg_public_key : string;
  wg_tunnel_ip : IpAddr;
}.
Definition generate_keypair : Dm (string * string) :=
  private_key ← run_command "wg" ["genkey"]%string;
  public_key ← run_command_stdin "wg" ["pubkey"]%string private_key;
  mret (private_key, public_key).
(** [stored] is what the key's file contains, if it exists. *)
Definition load_or_generate_keypair (stored : option string) : Dm (string * string) :=
  match stored with
  | Some s =>
      let private_key := str_trim s in
      public_key ← run_command_stdin "wg" ["pubkey"]%string private_key;
      mret (private_key, public_key)
  | None =>
      keys ← generate_keypair;
      _ ← act (AWriteWgKey (fst keys));
      mret keys
  end.
Definition add_subnet_route (iface subnet : string) : Dm unit :=
  attempt (ACommand "ip" ["route"; "add"; subnet; "dev"; iface]%string None).
Definition prepare_public_key (stored : option string) : Dm string :=
  keys ← load_or_generate_keypair stored;
  mret (snd keys).
(** [WireGuard::add_subnet_route]: the network of an address. *)
Definition add_network_route (iface : string) (tunnel_ip : IpAddr) (prefix_len : Z) : Dm unit :=
  add_subnet_route iface (show_ip (network_address tunnel_ip prefix_len) +:+ "/" +:+ pretty prefix_len)%string.
(** The interface, made anew with an address. *)
Definition wg_interface (iface : string) (port : Z) (private_key addr_cidr : string) : Dm unit :=
  _ ← attempt (ACommand "ip" ["link"; "del"; iface] None);
  _ ← run_command "ip" ["link"; "add"; iface; "type"; "wireguard"];
  _ ← run_command_stdin "wg" ["set"; iface; "private-key"; "/dev/stdin"; "listen-port"; pretty port] private_key;
  _ ← run_command "ip" ["addr"; "add"; addr_cidr; "dev"; iface];
  _ ← run_command "ip" ["link"; "set"; iface; "up"];
  mret tt%string.
Definition wg_init (iface : string) (port : Z) (subnet : string) (stored : option string) : Dm WireGuardIdentity :=
  '(private_key, public_key) ← load_or_generate_keypair stored;
  match parse_subnet_first_ip subnet with
  | None => fail ("invalid address: " +:+ subnet)
  | Some (tunnel_ip, prefix_len) =>
      _ ← wg_interface iface port private_key (show_ip tunnel_ip +:+ "/" +:+ pretty prefix_len);
      _ ← add_subnet_route iface subnet;
      mret (mkWireGuardIdentity public_key tunnel_ip)
  end%string.
Definition add_peer_args (iface : string) (peer : PeerInfo) : list string :=
  ["set"; iface; "peer"; pi_public_key peer] ++
  (match pi_endpoint peer with Some ep => ["endpoint"; show_sock ep] | None => [] end) ++
  ["allowed-ips"; show_ip (pi_tunnel_ip peer) +:+ "/32"]%string.
Definition add_peer (iface : string) (peer : PeerInfo) : Dm unit :=
  _ ← run_command "wg" (add_peer_args iface peer);
  mret tt.
Definition remove_peer (iface public_key : string) : Dm unit :=
  _ ← run_command "wg" ["set"; iface; "peer"; public_key; "remove"]%string;
  mret tt.
Definition wg_join (iface : string) (port : Z) (tunnel_ip : IpAddr) (prefix_len : Z) (peers : list PeerInfo) (stored : option string)
    : Dm WireGuardIdentity :=
  '(private_key, public_key) ← load_or_generate_keypair stored;
  _ ← wg_interface iface port private_key (show_ip tunnel_ip +:+ "/" +:+ pretty prefix_len)%string;
  _ ← each peers (add_peer iface);
  mret (mkWireGuardIdentity public_key tunnel_ip).
Definition teardown (iface : string) : Dm unit :=
  _ ← run_command "ip" ["link"; "del"; iface]%string;
  mret tt.

(** [list_peers]: the lines of [wg show <iface> dump] after the first. *)
Definition peer_line (line : string) : result (option PeerInfo) string :=
  match str_split (ascii_of_nat 9) line EmptyString with
  | public_key :: _ :: endpoint :: allowed_ips :: _ =>
      result_bind
        (if bool_decide (endpoint = "(none)") then Ok None
         else match parse_sock endpoint with Some a => Ok (Some a) | None => Err ("invalid address: " +:+ endpoint) end) (λ ep,
      match (cidr ← head (str_split ","%char allowed_ips EmptyString); ip ← head (str_split "/"%char cidr EmptyString); parse_ip ip) with
      | Some tunnel_ip => Ok (Some (mkPeerInfo (mkNodeId "") public_key ep tunnel_ip))
      | None => Err ("invalid address: " +:+ allowed_ips)
      end)
  | _ => Ok None
  end%string.
Fixpoint peer_lines (lines : list string) : result (list PeerInfo) string :=
  match lines with
  | [] => Ok []
  | line :: lines =>
      result_bind (peer_line line) (λ p,
      result_bind (peer_lines lines) (λ ps, Ok (match p with Some p => p :: ps | None => ps end)))
  end.
Definition list_peers (iface : string) : Dm (list PeerInfo) :=
  output ← run_command "wg" ["show"; iface; "dump"]%string;
  of_result (peer_lines (tail (str_lines output))).

(** * Starting, joining, restarting, leaving (daemon/mod.rs) *)

Definition WIREGUARD_INTERFACE : string := "mill0".
Definition WIREGUARD_SUBNET : string := "10.99.0.0/16".
Definition API_PORT : Z := 4400.
Definition RPC_PORT : Z := 4402.
Definition UNSPECIFIED : IpAddr := V4 0.

(** What the metadata service says, and the hardware. *)
Record CloudMetadata := mkCloudMetadata {
  cm_instance_id : option string;
  cm_region : option string;
}.
(** [detect_cloud_metadata]: the bodies of the two requests, if they succeed. *)
Definition detect_cloud_metadata (id_body region_body : option string) (provider : option string) : CloudMetadata :=
  if bool_decide (provider = Some "digitalocean"%string) then mkCloudMetadata (str_trim <$> id_body) (str_trim <$> region_body)
  else mkCloudMetadata None None.
Definition build_volume_driver (provider token region : option string) : option (string * string) :=
  if bool_decide (provider = Some "digitalocean"%string) then t ← token; r ← region; Some (t, r) else None.
Context (id_body region_body : option string) (resources : NodeResources) (random_id random_token random_key : string).
(** The mesh key's file, the identity's file and the cluster key's, as they are when the procedure starts. *)
Context (wg_key : option string) (identity_file : option NodeIdentity) (key_file : result ClusterKey string).

Definition run_until_signal : Dm unit :=
  _ ← attempt AWritePid;
  _ ← attempt AWaitSignal;
  _ ← attempt AShutdown;
  attempt ARemovePid.

Definition daemon_init (token advertise provider provider_token acme_email : option string) (acme_staging : bool) : Dm unit :=
  let node_id := random_id in
  let raft_id := 1 in
  let cluster_token := default random_token token in
  let advertise_addr := default "0.0.0.0"%string advertise in
  wg ← wg_init WIREGUARD_INTERFACE WIREGUARD_PORT WIREGUARD_SUBNET wg_key;
  _ ← act (ASaveClusterKey (mkClusterKey random_key));
  let identity := mkNodeIdentity node_id raft_id cluster_token API_PORT advertise_addr provider provider_token None WIREGUARD_SUBNET []
                    acme_email (if acme_staging then Some true else None) in
  _ ← act (ASaveIdentity identity);
  _ ← act (AOpenRaft raft_id);
  _ ← act AInitialize;
  _ ← act (AStartSubsystems (acme_config identity));
  let cloud := detect_cloud_metadata id_body region_body provider in
  _ ← (match cm_region cloud with Some r => act (ASaveIdentity (with_region (Some r) identity)) | None => mret tt end);
  _ ← act (APropose (NodeRegister raft_id (mkNodeId node_id) (SocketAddr_new (wg_tunnel_ip wg) API_PORT) resources
                       (Some (wg_public_key wg)) (cm_instance_id cloud) (Some (SocketAddr_new (wg_tunnel_ip wg) RPC_PORT)) (Some advertise_addr)));
  _ ← act (ARunSecondary (mkSecondaryConfig [] (mkNodeId node_id) (Some (wg_tunnel_ip wg))));
  _ ← act (AStartPrimary (mkPrimaryConfig (SocketAddr_new UNSPECIFIED API_PORT) cluster_token cluster_token (Some (mkNodeId node_id))
                            (build_volume_driver provider provider_token (cm_region cloud)) true));
  _ ← attempt (ARaftListener (SocketAddr_new (wg_tunnel_ip wg) (API_PORT + 1)));
  run_until_signal.

(** A peer of the cluster, as the mesh and the identity file have it. *)
Definition peer_of (p : JoinPeerInfo) : PeerInfo := mkPeerInfo (mkNodeId "") (jp_public_key p) (parse_sock (jp_endpoint p)) (jp_tunnel_ip p).
Definition entry_of (p : JoinPeerInfo) : PeerEntry := mkPeerEntry (jp_raft_id p) (jp_endpoint p) (jp_tunnel_ip p) (jp_public_key p).
Definition peer_of_entry (p : PeerEntry) : PeerInfo := mkPeerInfo (mkNodeId "") (pe_public_key p) (parse_sock (pe_advertise_addr p)) (pe_tunnel_ip p).
Definition raft_url (ip : IpAddr) (port : Z) : string := ("http://" +:+ show_ip ip +:+ ":" +:+ pretty port)%string.
Definition join_identity (node_id token advertise_addr : string) (provider provider_token acme_email : option string) (acme_staging : bool)
    (info : JoinInfoResponse) : NodeIdentity :=
  mkNodeIdentity node_id (ji_next_raft_id info) token API_PORT advertise_addr provider provider_token None (ji_subnet info)
    (entry_of <$> ji_peers info) acme_email (if acme_staging then Some true else None).
(** [info] and [key_bytes] are what the cluster answers. *)
Definition daemon_join (info : JoinInfoResponse) (key_bytes token : string) (advertise provider provider_token acme_email : option string)
    (acme_staging : bool) : Dm unit :=
  let advertise_addr := default "0.0.0.0"%string advertise in
  _ ← act (AGet "/v1/join-info");
  let node_id := random_id in
  let raft_id := ji_next_raft_id info in
  let tunnel_ip := ji_tunnel_ip info in
  wg ← wg_join WIREGUARD_INTERFACE WIREGUARD_PORT tunnel_ip (ji_prefix_len info) (peer_of <$> ji_peers info) wg_key;
  _ ← act (AGet "/v1/cluster-key");
  if negb (Z.of_nat (String.length key_bytes) =? 32) then fail ("cluster key: expected 32 bytes, got " +:+ pretty (Z.of_nat (String.length key_bytes)))
  else
    _ ← act (ASaveClusterKey (from_bytes key_bytes));
    let cloud := detect_cloud_metadata id_body region_body provider in
    let identity := join_identity node_id token advertise_addr provider provider_token acme_email acme_staging info in
    let identity := match cm_region cloud with Some r => with_region (Some r) identity | None => identity end in
    _ ← act (ASaveIdentity identity);
    _ ← each (ji_peers info) (λ p, attempt (ASetPeer (jp_raft_id p) (raft_url (jp_tunnel_ip p) (ji_api_port info + 1))));
    _ ← act (AOpenRaft raft_id);
    _ ← attempt (ARaftListener (SocketAddr_new tunnel_ip (API_PORT + 1)));
    _ ← act (APostJoin (mkJoinRequest node_id raft_id advertise_addr tunnel_ip (wg_public_key wg) resources (cm_instance_id cloud)
                          (Some (SocketAddr_new tunnel_ip RPC_PORT))));
    _ ← act (AStartSubsystems (acme_config identity));
    _ ← act (ARunSecondary (mkSecondaryConfig [] (mkNodeId node_id) (Some tunnel_ip)));
    _ ← act (AStartPrimary (mkPrimaryConfig (SocketAddr_new UNSPECIFIED API_PORT) token token (Some (mkNodeId node_id))
                              (build_volume_driver provider provider_token (cm_region cloud)) true));
    run_until_signal.

(** The allocations that should be running on a node, from its copy of the cluster's state. *)
Definition expected_allocs (f : FsmState) (node : NodeId) : list AllocId :=
  alloc_id <$> filterb (λ a, bool_decide (alloc_node a = node) && negb (is_terminal (alloc_status a))) (hm_values (allocs f)).
Definition start_from_existing (f : FsmState) : Dm unit :=
  _ ← act ALoadIdentity;
  match identity_file with
  | None => fail "i/o error"
  | Some identity =>
      wg ← wg_init WIREGUARD_INTERFACE WIREGUARD_PORT (ni_wireguard_subnet identity) wg_key;
      _ ← each (ni_peers identity) (λ p, attempt (ACommand "wg" (add_peer_args WIREGUARD_INTERFACE (peer_of_entry p)) None));
      _ ← act ALoadClusterKey;
      _ ← of_result key_file;
      _ ← each (ni_peers identity) (λ p, attempt (ASetPeer (pe_raft_id p) (raft_url (pe_tunnel_ip p) (API_PORT + 1))));
      _ ← act (AOpenRaft (ni_raft_id identity));
      _ ← act (AStartSubsystems (acme_config identity));
      _ ← act (ARunSecondary (mkSecondaryConfig (expected_allocs f (mkNodeId (ni_node_id identity))) (mkNodeId (ni_node_id identity))
                                (Some (wg_tunnel_ip wg))));
      _ ← attempt (ARpcServer (SocketAddr_new (wg_tunnel_ip wg) RPC_PORT) (ni_cluster_token identity));
      _ ← act (AStartPrimary (mkPrimaryConfig (SocketAddr_new UNSPECIFIED API_PORT) (ni_cluster_token identity) (ni_cluster_token identity)
                                None (build_volume_driver (ni_provider identity) (ni_provider_token identity) (ni_region identity)) false));
      _ ← attempt (ARaftListener (SocketAddr_new (wg_tunnel_ip wg) (API_PORT + 1)));
      run_until_signal
  end.
Definition boot (f : FsmState) : Dm unit :=
  match identity_file with
  | None => fail "internal error: No node.json found. Run `mill init` or `mill join` first."
  | Some _ => start_from_existing f
  end.

(** [stop_daemon] with what the pid file contains, if it can be read. *)
Definition stop_daemon (pid_file : option string) : Dm unit :=
  match pid_file with
  | None => mret tt
  | Some s => if str_is_empty (str_trim s) then mret tt else attempt (AKill (str_trim s))
  end.
Definition leave (pid_file : option string) : Dm unit :=
  _ ← act ALoadIdentity;
  match identity_file with
  | None => fail "i/o error"
  | Some identity =>
      _ ← act (APostSse ("/v1/nodes/" +:+ ni_node_id identity +:+ "/drain"));
      _ ← act (ADelete ("/v1/nodes/" +:+ ni_node_id identity));
      _ ← attempt (ACommand "ip" ["link"; "del"; WIREGUARD_INTERFACE] None);
      _ ← attempt ARemoveIdentity;
      stop_daemon pid_file
  end%string.
End daemon.

(** * Reasoning about procedures *)

(** [does m Q]: the result of [m] and the actions it takes satisfy [Q]. *)
Definition does {A} (m : Dm A) (Q : result A string → list Act → Prop) : Prop :=
  ∀ t, let '(r, t') := m t in ∃ s, t' = t ++ s ∧ Q r s.
(** Every action satisfies [p]. *)
Definition only {A} (p : Act → Prop) (m : Dm A) : Prop := does m (λ _ s, Forall p s).

Section does_lemmas.
Context (fails : nat → option string) (prints : nat → string).
Lemma does_ret {A} (a : A) Q : Q (Ok a) [] → does (mret a) Q.
Proof. intros HQ t. exists []. by rewrite app_nil_r. Qed.
Lemma does_bind {A B} (m : Dm A) (k : A → Dm B) Q :
  does m (λ r s, match r with Ok a => does (k a) (λ r' s', Q r' (s ++ s')) | Err e => Q (Err e) s end) → does (m ≫= k) Q.
Proof.
  intros Hm t. unfold mbind, Dm_bind. specialize (Hm t). destruct (m t) as [[a|e] t1]; destruct Hm as (s & -> & Hk); [|by exists s].
  specialize (Hk (t ++ s)). destruct (k a (t ++ s)) as [r t2]. destruct Hk as (s' & -> & HQ). exists (s ++ s'). by rewrite app_assoc.
Qed.
Lemma does_act a Q : (∀ r, Q r [a]) → does (act fails a) Q.
Proof. intros HQ t. unfold act. destruct (fails (length t)); by exists [a]. Qed.
Lemma does_attempt a Q : Q (Ok tt) [a] → does (attempt a) Q.
Proof. intros HQ t. by exists [a]. Qed.
Lemma does_run p args stdin Q : (∀ r, Q r [ACommand p args stdin]) → does (run_with fails prints p args stdin) Q.
Proof. intros HQ t. unfold run_with. destruct (fails (length t)); by eexists [_]. Qed.
Lemma does_fail {A} e (Q : result A string → list Act → Prop) : Q (Err e) [] → does (fail e) Q.
Proof. intros HQ t. exists []. by rewrite app_nil_r. Qed.
Lemma does_mono {A} (m : Dm A) (P Q : result A string → list Act → Prop) : does m P → (∀ r s, P r s → Q r s) → does m Q.
Proof. intros Hm HPQ t. specialize (Hm t). destruct (m t). destruct Hm as (s & ? & ?). eauto. Qed.

Context (p : Act → Prop).
Lemma only_ret {A} (a : A) : only p (mret a).
Proof. by apply does_ret. Qed.
Lemma only_bind {A B} (m : Dm A) (k : A → Dm B) : only p m → (∀ a, only p (k a)) → only p (m ≫= k).
Proof.
  intros Hm Hk. apply does_bind. eapply does_mono; [exact Hm|]. intros [a|e] s Hs; [|done].
  eapply does_mono; [apply Hk|]. intros r s' Hs'. by apply Forall_app.
Qed.
(** The same when what the first part returns is known. *)
Lemma only_bind_post {A B} (m : Dm A) (k : A → Dm B) (P : A → Prop) :
  does m (λ r s, Forall p s ∧ ∀ a, r = Ok a → P a) → (∀ a, P a → only p (k a)) → only p (m ≫= k).
Proof.
  intros Hm Hk. apply does_bind. eapply does_mono; [exact Hm|]. intros [a|e] s [Hs HP]; [|done].
  eapply does_mono; [by apply Hk, HP|]. intros r s' Hs'. by apply Forall_app.
Qed.
Lemma only_act a : p a → only p (act fails a).
Proof. intros. apply does_act. by repeat constructor. Qed.
Lemma only_attempt a : p a → only p (attempt a).
Proof. intros. apply does_attempt. by repeat constructor. Qed.
Lemma only_run prog args stdin : p (ACommand prog args stdin) → only p (run_with fails prints prog args stdin).
Proof. intros. apply does_run. by repeat constructor. Qed.
Lemma only_fail {A} e : only p (fail (A := A) e).
Proof. by apply does_fail. Qed.
Lemma only_result {A} (r : result A string) : only p (of_result r).
Proof. intros t. exists []. by rewrite app_nil_r. Qed.
Lemma only_each {A} (l : list A) f : (∀ a, a ∈ l → only p (f a)) → only p (each l f).
Proof.
  induction l as [|a l IH]; intros Hf; simpl; [apply only_ret|]. apply only_bind; [apply Hf; left|].
  intros _. apply IH. intros; apply Hf. by right.
Qed.
End does_lemmas.

Ltac only_step :=
  lazymatch goal with
  | |- only _ (act _ _) => apply only_act
  | |- only _ (attempt _) => apply only_attempt
  | |- only _ (run_with _ _ _ _ _) => apply only_run
  | |- only _ (run_command _ _ _ _) => apply only_run
  | |- only _ (run_command_stdin _ _ _ _ _) => apply only_run
  | |- only _ (mret _) => apply only_ret
  | |- only _ (fail _) => apply only_fail
  | |- only _ (of_result _) => apply only_result
  | |- only _ (each _ _) => apply only_each; intros ? ?
  | |- only _ (_ ≫= _) => apply only_bind; [|intros ?]
  end.
Ltac solve_only := repeat first [only_step | case_match | done | progress intros].

(** * Theorems *)

(** ** Restarting *)

(** The address that a command gives to an interface. *)
Definition addr_arg (args : list string) : option string :=
  match args with
  | [a; b; cidr; _; _] => if bool_decide (a = "addr") && bool_decide (b = "add") then Some cidr else None
  | _ => None
  end%string.
Definition first_ip : IpAddr := V4 174260225.
(** Everything of a node that has an address of the mesh has the given one. *)
Definition lives_at (ip : IpAddr) (a : Act) : Prop :=
  match a with
  | ACommand _ args _ => ∀ cidr, addr_arg args = Some cidr → cidr = (show_ip ip +:+ "/16")%string
  | ARpcServer addr _ => addr = SocketAddr_new ip RPC_PORT
  | ARunSecondary cfg => sc_mesh_ip cfg = Some ip
  | ARaftListener addr => addr = SocketAddr_new ip (API_PORT + 1)
  | _ => True
  end.
Definition reaches_peer (a : Act) : bool :=
  match a with
  | ACommand _ (x :: _ :: y :: _) _ => bool_decide (x = "set") && bool_decide (y = "peer")
  | ASetPeer _ _ => true
  | _ => false
  end%string.

Lemma no_addr prog args stdin ip : addr_arg args = None → lives_at ip (ACommand prog args stdin).
Proof. intros H cidr. by rewrite H. Qed.
Lemma add_peer_no_addr iface peer : addr_arg (add_peer_args iface peer) = None.
Proof. unfold add_peer_args. by destruct (pi_endpoint peer). Qed.
Lemma keypair_only fails prints p stored :
  p (ACommand "wg" ["genkey"] None)%string → (∀ s, p (ACommand "wg" ["pubkey"] (Some s)))%string → (∀ k, p (AWriteWgKey k)) →
  only p (load_or_generate_keypair fails prints stored).
Proof. intros. unfold load_or_generate_keypair, generate_keypair, run_command, run_command_stdin. solve_only. Qed.
(** What [wg_init] does with the cluster's subnet. *)
Lemma wg_init_first fails prints stored :
  does (wg_init fails prints WIREGUARD_INTERFACE WIREGUARD_PORT WIREGUARD_SUBNET stored)
    (λ r s, Forall (lives_at first_ip) s ∧ ∀ a, r = Ok a → wg_tunnel_ip a = first_ip).
Proof.
  unfold wg_init. apply does_bind. eapply does_mono; [apply (keypair_only _ _ (lives_at first_ip)); first [by apply no_addr|intros; by apply no_addr|done]|].
  intros [[priv pub]|e] s Hs; [|done]. replace (parse_subnet_first_ip WIREGUARD_SUBNET) with (Some (first_ip, 16)) by (vm_compute; reflexivity).
  assert (only (lives_at first_ip) (wg_interface fails prints WIREGUARD_INTERFACE WIREGUARD_PORT priv (show_ip first_ip +:+ "/" +:+ pretty 16)%string)) as Hi.
  { unfold wg_interface. solve_only; try by apply no_addr. intros cidr [= <-]. done. }
  apply does_bind. eapply does_mono; [exact Hi|]. intros [[]|e] s1 Hs1; [|by split; [apply Forall_app|]].
  apply does_bind, does_attempt, does_ret. split; [|by intros a [= <-]].
  rewrite !Forall_app. split_and!; [done|done| |done]. apply Forall_singleton. by apply no_addr.
Qed.

(** A node that joined and is restarted takes the first address of the mesh, whichever address it had: its interface,
    its server, its secondary and its raft listener are all set up at 10.99.0.1. *)
Theorem restart_takes_first_address `{HI : HashIter} fails prints wg_key key_file f state info node_id token adv prov ptok email staging r t :
  get_join_info state = Ok info →
  start_from_existing fails prints wg_key (Some (join_identity node_id token adv prov ptok email staging info)) key_file f [] = (r, t) →
  Forall (lives_at first_ip) t.
Proof.
  intros Hinfo Hrun. assert (ji_subnet info = WIREGUARD_SUBNET) as Hsub by (unfold get_join_info in Hinfo; by case_match; simplify_eq).
  assert (only (lives_at first_ip) (start_from_existing fails prints wg_key (Some (join_identity node_id token adv prov ptok email staging info)) key_file f)) as H.
  { unfold start_from_existing, run_until_signal. apply only_bind; [by apply only_act|]. intros _. simpl. rewrite Hsub.
    eapply only_bind_post; [apply wg_init_first|]. intros wg Hwg. rewrite Hwg. solve_only. apply no_addr, add_peer_no_addr. }
  specialize (H []). rewrite Hrun in H. by destruct H as (s & -> & ?).
Qed.

(** The first node of a cluster knows nobody after a restart: what it stored when it started names no peers, nothing
    updates it when nodes join, and so a restart adds no peer to the mesh and no address to the consensus network. *)
Theorem first_node_forgets_peers `{HI : HashIter} fails prints id_body region_body res rid rtok rkey wg_key token adv prov ptok email staging r t :
  daemon_init fails prints id_body region_body res rid rtok rkey wg_key token adv prov ptok email staging [] = (r, t) →
  ∀ i, ASaveIdentity i ∈ t →
  ni_peers i = [] ∧
  (∀ fails' prints' wg_key' key_file f r' t',
     start_from_existing fails' prints' wg_key' (Some i) key_file f [] = (r', t') → Forall (λ a, reaches_peer a = false) t').
Proof.
  intros Hrun i Hi. assert (ni_peers i = []) as Hp.
  { assert (only (λ a, match a with ASaveIdentity i => ni_peers i = [] | _ => True end)
      (daemon_init fails prints id_body region_body res rid rtok rkey wg_key token adv prov ptok email staging)) as H.
    { unfold daemon_init, run_until_signal, wg_init, load_or_generate_keypair, generate_keypair, wg_interface, add_subnet_route. solve_only. }
    specialize (H []). rewrite Hrun in H. destruct H as (s & -> & H). rewrite app_nil_l in Hi.
    exact (proj1 (Forall_forall _ _) H _ Hi). }
  split; [done|]. intros fails' prints' wg_key' key_file f r' t' Hrun'.
  assert (only (λ a, reaches_peer a = false) (start_from_existing fails' prints' wg_key' (Some i) key_file f)) as H.
  { unfold start_from_existing, run_until_signal, wg_init, load_or_generate_keypair, generate_keypair, wg_interface, add_subnet_route.
    rewrite Hp. simpl each. solve_only. }
  specialize (H []). rewrite Hrun' in H. by destruct H as (s & -> & ?).
Qed.

(** ** First runs *)

(** A node registers the address of its command server when it starts a cluster or joins one, but starts that server
    only when it is restarted: no action of a first run does. *)
Theorem first_run_has_no_server `{HI : HashIter} fails prints id_body region_body res rid rtok rkey wg_key :
  let p a := match a with
             | ARpcServer _ _ => False
             | APropose cmd => match cmd with NodeRegister _ _ _ _ _ _ rpc _ => ∃ ip, rpc = Some (SocketAddr_new ip RPC_PORT) | _ => False end
             | APostJoin req => jr_rpc_address req = Some (SocketAddr_new (jr_tunnel_ip req) RPC_PORT)
             | _ => True
             end in
  (∀ token adv prov ptok email staging,
     only p (daemon_init fails prints id_body region_body res rid rtok rkey wg_key token adv prov ptok email staging)) ∧
  (∀ info key token adv prov ptok email staging,
     only p (daemon_join fails prints id_body region_body res rid wg_key info key token adv prov ptok email staging)).
Proof.
  split; intros.
  - unfold daemon_init, run_until_signal, wg_init, load_or_generate_keypair, generate_keypair, wg_interface, add_subnet_route.
    solve_only. by eexists.
  - unfold daemon_join, run_until_signal, wg_join, add_peer, load_or_generate_keypair, generate_keypair, wg_interface. solve_only.
Qed.

(** ** Leaving *)

(** Leaving takes a node out of the cluster before it forgets who it is: the identity is removed and the daemon stopped
    only after the cluster has drained and removed the node, in this order; when one of these steps fails, the error is
    returned and the identity stays. *)
Theorem leave_order fails i pid_file :
  let '(r, t) := leave fails (Some i) pid_file [] in
  let drain := APostSse ("/v1/nodes/" +:+ ni_node_id i +:+ "/drain") in
  let del := ADelete ("/v1/nodes/" +:+ ni_node_id i) in
  t `prefix_of` [ALoadIdentity; drain; del; ACommand "ip" ["link"; "del"; WIREGUARD_INTERFACE] None; ARemoveIdentity] ++
                (match pid_file with Some s => if str_is_empty (str_trim s) then [] else [AKill (str_trim s)] | None => [] end) ∧
  (ARemoveIdentity ∈ t ↔ r = Ok tt) ∧ (r = Ok tt ↔ fails 0%nat = None ∧ fails 1%nat = None ∧ fails 2%nat = None).
Proof.
  unfold leave, act, attempt, mbind, Dm_bind. simpl.
  destruct (fails 0%nat) eqn:E0; simpl.
  { split_and!; [by apply prefix_cons, prefix_nil|rewrite list_elem_of_singleton; by split|by split; [|intros [? _]]]. }
  destruct (fails 1%nat) eqn:E1; simpl.
  { split_and!; [by do 2 apply prefix_cons; apply prefix_nil|rewrite !elem_of_cons, elem_of_nil; split; naive_solver|by split; [|intros (_ & ? & _)]]. }
  destruct (fails 2%nat) eqn:E2; simpl.
  { split_and!; [by do 3 apply prefix_cons; apply prefix_nil|rewrite !elem_of_cons, elem_of_nil; split; naive_solver|by split; [|intros (_ & _ & ?)]]. }
  unfold stop_daemon, attempt. destruct pid_file as [s|]; [destruct (str_is_empty (str_trim s))|]; simpl.
  all: split_and!; [done|rewrite !elem_of_cons; split; naive_solver|done].
Qed.

(** * Witnesses *)

Module DaemonExamples.
Import FsmExamples ReportExamples.
Definition ex_restart (i : NodeIdentity) : result unit string * list Act :=
  @start_from_existing stored_order (λ _, None) (λ _, ""%string) (Some "key"%string) (Some i) (Ok ex_key) (w_fsm task_world) [].
End DaemonExamples.
Import FsmExamples ReportExamples DaemonExamples.

Lemma restart_takes_first_address_witness :
  ∃ info r t, @get_join_info stored_order (w_fsm task_world) = Ok info ∧
    ex_restart (join_identity "n" "tok" "192.0.2.7" None None None false info) = (r, t) ∧ Forall (lives_at first_ip) t.
Proof.
  destruct (@get_join_info_ok stored_order (w_fsm task_world) task_world_small) as (info & E & _).
  destruct (ex_restart (join_identity "n" "tok" "192.0.2.7" None None None false info)) as [r t] eqn:Er. exists info, r, t.
  split; [exact E|]. split; [exact Er|].
  exact (@restart_takes_first_address stored_order _ _ _ _ _ _ _ _ _ _ _ _ _ _ _ _ E Er).
Defined.

Lemma first_node_forgets_peers_witness :
  ∃ t i, daemon_init (λ _, None) (λ _, ""%string) None None ex_res "id" "tok" "key" None None None None None None false [] = (Ok tt, t) ∧
    ASaveIdentity i ∈ t ∧ ni_peers i = [] ∧ Forall (λ a, reaches_peer a = false) (ex_restart i).2.
Proof.
  destruct (daemon_init (λ _, None) (λ _, ""%string) None None ex_res "id" "tok" "key" None None None None None None false [])
    as [r t] eqn:E.
  assert (r = Ok tt ∧ ∃ i, ASaveIdentity i ∈ t) as [-> [i Hi]].
  { vm_compute in E. injection E as <- <-. split; [reflexivity|]. eexists. do 10 right. left. }
  destruct (@first_node_forgets_peers stored_order _ _ _ _ _ _ _ _ _ _ _ _ _ _ _ _ _ E i Hi) as [Hp H].
  exists t, i. split; [reflexivity|]. split; [exact Hi|]. split; [exact Hp|].
  destruct (ex_restart i) as [r' t'] eqn:E'. apply (H _ _ _ _ _ _ _ E').
Defined.
