(* ===== verification/RaftNet.v ===== *)
(** The transport of raft's messages ([src/crates/raft/src/network/http.rs]): the table of peers, the four requests a node
    sends, and the handlers that answer them, over an HTTP network that is a parameter; and how the tables of the nodes
    of a cluster come about when nodes join ([node/src/primary/api/handlers.rs], [node/src/daemon/mod.rs]). openraft and
    its messages are parameters; so is serde's encoding of them. The theorems show that a request is answered by what the
    peer's raft answered or fails, and which peers a node knows. *)

From S2P Require Import Prelude Types Env Addr Fsm Rpc World Oci Api Daemon.
Local Open Scope Z_scope.

(** * The table of peers *)

Abbreviation HttpNetwork := (gmap Z string).
Inductive RaftNetError :=
| Unreachable (msg : string)
| NetworkError (msg : string).
Definition HttpNetwork_new : HttpNetwork := ∅.
Definition set_peer (id : Z) (base_url : string) (net : HttpNetwork) : HttpNetwork := <[id := base_url]> net.
Definition remove_raft_peer (id : Z) (net : HttpNetwork) : HttpNetwork := delete id net.
Definition get_peer_url (id : Z) (net : HttpNetwork) : result string RaftNetError :=
  match net !! id with
  | Some url => Ok url
  | None => Err (Unreachable ("node " +:+ pretty id +:+ " not in peer map"))
  end%string.

(** * Requests and handlers *)

Inductive RpcResponse (T : Type) :=
| RpcOk (v : T)
| RpcErr (msg : string).
Arguments RpcOk {T} v.
Arguments RpcErr {T} msg.

(** openraft's messages, with serde's encoding of each: a request's value, and a response's, if it can be encoded. *)
Class RaftMessages := {
  AppendRequest : Type; AppendResponse : Type;
  VoteReq : Type; VoteResp : Type;
  RaftVote : Type; SnapMeta : Type; SnapResponse : Type;
  enc_append : AppendRequest → JV; dec_append : JV → option AppendRequest;
  enc_vote : VoteReq → JV; dec_vote : JV → option VoteReq;
  enc_raft_vote : RaftVote → JV; dec_raft_vote : JV → option RaftVote;
  enc_meta : SnapMeta → JV; dec_meta : JV → option SnapMeta;
  enc_bytes : string → JV; dec_bytes : JV → option string;
  enc_append_resp : RpcResponse AppendResponse → option JV; dec_append_resp : JV → option (RpcResponse AppendResponse);
  enc_vote_resp : RpcResponse VoteResp → option JV; dec_vote_resp : JV → option (RpcResponse VoteResp);
  enc_snap_resp : RpcResponse SnapResponse → option JV; dec_snap_resp : JV → option (RpcResponse SnapResponse);
}.
(** What serde documents: values read back as they were written, and a variant of an internally tagged enum that holds a
    string cannot be written. *)
Class RaftMessagesLaws (R : RaftMessages) : Prop := {
  append_back : ∀ r, dec_append (enc_append r) = Some r;
  vote_back : ∀ r, dec_vote (enc_vote r) = Some r;
  raft_vote_back : ∀ v, dec_raft_vote (enc_raft_vote v) = Some v;
  meta_back : ∀ m, dec_meta (enc_meta m) = Some m;
  bytes_back : ∀ b, dec_bytes (enc_bytes b) = Some b;
  append_resp_back : ∀ v, ∃ j, enc_append_resp (RpcOk v) = Some j ∧ dec_append_resp j = Some (RpcOk v);
  vote_resp_back : ∀ v, ∃ j, enc_vote_resp (RpcOk v) = Some j ∧ dec_vote_resp j = Some (RpcOk v);
  snap_resp_back : ∀ v, ∃ j, enc_snap_resp (RpcOk v) = Some j ∧ dec_snap_resp j = Some (RpcOk v);
  no_string_variant : ∀ m, enc_append_resp (RpcErr m) = None ∧ enc_vote_resp (RpcErr m) = None ∧ enc_snap_resp (RpcErr m) = None;
}.

Section transport.
Context `{R : RaftMessages}.

(** The raft of a node. *)
Record RaftHandle := mkRaftHandle {
  rh_append : AppendRequest → result AppendResponse string;
  rh_vote : VoteReq → result VoteResp string;
  rh_install : RaftVote → SnapMeta → string → result SnapResponse string;
}.
Record FullSnapshotRequest := mkFullSnapshotRequest {
  fs_vote : RaftVote;
  fs_meta : SnapMeta;
  fs_data : string;
}.
Definition enc_full (r : FullSnapshotRequest) : JV :=
  VObj [("vote", enc_raft_vote (fs_vote r)); ("meta", enc_meta (fs_meta r)); ("data", enc_bytes (fs_data r))]%string.
(** Fields that the structure does not have are ignored. *)
Definition dec_full (j : JV) : option FullSnapshotRequest :=
  v ← jget "vote" j ≫= dec_raft_vote;
  m ← jget "meta" j ≫= dec_meta;
  d ← jget "data" j ≫= dec_bytes;
  Some (mkFullSnapshotRequest v m d).

Definition to_response {A} (r : result A string) : RpcResponse A := match r with Ok v => RpcOk v | Err e => RpcErr e end.
(** The handlers: the body of the response, if it is JSON. A request that cannot be decoded, and a response that cannot
    be encoded, are answered with a text. *)
Definition handle_append (raft : RaftHandle) (body : JV) : option JV :=
  rpc ← dec_append body; enc_append_resp (to_response (rh_append raft rpc)).
Definition handle_vote (raft : RaftHandle) (body : JV) : option JV :=
  rpc ← dec_vote body; enc_vote_resp (to_response (rh_vote raft rpc)).
Definition handle_snapshot (raft : RaftHandle) (body : JV) : option JV :=
  rpc ← dec_full body; enc_snap_resp (to_response (rh_install raft (fs_vote rpc) (fs_meta rpc) (fs_data rpc))).
Definition axum_router (raft : RaftHandle) (path : string) (body : JV) : option JV :=
  if bool_decide (path = "/raft/append"%string) then handle_append raft body
  else if bool_decide (path = "/raft/vote"%string) then handle_vote raft body
  else if bool_decide (path = "/raft/snapshot"%string) then handle_snapshot raft body
  else None.

(** The network: what a POST to a URL gives, a body (JSON or not) or an error. *)
Context (http_post : string → JV → result (option JV) string).

(** What the requests share. [wrap] makes the error of a failed exchange. *)
Definition rpc_call {A} (wrap : string → RaftNetError) (dec : JV → option (RpcResponse A)) (net : HttpNetwork) (target : Z)
    (path : string) (body : JV) : result A RaftNetError :=
  match get_peer_url target net with
  | Err e => Err e
  | Ok url =>
      match http_post (url +:+ path) body with
      | Err e => Err (wrap e)
      | Ok None => Err (wrap "error decoding response body")
      | Ok (Some j) =>
          match dec j with
          | None => Err (wrap "error decoding response body")
          | Some (RpcOk v) => Ok v
          | Some (RpcErr msg) => Err (wrap msg)
          end
      end
  end%string.
Definition append_entries (net : HttpNetwork) (target : Z) (rpc : AppendRequest) : result AppendResponse RaftNetError :=
  rpc_call NetworkError dec_append_resp net target "/raft/append" (enc_append rpc).
Definition vote (net : HttpNetwork) (target : Z) (rpc : VoteReq) : result VoteResp RaftNetError :=
  rpc_call NetworkError dec_vote_resp net target "/raft/vote" (enc_vote rpc).
Definition full_snapshot (net : HttpNetwork) (target : Z) (v : RaftVote) (meta : SnapMeta) (data : string) : result SnapResponse RaftNetError :=
  rpc_call Unreachable dec_snap_resp net target "/raft/snapshot" (enc_full (mkFullSnapshotRequest v meta data)).

(** [install_snapshot]: one chunk of a snapshot, at an offset; [done] marks the last. *)
Record InstallSnapshotRequest := mkInstallSnapshotRequest {
  is_vote : RaftVote;
  is_meta : SnapMeta;
  is_offset : Z;
  is_data : string;
  is_done : bool;
}.
Definition enc_install (r : InstallSnapshotRequest) : JV :=
  VObj [("vote", enc_raft_vote (is_vote r)); ("meta", enc_meta (is_meta r)); ("offset", VNum (is_offset r));
        ("data", enc_bytes (is_data r)); ("done", VBool (is_done r))]%string.
Definition install_snapshot_chunk (net : HttpNetwork) (target : Z) (rpc : InstallSnapshotRequest) : result SnapResponse RaftNetError :=
  rpc_call NetworkError dec_snap_resp net target "/raft/snapshot" (enc_install rpc).

(** * Theorems *)

Section answers.
Context `{!RaftMessagesLaws R} (net : HttpNetwork) (target : Z) (url : string) (raft : RaftHandle).
Hypothesis known : get_peer_url target net = Ok url.
(** The network delivers a request to the peer's router and its answer back, or fails. *)
Hypothesis delivers : ∀ path body, http_post (url +:+ path)%string body = Ok (axum_router raft path body) ∨ ∃ e, http_post (url +:+ path)%string body = Err e.

Lemma call_answer {A} wrap (dec : JV → option (RpcResponse A)) (enc : RpcResponse A → option JV) path body (r : result A string) :
  axum_router raft path body = enc (to_response r) →
  (∀ v, ∃ j, enc (RpcOk v) = Some j ∧ dec j = Some (RpcOk v)) → (∀ m, enc (RpcErr m) = None) →
  ∀ v, (rpc_call wrap dec net target path body = Ok v → r = Ok v) ∧
       (r = Ok v → rpc_call wrap dec net target path body = Ok v ∨
          ∃ e, http_post (url +:+ path)%string body = Err e ∧ rpc_call wrap dec net target path body = Err (wrap e)) ∧
       (∀ m, r = Err m → ∃ e, rpc_call wrap dec net target path body = Err (wrap e)).
Proof.
  intros Hr Hback Hno v. unfold rpc_call. rewrite known.
  destruct (delivers path body) as [Hd|[e Hd]]; rewrite Hd; [|by split_and!; [|right; eauto|eauto]].
  rewrite Hr. destruct r as [x|m]; simpl.
  - destruct (Hback x) as (j & -> & ->). split_and!; [by intros [= ->]|left; congruence|done].
  - rewrite Hno. split_and!; [done..|]. eauto.
Qed.

(** What a request of raft returns comes from the raft of the peer it was sent to: an answer is that raft's own answer,
    an answer of that raft arrives unless the exchange fails, and a refusal arrives as a network error. *)
Theorem raft_answers_are_peers :
  (∀ rpc v, append_entries net target rpc = Ok v → rh_append raft rpc = Ok v) ∧
  (∀ rpc v, vote net target rpc = Ok v → rh_vote raft rpc = Ok v) ∧
  (∀ vt meta data v, full_snapshot net target vt meta data = Ok v → rh_install raft vt meta data = Ok v) ∧
  (∀ rpc v, rh_append raft rpc = Ok v → append_entries net target rpc = Ok v ∨ ∃ e, append_entries net target rpc = Err (NetworkError e)) ∧
  (∀ rpc m, rh_append raft rpc = Err m → ∃ e, append_entries net target rpc = Err (NetworkError e)).
Proof.
  assert (∀ rpc, axum_router raft "/raft/append" (enc_append rpc) = enc_append_resp (to_response (rh_append raft rpc))) as Ha
    by (intros rpc; unfold axum_router, handle_append; simpl; by rewrite append_back).
  assert (∀ rpc, axum_router raft "/raft/vote" (enc_vote rpc) = enc_vote_resp (to_response (rh_vote raft rpc))) as Hv
    by (intros rpc; unfold axum_router, handle_vote; simpl; by rewrite vote_back).
  assert (∀ vt m d, axum_router raft "/raft/snapshot" (enc_full (mkFullSnapshotRequest vt m d)) = enc_snap_resp (to_response (rh_install raft vt m d))) as Hs
    by (intros vt m d; unfold axum_router, handle_snapshot, dec_full; simpl; by rewrite raft_vote_back, meta_back, bytes_back).
  split_and!.
  - intros rpc v. apply (call_answer NetworkError _ enc_append_resp _ _ _ (Ha rpc) append_resp_back (λ m, proj1 (no_string_variant m))).
  - intros rpc v. apply (call_answer NetworkError _ enc_vote_resp _ _ _ (Hv rpc) vote_resp_back (λ m, proj1 (proj2 (no_string_variant m)))).
  - intros vt m d v. apply (call_answer Unreachable _ enc_snap_resp _ _ _ (Hs vt m d) snap_resp_back (λ m, proj2 (proj2 (no_string_variant m)))).
  - intros rpc v Hok. destruct (call_answer NetworkError _ enc_append_resp _ _ _ (Ha rpc) append_resp_back (λ m, proj1 (no_string_variant m)) v)
      as (_ & [?|(e & _ & ?)] & _); eauto.
  - intros rpc m Hr. destruct (rh_append raft rpc) as [x|m'] eqn:Hx; [done|].
    destruct (delivers "/raft/append" (enc_append rpc)) as [Hd|[e Hd]]; unfold append_entries, rpc_call; rewrite known, Hd; [|eauto].
    rewrite Ha, Hx. simpl. rewrite (proj1 (no_string_variant m')). eauto.
Qed.

(** A chunk sent with [install_snapshot] is taken by the peer's handler for a whole snapshot, whatever its offset and
    whether or not it is the last: unknown fields are ignored. *)
Theorem chunk_installed_as_snapshot rpc v :
  install_snapshot_chunk net target rpc = Ok v → rh_install raft (is_vote rpc) (is_meta rpc) (is_data rpc) = Ok v.
Proof.
  apply (call_answer NetworkError _ enc_snap_resp _ _ (rh_install raft (is_vote rpc) (is_meta rpc) (is_data rpc)));
    [|apply snap_resp_back|intros m; apply no_string_variant].
  unfold axum_router, handle_snapshot, dec_full. simpl. by rewrite raft_vote_back, meta_back, bytes_back.
Qed.
End answers.
End transport.

(** * The tables of a cluster *)

(** A joining node puts the peers of its join information into its table (daemon [join]), a restarted one those of its
    identity file ([start_from_existing]); the node that handles the join adds the new one to its own ([post_join]). *)
Definition join_table (info : JoinInfoResponse) : HttpNetwork :=
  foldl (λ net p, set_peer (jp_raft_id p) (raft_url (jp_tunnel_ip p) (ji_api_port info + 1)) net) HttpNetwork_new (ji_peers info).
Definition restart_table (i : NodeIdentity) : HttpNetwork :=
  foldl (λ net p, set_peer (pe_raft_id p) (raft_url (pe_tunnel_ip p) (API_PORT + 1)) net) HttpNetwork_new (ni_peers i).
Definition joiner_url (b : JoinRequest) : string := ("http://" +:+ show_ip (jr_tunnel_ip b) +:+ ":4401")%string.

(** The replicated state and the table of each node; and, for each node since its process started, the peers it was told of then and
    the nodes whose join requests it handled. *)
Record Mesh := mkMesh {
  ms_fsm : FsmState;
  ms_tables : gmap Z HttpNetwork;
  ms_told : gmap Z (gset Z);
  ms_handled : gmap Z (gset Z);
}.
Definition table_of (i : Z) (s : Mesh) : HttpNetwork := default HttpNetwork_new (ms_tables s !! i).
Definition told (i : Z) (s : Mesh) : gset Z := default ∅ (ms_told s !! i).
Definition handled (i : Z) (s : Mesh) : gset Z := default ∅ (ms_handled s !! i).

Section mesh.
Context `{HI : HashIter}.
(** The process of node [i] starts with a table of what it was told. *)
Definition started (i : Z) (table : HttpNetwork) (peers : gset Z) (s : Mesh) : Mesh :=
  mkMesh (ms_fsm s) (<[i := table]> (ms_tables s)) (<[i := peers]> (ms_told s)) (<[i := ∅]> (ms_handled s)).
(** The steps of a cluster: a new node fetches its join information and starts ([join]); a node starts again from its identity file
    ([start_from_existing]); a node comes to step 2 of [post_join], whatever becomes of the steps after it; and the replicated state
    applies any command, registrations, removals and status changes among them. No step takes a peer out of a table. *)
Inductive mesh_step : Mesh → Mesh → Prop :=
| mesh_join s info i :
    get_join_info (ms_fsm s) = Ok info → mesh_step s (started i (join_table info) (dom (nodes (ms_fsm s))) s)
| mesh_restart s identity :
    mesh_step s (started (ni_raft_id identity) (restart_table identity) (list_to_set (pe_raft_id <$> ni_peers identity)) s)
| mesh_handle s i b :
    mesh_step s (mkMesh (ms_fsm s) (<[i := set_peer (jr_raft_id b) (joiner_url b) (table_of i s)]> (ms_tables s)) (ms_told s)
                   (<[i := handled i s ∪ {[ jr_raft_id b ]}]> (ms_handled s)))
| mesh_apply s cmd : mesh_step s (mkMesh (apply_command (ms_fsm s) cmd).1 (ms_tables s) (ms_told s) (ms_handled s)).
(** A cluster of one node that [init] started. *)
Definition mesh_init (f : FsmState) : Mesh := mkMesh f {[ 1 := HttpNetwork_new ]} ∅ ∅.

Definition mesh_inv (s : Mesh) : Prop :=
  fsm_wf (ms_fsm s) ∧ ∀ i j, is_Some (table_of i s !! j) ↔ j ∈ told i s ∨ j ∈ handled i s.

Lemma foldl_set_peer {A} (f : A → Z) (g : A → string) l (net : HttpNetwork) j :
  is_Some (foldl (λ net p, set_peer (f p) (g p) net) net l !! j) ↔ is_Some (net !! j) ∨ ∃ p, p ∈ l ∧ f p = j.
Proof.
  revert net. induction l as [|p l IH]; intros net; simpl; [set_solver|]. rewrite IH. unfold set_peer.
  destruct (decide (f p = j)) as [<-|Hne].
  - rewrite lookup_insert_eq. split; [intros _|intros _; left; eauto]. right. exists p. split; [left|done].
  - rewrite lookup_insert_ne by done. split; [intros [?|(q & ? & ?)]; [by left|right; exists q; by split; [right|]]|].
    intros [?|(q & [->|?]%elem_of_cons & ?)]; [by left|done|right; eauto].
Qed.
Lemma join_table_known f info j :
  fsm_wf f → get_join_info f = Ok info → is_Some (join_table info !! j) ↔ j ∈ dom (nodes f).
Proof.
  intros [Hwf _] Hinfo. unfold join_table. rewrite (foldl_set_peer jp_raft_id), elem_of_dom.
  unfold get_join_info in Hinfo. destruct (allocate_tunnel_ip _); [|done]. injection Hinfo as <-. cbn [ji_peers].
  unfold HttpNetwork_new. rewrite lookup_empty. split.
  - intros [[? [=]]|(p & Hp & Hj)]. apply list_elem_of_fmap in Hp as (n & -> & Hn%elem_of_hm_values). destruct Hn as (id & Hn).
    simpl in Hj. rewrite (Hwf id n Hn) in Hj. subst. eauto.
  - intros [n Hn]. right. exists (peer_info n). split; [apply list_elem_of_fmap; exists n; split; [done|apply elem_of_hm_values; eauto]|].
    simpl. by apply Hwf.
Qed.
Lemma restart_table_known identity j :
  is_Some (restart_table identity !! j) ↔ j ∈ (list_to_set (pe_raft_id <$> ni_peers identity) : gset Z).
Proof.
  unfold restart_table, HttpNetwork_new. rewrite (foldl_set_peer pe_raft_id), lookup_empty, elem_of_list_to_set, list_elem_of_fmap.
  split; [intros [[? [=]]|(p & ? & ?)]; eauto|intros (p & ? & ?); right; eauto].
Qed.
Lemma started_inv i table peers s :
  mesh_inv s → (∀ j, is_Some (table !! j) ↔ j ∈ peers) → mesh_inv (started i table peers s).
Proof.
  intros [Hwf Hinv] Ht. split; [done|]. intros k j. unfold table_of, told, handled, started. cbn [ms_tables ms_told ms_handled].
  destruct (decide (k = i)) as [->|]; [rewrite !lookup_insert_eq; simpl; rewrite Ht; set_solver|].
  rewrite !lookup_insert_ne by done. apply Hinv.
Qed.
Lemma mesh_inv_step s s' : mesh_inv s → mesh_step s s' → mesh_inv s'.
Proof.
  intros Hs. destruct 1 as [s info i Hinfo|s identity|s i b|s cmd].
  - apply started_inv; [done|]. intros j. by apply join_table_known; [apply Hs|].
  - apply started_inv; [done|]. apply restart_table_known.
  - destruct Hs as [Hwf Hinv]. split; [done|]. intros k j. pose proof (Hinv k j) as Hk. pose proof (Hinv i j) as Hi.
    revert Hk Hi. set (T := table_of i s). set (H := handled i s). unfold table_of, told, handled. cbn [ms_tables ms_told ms_handled]. intros Hk Hi.
    destruct (decide (k = i)) as [->|]; [|by rewrite !lookup_insert_ne by done].
    rewrite !lookup_insert_eq. simpl. unfold set_peer.
    destruct (decide (j = jr_raft_id b)) as [->|]; [rewrite lookup_insert_eq; set_solver|]. rewrite lookup_insert_ne by done. set_solver.
  - destruct Hs as [Hwf Hinv]. split; [by apply apply_command_wf|done].
Qed.
Lemma mesh_reachable_inv f s : fsm_wf f → rtc mesh_step (mesh_init f) s → mesh_inv s.
Proof.
  intros Hwf Hsteps. assert (mesh_inv (mesh_init f)) as Hinit.
  { split; [done|]. intros i j. unfold table_of, told, handled, mesh_init, HttpNetwork_new. cbn [ms_tables ms_told ms_handled]. rewrite !lookup_empty.
    destruct (decide (i = 1)) as [->|]; [rewrite lookup_singleton_eq|rewrite lookup_singleton_ne by done]; simpl; rewrite lookup_empty, is_Some_alt; set_solver. }
  revert Hinit. induction Hsteps as [|s1 s2 s3 Hst _ IH]; [done|]. intros Hi. by eapply IH, mesh_inv_step.
Qed.

End mesh.

(** * Examples *)

Module RaftNetExamples.
Import FsmExamples.
#[local] Instance unit_messages : RaftMessages := {|
  AppendRequest := unit; AppendResponse := unit; VoteReq := unit; VoteResp := unit; RaftVote := unit; SnapMeta := unit; SnapResponse := unit;
  enc_append := λ _, VNull; dec_append := λ _, Some tt; enc_vote := λ _, VNull; dec_vote := λ _, Some tt;
  enc_raft_vote := λ _, VNull; dec_raft_vote := λ _, Some tt; enc_meta := λ _, VNull; dec_meta := λ _, Some tt;
  enc_bytes := VStr; dec_bytes := as_str;
  enc_append_resp := λ r, match r with RpcOk _ => Some VNull | RpcErr _ => None end; dec_append_resp := λ _, Some (RpcOk tt);
  enc_vote_resp := λ r, match r with RpcOk _ => Some VNull | RpcErr _ => None end; dec_vote_resp := λ _, Some (RpcOk tt);
  enc_snap_resp := λ r, match r with RpcOk _ => Some VNull | RpcErr _ => None end; dec_snap_resp := λ _, Some (RpcOk tt);
|}.
#[local] Instance unit_messages_laws : RaftMessagesLaws unit_messages.
Proof. by split; simpl; try intros []; eauto. Qed.
Definition ex_peer_url : string := "http://10.99.0.2:4401".
Definition ex_raft : RaftHandle := mkRaftHandle (λ _, Ok tt) (λ _, Err "no"%string) (λ _ _ _, Ok tt).
Definition ex_post (url : string) (body : JV) : result (option JV) string :=
  match strip_prefix ex_peer_url url with Some path => Ok (axum_router ex_raft path body) | None => Err "unknown host"%string end.
Lemma ex_delivers path body : ex_post (ex_peer_url +:+ path)%string body = Ok (axum_router ex_raft path body).
Proof. unfold ex_post. assert (strip_prefix ex_peer_url (ex_peer_url +:+ path)%string = Some path) as ->; [by apply strip_prefix_Some|done]. Qed.

Lemma raft_answers_are_peers_witness :
  ∃ e, vote ex_post {[ 2 := ex_peer_url ]} 2 tt = Err (NetworkError e) ∧
       ∀ v, append_entries ex_post {[ 2 := ex_peer_url ]} 2 tt = Ok v → rh_append ex_raft tt = Ok v.
Proof.
  destruct (raft_answers_are_peers ex_post {[ 2 := ex_peer_url ]} 2 ex_peer_url ex_raft) as (Ha & _);
    [done|left; apply ex_delivers|]. eexists. split; [vm_compute; reflexivity|]. apply Ha.
Defined.

Definition one_node : FsmState :=
  (@apply_command stored_order FsmState_default (NodeRegister 1 (mkNodeId "n1") (SockV4 174260225 4400) ex_res None None None None)).1.
Definition ex_joiner (id : Z) (ip : Z) : JoinRequest := mkJoinRequest "n" id "192.0.2.7" (V4 ip) "pk" ex_res None None.
Lemma small_mesh f : (size (nodes f) < 10)%nat → (size (nodes f) < Z.to_nat 65533)%nat.
Proof. intros H. assert (10 ≤ Z.to_nat 65533)%nat by (apply Nat2Z.inj_le; rewrite Z2Nat.id; lia). lia. Qed.
Definition two_nodes : FsmState := (@apply_command stored_order one_node (join_register (ex_joiner 2 174260226))).1.
(** Nodes 2 and 3 join through node 1; node 2 cannot send to node 3. *)
Definition ex_register (id ip : Z) (s : Mesh) : Mesh :=
  mkMesh (@apply_command stored_order (ms_fsm s) (join_register (ex_joiner id ip))).1 (ms_tables s) (ms_told s) (ms_handled s).
Lemma ex_join_steps s id ip :
  (size (nodes (ms_fsm s)) < 10)%nat →
  ∃ info s', @get_join_info stored_order (ms_fsm s) = Ok info ∧ rtc (@mesh_step stored_order) s s' ∧
    s' = ex_register id ip (mkMesh (ms_fsm s) (<[1 := set_peer id (joiner_url (ex_joiner id ip)) (table_of 1 (started id (join_table info) (dom (nodes (ms_fsm s))) s))]>
           (<[id := join_table info]> (ms_tables s))) (<[id := dom (nodes (ms_fsm s))]> (ms_told s))
           (<[1 := handled 1 (started id (join_table info) (dom (nodes (ms_fsm s))) s) ∪ {[ id ]}]> (<[id := ∅]> (ms_handled s)))).
Proof.
  intros Hsize. destruct (@get_join_info_ok stored_order (ms_fsm s) (small_mesh _ Hsize)) as (info & Hinfo & _).
  exists info. eexists. split; [done|]. split; [|reflexivity].
  eapply rtc_l; [by apply (@mesh_join stored_order s info id)|].
  eapply rtc_l; [apply (@mesh_handle stored_order _ 1 (ex_joiner id ip))|]. apply rtc_once. apply (@mesh_apply stored_order).
Qed.
Lemma one_node_wf : fsm_wf one_node.
Proof. apply apply_command_wf. split; intros ??; simpl; by rewrite lookup_empty. Qed.
End RaftNetExamples.
