(* ===== verification/Host.v ===== *)
(** What a node reads about its host ([src/crates/node/src/secondary/metrics.rs]): memory and processors from the files
    under /proc, and the round of the collector that caches them with the containers' usage. Files and the runtime's
    answers are inputs. The theorem composes a round with the heartbeat that is built from the cache. *)

From S2P Require Import Prelude Types Env Rpc World Ports Secondary.
Local Open Scope Z_scope.

(** * The files under /proc *)

Definition KIB : Z := 1024.
Definition parse_meminfo_kb (s : string) : Z :=
  let s := str_trim s in
  default 0 (parse_u64 (str_trim (trim_end_matches (String.length s) "kB" s))).
(** One line of /proc/meminfo: the totals read so far. *)
Definition meminfo_line (acc : Z * Z) (line : string) : Z * Z :=
  match strip_prefix "MemTotal:" line with
  | Some rest => (parse_meminfo_kb rest, acc.2)
  | None =>
      match strip_prefix "MemAvailable:" line with
      | Some rest => (acc.1, parse_meminfo_kb rest)
      | None => acc
      end
  end.
(** [None] is a file that cannot be read. *)
Definition read_linux_memory (meminfo : option string) : Z * Z :=
  match meminfo with
  | None => (0, 0)
  | Some contents =>
      let '(total, available) := foldl meminfo_line (0, 0) (str_lines contents) in
      (wrap64 (total * KIB), wrap64 (available * KIB))
  end.
Definition is_core_line (l : string) : bool := starts_with "cpu" l && negb (starts_with "cpu " l).
Definition read_linux_cpu (stat : option string) : f64 :=
  match stat with
  | None => f64_zero
  | Some contents => f64_of_Z (Z.of_nat (length (filterb is_core_line (str_lines contents))))
  end.
Definition no_resources : NodeResources := mkNodeResources f64_zero f64_zero 0 0.
(** [linux] is the platform the program was compiled for. *)
Definition read_host_resources (linux : bool) (meminfo stat : option string) : NodeResources :=
  if linux then
    let mem := read_linux_memory meminfo in
    let cpu := read_linux_cpu stat in
    mkNodeResources cpu cpu mem.1 mem.2
  else no_resources.

(** * The collector *)

Record MetricsCollector := mkMetricsCollector {
  mc_cache : NodeResources * list ContainerStats;
  mc_prev_cpu : gmap AllocId (f64 * Z);
}.
Definition MetricsCollector_new : MetricsCollector := mkMetricsCollector (no_resources, []) ∅.
(** What a tick of the interval finds. *)
Record HostReading := mkHostReading {
  hr_meminfo : option string;
  hr_stat : option string;
  hr_stats : result (list ContainerStats) string;
  hr_now : Z;
}.
(** One tick of [run]. *)
Definition collect_metrics (linux : bool) (r : HostReading) (c : MetricsCollector) : MetricsCollector :=
  let resources := read_host_resources linux (hr_meminfo r) (hr_stat r) in
  let raw_stats := match hr_stats r with Ok l => l | Err _ => [] end in
  let '(prev_cpu, rate_stats) := compute_cpu_rates raw_stats (mc_prev_cpu c) (hr_now r) in
  mkMetricsCollector (resources, rate_stats) prev_cpu.
(** [run] until it is cancelled, over the readings of its ticks. *)
Definition run_collector (linux : bool) (readings : list HostReading) : MetricsCollector :=
  foldl (λ c r, collect_metrics linux r c) MetricsCollector_new readings.
Definition current (c : MetricsCollector) : NodeResources * list ContainerStats := mc_cache c.

(** * Lemmas *)

(** A line of /proc/meminfo. *)
Definition meminfo_entry (key : string) (pad : nat) (kb : Z) : string := (key +:+ spaces pad +:+ pretty kb +:+ " kB")%string.
Definition other_line (l : string) : Prop := strip_prefix "MemTotal:" l = None ∧ strip_prefix "MemAvailable:" l = None.

Lemma kB_plain : plain_ends "kB".
Proof. split; [eexists _, "B"%string|eexists _, "k"%string]; (split; [|reflexivity]); done. Qed.
Lemma strip_kB_space s : strip_suffix "kB" (s +:+ " ")%string = None.
Proof. unfold strip_suffix. rewrite str_rev_app. by generalize (String.rev s). Qed.
Lemma parse_meminfo_entry pad kb : 0 ≤ kb ≤ u64_max → parse_meminfo_kb (spaces pad +:+ pretty kb +:+ " kB")%string = kb.
Proof.
  intros Hkb. unfold parse_meminfo_kb. assert (plain_ends (pretty kb)) as Hp by (apply plain_ends_pretty; lia).
  pose proof (str_trim_spaces pad 0 (pretty kb +:+ " " +:+ "kB")%string (plain_ends_glue _ _ _ Hp kB_plain)) as Ht.
  cbn [spaces] in Ht. rewrite str_app_nil_r in Ht. change (" " +:+ "kB")%string with " kB"%string in Ht. rewrite Ht.
  rewrite str_length_app, Nat.add_comm. change (String.length " kB") with 3%nat. cbn [plus trim_end_matches].
  assert (strip_suffix "kB" (pretty kb +:+ " kB")%string = Some (pretty kb +:+ " ")%string) as ->.
  { apply strip_suffix_Some. by rewrite str_app_assoc. }
  rewrite strip_kB_space. pose proof (str_trim_spaces 0 1 (pretty kb) Hp) as Ht'.
  cbn [spaces] in Ht'. rewrite str_app_nil_l, str_app_nil_r in Ht'. by rewrite Ht', parse_u64_pretty.
Qed.
Lemma meminfo_other ls acc : Forall other_line ls → foldl meminfo_line acc ls = acc.
Proof. induction 1 as [|l ls [H1 H2] _ IH]; [done|]. cbn [foldl]. unfold meminfo_line at 2. by rewrite H1, H2. Qed.
Lemma meminfo_total acc pad kb : 0 ≤ kb ≤ u64_max → meminfo_line acc (meminfo_entry "MemTotal:" pad kb) = (kb, acc.2).
Proof.
  intros Hkb. unfold meminfo_line, meminfo_entry. rewrite (proj2 (strip_prefix_Some _ _ _) eq_refl). by rewrite parse_meminfo_entry.
Qed.
Lemma meminfo_available acc pad kb : 0 ≤ kb ≤ u64_max → meminfo_line acc (meminfo_entry "MemAvailable:" pad kb) = (acc.1, kb).
Proof.
  intros Hkb. unfold meminfo_line, meminfo_entry. rewrite (proj2 (strip_prefix_Some "MemAvailable:" _ _) eq_refl).
  rewrite parse_meminfo_entry by done. by case_eq (strip_prefix "MemTotal:" ("MemAvailable:" +:+ spaces pad +:+ pretty kb +:+ " kB")%string).
Qed.
Lemma pretty_no_newline z : 0 ≤ z → str_has newline (pretty z) = false.
Proof.
  intros Hz. destruct (pretty_digits z Hz) as (d & ds & -> & Hds & _). induction Hds as [|e es He _ IH]; [done|].
  cbn [digits_str foldr str_has]. fold (digits_str es). rewrite IH, orb_false_r. apply bool_decide_eq_false. intros Heq.
  pose proof (digit_char_plain e He) as Hpl. by rewrite Heq in Hpl.
Qed.
Lemma meminfo_entry_plain key pad kb : 0 ≤ kb → str_has newline key = false → plain_line (meminfo_entry key pad kb).
Proof.
  intros Hkb Hkey. unfold meminfo_entry. split.
  - rewrite !str_has_app, Hkey, pretty_no_newline by done. induction pad as [|pad IH]; [done|]. exact IH.
  - unfold strip_cr, strip_suffix. rewrite <-!str_app_assoc, str_rev_app. by generalize (String.rev ((key +:+ spaces pad) +:+ pretty kb)).
Qed.
Lemma filterb_none {A} (p : A → bool) l : Forall (λ x, p x = false) l → filterb p l = [].
Proof. induction 1 as [|x l Hx _ IH]; [done|]. simpl. by rewrite Hx. Qed.
Lemma filterb_all {A} (p : A → bool) l : Forall (λ x, p x = true) l → filterb p l = l.
Proof. induction 1 as [|x l Hx _ IH]; [done|]. simpl. by rewrite Hx, IH. Qed.

(** What a Linux kernel writes: the totals among other lines of /proc/meminfo, and in /proc/stat a line for all
    processors, one for each, and others. *)
Record linux_meminfo (t a : Z) (contents : string) : Prop := {
  lm_lines : ∃ pre pad mid pad' post,
    contents = text_lines (pre ++ meminfo_entry "MemTotal:" pad t :: mid ++ meminfo_entry "MemAvailable:" pad' a :: post) ∧
    Forall plain_line (pre ++ mid ++ post) ∧ Forall other_line (pre ++ mid ++ post);
  lm_total : 0 ≤ t < 2 ^ 54;
  lm_available : 0 ≤ a < 2 ^ 54;
}.
Record linux_stat (cores : nat) (contents : string) : Prop := {
  ls_lines : ∃ total each rest,
    contents = text_lines (("cpu " +:+ total)%string :: each ++ rest) ∧ length each = cores ∧
    Forall plain_line (("cpu " +:+ total)%string :: each ++ rest) ∧
    Forall (λ l, is_core_line l = true) each ∧ Forall (λ l, starts_with "cpu" l = false) rest;
}.
Lemma linux_memory_read t a contents : linux_meminfo t a contents → read_linux_memory (Some contents) = (t * KIB, a * KIB).
Proof.
  intros [(pre & pad & mid & pad' & post & -> & Hplain & Hother) Ht Ha].
  rewrite !Forall_app in Hplain, Hother. destruct Hplain as (Hp1 & Hp2 & Hp3), Hother as (Ho1 & Ho2 & Ho3).
  unfold read_linux_memory. rewrite str_lines_text.
  - rewrite foldl_app, (meminfo_other pre) by done. cbn [foldl]. rewrite meminfo_total by (unfold u64_max; lia).
    rewrite foldl_app, (meminfo_other mid) by done. cbn [foldl]. rewrite meminfo_available by (unfold u64_max; lia).
    rewrite meminfo_other by done. cbn [fst snd]. unfold KIB. by rewrite !wrap64_small by (unfold u64_max; lia).
  - apply Forall_app. split; [done|]. constructor; [apply meminfo_entry_plain; [lia|reflexivity]|].
    apply Forall_app. split; [done|]. constructor; [apply meminfo_entry_plain; [lia|reflexivity]|done].
Qed.
Lemma linux_cpu_read cores contents : linux_stat cores contents → read_linux_cpu (Some contents) = f64_of_Z (Z.of_nat cores).
Proof.
  intros [(total & each & rest & -> & <- & Hplain & Heach & Hrest)]. unfold read_linux_cpu. rewrite str_lines_text by done.
  cbn [filterb]. assert (is_core_line ("cpu " +:+ total) = false) as ->.
  { unfold is_core_line. apply andb_false_iff. right. apply negb_false_iff, starts_with_true. by eexists. }
  rewrite filterb_app, (filterb_all _ each), (filterb_none _ rest), app_nil_r; [done| |done].
  apply (Forall_impl _ _ _ Hrest). intros l Hl. unfold is_core_line. by rewrite Hl.
Qed.

(** * Theorems *)

(** On a Linux host whose /proc/meminfo gives [t] and [a] kilobytes of total and available memory and whose /proc/stat lists
    [cores] processors, the cache after a tick has exactly these, in bytes; and the heartbeat built from it announces that
    many processors, all of the memory, and as available what the node's allocations do not reserve, whatever the host's
    own figure says. *)
Theorem heartbeat_from_host `{HashIter} readings r meminfo stat t a cores node m :
  hr_meminfo r = Some meminfo → hr_stat r = Some stat → linux_meminfo t a meminfo → linux_stat cores stat →
  let metrics := current (run_collector true (readings ++ [r])) in
  let hb := heartbeat node metrics m in
  metrics.1 = mkNodeResources (f64_of_Z (Z.of_nat cores)) (f64_of_Z (Z.of_nat cores)) (t * 1024) (a * 1024) ∧
  cpu_total (hb_resources hb) = f64_of_Z (Z.of_nat cores) ∧
  memory_total (hb_resources hb) = t * 1024 ∧
  memory_available (hb_resources hb) = Z.max 0 (t * 1024 - total_reserved_memory m).
Proof.
  intros Hmem Hstat Ht Hc. cbn zeta. unfold run_collector. rewrite foldl_snoc. unfold collect_metrics.
  rewrite Hmem, Hstat. unfold read_host_resources. rewrite (linux_memory_read t a), (linux_cpu_read cores) by done.
  by destruct (compute_cpu_rates _ _ _) as [prev stats].
Qed.

(** * Witnesses *)

Definition host_meminfo : string :=
  text_lines [meminfo_entry "MemTotal:" 7 16384; meminfo_entry "MemFree:" 7 100; meminfo_entry "MemAvailable:" 4 8192].
Definition host_stat : string := text_lines ["cpu  10 0 3 4"; "cpu0 5 0 1 2"; "cpu1 5 0 2 2"; "intr 42"].
Lemma heartbeat_from_host_witness :
  memory_total (hb_resources (@heartbeat stored_order (mkNodeId "n")
    (current (run_collector true [mkHostReading (Some host_meminfo) (Some host_stat) (Ok []) 0])) ∅)) = 16777216.
Proof.
  refine (proj1 (proj2 (proj2 (@heartbeat_from_host stored_order [] (mkHostReading (Some host_meminfo) (Some host_stat) (Ok []) 0)
    host_meminfo host_stat 16384 8192 2 (mkNodeId "n") ∅ eq_refl eq_refl _ _)))).
  - constructor; [|lia|lia]. exists [], 7%nat, [meminfo_entry "MemFree:" 7 100], 4%nat, []. split_and!; [reflexivity| |];
      repeat constructor.
  - constructor. exists " 10 0 3 4"%string, ["cpu0 5 0 1 2"; "cpu1 5 0 2 2"]%string, ["intr 42"]%string.
    split_and!; [reflexivity|reflexivity| | |]; repeat constructor.
Defined.
