(* ===== verification/Sse.v ===== *)
(** The client's reader of server-sent events ([src/crates/cli/src/client/sse.rs]): lines are cut out of the chunks of a response
    as they arrive, and collected into events. The theorems show that the events do not depend on how valid UTF-8 text
    is cut into chunks, that what the server writes is read back, and that a chunk that ends inside a character changes
    the text. *)

From S2P Require Import Prelude Types Oci Deploy Api.
Local Open Scope Z_scope.

(** * Lossy text (String::from_utf8_lossy) *)

(** The replacement character. *)
Definition REPLACEMENT : string := bytes_str [239; 191; 189]%nat.
Fixpoint lossy_go (fuel : nat) (s : string) : string :=
  match fuel with
  | O => EmptyString
  | S fuel =>
      match utf8_sequence s with
      | None => EmptyString
      | Some (inl len) => str_take len s +:+ lossy_go fuel (str_drop len s)
      | Some (inr (Some bad)) => REPLACEMENT +:+ lossy_go fuel (str_drop bad s)
      | Some (inr None) => REPLACEMENT
      end
  end%string.
Definition from_utf8_lossy (s : string) : string := lossy_go (String.length s) s.

(** * The stream (sse.rs) *)

Record SseEvent := mkSseEvent {
  se_event : option string;
  se_data : string;
}.
(** The chunks that are still to come, how the response ends ([Some e]: with an error of the connection), the buffer, and the
    fields of the event being read. *)
Record SseStream := mkSseStream {
  ss_chunks : list string;
  ss_end : option string;
  ss_buf : string;
  ss_current_event : option string;
  ss_current_data : list string;
}.
Definition SseStream_new (chunks : list string) (ends : option string) : SseStream := mkSseStream chunks ends "" None [].

Abbreviation SseFields := (option string * list string)%type.
Definition carriage_return : string := bytes_str [13]%nat.
(** A line that is complete: an event, if it ends one, and the fields from then on. *)
Definition feed_line (line : string) (st : SseFields) : option SseEvent * SseFields :=
  let '(event, data) := st in
  if str_is_empty line then
    match data with
    | [] => (None, st)
    | _ => (Some (mkSseEvent event (str_join nl data)), (None, []))
    end
  else
    match strip_prefix "event:" line with
    | Some rest => (None, (Some (str_trim rest), data))
    | None =>
        match strip_prefix "data:" line with
        | Some rest => (None, (event, data ++ [str_trim rest]))
        | None => (None, st)
        end
    end.
(** [process_buffered_lines]: each turn takes a newline out of the buffer, so its length is enough fuel. *)
Fixpoint process_go (fuel : nat) (buf : string) (st : SseFields) : option SseEvent * (string * SseFields) :=
  match fuel with
  | O => (None, (buf, st))
  | S fuel =>
      match split_once newline buf with
      | None => (None, (buf, st))
      | Some (line, rest) =>
          match feed_line (trim_end_matches (String.length line) carriage_return line) st with
          | (Some e, st) => (Some e, (rest, st))
          | (None, st) => process_go fuel rest st
          end
      end
  end.
Definition process_buffered_lines (buf : string) (st : SseFields) : option SseEvent * (string * SseFields) :=
  process_go (String.length buf) buf st.
(** [next_event], over the chunks that are still to come. *)
Fixpoint next_event_go (chunks : list string) (ends : option string) (buf : string) (st : SseFields)
    : result (option SseEvent) string * SseStream :=
  match process_buffered_lines buf st with
  | (Some e, (buf, (event, data))) => (Ok (Some e), mkSseStream chunks ends buf event data)
  | (None, (buf, (event, data))) =>
      match chunks with
      | c :: chunks => next_event_go chunks ends (buf +:+ from_utf8_lossy c)%string (event, data)
      | [] =>
          match ends with
          | Some e => (Err e, mkSseStream [] ends buf event data)
          | None =>
              match data with
              | [] => (Ok None, mkSseStream [] ends buf event data)
              | _ => (Ok (Some (mkSseEvent event (str_join nl data))), mkSseStream [] ends buf None [])
              end
          end
      end
  end.
Definition next_event (s : SseStream) : result (option SseEvent) string * SseStream :=
  next_event_go (ss_chunks s) (ss_end s) (ss_buf s) (ss_current_event s, ss_current_data s).

(** * What a stream says *)

(** The lines of a text, each ended by a newline. *)
Fixpoint cut_lines (text cur : string) : list string :=
  match text with
  | EmptyString => []
  | String c text => if decide (c = newline) then String.rev cur :: cut_lines text "" else cut_lines text (String c cur)
  end.
Fixpoint lines_events (ls : list string) (st : SseFields) : list SseEvent * SseFields :=
  match ls with
  | [] => ([], st)
  | l :: ls =>
      let '(e, st) := feed_line (trim_end_matches (String.length l) carriage_return l) st in
      let '(es, st) := lines_events ls st in
      (match e with Some e => e :: es | None => es end, st)
  end.
(** The events of a whole text; an event that is not ended is lost when the connection breaks. *)
Definition text_events (text : string) (ends : option string) (st : SseFields) : list SseEvent :=
  let '(es, (event, data)) := lines_events (cut_lines text "") st in
  es ++ match ends, data with None, _ :: _ => [mkSseEvent event (str_join nl data)] | _, _ => [] end.
Definition concat_str (l : list string) : string := foldr String.append EmptyString l.
Definition stream_events (s : SseStream) : list SseEvent :=
  text_events (ss_buf s +:+ concat_str (from_utf8_lossy <$> ss_chunks s))%string (ss_end s) (ss_current_event s, ss_current_data s).

(** * Lemmas *)

Lemma split_once_None c s : split_once c s = None → str_has c s = false.
Proof.
  induction s as [|d s IH]; [done|]. cbn [split_once str_has]. case_decide as Hd; [done|].
  rewrite bool_decide_eq_false_2 by done. destruct (split_once c s) as [[]|]; [done|]. by intros _; apply IH.
Qed.
Lemma split_once_Some c s l r : split_once c s = Some (l, r) → s = (l +:+ String c r)%string ∧ str_has c l = false.
Proof.
  revert l. induction s as [|d s IH]; intros l; [done|]. cbn [split_once]. case_decide as Hd.
  - intros [= <- <-]. by subst.
  - destruct (split_once c s) as [[l' r']|]; [|done]. intros [= <- <-]. destruct (IH l' eq_refl) as [-> Hl'].
    cbn [str_has]. by rewrite bool_decide_eq_false_2.
Qed.
Lemma cut_lines_line l t cur :
  str_has newline l = false → cut_lines (l +:+ String newline t)%string cur = (String.rev cur +:+ l)%string :: cut_lines t "".
Proof.
  revert cur. induction l as [|c l IH]; intros cur Hl.
  - rewrite str_app_nil_l, str_app_nil_r. cbn [cut_lines]. by rewrite decide_True.
  - cbn [str_has] in Hl. apply orb_false_iff in Hl as [Hc Hl]. rewrite bool_decide_eq_false in Hc.
    rewrite str_app_cons. cbn [cut_lines]. rewrite decide_False, IH by done. by rewrite str_rev_cons, str_app_assoc.
Qed.
Lemma cut_lines_rest l cur : str_has newline l = false → cut_lines l cur = [].
Proof.
  revert cur. induction l as [|c l IH]; intros cur Hl; [done|]. cbn [str_has] in Hl. apply orb_false_iff in Hl as [Hc Hl].
  rewrite bool_decide_eq_false in Hc. cbn [cut_lines]. by rewrite decide_False, IH.
Qed.
Lemma text_events_line l t ends st :
  str_has newline l = false →
  text_events (l +:+ String newline t)%string ends st =
  let '(e, st) := feed_line (trim_end_matches (String.length l) carriage_return l) st in
  match e with Some e => e :: text_events t ends st | None => text_events t ends st end.
Proof.
  intros Hl. unfold text_events. rewrite cut_lines_line by done. change (String.rev "" +:+ l)%string with l. cbn [lines_events].
  destruct (feed_line _ _) as [e st']. destruct (lines_events (cut_lines t "") st') as [es [event data]]. by destruct e.
Qed.
Lemma process_go_spec n buf st e buf' st' t ends :
  (String.length buf ≤ n)%nat → process_go n buf st = (e, (buf', st')) →
  text_events (buf +:+ t)%string ends st = match e with Some e => [e] | None => [] end ++ text_events (buf' +:+ t)%string ends st' ∧
  (e = None → str_has newline buf' = false).
Proof.
  revert buf st. induction n as [|n IH]; intros buf st Hn.
  { destruct buf; [|simpl in Hn; lia]. intros [= <- <- <-]. done. }
  cbn [process_go]. destruct (split_once newline buf) as [[l r]|] eqn:Hs.
  - apply split_once_Some in Hs as [-> Hl]. rewrite str_length_app in Hn. simpl in Hn.
    rewrite str_app_assoc, str_app_cons, text_events_line by done.
    destruct (feed_line _ st) as [[e'|] st''] eqn:Hf.
    + intros [= <- <- <-]. done.
    + intros Hgo. destruct (IH r st'' ltac:(lia) Hgo) as [-> HNone]. done.
  - intros [= <- <- <-]. split; [done|]. intros _. by apply split_once_None.
Qed.
Lemma next_event_go_spec chunks ends buf st :
  match text_events (buf +:+ concat_str (from_utf8_lossy <$> chunks))%string ends st with
  | [] => (next_event_go chunks ends buf st).1 = match ends with Some e => Err e | None => Ok None end
  | e :: es =>
      (next_event_go chunks ends buf st).1 = Ok (Some e) ∧ stream_events (next_event_go chunks ends buf st).2 = es ∧
      ss_end (next_event_go chunks ends buf st).2 = ends
  end.
Proof.
  revert buf st. induction chunks as [|c chunks IH]; intros buf st; cbn [next_event_go]; unfold process_buffered_lines;
    destruct (process_go (String.length buf) buf st) as [e [buf' [event data]]] eqn:Hp.
  - destruct (process_go_spec _ _ _ _ _ _ (concat_str (from_utf8_lossy <$> [])) ends (le_n _) Hp) as [-> Hnone].
    destruct e as [e|]; [done|]. cbn [concat_str foldr fmap list_fmap app]. rewrite str_app_nil_r. unfold text_events.
    rewrite cut_lines_rest by auto. cbn [lines_events app].
    destruct ends as [e|]; [done|]. destruct data as [|d data]; [done|]. split_and!; [done| |done].
    unfold stream_events, text_events. cbn. by rewrite str_app_nil_r, cut_lines_rest by auto.
  - destruct (process_go_spec _ _ _ _ _ _ (concat_str (from_utf8_lossy <$> (c :: chunks))) ends (le_n _) Hp) as [-> Hnone].
    destruct e as [e|]; [done|]. cbn [concat_str foldr fmap list_fmap app]. rewrite <-str_app_assoc.
    exact (IH (buf' +:+ from_utf8_lossy c)%string (event, data)).
Qed.
(** An event of a stream takes it one event further; the end is told apart from a broken connection. *)
Lemma next_event_spec s :
  match stream_events s with
  | [] => (next_event s).1 = match ss_end s with Some e => Err e | None => Ok None end
  | e :: es => (next_event s).1 = Ok (Some e) ∧ stream_events (next_event s).2 = es ∧ ss_end (next_event s).2 = ss_end s
  end.
Proof. apply next_event_go_spec. Qed.

(** ** Valid text *)

Lemma utf8_check_pos fuel pos pos' s : utf8_check fuel pos s = None → utf8_check fuel pos' s = None.
Proof.
  revert pos pos' s. induction fuel as [|fuel IH]; intros pos pos' s; [done|]. cbn [utf8_check].
  destruct (utf8_sequence s) as [[len|]|]; [apply IH|done|done].
Qed.
Lemma utf8_head_len c len r : utf8_head c = Some (len, r) → (1 ≤ len)%nat.
Proof. unfold utf8_head. intros H. repeat case_match; simplify_eq; lia. Qed.
Lemma utf8_sequence_len s len : utf8_sequence s = Some (inl len) → (1 ≤ len)%nat ∧ (1 ≤ String.length s)%nat.
Proof.
  destruct s as [|c s]; [done|]. cbn [utf8_sequence]. intros H. split; [|simpl; lia].
  destruct (utf8_head c) as [[n [lo hi]]|] eqn:Hh; [|done]. apply utf8_head_len in Hh.
  destruct n as [|[|n]]; [lia|by simplify_eq|].
  destruct s as [|d s]; [done|]. destruct (in_range lo hi d); [|done]. destruct (utf8_conts _ _ _); simplify_eq. lia.
Qed.
Lemma str_drop_length n s : String.length (str_drop n s) = (String.length s - n)%nat.
Proof. revert s. induction n as [|n IH]; intros [|a s]; try done. apply IH. Qed.
Lemma lossy_valid_go fuel fuel' s :
  (String.length s ≤ fuel)%nat → (String.length s < fuel')%nat → utf8_check fuel' 0 s = None → lossy_go fuel s = s.
Proof.
  revert fuel' s. induction fuel as [|fuel IH]; intros fuel' s Hf Hf'.
  { destruct s; [done|simpl in Hf; lia]. }
  destruct fuel' as [|fuel']; [lia|]. cbn [utf8_check lossy_go].
  destruct (utf8_sequence s) as [[len|]|] eqn:Hs; [|done|].
  - apply utf8_sequence_len in Hs as [Hlen Hpos]. intros Hc.
    rewrite (IH fuel'); [apply str_take_drop|rewrite str_drop_length; lia..|by apply (utf8_check_pos _ (0 + len))].
  - intros _. destruct s as [|c s]; [done|]. exfalso. revert Hs. cbn [utf8_sequence].
    destruct (utf8_head c) as [[[|[|n]] [lo hi]]|]; try done;
      (destruct s as [|d s]; [done|]; destruct (in_range lo hi d); [|done]; by destruct (utf8_conts _ _ _)).
Qed.
Lemma lossy_valid s : from_utf8 s = Ok s → from_utf8_lossy s = s.
Proof.
  unfold from_utf8. destruct (utf8_check (S (String.length s)) 0 s) as [[pos [len|]]|] eqn:Hc; [done|done|].
  intros _. by apply (lossy_valid_go _ (S (String.length s))); [lia|lia|].
Qed.

(** ** Reading to the end *)

(** The events until the stream ends, and how it ends; [None] when [fuel] was too little. *)
Fixpoint read_events (fuel : nat) (s : SseStream) : list SseEvent * option (result unit string) :=
  match fuel with
  | O => ([], None)
  | S fuel =>
      match next_event s with
      | (Ok (Some e), s) => let '(es, r) := read_events fuel s in (e :: es, r)
      | (Ok None, _) => ([], Some (Ok tt))
      | (Err e, _) => ([], Some (Err e))
      end
  end.
Definition ending (ends : option string) : result unit string := match ends with Some e => Err e | None => Ok tt end.
(** Each event but the last takes a newline out of the text. *)
Definition stream_fuel (s : SseStream) : nat :=
  S (S (String.length (ss_buf s +:+ concat_str (from_utf8_lossy <$> ss_chunks s))%string)).
Lemma read_events_spec fuel s :
  (length (stream_events s) < fuel)%nat → read_events fuel s = (stream_events s, Some (ending (ss_end s))).
Proof.
  revert s. induction fuel as [|fuel IH]; intros s Hf; [lia|]. cbn [read_events]. pose proof (next_event_spec s) as Hn.
  destruct (stream_events s) as [|e es]; destruct (next_event s) as [r s'].
  - simpl in Hn. subst r. by destruct (ss_end s).
  - simpl in Hn. destruct Hn as (-> & <- & He). simpl in Hf. rewrite IH by lia. by rewrite He.
Qed.
Lemma lines_events_length ls st : (length (lines_events ls st).1 ≤ length ls)%nat.
Proof.
  revert st. induction ls as [|l ls IH]; intros st; [done|]. cbn [lines_events]. destruct (feed_line _ st) as [e st'].
  specialize (IH st'). destruct (lines_events ls st') as [es st'']. destruct e; simpl in *; lia.
Qed.
Lemma cut_lines_length t cur : (length (cut_lines t cur) ≤ String.length t)%nat.
Proof.
  revert cur. induction t as [|c t IH]; intros cur; [done|]. cbn [cut_lines]. case_decide.
  - specialize (IH ""%string). simpl. lia.
  - specialize (IH (String c cur)). simpl. lia.
Qed.
Lemma stream_events_length s : (length (stream_events s) < stream_fuel s)%nat.
Proof.
  unfold stream_events, stream_fuel, text_events. set (t := (ss_buf s +:+ _)%string).
  pose proof (lines_events_length (cut_lines t "") (ss_current_event s, ss_current_data s)) as H1.
  pose proof (cut_lines_length t "") as H2. destruct (lines_events _ _) as [es [event data]]. rewrite length_app. simpl in H1.
  destruct (ss_end s), data; simpl; lia.
Qed.
Lemma lossy_chunks chunks : Forall (λ c, from_utf8 c = Ok c) chunks → from_utf8_lossy <$> chunks = chunks.
Proof. induction 1 as [|c chunks Hc _ IH]; [done|]. csimpl. by rewrite lossy_valid, IH. Qed.

Lemma new_stream_events chunks ends :
  stream_events (SseStream_new chunks ends) = text_events (concat_str (from_utf8_lossy <$> chunks)) ends (None, []).
Proof. done. Qed.

(** ** The wire format *)

(** An event as the server's framework writes it. *)
Definition sse_frame (e : SseEvent) : string :=
  match se_event e with Some n => "event: " +:+ n +:+ nl | None => EmptyString end +:+ "data: " +:+ se_data e +:+ nl +:+ nl.
Definition one_line (s : string) : Prop := plain_ends s ∧ str_has newline s = false.
Lemma trim_cr_plain n l : plain_ends l → trim_end_matches n carriage_return l = l.
Proof.
  intros [_ (d & s & Hd & ->)]. destruct n as [|n]; [done|]. cbn [trim_end_matches]. unfold strip_suffix. rewrite str_rev_app.
  generalize (String.rev s). intros r.
  destruct d as [[] [] [] [] [] [] [] []]; vm_compute in Hd; first [discriminate Hd|reflexivity].
Qed.
Lemma field_plain name v : plain_ends name → plain_ends v → plain_ends (name +:+ " " +:+ v).
Proof. apply plain_ends_glue. Qed.
Lemma plain_tag n : n = "event:"%string ∨ n = "data:"%string → plain_ends n.
Proof.
  intros [->| ->]; (split; eexists _; [eexists; split; [|reflexivity]; reflexivity|]).
  - exists "event"%string. by (split; [|reflexivity]).
  - exists "data"%string. by (split; [|reflexivity]).
Qed.
Lemma trim_field v : plain_ends v → str_trim (" " +:+ v)%string = v.
Proof. intros Hv. pose proof (str_trim_spaces 1 0 v Hv) as H. cbn [spaces] in H. by rewrite !str_app_nil_r in H. Qed.
Lemma nl_app t : (nl +:+ t)%string = String newline t.
Proof. reflexivity. Qed.
Lemma event_line n t ends st :
  one_line n → text_events ("event: " +:+ n +:+ nl +:+ t)%string ends st = text_events t ends (Some n, st.2).
Proof.
  intros [Hp Hn]. rewrite nl_app, <-str_app_assoc, text_events_line by (by rewrite str_has_app, Hn).
  rewrite trim_cr_plain by (apply (field_plain "event:"); [apply plain_tag; by left|done]).
  destruct st as [event data]. unfold feed_line.
  change (strip_prefix "event:" ("event: " +:+ n)%string) with (Some (" " +:+ n)%string).
  change (str_is_empty ("event: " +:+ n)%string) with false. cbv beta iota.
  rewrite trim_field by done. reflexivity.
Qed.
Lemma data_line d t ends event :
  one_line d → text_events ("data: " +:+ d +:+ nl +:+ nl +:+ t)%string ends (event, []) = mkSseEvent event d :: text_events t ends (None, []).
Proof.
  intros [Hp Hd]. rewrite (nl_app (nl +:+ t)), <-(str_app_assoc "data: "), text_events_line by (by rewrite str_has_app, Hd).
  rewrite trim_cr_plain by (apply (field_plain "data:"); [apply plain_tag; by right|done]).
  unfold feed_line. change (strip_prefix "event:" ("data: " +:+ d)%string) with (@None string).
  change (strip_prefix "data:" ("data: " +:+ d)%string) with (Some (" " +:+ d)%string).
  change (str_is_empty ("data: " +:+ d)%string) with false. cbv beta iota. rewrite trim_field by done.
  rewrite nl_app. change (String newline t) with ("" +:+ String newline t)%string. rewrite text_events_line by done. reflexivity.
Qed.
Definition readable_event (e : SseEvent) : Prop := match se_event e with Some n => one_line n | None => True end ∧ one_line (se_data e).
Lemma frames_events l ends : Forall readable_event l → text_events (concat_str (sse_frame <$> l)) ends (None, []) = l.
Proof.
  induction 1 as [|[event d] l [Hn Hd] _ IH]; [by destruct ends|]. csimpl. cbn [concat_str foldr]. fold (concat_str (sse_frame <$> l)).
  unfold sse_frame at 1. cbn [se_event se_data] in *. destruct event as [n|]; rewrite !str_app_assoc.
  - rewrite event_line by done. cbn [snd]. by rewrite data_line, IH.
  - rewrite str_app_nil_l. by rewrite data_line, IH.
Qed.

(** * Theorems *)

(** C28: A response whose chunks are valid UTF-8 is read as its text would be read at once, however the network cut it: the
    reader's events are those of the lines of the whole text, with an unfinished event at the end when the response ends
    regularly and without it when the connection breaks, which is reported; and reading stops. *)
Theorem sse_chunking chunks ends :
  Forall (λ c, from_utf8 c = Ok c) chunks →
  let s := SseStream_new chunks ends in
  read_events (stream_fuel s) s = (text_events (concat_str chunks) ends (None, []), Some (ending ends)).
Proof.
  intros Hc. cbn zeta. rewrite read_events_spec by apply stream_events_length.
  rewrite new_stream_events. by rewrite lossy_chunks.
Qed.

(** Events the server sends, with names and data of one line each, are read back in order, however their text is cut
    into chunks of valid UTF-8. *)
Theorem sse_round_trip events chunks :
  Forall readable_event events → Forall (λ c, from_utf8 c = Ok c) chunks → concat_str chunks = concat_str (sse_frame <$> events) →
  let s := SseStream_new chunks None in
  read_events (stream_fuel s) s = (events, Some (Ok tt)).
Proof.
  intros He Hc Htext. cbn zeta. rewrite read_events_spec by apply stream_events_length.
  rewrite new_stream_events. by rewrite lossy_chunks, Htext, frames_events.
Qed.

(** A character whose bytes are in two chunks is lost: each part is replaced on its own, so that the same text is read
    differently when it is cut inside the character. *)
Theorem split_character_lost :
  let e := bytes_str [195; 169]%nat in
  let whole := ["data: " +:+ e +:+ nl +:+ nl]%string in
  let cut := ["data: " +:+ bytes_str [195]%nat; bytes_str [169]%nat +:+ nl +:+ nl]%string in
  concat_str cut = concat_str whole ∧
  read_events 3 (SseStream_new whole None) = ([mkSseEvent None e], Some (Ok tt)) ∧
  read_events 3 (SseStream_new cut None) = ([mkSseEvent None (REPLACEMENT +:+ REPLACEMENT)%string], Some (Ok tt)).
Proof. split_and!; vm_compute; reflexivity. Qed.

(** * Witnesses *)

Definition ex_events : list SseEvent := [mkSseEvent (Some "progress"%string) "{phase}"; mkSseEvent None "x"; mkSseEvent (Some "done"%string) "{}"].
Definition ex_chunks : list string :=
  ["event: prog"; "ress" +:+ nl +:+ "data: {phase}" +:+ nl; nl +:+ "data: x" +:+ nl +:+ nl +:+ "event:"; " done" +:+ nl +:+ "data: {}" +:+ nl +:+ nl]%string.
Lemma sse_chunking_witness :
  (read_events (stream_fuel (SseStream_new ex_chunks None)) (SseStream_new ex_chunks None)).1 = ex_events.
Proof. rewrite (sse_chunking ex_chunks None); [vm_compute; reflexivity|]. repeat constructor. Defined.
Ltac plain_literal s d :=
  split; [split; [eexists _, _; (split; [|reflexivity]); reflexivity|exists d, s; split; reflexivity]|reflexivity].
Lemma sse_round_trip_witness :
  read_events (stream_fuel (SseStream_new ex_chunks None)) (SseStream_new ex_chunks None) = (ex_events, Some (Ok tt)).
Proof.
  apply (sse_round_trip ex_events ex_chunks); [|repeat constructor|vm_compute; reflexivity].
  apply Forall_cons_2; [|apply Forall_cons_2; [|apply Forall_cons_2; [|apply Forall_nil_2]]]; split; cbn [se_event se_data]; first [exact I|plain_literal "progres"%string (Ascii.ascii_of_nat 115)|plain_literal "{phase"%string (Ascii.ascii_of_nat 125)
    |plain_literal ""%string (Ascii.ascii_of_nat 120)|plain_literal "don"%string (Ascii.ascii_of_nat 101)|plain_literal "{"%string (Ascii.ascii_of_nat 125)].
Defined.
