(* ===== verification/Cli.v ===== *)
(** The command line client ([src/crates/cli/src]): its arguments ([args.rs]), errors and exit codes ([error.rs]), the HTTP client
    ([client/mod.rs]), the commands ([commands]) and what they print ([output]). A command is a program over the requests it
    sends and the lines it prints; reqwest, serde, comfy-table and the daemon that [init], [join] and [leave] start are
    parameters. The theorems show what a deploy's exit code tells, that all of every service's log lines are printed in
    order, what a spawn asks for, and that a write that is redirected to the leader arrives without its token. *)

From S2P Require Import Prelude Types Env Addr Fsm World Config Report Routes Oci Deploy Tasks Views Api Sse.
Local Open Scope Z_scope.
#[local] Arguments next_event : simpl never.
#[local] Arguments stream_fuel : simpl never.

(** * Errors (error.rs) *)

Inductive CliError :=
| CliApi (error : string)
| CliHttp (status : Z) (body : string)
| ConnectionRefused (address : string)
| CliRequestError (e : string)
| CliIo (e : string)
| CliArg (msg : string).
(** reqwest's error: whether the connection could not be made, and its text. *)
Record ReqwestError := mkReqwestError {
  rq_is_connect : bool;
  rq_text : string;
}.
Definition from_reqwest (err : ReqwestError) (address : string) : CliError :=
  if rq_is_connect err then ConnectionRefused address else CliRequestError (rq_text err).
Definition exit_code (e : CliError) : Z :=
  match e with
  | CliApi _ | CliHttp _ _ => 1
  | ConnectionRefused _ => 2
  | CliRequestError _ => 3
  | CliIo _ => 4
  | CliArg _ => 64
  end.
Definition show_cli_error (e : CliError) : string :=
  match e with
  | CliApi error => error
  | CliHttp status body => "HTTP " +:+ pretty status +:+ ": " +:+ body
  | ConnectionRefused address => "connection refused — is the cluster running? (address: " +:+ address +:+ ")"
  | CliRequestError e => "request failed: " +:+ e
  | CliIo e => e
  | CliArg msg => msg
  end%string.

(** * Arguments (args.rs) *)

Inductive SecretAction :=
| SecretSet (name value : string)
| SecretGet (name : string)
| SecretList
| SecretDelete (name : string).
Inductive VolumeAction :=
| VolumeList
| VolumeDelete (name : string).
Record InitArgs := mkInitArgs {
  ia_token : option string;
  ia_advertise : option string;
  ia_provider : option string;
  ia_provider_token : option string;
  ia_acme_email : option string;
  ia_acme_staging : bool;
}.
Record SpawnArgs := mkSpawnArgs {
  sa_task : option string;
  sa_image : option string;
  sa_cpu : option f64;
  sa_memory : option string;
  sa_timeout : option string;
  sa_envs : list string;
}.
Inductive CliCommand :=
| CmdInit (args : InitArgs)
| CmdJoin (address token : string) (args : InitArgs)
| CmdLeave
| CmdDeploy (file : string)
| CmdRestart (service : string)
| CmdSpawn (args : SpawnArgs)
| CmdPs
| CmdKill (task_id : string)
| CmdStatus
| CmdLogs (name : option string) (follow : bool) (tail : option Z) (all : bool)
| CmdSecret (action : SecretAction)
| CmdVolume (action : VolumeAction)
| CmdNodes
| CmdDrain (node_id : string)
| CmdRemove (node_id : string).
Inductive OutputMode := Human | JsonMode.
Record CliArgs := mkCliArgs {
  ca_address : string;
  ca_token : option string;
  ca_data_dir : string;
  ca_json : bool;
  ca_command : CliCommand;
}.

(** * Requests and output *)

Inductive CliBody :=
| NoBody
| TextBody (s : string)
| SpawnBody (r : SpawnTaskRequest)
| SecretBody (value : string).
Record CliRequest := mkCliRequest {
  cq_method : Method;
  cq_url : string;
  cq_authorization : option string;
  cq_body : CliBody;
}.
(** The response that is left after redirects: its chunks, and whether the connection broke after them. *)
Record HttpResponse := mkHttpResponse {
  rs_status : Z;
  rs_chunks : list string;
  rs_end : option string;
}.
(** Values that are printed as JSON. *)
Inductive Printed :=
| PrStatus (cluster : StatusResponse) (services : list ServiceResponse) (tasks : list TaskResponse) (nodes : list NodeResponse)
| PrNodes (l : list NodeResponse)
| PrTasks (l : list TaskResponse)
| PrSpawn (r : SpawnTaskResponse)
| PrSecret (name value : string)
| PrSecrets (names : list string)
| PrVolumes (l : list VolumeResponse).
Inductive CliEffect :=
| EReq (r : CliRequest)
| EOut (line : string)
| EErr (line : string)
| ETable (header : list string) (rows : list (list string))
| EJson (v : Printed)
| EJsonEvent (e : SseEvent).

Definition CliM (A : Type) : Type := list CliEffect → result A CliError * list CliEffect.
#[global] Instance CliM_ret : MRet CliM := λ A a t, (Ok a, t).
#[global] Instance CliM_bind : MBind CliM := λ A B k m t,
  match m t with
  | (Ok a, t) => k a t
  | (Err e, t) => (Err e, t)
  end.
Definition cli_fail {A} (e : CliError) : CliM A := λ t, (Err e, t).
Definition emit (e : CliEffect) : CliM unit := λ t, (Ok tt, t ++ [e]).
Definition out (line : string) : CliM unit := emit (EOut line).
Definition err (line : string) : CliM unit := emit (EErr line).

(** serde, and the formats of numbers. *)
Class CliCodec := {
  text_of : string → string;
  json_value : string → option JV;
  dec_error : string → option string;
  dec_status : string → result StatusResponse string;
  dec_services : string → result (list ServiceResponse) string;
  dec_tasks : string → result (list TaskResponse) string;
  dec_nodes : string → result (list NodeResponse) string;
  dec_volumes : string → result (list VolumeResponse) string;
  dec_secret : string → result (string * string) string;
  dec_secrets : string → result (list string) string;
  dec_spawn : string → result SpawnTaskResponse string;
  fixed : nat → f64 → string;
  show_bytes : Z → string;
}.

(** * The client (client/mod.rs) *)

Record MillClient := mkMillClient {
  mc_base_url : string;
  mc_token : option string;
}.
Definition MillClient_new (base_url : string) (token : option string) : MillClient :=
  mkMillClient (trim_end_matches (String.length base_url) "/" base_url) token.
Definition is_ok_status (status : Z) : bool := (200 <=? status) && (status <? 300).

Section cli.
Context `{CliCodec} (header_ok : string → bool).
(** The outcome of the last of the requests sent so far; and the files. *)
Context (answer : list CliEffect → result HttpResponse ReqwestError) (read_file : string → result string string).

Section client.
Context (client : MillClient).

Definition url (path : string) : string := (mc_base_url client +:+ path)%string.
Definition auth_headers : option string :=
  token ← mc_token client;
  let val := ("Bearer " +:+ token)%string in
  if header_ok val then Some val else None.
(** [send], with the error mapped. *)
Definition cli_send (m : Method) (path : string) (body : CliBody) : CliM HttpResponse := λ t,
  let t := t ++ [EReq (mkCliRequest m (url path) auth_headers body)] in
  (match answer t with Ok r => Ok r | Err e => Err (from_reqwest e (mc_base_url client)) end, t).
(** [resp.text()]: [None] when the connection broke. *)
Definition response_text (resp : HttpResponse) : result string string :=
  match rs_end resp with
  | None => Ok (text_of (concat_str (rs_chunks resp)))
  | Some e => Err e
  end.
Definition handle_error {A} (resp : HttpResponse) : CliM A :=
  let body := match response_text resp with Ok b => b | Err _ => EmptyString end in
  match dec_error body with
  | Some e => cli_fail (CliApi e)
  | None => cli_fail (CliHttp (rs_status resp) body)
  end.
Definition handle_json_response {A} (dec : string → result A string) (resp : HttpResponse) : CliM A :=
  if is_ok_status (rs_status resp) then
    match response_text resp with
    | Err e => cli_fail (CliRequestError e)
    | Ok body =>
        match dec body with
        | Ok v => mret v
        | Err e => cli_fail (CliHttp (rs_status resp) ("invalid JSON: " +:+ e)%string)
        end
    end
  else handle_error resp.
Definition handle_empty_response (resp : HttpResponse) : CliM unit :=
  if is_ok_status (rs_status resp) then mret tt else handle_error resp.
Definition check_status_sse (resp : HttpResponse) : CliM HttpResponse :=
  if is_ok_status (rs_status resp) then mret resp else handle_error resp.

Definition cli_get {A} (dec : string → result A string) (path : string) : CliM A :=
  resp ← cli_send GET path NoBody; handle_json_response dec resp.
Definition post_json {A} (dec : string → result A string) (path : string) (body : CliBody) : CliM A :=
  resp ← cli_send POST path body; handle_json_response dec resp.
Definition post_text_sse (path body : string) : CliM HttpResponse :=
  resp ← cli_send POST path (TextBody body); check_status_sse resp.
Definition post_empty_sse (path : string) : CliM HttpResponse :=
  resp ← cli_send POST path NoBody; check_status_sse resp.
Definition put_json (path : string) (body : CliBody) : CliM unit :=
  resp ← cli_send PUT path body; handle_empty_response resp.
Definition cli_delete (path : string) : CliM unit :=
  resp ← cli_send DELETE path NoBody; handle_empty_response resp.
Definition get_sse (path : string) : CliM HttpResponse :=
  resp ← cli_send GET path NoBody; check_status_sse resp.

(** * Output (output) *)

Definition format_bytes (bytes : Z) : string := show_bytes bytes.
(** [x == x.floor()]. *)
Definition f64_is_floor (x : f64) : bool :=
  match x with
  | S754_zero _ | S754_infinity _ => true
  | S754_nan => false
  | S754_finite _ m e => (0 <=? e) || (Z.pos m mod 2 ^ (- e) =? 0)
  end.
Definition format_cpu (cpu : f64) : string := if f64_is_floor cpu then fixed 0 cpu else fixed 1 cpu.
Definition node_row (n : NodeResponse) : list string :=
  [nr_id n; nr_status n;
   format_cpu (f64_sub (nr_cpu_total n) (nr_cpu_available n)) +:+ "/" +:+ format_cpu (nr_cpu_total n);
   format_bytes (wrap64 (nr_memory_total_bytes n - nr_memory_available_bytes n)) +:+ "/" +:+ format_bytes (nr_memory_total_bytes n);
   pretty (nr_alloc_count n)]%string.
Definition print_nodes (nodes : list NodeResponse) : CliM unit :=
  emit (ETable ["NAME"; "STATUS"; "CPU"; "MEM"; "ALLOCS"]%string (node_row <$> nodes)).
Definition print_services (services : list ServiceResponse) : CliM unit :=
  emit (ETable ["NAME"; "REPLICAS"; "IMAGE"]%string
    ((λ s, [sv_name s; pretty (rc_healthy (sv_replicas s)) +:+ "/" +:+ pretty (rc_desired (sv_replicas s)); sv_image s]%string) <$> services)).
Definition print_tasks (tasks : list TaskResponse) : CliM unit :=
  emit (ETable ["ID"; "NAME"; "NODE"; "STATUS"; "CPU"; "MEM"]%string
    ((λ t, [tr_id t; tr_name t; tr_node t; tr_status t; format_cpu (tr_cpu t); format_bytes (tr_memory t)]) <$> tasks)).
Definition print_secrets (secrets : list string) : CliM unit := emit (ETable ["NAME"]%string ((λ s, [s]) <$> secrets)).
Definition print_volumes (volumes : list VolumeResponse) : CliM unit :=
  emit (ETable ["NAME"; "STATE"; "NODE"; "CLOUD ID"]%string
    ((λ v, [vr_name v; vr_state v; default "--"%string (vr_node v); vr_cloud_id v]) <$> volumes)).
(** [print] and [print_list]. *)
Definition cli_print (mode : OutputMode) (v : Printed) (human : CliM unit) : CliM unit :=
  match mode with Human => human | JsonMode => emit (EJson v) end.
Definition is_human (mode : OutputMode) : bool := match mode with Human => true | JsonMode => false end.
Definition unless_json (mode : OutputMode) (m : CliM unit) : CliM unit := if is_human mode then m else mret tt.

(** * Commands (commands) *)

Definition jstr (k : string) (data : JV) : option string := jget k data ≫= as_str.
Definition jf64 (k : string) (data : JV) : option f64 := jget k data ≫= as_f64.

(** Take the events of a response one by one, until it ends or breaks. *)
Fixpoint for_events {A} (fuel : nat) (f : SseEvent → A → CliM A) (s : SseStream) (a : A) : CliM A :=
  match fuel with
  | O => mret a
  | S fuel =>
      match next_event s with
      | (Err e, _) => cli_fail (CliIo e)
      | (Ok None, _) => mret a
      | (Ok (Some ev), s) => a ← f ev a; for_events fuel f s a
      end
  end.
Definition response_events {A} (resp : HttpResponse) (f : SseEvent → A → CliM A) (a : A) : CliM A :=
  let s := SseStream_new (rs_chunks resp) (rs_end resp) in
  for_events (stream_fuel s) f s a.

(** ** deploy.rs *)

Definition render_progress_line (data : JV) : CliM unit :=
  match jstr "phase" data with
  | None => mret tt
  | Some phase =>
      match jstr "service" data with
      | Some svc =>
          if decide (phase = "pulling") then out ("  " +:+ svc +:+ ": pulling image...")
          else if decide (phase = "scheduled") then
            out ("  " +:+ svc +:+ ": scheduled on " +:+ default "unknown" (jstr "node" data))
          else if decide (phase = "starting") then out ("  " +:+ svc +:+ ": starting...")
          else if decide (phase = "healthy") then
            match jf64 "elapsed" data with
            | Some elapsed => out ("  " +:+ svc +:+ ": healthy (" +:+ fixed 1 elapsed +:+ "s)")
            | None => out ("  " +:+ svc +:+ ": healthy")
            end
          else if decide (phase = "stopped") then out ("  " +:+ svc +:+ ": old instance stopped")
          else out ("  " +:+ svc +:+ ": " +:+ phase)
      | None =>
          if decide (phase = "started") then mret tt
          else if decide (phase = "pulling") then out "  pulling images..."
          else out ("  " +:+ phase)
      end
  end%string.
(** One event of a deploy; the answer is whether the deploy has failed so far. *)
Definition render_deploy_event (mode : OutputMode) (event : SseEvent) (failed : bool) : CliM bool :=
  match mode with
  | JsonMode => _ ← emit (EJsonEvent event); mret failed
  | Human =>
      let event_type := default "progress" (se_event event) in
      match json_value (se_data event) with
      | None => mret failed
      | Some data =>
          if decide (event_type = "done") then
            _ ← match jf64 "elapsed" data with
                | Some elapsed => out ("  deployed (" +:+ fixed 1 elapsed +:+ "s)")
                | None => out "  deployed"
                end;
            mret failed
          else if decide (event_type = "failed") then
            let svc := default "" (jstr "service" data) in
            let reason := default "unknown" (jstr "reason" data) in
            _ ← (if str_is_empty svc then err ("  failed: " +:+ reason) else err ("  " +:+ svc +:+ ": failed: " +:+ reason));
            mret true
          else
            _ ← render_progress_line data;
            mret failed
      end
  end%string.
Definition render_deploy_stream (resp : HttpResponse) (mode : OutputMode) : CliM unit :=
  failed ← response_events resp (render_deploy_event mode) false;
  if failed : bool then cli_fail (CliArg "deploy failed") else mret tt.
Definition cli_deploy (file : string) (mode : OutputMode) : CliM unit :=
  match read_file file with
  | Err e => cli_fail (CliIo (file +:+ ": " +:+ e)%string)
  | Ok config =>
      resp ← post_text_sse "/v1/deploy" config;
      render_deploy_stream resp mode
  end.
Definition cli_restart (service : string) (mode : OutputMode) : CliM unit :=
  resp ← post_empty_sse ("/v1/restart/" +:+ service)%string;
  render_deploy_stream resp mode.

(** ** logs.rs *)

Definition render_log_event (data : string) (prefix : option string) (mode : OutputMode) : CliM unit :=
  match mode with
  | JsonMode => out data
  | Human =>
      let line := match json_value data with Some parsed => default data (jstr "line" parsed) | None => data end in
      match prefix with
      | Some p => out ("[" +:+ p +:+ "] " +:+ line)%string
      | None => out line
      end
  end.
Definition cli_stream_logs (resp : HttpResponse) (prefix : option string) (mode : OutputMode) : CliM unit :=
  response_events resp (λ ev _, render_log_event (se_data ev) prefix mode) tt.
Definition log_params (follow : bool) (tail : option Z) : list string :=
  (if follow then ["follow=true"] else []) ++ match tail with Some n => ["tail=" +:+ pretty n] | None => [] end%string.
Definition log_query (follow : bool) (tail : option Z) : string :=
  match log_params follow tail with
  | [] => ""
  | ps => "?" +:+ str_join "&" ps
  end%string.
(** A round over the open streams: whether one of them had an event, and those that are still open. *)
Fixpoint logs_round (mode : OutputMode) (streams : list (string * SseStream)) : CliM (bool * list (string * SseStream)) :=
  match streams with
  | [] => mret (false, [])
  | (svc_name, stream) :: streams =>
      match next_event stream with
      | (Ok (Some event), stream) =>
          _ ← render_log_event (se_data event) (Some svc_name) mode;
          '(_, rest) ← logs_round mode streams;
          mret (true, (svc_name, stream) :: rest)
      | (Ok None, _) => logs_round mode streams
      | (Err e, _) =>
          _ ← err ("error reading logs for " +:+ svc_name +:+ ": " +:+ e)%string;
          logs_round mode streams
      end
  end.
Fixpoint logs_loop (fuel : nat) (mode : OutputMode) (streams : list (string * SseStream)) : CliM bool :=
  match fuel with
  | O => mret false
  | S fuel =>
      '(any_open, streams) ← logs_round mode streams;
      match any_open, streams with
      | false, [] => mret true
      | _, _ => logs_loop fuel mode streams
      end
  end.
(** A stream that is still open has one event less after each round, so that the rounds that are counted here are enough. *)
Definition logs_fuel (streams : list (string * SseStream)) : nat :=
  S (foldr Nat.max 0%nat ((λ '(_, s), stream_fuel s) <$> streams)).
Fixpoint open_streams (query : string) (services : list ServiceResponse) : CliM (list (string * SseStream)) :=
  match services with
  | [] => mret []
  | svc :: services =>
      resp ← get_sse ("/v1/logs/" +:+ sv_name svc +:+ query)%string;
      rest ← open_streams query services;
      mret ((sv_name svc, SseStream_new (rs_chunks resp) (rs_end resp)) :: rest)
  end.
(** [logs_all]; the result is whether the loop came to its end. *)
Definition logs_all (follow : bool) (tail : option Z) (mode : OutputMode) : CliM bool :=
  services ← cli_get dec_services "/v1/services";
  match services with
  | [] => _ ← unless_json mode (out "no services running"); mret true
  | _ =>
      streams ← open_streams (log_query follow tail) services;
      logs_loop (logs_fuel streams) mode streams
  end.
Definition cli_logs (name : option string) (follow : bool) (tail : option Z) (all : bool) (mode : OutputMode) : CliM unit :=
  if all then _ ← logs_all follow tail mode; mret tt
  else
    match name with
    | None => cli_fail (CliArg "a service or task name is required (or use --all)")
    | Some name =>
        resp ← get_sse ("/v1/logs/" +:+ name +:+ log_query follow tail)%string;
        cli_stream_logs resp None mode
    end.

(** ** nodes.rs *)

Definition cli_nodes (mode : OutputMode) : CliM unit :=
  nodes ← cli_get dec_nodes "/v1/nodes";
  cli_print mode (PrNodes nodes) (print_nodes nodes).
Definition render_drain_event (mode : OutputMode) (event : SseEvent) (_ : unit) : CliM unit :=
  match mode with
  | JsonMode => emit (EJsonEvent event)
  | Human =>
      let event_type := default "progress" (se_event event) in
      match json_value (se_data event) with
      | None => mret tt
      | Some data =>
          if decide (event_type = "done") then
            match jf64 "elapsed" data with
            | Some elapsed => out ("  drain complete (" +:+ fixed 1 elapsed +:+ "s)")
            | None => out "  drain complete"
            end
          else if decide (event_type = "failed") then err ("  drain failed: " +:+ default "unknown" (jstr "reason" data))
          else
            match jstr "phase" data with
            | None => mret tt
            | Some phase =>
                let svc := default "" (jstr "service" data) in
                if str_is_empty svc then out ("  " +:+ phase) else out ("  " +:+ svc +:+ ": " +:+ phase)
            end
      end
  end%string.
Definition cli_drain (node_id : string) (mode : OutputMode) : CliM unit :=
  resp ← post_empty_sse ("/v1/nodes/" +:+ node_id +:+ "/drain")%string;
  response_events resp (render_drain_event mode) tt.
Definition cli_remove (node_id : string) : CliM unit :=
  _ ← cli_delete ("/v1/nodes/" +:+ node_id)%string;
  err ("node " +:+ node_id +:+ " removed")%string.

(** ** tasks.rs *)

Definition default_cpu : f64 := S754_finite false 4503599627370496 (-54).
Definition default_memory : string := "256M".
Definition env_pair (acc : result (gmap string string) CliError) (pair : string) : result (gmap string string) CliError :=
  match acc with
  | Err e => Err e
  | Ok m =>
      match split_once (Ascii.ascii_of_nat 61) pair with
      | Some (k, v) => Ok (<[k := v]> m)
      | None => Err (CliArg ("invalid env format: " +:+ pair +:+ " (expected KEY=VALUE)")%string)
      end
  end.
Definition parse_env_pairs (envs : list string) : result (gmap string string) CliError := foldl env_pair (Ok ∅) envs.
Definition cli_result {A} (r : result A CliError) : CliM A := λ t, (r, t).
Definition cli_spawn (args : SpawnArgs) (mode : OutputMode) : CliM unit :=
  match sa_task args, sa_image args with
  | None, None => cli_fail (CliArg "either a task template name or --image is required")
  | _, _ =>
      env ← cli_result (parse_env_pairs (sa_envs args));
      let body := mkSpawnTaskRequest (sa_task args) (sa_image args) (default default_cpu (sa_cpu args))
                    (default default_memory (sa_memory args)) env (sa_timeout args) in
      resp ← post_json dec_spawn "/v1/tasks/spawn" (SpawnBody body);
      cli_print mode (PrSpawn resp)
        (_ ← out ("  id:      " +:+ stp_id resp)%string;
         _ ← match stp_address resp with Some addr => out ("  address: " +:+ addr)%string | None => mret tt end;
         out ("  status:  " +:+ stp_status resp)%string)
  end.
Definition cli_ps (mode : OutputMode) : CliM unit :=
  tasks ← cli_get dec_tasks "/v1/tasks";
  cli_print mode (PrTasks tasks) match tasks with [] => out "no running tasks" | _ => print_tasks tasks end.
Definition cli_kill (task_id : string) : CliM unit :=
  _ ← cli_delete ("/v1/tasks/" +:+ task_id)%string;
  err ("task " +:+ task_id +:+ " killed")%string.

(** ** secrets.rs, volumes.rs, status.rs *)

Definition cli_secret (action : SecretAction) (mode : OutputMode) : CliM unit :=
  match action with
  | SecretSet name value =>
      _ ← put_json ("/v1/secrets/" +:+ name) (SecretBody value);
      unless_json mode (err ("secret " +:+ name +:+ " set"))
  | SecretGet name =>
      '(n, value) ← cli_get dec_secret ("/v1/secrets/" +:+ name);
      cli_print mode (PrSecret n value) (out value)
  | SecretList =>
      secrets ← cli_get dec_secrets "/v1/secrets";
      cli_print mode (PrSecrets secrets) (print_secrets secrets)
  | SecretDelete name =>
      _ ← cli_delete ("/v1/secrets/" +:+ name);
      unless_json mode (err ("secret " +:+ name +:+ " deleted"))
  end%string.
Definition cli_volume (action : VolumeAction) (mode : OutputMode) : CliM unit :=
  match action with
  | VolumeList =>
      volumes ← cli_get dec_volumes "/v1/volumes";
      cli_print mode (PrVolumes volumes) (print_volumes volumes)
  | VolumeDelete name =>
      _ ← cli_delete ("/v1/volumes/" +:+ name);
      unless_json mode (err ("volume " +:+ name +:+ " deleted"))
  end%string.
Definition section_of {A} (title : string) (l : list A) (print : list A → CliM unit) (after : CliM unit) : CliM unit :=
  match l with [] => mret tt | _ => _ ← out title; _ ← print l; after end.
Definition cli_status (mode : OutputMode) : CliM unit :=
  cluster ← cli_get dec_status "/v1/status";
  services ← cli_get dec_services "/v1/services";
  tasks ← cli_get dec_tasks "/v1/tasks";
  nodes ← cli_get dec_nodes "/v1/nodes";
  match mode with
  | JsonMode => emit (EJson (PrStatus cluster services tasks nodes))
  | Human =>
      let all_healthy := forallb (λ n, bool_decide (nr_status n = "ready")) nodes in
      let health := if all_healthy then "all healthy" else "degraded" in
      _ ← out ("CLUSTER: " +:+ pretty (st_node_count cluster) +:+ " nodes, " +:+ health);
      _ ← out "";
      _ ← section_of "SERVICES" services print_services (out "");
      _ ← section_of "TASKS" tasks print_tasks (out "");
      section_of "NODES" nodes print_nodes (mret tt)
  end%string.

(** ** cluster.rs, mod.rs *)

(** The daemon's entry points, with the text of their errors. *)
Context (daemon_init : string → InitArgs → result unit string).
Context (daemon_join : string → string → string → InitArgs → result unit string).
Context (daemon_leave : string → result unit string).
Definition as_arg (r : result unit string) : CliM unit := cli_result match r with Ok u => Ok u | Err e => Err (CliArg e) end.
Definition dispatch (cmd : CliCommand) (mode : OutputMode) (data_dir : string) : CliM unit :=
  match cmd with
  | CmdInit args => as_arg (daemon_init data_dir args)
  | CmdJoin address token args => as_arg (daemon_join data_dir address token args)
  | CmdLeave => as_arg (daemon_leave data_dir)
  | CmdDeploy file => cli_deploy file mode
  | CmdRestart service => cli_restart service mode
  | CmdSpawn args => cli_spawn args mode
  | CmdPs => cli_ps mode
  | CmdKill task_id => cli_kill task_id
  | CmdStatus => cli_status mode
  | CmdLogs name follow tail all => cli_logs name follow tail all mode
  | CmdSecret action => cli_secret action mode
  | CmdVolume action => cli_volume action mode
  | CmdNodes => cli_nodes mode
  | CmdDrain node_id => cli_drain node_id mode
  | CmdRemove node_id => cli_remove node_id
  end.
End client.

(** * The program (main.rs) *)

Definition cli_main daemon_init daemon_join daemon_leave (cli : CliArgs) : Z * list CliEffect :=
  let mode := if ca_json cli then JsonMode else Human in
  let client := MillClient_new (ca_address cli) (ca_token cli) in
  match dispatch client daemon_init daemon_join daemon_leave (ca_command cli) mode (ca_data_dir cli) [] with
  | (Ok _, t) => (0, t)
  | (Err e, t) => (exit_code e, t ++ [EErr ("error: " +:+ show_cli_error e)%string])
  end.
End cli.

(** * Lemmas *)

(** What a response says, if it is read to its end. *)
Definition response_said (resp : HttpResponse) : list SseEvent := stream_events (SseStream_new (rs_chunks resp) (rs_end resp)).
Fixpoint fold_events {A} (f : SseEvent → A → CliM A) (l : list SseEvent) (a : A) : CliM A :=
  match l with
  | [] => mret a
  | ev :: l => a ← f ev a; fold_events f l a
  end.
Definition after_events {A} (ends : option string) (a : A) : CliM A := match ends with Some e => cli_fail (CliIo e) | None => mret a end.

Lemma for_events_spec {A} fuel (f : SseEvent → A → CliM A) s a t :
  (length (stream_events s) < fuel)%nat →
  for_events fuel f s a t = (fold_events f (stream_events s) a ≫= after_events (ss_end s)) t.
Proof.
  revert s a t. induction fuel as [|fuel IH]; intros s a t Hf; [lia|]. cbn [for_events]. pose proof (next_event_spec s) as Hn.
  destruct (stream_events s) as [|e es]; destruct (next_event s) as [r s']; simpl in Hn.
  - subst r. by destruct (ss_end s).
  - destruct Hn as (-> & <- & He). simpl in Hf. cbn [fold_events]. unfold mbind, CliM_bind.
    destruct (f e a t) as [[a'|err] t']; [|done]. rewrite IH by lia. by rewrite He.
Qed.
Lemma response_events_spec {A} resp (f : SseEvent → A → CliM A) a t :
  response_events resp f a t = (fold_events f (response_said resp) a ≫= after_events (rs_end resp)) t.
Proof. unfold response_events. by rewrite for_events_spec by apply stream_events_length. Qed.

Section cli_lemmas.
Context `{CliCodec} (header_ok : string → bool).
Context (answer : list CliEffect → result HttpResponse ReqwestError) (read_file : string → result string string).

(** The event that makes a deploy a failure for the client. *)
Definition reports_failure (ev : SseEvent) : bool :=
  bool_decide (se_event ev = Some "failed"%string) && match json_value (se_data ev) with Some _ => true | None => false end.
Lemma progress_line_ok data t : ∃ t', render_progress_line data t = (Ok tt, t').
Proof. unfold render_progress_line. repeat case_match; eauto. Qed.
Lemma deploy_event_ok mode ev failed t :
  ∃ t', render_deploy_event mode ev failed t = (Ok (failed || (is_human mode && reports_failure ev)), t').
Proof.
  unfold render_deploy_event, reports_failure. destruct mode; [|eexists; cbn; by rewrite orb_false_r].
  destruct (json_value (se_data ev)) as [data|]; [|eexists; by rewrite andb_false_r, orb_false_r].
  destruct ev as [[name|] d]; cbn [se_event default from_option id se_data is_human andb].
  - case_decide as Hdone; [subst; destruct (jf64 _ _); eexists; by rewrite bool_decide_eq_false_2, orb_false_r by done|].
    case_decide as Hfail.
    + subst. rewrite bool_decide_eq_true_2 by done. destruct (str_is_empty _); eexists; by rewrite orb_true_r.
    + rewrite bool_decide_eq_false_2 by congruence. destruct (progress_line_ok data t) as [t' Ht]. exists t'.
      unfold mbind, CliM_bind. by rewrite Ht, orb_false_r.
  - rewrite decide_False, decide_False, bool_decide_eq_false_2 by done. destruct (progress_line_ok data t) as [t' Ht]. exists t'.
    unfold mbind, CliM_bind. by rewrite Ht, orb_false_r.
Qed.
Lemma deploy_events_ok mode l failed t :
  ∃ t', fold_events (render_deploy_event mode) l failed t = (Ok (failed || (is_human mode && existsb reports_failure l)), t').
Proof.
  revert failed t. induction l as [|ev l IH]; intros failed t; [exists t; cbn; by rewrite andb_false_r, orb_false_r|].
  cbn [fold_events]. unfold mbind, CliM_bind. destruct (deploy_event_ok mode ev failed t) as [t' ->].
  destruct (IH (failed || (is_human mode && reports_failure ev)) t') as [t'' Ht]. exists t''. rewrite Ht.
  do 2 f_equal. cbn [existsb]. by destruct failed, (is_human mode), (reports_failure ev).
Qed.
Lemma drain_event_ok mode ev u t : ∃ t', render_drain_event mode ev u t = (Ok tt, t').
Proof. unfold render_drain_event. repeat case_match; eexists; reflexivity. Qed.
Lemma drain_events_ok mode l u t : ∃ t', fold_events (render_drain_event mode) l u t = (Ok u, t').
Proof.
  revert u t. induction l as [|ev l IH]; intros u t; [by exists t|]. cbn [fold_events]. unfold mbind, CliM_bind.
  destruct (drain_event_ok mode ev u t) as [t' ->]. destruct u. apply IH.
Qed.

(** ** Programs that send nothing *)

Definition quiet {A} (m : CliM A) : Prop := ∀ t, ∃ r t', m t = (r, t ++ t') ∧ ∀ q, EReq q ∉ t'.
Lemma quiet_ret {A} (a : A) : quiet (mret a).
Proof. intros t. exists (Ok a), []. rewrite app_nil_r. split; [done|]. intros q Hq. by apply elem_of_nil in Hq. Qed.
Lemma quiet_fail {A} e : quiet (A := A) (cli_fail e).
Proof. intros t. exists (Err e), []. rewrite app_nil_r. split; [done|]. intros q Hq. by apply elem_of_nil in Hq. Qed.
Lemma quiet_emit e : (∀ q, e ≠ EReq q) → quiet (emit e).
Proof. intros He t. exists (Ok tt), [e]. split; [done|]. intros q Hq%list_elem_of_singleton. by apply (He q). Qed.
Lemma quiet_bind {A B} (m : CliM A) (k : A → CliM B) : quiet m → (∀ a, quiet (k a)) → quiet (m ≫= k).
Proof.
  intros Hm Hk t. unfold mbind, CliM_bind. destruct (Hm t) as (r & t1 & -> & H1). destruct r as [a|e]; [|by exists (Err e), t1].
  destruct (Hk a (t ++ t1)) as (r & t2 & -> & H2). exists r, (t1 ++ t2). rewrite app_assoc. split; [done|].
  intros q [Hq|Hq]%elem_of_app; [by apply (H1 q)|by apply (H2 q)].
Qed.
Lemma quiet_json_response {A} (dec : string → result A string) resp : quiet (handle_json_response dec resp).
Proof. unfold handle_json_response, handle_error. repeat case_match; auto using quiet_ret, quiet_fail. Qed.

(** ** Logs of all services *)

(** A stream that is read: its service, the events that are left, and how it ends. *)
Abbreviation LogView := (string * list SseEvent * option string)%type.
Definition view_of (x : string * SseStream) : LogView := (x.1, stream_events x.2, ss_end x.2).
Definition log_line (mode : OutputMode) (name data : string) : string :=
  match mode with
  | JsonMode => data
  | Human =>
      "[" +:+ name +:+ "] " +:+ match json_value data with Some parsed => default data (jstr "line" parsed) | None => data end
  end%string.
(** What round [k] prints for a stream: its event number [k], or the error it ends with. *)
Definition printed_at (mode : OutputMode) (k : nat) (v : LogView) : list CliEffect :=
  let '(name, evs, ends) := v in
  match evs !! k with
  | Some ev => [EOut (log_line mode name (se_data ev))]
  | None =>
      match decide (k = length evs), ends with
      | left _, Some e => [EErr ("error reading logs for " +:+ name +:+ ": " +:+ e)%string]
      | _, _ => []
      end
  end.
Definition printed_in_round (mode : OutputMode) (views : list LogView) (k : nat) : list CliEffect := views ≫= printed_at mode k.
Definition next_view (v : LogView) : option LogView :=
  match v with (name, _ :: evs, ends) => Some (name, evs, ends) | _ => None end.

Lemma render_log_ok data name mode t : render_log_event data (Some name) mode t = (Ok tt, t ++ [EOut (log_line mode name data)]).
Proof. by destruct mode. Qed.
Lemma logs_round_spec mode streams t :
  ∃ b streams', logs_round mode streams t = (Ok (b, streams'), t ++ printed_in_round mode (view_of <$> streams) 0) ∧
    view_of <$> streams' = filter_map next_view (view_of <$> streams) ∧
    b = match streams' with [] => false | _ => true end.
Proof.
  revert t. induction streams as [|[name s] streams IH]; intros t.
  { exists false, []. split_and!; [|done|done]. cbn. by rewrite app_nil_r. }
  cbn [logs_round]. pose proof (next_event_spec s) as Hn. csimpl.
  change (view_of (name, s)) with (name, stream_events s, ss_end s).
  unfold printed_in_round. cbn [mbind list_bind]. fold (printed_in_round mode (view_of <$> streams) 0).
  destruct (stream_events s) as [|ev es] eqn:Hes; destruct (next_event s) as [r s']; simpl in Hn.
  - subst r. destruct (ss_end s) as [e|]; cbn [printed_at].
    + unfold mbind, CliM_bind, err, emit. destruct (IH (t ++ [EErr ("error reading logs for " +:+ name +:+ ": " +:+ e)%string])) as (b & ss & -> & Hv & Hb).
      exists b, ss. split_and!; [|done|done]. cbn. by rewrite <-app_assoc.
    + destruct (IH t) as (b & ss & -> & Hv & Hb). by exists b, ss.
  - destruct Hn as (-> & He & Hend). unfold mbind, CliM_bind. rewrite render_log_ok.
    destruct (IH (t ++ [EOut (log_line mode name (se_data ev))])) as (b & ss & -> & Hv & _).
    exists true, ((name, s') :: ss). split_and!; [|rewrite fmap_cons, Hv; unfold view_of at 1; cbn [fst snd]; by rewrite He, Hend|done].
    cbn. by rewrite <-app_assoc.
Qed.
Lemma printed_next mode k v : printed_at mode (S k) v = default [] (printed_at mode k <$> next_view v).
Proof.
  destruct v as [[name [|ev evs]] ends]; [done|]. cbn. destruct (evs !! k); [done|].
  destruct (decide (S k = S (length evs))), (decide (k = length evs)); by try lia.
Qed.
Lemma printed_next_round mode k views : printed_in_round mode views (S k) = printed_in_round mode (filter_map next_view views) k.
Proof.
  induction views as [|v views IH]; [done|]. cbn [filter_map]. unfold printed_in_round in *. rewrite bind_cons, printed_next, IH.
  by destruct (next_view v).
Qed.
Lemma next_views_shorter fuel views :
  Forall (λ v : LogView, length v.1.2 < S fuel)%nat views → Forall (λ v : LogView, length v.1.2 < fuel)%nat (filter_map next_view views).
Proof.
  induction 1 as [|[[name [|ev evs]] ends] views Hv _ IH]; [constructor|done|]. cbn. constructor; [|done]. cbn in *. lia.
Qed.
Lemma logs_loop_spec fuel mode streams t :
  Forall (λ v : LogView, length v.1.2 < fuel)%nat (view_of <$> streams) → (0 < fuel)%nat →
  logs_loop fuel mode streams t = (Ok true, t ++ (seq 0 fuel ≫= printed_in_round mode (view_of <$> streams))).
Proof.
  revert streams t. induction fuel as [|fuel IH]; intros streams t Hf Hpos; [lia|]. cbn [logs_loop]. unfold mbind at 1, CliM_bind.
  destruct (logs_round_spec mode streams t) as (b & ss & -> & Hv & ->).
  assert ((seq 0 (S fuel) ≫= printed_in_round mode (view_of <$> streams)) =
    printed_in_round mode (view_of <$> streams) 0 ++ (seq 0 fuel ≫= printed_in_round mode (view_of <$> ss))) as ->.
  { change (seq 0 (S fuel)) with (0%nat :: seq 1 fuel). rewrite bind_cons, <-fmap_S_seq, list_fmap_bind. f_equal. rewrite Hv.
    apply list_bind_ext; [|done]. intros k. apply printed_next_round. }
  apply next_views_shorter in Hf. rewrite <-Hv in Hf. rewrite app_assoc. destruct ss as [|x ss].
  - assert ((seq 0 fuel ≫= printed_in_round mode (view_of <$> [])) = []) as ->; [|by rewrite app_nil_r].
    clear. induction (seq 0 fuel) as [|k ks IH]; [done|]. by rewrite bind_cons, IH.
  - apply IH; [done|]. csimpl in *. inversion_clear Hf. lia.
Qed.
Lemma logs_fuel_enough streams : Forall (λ v : LogView, length v.1.2 < logs_fuel streams)%nat (view_of <$> streams).
Proof.
  unfold logs_fuel. induction streams as [|[name s] streams IH]; [constructor|]. csimpl. constructor.
  - cbn. pose proof (stream_events_length s). lia.
  - apply (Forall_impl _ _ _ IH). intros v Hv. lia.
Qed.
(** The number of rounds that the streams last, and the lines of a stream as they are printed. *)
Definition longest (views : list LogView) : nat := foldr Nat.max 0%nat ((λ v : LogView, length v.1.2) <$> views).
Definition view_lines (mode : OutputMode) (v : LogView) : list CliEffect := (λ ev, EOut (log_line mode v.1.1 (se_data ev))) <$> v.1.2.
Definition line_count (v : LogView) : nat := length v.1.2.
Definition is_line (e : CliEffect) : bool := match e with EOut _ => true | _ => false end.

Lemma longest_bound views : Forall (λ v : LogView, length v.1.2 ≤ longest views)%nat views.
Proof.
  unfold longest. induction views as [|v views IH]; [constructor|]. csimpl. constructor; [lia|]. apply (Forall_impl _ _ _ IH). intros x Hx. lia.
Qed.
Lemma silent_round mode views k : Forall (λ v : LogView, length v.1.2 < k)%nat views → printed_in_round mode views k = [].
Proof.
  unfold printed_in_round. induction 1 as [|[[name evs] ends] views Hv _ IH]; [done|]. cbn [mbind list_bind]. rewrite IH, app_nil_r. cbn in *.
  rewrite lookup_ge_None_2 by lia. by rewrite decide_False by lia.
Qed.
(** Rounds after the last one print nothing. *)
Lemma rounds_longest mode views n :
  (longest views < n)%nat → (seq 0 n ≫= printed_in_round mode views) = (seq 0 (S (longest views)) ≫= printed_in_round mode views).
Proof.
  intros Hn. replace n with (S (longest views) + (n - S (longest views)))%nat by lia. rewrite seq_app, bind_app.
  assert ((seq (0 + S (longest views)) (n - S (longest views)) ≫= printed_in_round mode views) = []) as ->; [|by rewrite app_nil_r].
  assert (∀ m k, (longest views < k)%nat → (seq k m ≫= printed_in_round mode views) = []) as Hk; [|apply Hk; lia].
  induction m as [|m IH]; intros k Hlt; [done|]. cbn [seq]. rewrite bind_cons, IH by lia. rewrite silent_round; [done|].
  apply (Forall_impl _ _ _ (longest_bound views)). intros v Hv. lia.
Qed.
Lemma bind_lookup {A B} (f : A → B) (l : list A) n :
  (length l ≤ n)%nat → (seq 0 n ≫= λ k, match l !! k with Some x => [f x] | None => [] end) = f <$> l.
Proof.
  revert n. induction l as [|x l IH]; intros n Hn.
  { clear. induction (seq 0 n) as [|k ks IHk]; [done|]. by rewrite bind_cons, IHk. }
  destruct n as [|n]; simpl in Hn; [lia|]. change (seq 0 (S n)) with (0%nat :: seq 1 n). rewrite bind_cons, <-fmap_S_seq, list_fmap_bind.
  csimpl. f_equal. rewrite <-(IH n) by lia. done.
Qed.
Lemma sublist_bind {A B} (f g : A → list B) l : (∀ x, f x `sublist_of` g x) → (l ≫= f) `sublist_of` (l ≫= g).
Proof. intros Hfg. induction l as [|x l IH]; [constructor|]. rewrite !bind_cons. by apply sublist_app. Qed.
(** Every line of a stream is printed, in its order. *)
Lemma lines_printed mode views v n :
  v ∈ views → (length v.1.2 ≤ n)%nat → view_lines mode v `sublist_of` (seq 0 n ≫= printed_in_round mode views).
Proof.
  intros Hv Hn. unfold view_lines. rewrite <-(bind_lookup _ _ n Hn). apply sublist_bind. intros k.
  assert (printed_at mode k v `sublist_of` printed_in_round mode views k) as Hs.
  { apply list_elem_of_split in Hv as (l1 & l2 & ->). unfold printed_in_round. rewrite bind_app, bind_cons. apply sublist_inserts_l, sublist_inserts_r. done. }
  etrans; [|exact Hs]. destruct v as [[name evs] ends]. simpl. destruct (evs !! k); [done|]. apply sublist_nil_l.
Qed.
Lemma filterb_bind {A B} (p : B → bool) (f : A → list B) l : filterb p (l ≫= f) = l ≫= (λ x, filterb p (f x)).
Proof. induction l as [|x l IH]; [done|]. by rewrite !bind_cons, filterb_app, IH. Qed.
Lemma length_bind_app {A B} (f g : A → list B) l : length (l ≫= λ x, f x ++ g x) = (length (l ≫= f) + length (l ≫= g))%nat.
Proof. induction l as [|x l IH]; [done|]. rewrite !bind_cons, !length_app, IH. lia. Qed.
(** No other line is printed. *)
Lemma lines_counted mode views n :
  Forall (λ v : LogView, length v.1.2 ≤ n)%nat views →
  length (filterb is_line (seq 0 n ≫= printed_in_round mode views)) = sum_list_with (λ v : LogView, length v.1.2) views.
Proof.
  rewrite filterb_bind. induction 1 as [|v views Hv _ IH]; simpl.
  { clear. induction (seq 0 n) as [|k ks IHk]; [done|]. by rewrite bind_cons. }
  rewrite <-IH. assert (length v.1.2 = length (seq 0 n ≫= λ k, filterb is_line (printed_at mode k v))) as ->.
  { rewrite <-(length_fmap (λ ev, EOut (log_line mode v.1.1 (se_data ev)))), <-(bind_lookup _ _ n Hv). f_equal. apply list_bind_ext; [|done].
    intros k. destruct v as [[name evs] ends]. simpl. destruct (evs !! k); [done|]. case_decide; by destruct ends. }
  rewrite <-length_bind_app. f_equal. apply list_bind_ext; [|done]. intros k. unfold printed_in_round. simpl. by rewrite filterb_app.
Qed.
End cli_lemmas.

(** * Theorems *)

Section cli_theorems.
Context `{CliCodec} (header_ok : string → bool).
Context (answer : list CliEffect → result HttpResponse ReqwestError) (read_file : string → result string string).

(** A successful response is passed on. *)
Lemma sse_call_ok client m path body t resp :
  answer (t ++ [EReq (mkCliRequest m (url client path) (auth_headers header_ok client) body)]) = Ok resp →
  is_ok_status (rs_status resp) = true →
  (resp ← cli_send header_ok answer client m path body; check_status_sse resp) t =
  (Ok resp, t ++ [EReq (mkCliRequest m (url client path) (auth_headers header_ok client) body)]).
Proof. intros Ha Hs. unfold mbind, CliM_bind, cli_send. rewrite Ha. unfold check_status_sse. by rewrite Hs. Qed.
Lemma render_deploy_outcome resp mode t :
  (render_deploy_stream resp mode t).1 =
  match rs_end resp with
  | Some e => Err (CliIo e)
  | None => if is_human mode && existsb reports_failure (response_said resp) then Err (CliArg "deploy failed") else Ok tt
  end.
Proof.
  unfold render_deploy_stream, mbind, CliM_bind. rewrite response_events_spec. unfold mbind, CliM_bind.
  destruct (deploy_events_ok mode (response_said resp) false t) as [t' ->]. cbn [orb].
  destruct (rs_end resp); [done|]. cbn. by destruct (is_human mode && _).
Qed.

Context (daemon_init : string → InitArgs → result unit string).
Context (daemon_join : string → string → string → InitArgs → result unit string).
Context (daemon_leave : string → result unit string).
Local Abbreviation main := (cli_main header_ok answer read_file daemon_init daemon_join daemon_leave).
Definition sse_request (address : string) (token : option string) (path : string) (body : CliBody) : CliRequest :=
  let client := MillClient_new address token in mkCliRequest POST (url client path) (auth_headers header_ok client) body.

(** What the exit code of a deploy tells, once the server accepted it: 4 if the connection broke before the end of the
    progress; else 64 if some event said that the deploy failed, and 0 if none did. With [--json] a failure is printed,
    and the code is 0 all the same. *)
Theorem deploy_exit_code address token dir json file config resp :
  read_file file = Ok config →
  answer [EReq (sse_request address token "/v1/deploy" (TextBody config))] = Ok resp → is_ok_status (rs_status resp) = true →
  (main (mkCliArgs address token dir json (CmdDeploy file))).1 =
  match rs_end resp with
  | Some _ => 4
  | None => if negb json && existsb reports_failure (response_said resp) then 64 else 0
  end.
Proof.
  intros Hf Ha Hs. unfold cli_main, dispatch, cli_deploy. cbn [ca_command ca_json ca_address ca_token ca_data_dir].
  rewrite Hf. unfold mbind at 1, CliM_bind at 1, post_text_sse. erewrite sse_call_ok by (done || exact Ha).
  match goal with |- context [render_deploy_stream ?r ?m ?t] => pose proof (render_deploy_outcome r m t) as Ho;
    destruct (render_deploy_stream r m t) as [r' t'] end.
  cbn [fst] in Ho. subst r'. destruct json, (rs_end resp); try done. cbn [is_human negb andb]. by destruct (existsb _ _).
Qed.

(** A drain that the server reports as failed ends with exit code 0: the client prints the failure and succeeds,
    whatever the events say. *)
Theorem drain_exit_code address token dir json node resp :
  answer [EReq (sse_request address token ("/v1/nodes/" +:+ node +:+ "/drain") NoBody)] = Ok resp →
  is_ok_status (rs_status resp) = true → rs_end resp = None →
  (main (mkCliArgs address token dir json (CmdDrain node))).1 = 0.
Proof.
  intros Ha Hs Hend. unfold cli_main, dispatch, cli_drain. cbn [ca_command ca_json ca_address ca_token ca_data_dir].
  unfold mbind at 1, CliM_bind at 1, post_empty_sse. erewrite sse_call_ok by (done || exact Ha).
  rewrite response_events_spec. unfold mbind, CliM_bind.
  match goal with |- context [fold_events (render_drain_event ?m) ?l ?u ?t] => destruct (drain_events_ok m l u t) as [t' ->] end.
  by rewrite Hend.
Qed.

Context (client : MillClient).

Lemma open_streams_names query services t streams t' :
  open_streams header_ok answer client query services t = (Ok streams, t') → streams.*1 = sv_name <$> services.
Proof.
  revert t streams t'. induction services as [|svc services IH]; intros t streams t'; simpl; [by intros [= <- _]|].
  unfold mbind at 1, CliM_bind at 1. destruct (get_sse _ _ _ _ t) as [[resp|] t1]; [|done]. unfold mbind at 1, CliM_bind at 1.
  destruct (open_streams _ _ _ _ services t1) as [[rest|] t2] eqn:E; [|done]. intros [= <- _]. csimpl. f_equal. by eapply IH.
Qed.
(** C29: [mill logs --all] never stays in its loop once the streams that it reads have ended. When the services are listed and a
    stream is open for each, it ends and prints every log line of every service, each stream's lines in their order, and no other
    line: round [k] prints the line number [k] of each service that has one, in the order of the services, and tells of a broken
    stream after its last line; there are as many rounds as the longest stream has lines, and one. *)
Theorem logs_all_complete follow tail mode :
  (∀ t, (logs_all header_ok answer client follow tail mode t).1 ≠ Ok false) ∧
  ∀ services streams t1 t2,
    cli_get header_ok answer client dec_services "/v1/services" [] = (Ok services, t1) → services ≠ [] →
    open_streams header_ok answer client (log_query follow tail) services t1 = (Ok streams, t2) →
    let views := view_of <$> streams in
    let printed := seq 0 (S (longest views)) ≫= printed_in_round mode views in
    logs_all header_ok answer client follow tail mode [] = (Ok true, t2 ++ printed) ∧
    streams.*1 = sv_name <$> services ∧
    (∀ v, v ∈ views → view_lines mode v `sublist_of` printed) ∧
    length (filterb is_line printed) = sum_list_with line_count views.
Proof.
  assert (∀ streams t, logs_loop (logs_fuel streams) mode streams t =
    (Ok true, t ++ (seq 0 (S (longest (view_of <$> streams))) ≫= printed_in_round mode (view_of <$> streams)))) as Hloop.
  { intros streams t. rewrite logs_loop_spec; [|apply logs_fuel_enough|unfold logs_fuel; lia]. do 2 f_equal. apply rounds_longest.
    pose proof (logs_fuel_enough streams) as Hall. unfold longest. induction Hall as [|v views Hv _ IH]; csimpl; [unfold logs_fuel; lia|lia]. }
  split.
  - intros t. unfold logs_all, mbind, CliM_bind. destruct (cli_get _ _ _ _ _ t) as [[[|svc services]|e] t1]; [by destruct mode| |done].
    destruct (open_streams _ _ _ _ _ t1) as [[streams|e] t2]; [|done]. by rewrite Hloop.
  - intros services streams t1 t2 Hg Hne Ho views printed.
    pose proof (longest_bound views) as Hb. split_and!.
    + unfold logs_all. unfold mbind at 1, CliM_bind at 1. rewrite Hg. destruct services as [|svc services]; [done|].
      unfold mbind at 1, CliM_bind at 1. rewrite Ho. apply Hloop.
    + by eapply open_streams_names.
    + intros v Hv. apply lines_printed; [done|]. rewrite Forall_forall in Hb. specialize (Hb v Hv). lia.
    + apply lines_counted. apply (Forall_impl _ _ _ Hb). intros v Hv. lia.
Qed.

Lemma env_pairs_from m (l : list (string * string)) :
  Forall (λ kv, str_has (Ascii.ascii_of_nat 61) kv.1 = false) l →
  foldl env_pair (Ok m) ((λ '(k, v), k +:+ "=" +:+ v)%string <$> l) = Ok (foldl (λ m '(k, v), <[k := v]> m) m l).
Proof.
  intros Hl. revert m. induction Hl as [|[k v] l Hk _ IH]; intros m; [done|]. csimpl.
  assert (split_once (Ascii.ascii_of_nat 61) (k +:+ "=" +:+ v)%string = Some (k, v)) as ->; [|apply IH].
  clear -Hk. cbn in Hk. induction k as [|c k IHk]; [done|]. cbn [str_has] in Hk. apply orb_false_iff in Hk as [Hc Hk].
  rewrite bool_decide_eq_false in Hc. rewrite str_app_cons. cbn [split_once]. by rewrite decide_False, IHk.
Qed.
Lemma env_pairs_err e envs : foldl env_pair (Err e) envs = Err e.
Proof. induction envs as [|p envs IH]; [done|apply IH]. Qed.

Lemma one_request {A B} (dec : string → result A string) path body (k : A → CliM B) t :
  (∀ a, quiet (k a)) →
  ∃ r t', (post_json header_ok answer client dec path body ≫= k) t =
    (r, t ++ EReq (mkCliRequest POST (url client path) (auth_headers header_ok client) body) :: t') ∧ ∀ q, EReq q ∉ t'.
Proof.
  intros Hk. unfold post_json, mbind at 1 2, CliM_bind at 1 2, cli_send. set (q := EReq _).
  destruct (answer (t ++ [q])) as [resp|e].
  - destruct (quiet_bind _ k (quiet_json_response dec resp) Hk (t ++ [q])) as (r & t' & Hr & Hq).
    unfold mbind, CliM_bind in Hr. rewrite Hr. exists r, t'. by rewrite <-app_assoc.
  - eexists _, []. split; [done|]. intros q' Hq'. by apply elem_of_nil in Hq'.
Qed.
Lemma quiet_spawn_print mode resp :
  quiet (cli_print mode (PrSpawn resp)
    (_ ← out ("  id:      " +:+ stp_id resp)%string;
     _ ← match stp_address resp with Some addr => out ("  address: " +:+ addr)%string | None => mret tt end;
     out ("  status:  " +:+ stp_status resp)%string)).
Proof.
  destruct mode; [|by apply quiet_emit]. repeat (apply quiet_bind; [|intros]); try by apply quiet_emit.
  destruct (stp_address resp); [by apply quiet_emit|apply quiet_ret].
Qed.

(** What [mill spawn] asks for: of the pairs given for the same variable the last one counts, and processor and memory have
    their defaults; the request goes out once. If one of the pairs has no equals sign nothing is sent and the exit code
    is that of a wrong usage. *)
Theorem spawn_asks_for args mode t (l : list (string * string)) :
  (is_Some (sa_task args) ∨ is_Some (sa_image args)) →
  Forall (λ kv, str_has (Ascii.ascii_of_nat 61) kv.1 = false) l →
  (sa_envs args = (λ '(k, v), k +:+ "=" +:+ v)%string <$> l →
     ∃ r t', cli_spawn header_ok answer client args mode t =
       (r, t ++ EReq (mkCliRequest POST (url client "/v1/tasks/spawn") (auth_headers header_ok client)
            (SpawnBody (mkSpawnTaskRequest (sa_task args) (sa_image args) (default default_cpu (sa_cpu args))
               (default default_memory (sa_memory args)) (hm_collect l) (sa_timeout args)))) :: t') ∧
       ∀ q, EReq q ∉ t') ∧
  (∀ bad rest, sa_envs args = ((λ '(k, v), k +:+ "=" +:+ v)%string <$> l) ++ bad :: rest → str_has (Ascii.ascii_of_nat 61) bad = false →
     ∃ e, cli_spawn header_ok answer client args mode t = (Err e, t) ∧ exit_code e = 64).
Proof.
  intros Hsome Hl. assert (∀ m : CliM unit, match sa_task args, sa_image args with
    | None, None => cli_fail (CliArg "either a task template name or --image is required") | _, _ => m end = m) as Hgo.
  { intros m. destruct (sa_task args), (sa_image args); try done. by destruct Hsome as [[? ?]|[? ?]]. }
  split.
  - intros He. unfold cli_spawn. rewrite Hgo, He. unfold mbind at 1, CliM_bind at 1, cli_result, parse_env_pairs.
    rewrite env_pairs_from by done. fold (hm_collect l). set (body := mkSpawnTaskRequest _ _ _ _ _ _).
    apply (one_request dec_spawn). intros resp. apply quiet_spawn_print.
  - intros bad rest He Hbad. unfold cli_spawn. rewrite Hgo, He. unfold mbind at 1, CliM_bind at 1, cli_result, parse_env_pairs.
    rewrite foldl_app, env_pairs_from by done. cbn [foldl env_pair].
    destruct (split_once (Ascii.ascii_of_nat 61) bad) as [[k v]|] eqn:Hs.
    { apply split_once_Some in Hs as [-> _]. rewrite str_has_app in Hbad. cbn in Hbad. by rewrite orb_true_r in Hbad. }
    rewrite env_pairs_err. by eexists.
Qed.
End cli_theorems.

(** ** Redirections to the leader *)

(** What reqwest documents of redirections: a request that is sent on to another host or port does not take its authorization
    along. *)
Class RedirectLaws (same_origin : string → string → bool) (redirect : CliRequest → string → CliRequest) : Prop := {
  redirect_drops_token : ∀ r loc, same_origin (cq_url r) loc = false → cq_authorization (redirect r loc) = None;
}.
Section redirect.
Context {same_origin redirect} {RL : RedirectLaws same_origin redirect}.
(** How a request arrives at the server. *)
Context (to_api : CliRequest → ApiRequest) (arrives : ∀ r, aq_authorization (to_api r) = cq_authorization r).
Context `{HI : HashIter} (env : nat → EnvStep) (fuel : nat) (vars : gmap string string).
Context (encrypt : nat → string → result (string * string) string) (decrypt : string → string → result string string).
Context (parse_bytesize parse_duration : string → result Z string) (hcl : string → result RawConfig string).
Context (show_f64 : f64 → string) (token cluster_key : string) (has_driver has_mesh has_network : bool).
Context (live : nat → LiveMetrics) (proxy : nat → option ProxyMetrics).
Context (leader : nat → option Z) (readable header_ok : string → bool).
Context (pick : list (string * Method * Endpoint) → Method → string → option (Endpoint * string)).
Context (json_secret : string → result string Z) (json_spawn : string → result SpawnTaskRequest Z) (json_join : string → result JoinRequest Z).
Context (query_logs : option string → result (option bool * option Z) Z).
Local Abbreviation serve := (api_request env fuel vars encrypt decrypt parse_bytesize parse_duration hcl show_f64 token cluster_key
  has_driver has_mesh has_network live proxy leader readable header_ok pick json_secret json_spawn json_join query_logs).

(** A change that a follower redirects to the leader, at another address, is refused there: the request arrives without
    the token, so the leader answers 401 and does nothing, and the client ends with exit code 1. *)
Theorem redirected_change_refused `{CliCodec} r loc w t :
  same_origin (cq_url r) loc = false →
  serve (to_api (redirect r loc)) w = Some (Reply UNAUTHORIZED BEmpty, w) ∧
  ∃ e, (check_status_sse (mkHttpResponse UNAUTHORIZED [] None) t).1 = Err e ∧ exit_code e = 1.
Proof.
  intros Ho. split.
  - unfold api_request, require_auth, authorized. by rewrite arrives, redirect_drops_token.
  - unfold check_status_sse. cbn [rs_status is_ok_status UNAUTHORIZED Z.leb Z.ltb Z.compare Pos.compare Pos.compare_cont andb].
    unfold handle_error. destruct (dec_error _); by eexists.
Qed.
End redirect.

(** * Witnesses *)

Module CliExamples.
#[global] Instance ex_codec : CliCodec := {|
  text_of := λ s, s;
  json_value := λ s, if starts_with "{" s then Some (VObj [("line"%string, VStr s)]) else None;
  dec_error := λ _, None;
  dec_status := λ _, Err ""%string;
  dec_services := λ s, Ok ((λ n, mkServiceResponse n "img" (mkReplicaCount 1 1) []) <$> str_lines s);
  dec_tasks := λ _, Ok []; dec_nodes := λ _, Ok []; dec_volumes := λ _, Ok [];
  dec_secret := λ _, Err ""%string; dec_secrets := λ _, Ok [];
  dec_spawn := λ _, Ok (mkSpawnTaskResponse "job-1" "n1" "running" None);
  fixed := λ _ _, "1.0"%string; show_bytes := λ z, pretty z |}.
Definition ex_stream : list string := ["event: failed" +:+ nl +:+ "data: {}" +:+ nl +:+ nl]%string.
Definition ex_failing (_ : list CliEffect) : result HttpResponse ReqwestError := Ok (mkHttpResponse 200 ex_stream None).
(** Two services, the first of which has two lines. *)
Definition ex_logs (t : list CliEffect) : result HttpResponse ReqwestError :=
  match length t with
  | 1%nat => Ok (mkHttpResponse 200 [text_lines ["web"; "db"]%string] None)
  | 2%nat => Ok (mkHttpResponse 200 ["data: a" +:+ nl +:+ nl +:+ "data: b" +:+ nl +:+ nl]%string None)
  | _ => Ok (mkHttpResponse 200 ["data: c" +:+ nl +:+ nl]%string (Some "reset"%string))
  end.
Definition ex_client : MillClient := MillClient_new "http://127.0.0.1:4400" (Some "tok"%string).
Definition no_file (_ : string) : result string string := Ok ""%string.
Definition no_init (_ : string) (_ : InitArgs) : result unit string := Ok tt.
Definition no_join (_ _ _ : string) (_ : InitArgs) : result unit string := Ok tt.
Definition no_leave (_ : string) : result unit string := Ok tt.
Definition ex_redirect (r : CliRequest) (loc : string) : CliRequest :=
  mkCliRequest (cq_method r) loc (if decide (cq_url r = loc) then cq_authorization r else None) (cq_body r).
#[global] Instance ex_redirects : RedirectLaws (λ a b, bool_decide (a = b)) ex_redirect.
Proof. split. intros r loc Ho. apply bool_decide_eq_false in Ho. unfold ex_redirect. cbn. by rewrite decide_False. Qed.
End CliExamples.
Import CliExamples.

Lemma deploy_exit_code_witness :
  (cli_main (λ _, true) ex_failing no_file no_init no_join no_leave
     (mkCliArgs "http://127.0.0.1:4400/" (Some "tok") "/var/lib/mill" false (CmdDeploy "mill.conf"))%string).1 = 64.
Proof.
  rewrite (deploy_exit_code (λ _, true) ex_failing no_file no_init no_join no_leave _ _ _ _ _ "" (mkHttpResponse 200 ex_stream None));
    reflexivity.
Defined.
Lemma drain_exit_code_witness :
  (cli_main (λ _, true) ex_failing no_file no_init no_join no_leave
     (mkCliArgs "http://127.0.0.1:4400" None "/var/lib/mill" false (CmdDrain "n1"))%string).1 = 0.
Proof. apply (drain_exit_code (λ _, true) ex_failing no_file no_init no_join no_leave _ _ _ _ _ (mkHttpResponse 200 ex_stream None)); reflexivity. Defined.
Lemma logs_all_complete_witness :
  ∃ t2, logs_all (λ _, true) ex_logs ex_client false None Human [] =
    (Ok true, t2 ++ [EOut "[web] a"; EOut "[db] c"; EOut "[web] b"; EErr "error reading logs for db: reset"]%string).
Proof.
  eassert (_ = (Ok true, _)) as Hall.
  { eapply (proj2 (logs_all_complete (λ _, true) ex_logs ex_client false None Human));
      first [vm_compute; reflexivity|discriminate]. }
  rewrite Hall. eexists. f_equal.
Defined.
Lemma spawn_asks_for_witness :
  ∃ r t', cli_spawn (λ _, true) ex_failing ex_client
      (mkSpawnArgs None (Some "img:1") None None None ["A=1"; "A=2=3"])%string JsonMode [] =
    (r, EReq (mkCliRequest POST "http://127.0.0.1:4400/v1/tasks/spawn" (Some "Bearer tok")
           (SpawnBody (mkSpawnTaskRequest None (Some "img:1") default_cpu "256M" {["A" := "2=3"]} None)))%string :: t').
Proof.
  destruct (proj1 (spawn_asks_for (λ _, true) ex_failing ex_client (mkSpawnArgs None (Some "img:1") None None None ["A=1"; "A=2=3"])%string
    JsonMode [] [("A", "1"); ("A", "2=3")]%string ltac:(right; by eexists) ltac:(repeat constructor)) eq_refl) as (r & t' & Hr & _).
  exists r, t'. rewrite Hr. reflexivity.
Defined.
Lemma redirected_change_refused_witness :
  ∃ e, (check_status_sse (mkHttpResponse UNAUTHORIZED [] None) []).1 = Err e ∧ exit_code e = 1.
Proof.
  exact (proj2 (redirected_change_refused (RL := ex_redirects)
    (λ r, mkApiRequest (cq_method r) (cq_url r) None (cq_authorization r) "") (λ _, eq_refl) (HI := stored_order)
    ApiExamples.follower_env 5 ∅ (λ _ v, Ok (v, ""%string)) (λ c _, Ok c) (λ _, Ok 0) (λ _, Ok 0) (λ _, Err ""%string)
    (λ _, ""%string) "tok" "key" false false false (λ _, LiveMetrics_new) (λ _, None) (λ _, Some 1) (λ _, true) (λ _, true) ApiExamples.ex_pick
    (λ b, Ok b) (λ _, Err 422) (λ _, Err 422) (λ _, Err 400)
    (mkCliRequest DELETE "http://n2/v1/tasks/x" (Some "Bearer tok") NoBody)%string "http://n1/v1/tasks/x" ReportExamples.task_world [] eq_refl)).
Defined.
