(* ===== verification/Membership.v ===== *)
(** The voters of the raft cluster ([src/crates/raft/src/lib.rs]: [initialize], [add_learner], [change_membership]) as nodes join and
    are removed through the control API ([node/src/primary/api/handlers.rs]: [post_join], [delete_node]). openraft's membership
    is an interface with what it documents. A join is a sequence of steps, any of which may be the last. The theorems show that
    removing a node never takes its vote away, that a join that fails at its last step leaves a voter that is not registered, and
    that the identifier of a removed node is given to the next one that joins. *)

From S2P Require Import Prelude Types Fsm Addr World Api RaftNet.
Local Open Scope Z_scope.

(** * openraft's membership *)

Class RaftMembership := {
  Mem : Type;
  voters : Mem → gset Z;
  m_initialize : Z → Mem;
  m_add_learner : Z → string → Mem → result Mem string;
  m_add_voters : gset Z → Mem → result Mem string;
}.
(** A learner has no vote; adding voters keeps those there are. *)
Class RaftMembershipLaws (R : RaftMembership) : Prop := {
  initialize_voters : ∀ id, voters (m_initialize id) = {[ id ]};
  learner_no_vote : ∀ id addr m m', m_add_learner id addr m = Ok m' → voters m' = voters m;
  add_voters_union : ∀ ids m m', m_add_voters ids m = Ok m' → voters m' = voters m ∪ ids;
}.

(** * MillRaft (raft/src/lib.rs) *)

Inductive RaftError := RaftErrorText (e : string).
Section mill_raft.
Context `{R : RaftMembership}.
Definition of_openraft {A} (r : result A string) : result A RaftError := match r with Ok a => Ok a | Err e => Err (RaftErrorText e) end.
Definition mill_initialize (id : Z) : Mem := m_initialize id.
Definition mill_add_learner (id : Z) (addr : string) (m : Mem) : result Mem RaftError := of_openraft (m_add_learner id addr m).
Definition mill_change_membership (member_ids : list Z) (m : Mem) : result Mem RaftError :=
  of_openraft (m_add_voters (list_to_set member_ids) m).

(** * The cluster *)

(** The replicated state and raft's membership; and, of the past, every identifier that was registered, every one that a
    membership change was confirmed for, and every one for which a change was answered by an error. *)
Record Cluster := mkCluster {
  cl_fsm : FsmState;
  cl_mem : Mem;
  cl_registered : gset Z;
  cl_promoted : gset Z;
  cl_tried : gset Z;
}.
Context `{HI : HashIter}.
Definition with_mem (m : Mem) (s : Cluster) : Cluster := mkCluster (cl_fsm s) m (cl_registered s) (cl_promoted s) (cl_tried s).
Definition with_fsm (f : FsmState) (s : Cluster) : Cluster :=
  mkCluster f (cl_mem s) (cl_registered s ∪ dom (nodes f)) (cl_promoted s) (cl_tried s).
Definition applied (cmd : Command) (s : Cluster) : Cluster := with_fsm (apply_command (cl_fsm s) cmd).1 s.
(** A command that neither registers nor removes a node. *)
Definition keeps_nodes (cmd : Command) : bool :=
  match cmd with NodeRegister _ _ _ _ _ _ _ _ | NodeRemove _ => false | _ => true end.
(** One effect of a [post_join] or [delete_node], and everything else that is applied. Requests run at the same time and each
    may end after any of its steps, so that a node may be a voter that is never registered. [known] are the registered
    identifiers that the handler read before it asked for the change. A change that is answered by an error may have been made
    in part, or be made later. *)
Inductive cluster_step : Cluster → Cluster → Prop :=
| cluster_learner s id addr m' :
    mill_add_learner id addr (cl_mem s) = Ok m' ∨ voters m' = voters (cl_mem s) → cluster_step s (with_mem m' s)
| cluster_promote s known id m' :
    (∀ i, i ∈ known → i ∈ cl_registered s) → mill_change_membership (known ++ [id]) (cl_mem s) = Ok m' →
    cluster_step s (mkCluster (cl_fsm s) m' (cl_registered s) (cl_promoted s ∪ {[ id ]}) (cl_tried s))
| cluster_unsure s known id m' :
    (∀ i, i ∈ known → i ∈ cl_registered s) → voters (cl_mem s) ⊆ voters m' →
    voters m' ⊆ voters (cl_mem s) ∪ list_to_set (known ++ [id]) →
    cluster_step s (mkCluster (cl_fsm s) m' (cl_registered s) (cl_promoted s) (cl_tried s ∪ {[ id ]}))
| cluster_register s id mid addr res key inst rpc adv :
    id ∈ cl_promoted s → cluster_step s (applied (NodeRegister id mid addr res key inst rpc adv) s)
| cluster_remove s id : cluster_step s (applied (NodeRemove id) s)
| cluster_other s cmd : keeps_nodes cmd = true → cluster_step s (applied cmd s).
(** A node that [init] started, which registers itself. *)
Definition cluster_init (f : FsmState) : Cluster := mkCluster f (mill_initialize 1) (dom (nodes f)) {[ 1 ]} ∅.

Context `{!RaftMembershipLaws R}.
Definition cluster_inv (s : Cluster) : Prop :=
  dom (nodes (cl_fsm s)) ⊆ cl_registered s ∧ cl_registered s ⊆ cl_promoted s ∧ cl_promoted s ⊆ voters (cl_mem s) ∧
  voters (cl_mem s) ⊆ cl_promoted s ∪ cl_tried s.

Lemma change_voters ids m m' : mill_change_membership ids m = Ok m' → voters m' = voters m ∪ list_to_set ids.
Proof.
  unfold mill_change_membership, of_openraft. destruct (m_add_voters _ m) as [m1|] eqn:H; [|done]. intros [= <-].
  by apply add_voters_union.
Qed.
Lemma learner_voters id addr m m' : mill_add_learner id addr m = Ok m' → voters m' = voters m.
Proof.
  unfold mill_add_learner, of_openraft. destruct (m_add_learner _ _ m) as [m1|] eqn:H; [|done]. intros [= <-]. by eapply learner_no_vote.
Qed.
Lemma removed_nodes f id : (apply_command f (NodeRemove id)).2 = RespOk → nodes (apply_command f (NodeRemove id)).1 = delete id (nodes f).
Proof.
  intros Hok. pose proof (proj1 (node_remove_ok f id) Hok) as (n & Hn & _). by rewrite (node_remove_effect f id n Hn Hok).
Qed.
Lemma remove_dom f id : dom (nodes (apply_command f (NodeRemove id)).1) ⊆ dom (nodes f).
Proof.
  destruct (apply_command f (NodeRemove id)).2 as [|e] eqn:Hr.
  - rewrite removed_nodes, dom_delete_L by done. set_solver.
  - revert Hr. simpl. unfold apply_node_remove. repeat case_match; simpl; done.
Qed.
Lemma keeps_nodes_dom f cmd : keeps_nodes cmd = true → dom (nodes (apply_command f cmd).1) = dom (nodes f).
Proof.
  destruct cmd; simpl; unfold apply_heartbeat; try done; intros _; repeat case_match; simpl; try done;
    apply dom_insert_lookup_L; by eexists.
Qed.
Lemma cluster_step_inv s s' : cluster_step s s' → cluster_inv s → cluster_inv s' ∧ voters (cl_mem s) ⊆ voters (cl_mem s').
Proof.
  intros Hs (Hn & Hr & Hp & Hv).
  destruct Hs as [s id addr m' Hm|s known id m' Hk Hm|s known id m' Hk Hlo Hhi|s id mid addr res key inst rpc adv Hid|s id|s cmd Hc];
    unfold cluster_inv, applied, with_fsm, with_mem; cbn [cl_fsm cl_mem cl_registered cl_promoted cl_tried].
  - assert (voters m' = voters (cl_mem s)) as -> by (destruct Hm as [Hm|Hm]; [by eapply learner_voters|done]). set_solver.
  - apply change_voters in Hm. rewrite Hm, list_to_set_app_L. set_solver.
  - rewrite list_to_set_app_L in Hhi. set_solver.
  - simpl. rewrite dom_insert_L. set_solver.
  - pose proof (remove_dom (cl_fsm s) id). set_solver.
  - rewrite (keeps_nodes_dom _ _ Hc). set_solver.
Qed.
Lemma cluster_steps_inv s s' : rtc cluster_step s s' → cluster_inv s → cluster_inv s' ∧ voters (cl_mem s) ⊆ voters (cl_mem s').
Proof.
  induction 1 as [|x y z Hxy _ IH]; [done|]. intros Hx. destruct (cluster_step_inv x y Hxy Hx) as [Hy Hsub].
  destruct (IH Hy) as [Hz Hsub']. split; [done|by etrans].
Qed.
Lemma cluster_init_inv f : dom (nodes f) ⊆ {[ 1 ]} → cluster_inv (cluster_init f).
Proof. intros Hf. unfold cluster_inv, mill_initialize. simpl. unfold mill_initialize. rewrite initialize_voters. set_solver. Qed.

(** * Theorems *)

(** C20: In every cluster that grows from one node, through joins that run at the same time and may fail after any of their
    steps: every node that is or was registered was made a voter first, every identifier whose membership change was confirmed
    votes, registered or not, and nothing votes but those and the ones whose change was answered by an error. No step takes a
    vote away: a node that was registered once, and removed since, counts for every majority from then on. *)
Theorem removal_keeps_vote f s :
  dom (nodes f) ⊆ {[ 1 ]} → rtc cluster_step (cluster_init f) s →
  cl_registered s ⊆ cl_promoted s ∧ cl_promoted s ⊆ voters (cl_mem s) ∧ voters (cl_mem s) ⊆ cl_promoted s ∪ cl_tried s ∧
  ∀ s', rtc cluster_step s s' →
    voters (cl_mem s) ⊆ voters (cl_mem s') ∧ ∀ id, is_Some (nodes (cl_fsm s) !! id) → id ∈ voters (cl_mem s').
Proof.
  intros Hf Hs. destruct (cluster_steps_inv _ _ Hs (cluster_init_inv f Hf)) as [Hi _]. pose proof Hi as (Hn & Hr & Hp & Hv).
  split_and!; [done..|]. intros s' Hs'. destruct (cluster_steps_inv _ _ Hs' Hi) as [_ Hsub]. split; [done|].
  intros id Hid%elem_of_dom. set_solver.
Qed.

(** When the node with the highest identifier is removed, the next node that asks to join is offered the same identifier,
    if the one before it is still registered; and that identifier still has its vote. A new node without the old one's log
    and vote so takes its place among the voters. *)
Theorem removed_id_reused f s i :
  dom (nodes f) ⊆ {[ 1 ]} → rtc cluster_step (cluster_init f) s →
  is_Some (nodes (cl_fsm s) !! i) → is_Some (nodes (cl_fsm s) !! (i - 1)) → 1 < i < u64_max →
  (∀ j, is_Some (nodes (cl_fsm s) !! j) → j ≤ i) → (apply_command (cl_fsm s) (NodeRemove i)).2 = RespOk →
  let s' := applied (NodeRemove i) s in
  cluster_step s s' ∧ nodes (cl_fsm s') !! i = None ∧ i ∈ voters (cl_mem s') ∧
  ∀ info, get_join_info (cl_fsm s') = Ok info → ji_next_raft_id info = i.
Proof.
  intros Hf Hs Hi Hpred Hrange Hmax Hok. cbn zeta.
  destruct (cluster_steps_inv _ _ Hs (cluster_init_inv f Hf)) as [(Hn & Hr & Hp & _) _].
  split; [by constructor|]. unfold applied, with_fsm. cbn [cl_fsm cl_mem]. rewrite removed_nodes by done. split; [apply lookup_delete_eq|].
  split; [apply Hp, Hr, Hn; by apply elem_of_dom|]. intros info Hinfo. apply join_info_next in Hinfo as ->.
  unfold next_raft_id. rewrite removed_nodes by done.
  assert (foldr Z.max 0 (hm_keys (delete i (nodes (cl_fsm s)))) = i - 1) as ->.
  { apply Z.le_antisymm.
    - apply foldr_max_le; [lia|]. intros j [n Hj]%elem_of_hm_keys. apply lookup_delete_Some in Hj as [Hne Hj].
      pose proof (Hmax j (ex_intro _ n Hj)). lia.
    - apply foldr_max_ge, elem_of_hm_keys. by rewrite lookup_delete_ne by lia. }
  unfold u64_add, wrap64, u64_max in *. rewrite Z.mod_small; lia.
Qed.
End mill_raft.

(** The steps of [cluster_step] are in the order of the handler: it proposes a registration, and no other command, directly
    after a membership change with the joining identifier that was confirmed. The registration may fail, and only then does an
    error follow the change. *)
Definition proposes (e : Effect) : Prop := match e with EPropose _ _ => True | _ => False end.
Definition join_trace (b : JoinRequest) (r : result Z ApiError) (t : list Effect) : Prop :=
  (∃ t0 known p, t = t0 ++ [ERaft (ChangeMembership (known ++ [jr_raft_id b])) true; EPropose (join_register b) p] ∧
     Forall (λ e, ¬ proposes e) t0 ∧ (r = Ok NO_CONTENT ↔ p = Ok RespOk)) ∨
  (∃ e, r = Err e) ∧ Forall (λ e, ¬ proposes e) t.
Ltac no_proposal := rewrite ?Forall_app, ?Forall_cons, ?Forall_nil; simpl; tauto.
Theorem post_join_promotes_first `{HI : HashIter} env has_mesh has_network b w :
  ends (post_join env has_mesh has_network b) (λ r _ t, join_trace b r t) w.
Proof.
  unfold post_join. apply ends_bind_ok.
  assert (ends (if has_mesh then add_wg_peer env (join_peer b) else mret (Ok tt)) (λ _ _ t, Forall (λ e, ¬ proposes e) t) w) as Hwg.
  { destruct has_mesh; [|by apply ends_ret]. apply ends_bind, ends_await. intros w1 _. simpl. apply ends_bind, ends_record. intros w2 _ _ _ _.
    destruct (es_ok _); apply ends_ret; simpl; no_proposal. }
  eapply ends_mono; [exact Hwg|]. intros [_|e] w1 t1 Ht1; [|by right; eauto]. apply ends_bind.
  assert (ends (if has_network then record (ERaft (SetPeer (jr_raft_id b) ("http://" +:+ show_ip (jr_tunnel_ip b) +:+ ":4401")) true) else mret tt)
            (λ _ _ t, Forall (λ e, ¬ proposes e) t) w1) as Hnet.
  { destruct has_network; [|by apply ends_ret]. apply ends_record. intros. no_proposal. }
  eapply ends_mono; [exact Hnet|]. intros [] w2 t2 Ht2. apply ends_bind_ok, ends_lift_err, ends_raft_op.
  intros [_|e] w3; simpl; [|right; split; [by eexists|no_proposal]].
  apply ends_bind, ends_read. apply ends_bind_ok, ends_lift_err, ends_raft_op.
  intros [_|e] w4; simpl; [|right; split; [by eexists|no_proposal]].
  apply ends_bind, ends_propose. intros p w5.
  assert (∀ r' : result Z ApiError, (r' = Ok NO_CONTENT ↔ p = Ok RespOk) → ∀ t0 t, Forall (λ e, ¬ proposes e) t0 →
    t = t0 ++ [ERaft (ChangeMembership (hm_keys (nodes (w_fsm w3)) ++ [jr_raft_id b])) true; EPropose (join_register b) p] →
    join_trace b r' t) as Hfin by (intros r' Hr t0 t Ht0 ->; left; eauto 10).
  destruct p as [[]|]; apply ends_ret;
    (apply (λ H, Hfin _ H (t1 ++ t2 ++ [ERaft (AddLearner (jr_raft_id b) (show_ip (jr_tunnel_ip b) +:+ ":4401")) true])); [by split|no_proposal|by rewrite <-!app_assoc]).
Qed.

(** * Examples *)

Module MembershipExamples.
Import FsmExamples RaftNetExamples.
#[global] Instance set_membership : RaftMembership := {|
  Mem := gset Z; voters := λ m, m; m_initialize := λ id, {[ id ]}; m_add_learner := λ _ _ m, Ok m; m_add_voters := λ ids m, Ok (m ∪ ids) |}.
#[global] Instance set_membership_laws : RaftMembershipLaws set_membership.
Proof. split; cbn; [done|congruence|congruence]. Qed.
Definition after (cmds : list Command) (f : FsmState) : FsmState := foldl (λ f c, (@apply_command stored_order f c).1) f cmds.
Definition three_nodes : FsmState := after [join_register (ex_joiner 2 174260226); join_register (ex_joiner 3 174260227)] one_node.
Definition three_cluster : Cluster := mkCluster three_nodes {[ 1; 2; 3 ]} {[ 1; 2; 3 ]} {[ 1; 2; 3 ]} ∅.
(** The steps of one join: a learner, a voter, a registered node. *)
Lemma join_in s id ip s' :
  applied (HI := stored_order) (join_register (ex_joiner id ip))
    (mkCluster (cl_fsm s) (cl_mem s ∪ list_to_set (@hm_keys stored_order _ _ _ _ (nodes (cl_fsm s)) ++ [id]))
       (cl_registered s) (cl_promoted s ∪ {[ id ]}) (cl_tried s)) = s' →
  dom (nodes (cl_fsm s)) ⊆ cl_registered s → rtc (cluster_step (HI := stored_order)) s s'.
Proof.
  intros <- Hdom. eapply rtc_l; [apply (cluster_promote s (@hm_keys stored_order _ _ _ _ (nodes (cl_fsm s))) id); [|reflexivity]|].
  - intros i Hi%elem_of_hm_keys. by apply Hdom, elem_of_dom.
  - apply rtc_once. eapply cluster_register. simpl. set_solver.
Qed.
Lemma three_reachable : rtc (cluster_step (HI := stored_order)) (cluster_init one_node) three_cluster.
Proof.
  etrans; [apply (join_in _ 2 174260226 (@mkCluster set_membership two_nodes ({[ 1; 2 ]} : gset Z) {[ 1; 2 ]} {[ 1; 2 ]} ∅)); [vm_compute; reflexivity|set_solver]|].
  apply (join_in _ 3 174260227); [vm_compute; reflexivity|]. apply (bool_decide_unpack _). vm_compute. exact I.
Qed.
Lemma removal_keeps_vote_witness : voters (cl_mem three_cluster) ⊆ {[ 1; 2; 3 ]} ∪ ∅.
Proof. exact (proj1 (proj2 (proj2 (removal_keeps_vote (HI := stored_order) one_node three_cluster ltac:(vm_compute; set_solver) three_reachable)))). Defined.
Lemma removed_id_reused_witness :
  3 ∈ voters (cl_mem three_cluster) ∧ nodes (@apply_command stored_order three_nodes (NodeRemove 3)).1 !! 3 = None.
Proof.
  destruct (removed_id_reused (HI := stored_order) one_node three_cluster 3) as (_ & H1 & H2 & _);
    [vm_compute; set_solver|exact three_reachable|by eexists|by eexists|unfold u64_max; lia| |vm_compute; reflexivity|by split].
  intros j [n Hj]. assert (Forall (λ i, i ≤ 3) (@hm_keys stored_order _ _ _ _ (nodes (cl_fsm three_cluster)))) as Hk
    by (apply (bool_decide_unpack _); vm_compute; exact I).
  rewrite Forall_forall in Hk. apply Hk, elem_of_hm_keys. eauto.
Defined.
(** A membership change that is made and a registration that is not: a voter that no node of the state stands for. *)
Lemma unregistered_voter :
  ∃ s, rtc (cluster_step (HI := stored_order)) (cluster_init one_node) s ∧
    2 ∈ voters (cl_mem s) ∧ nodes (cl_fsm s) !! 2 = None.
Proof.
  eexists. split; [apply rtc_once; apply (cluster_promote (HI := stored_order) (cluster_init one_node) [1] 2); [|reflexivity]|].
  - intros i ->%list_elem_of_singleton. vm_compute. set_solver.
  - split; [|vm_compute; reflexivity]. apply (bool_decide_unpack _). vm_compute. exact I.
Qed.
(** Two of three nodes removed, one after the other: the node that is left is no majority of the voters. *)
Lemma removals_lose_majority :
  ∃ s, rtc (cluster_step (HI := stored_order)) (cluster_init one_node) s ∧
    size (nodes (cl_fsm s)) = 1%nat ∧ size (voters (cl_mem s)) = 3%nat.
Proof.
  eexists. split; [etrans; [exact three_reachable|]|].
  - eapply rtc_l; [apply (cluster_remove three_cluster 3)|].
    eapply rtc_l; [apply (cluster_remove _ 2)|apply rtc_refl].
  - split; vm_compute; reflexivity.
Qed.
End MembershipExamples.
