(* ===== verification/Fifos.v ===== *)
(** The pipes a container's output comes through ([src/crates/containerd/src/logs.rs]): the named pipes of an allocation in the
    logs directory, and the readers that turn what is written into them into log lines. The file system's own faults are a
    parameter. The theorems show the life of an allocation's pipes, which lines a reader passes on, and that output which
    is not UTF-8 ends the log of its stream. *)

From S2P Require Import Prelude Types Rpc Oci Deploy Logs.
Local Open Scope Z_scope.

(** * The file system *)

Inductive FileKind := FifoFile | RegularFile | DirFile.
#[global] Instance FileKind_eq : EqDecision FileKind.
Proof. solve_decision. Defined.
Abbreviation Fs := (gmap string FileKind).
(** The directories above a path that is relative to an existing one: [base], and [base/alloc_id]. *)
Definition child (dir name : string) : string := path_join dir name.

Section fifos.
(** Faults of the disk, by operation and path. *)
Context (fault : string → string → option string).
Context (log_base_dir : string).

Definition log_dir (alloc_id : string) : string := path_join log_base_dir alloc_id.
(** [create_dir_all], below a directory that exists or is made with it. *)
Definition create_dir_all (dir : string) (fs : Fs) : result unit ContainerdError * Fs :=
  match fault "mkdir" dir with
  | Some e => (Err (LogIo e), fs)
  | None =>
      match fs !! dir with
      | Some DirFile => (Ok tt, fs)
      | Some _ => (Err (LogIo "File exists"), fs)
      | None => (Ok tt, <[dir := DirFile]> fs)
      end
  end.
Definition mkfifo (path : string) (fs : Fs) : result unit ContainerdError * Fs :=
  match fault "mkfifo" path with
  | Some e => (Err (LogIo e), fs)
  | None => if hm_contains path fs then (Err (LogIo "File exists"), fs) else (Ok tt, <[path := FifoFile]> fs)
  end.
Definition remove_file (path : string) (fs : Fs) : result unit ContainerdError * Fs :=
  match fault "unlink" path with
  | Some e => (Err (LogIo e), fs)
  | None =>
      match fs !! path with
      | None => (Err (LogIo "No such file or directory"), fs)
      | Some DirFile => (Err (LogIo "Is a directory"), fs)
      | Some _ => (Ok tt, delete path fs)
      end
  end.

(** * The pipes of an allocation *)

Definition create_fifo (path : string) (fs : Fs) : result unit ContainerdError * Fs :=
  if hm_contains path fs then
    match remove_file path fs with
    | (Err e, fs) => (Err e, fs)
    | (Ok _, fs) => mkfifo path fs
    end
  else mkfifo path fs.
Definition setup_fifos (alloc_id : string) (fs : Fs) : result (string * string) ContainerdError * Fs :=
  let dir := log_dir alloc_id in
  match create_dir_all dir fs with
  | (Err e, fs) => (Err e, fs)
  | (Ok _, fs) =>
      let stdout_path := child dir "stdout" in
      let stderr_path := child dir "stderr" in
      match create_fifo stdout_path fs with
      | (Err e, fs) => (Err e, fs)
      | (Ok _, fs) =>
          match create_fifo stderr_path fs with
          | (Err e, fs) => (Err e, fs)
          | (Ok _, fs) => (Ok (stdout_path, stderr_path), fs)
          end
      end
  end.
Definition reconnect_fifos (alloc_id : string) (fs : Fs) : option (string * string) :=
  let stdout_path := child (log_dir alloc_id) "stdout" in
  let stderr_path := child (log_dir alloc_id) "stderr" in
  if negb (hm_contains stdout_path fs) || negb (hm_contains stderr_path fs) then None else Some (stdout_path, stderr_path).
(** [remove_dir_all]: the directory and everything below it; a fault is ignored and leaves everything. *)
Definition below (dir path : string) : bool := bool_decide (path = dir) || starts_with (dir +:+ "/") path.
Definition cleanup_fifos (alloc_id : string) (fs : Fs) : Fs :=
  let dir := log_dir alloc_id in
  match fault "rmdir" dir with
  | Some _ => fs
  | None => filter (λ '(p, _), below dir p = false) fs
  end.
End fifos.

(** * The readers *)

(** [spawn_reader], once the pipe is open, until its writers have closed it: [written] is all that is written, and [now] the
    clock at each line. A line that is not UTF-8 is an error, which ends the reader. *)
Fixpoint reader_loop (stream : LogStream) (now : nat → Z) (n : nat) (lines : list string) : list LogLine :=
  match lines with
  | [] => []
  | content :: lines =>
      match from_utf8 content with
      | Ok content => mkLogLine (now n) stream content :: reader_loop stream now (S n) lines
      | Err _ => []
      end
  end.
Definition spawn_reader (stream : LogStream) (now : nat → Z) (written : string) : list LogLine :=
  reader_loop stream now 0 (str_lines written).

(** * Lemmas *)

Lemma reader_loop_valid stream now n ls :
  Forall (λ l, from_utf8 l = Ok l) ls → ll_content <$> reader_loop stream now n ls = ls.
Proof. intros Hl. revert n. induction Hl as [|l ls Hl _ IH]; intros n; [done|]. cbn [reader_loop]. rewrite Hl. csimpl. by rewrite IH. Qed.
Lemma reader_loop_app stream now n ls bad e rest :
  Forall (λ l, from_utf8 l = Ok l) ls → from_utf8 bad = Err e →
  reader_loop stream now n (ls ++ bad :: rest) = reader_loop stream now n ls.
Proof.
  intros Hl Hb. revert n. induction Hl as [|l ls Hl _ IH]; intros n; cbn [app reader_loop]; [by rewrite Hb|]. by rewrite Hl, IH.
Qed.
Lemma child_neq dir : child dir "stdout" ≠ child dir "stderr".
Proof.
  unfold child, path_join. change (starts_with "/" "stdout") with false. change (starts_with "/" "stderr") with false. cbv iota.
  destruct (ends_with "/" dir || str_is_empty dir); intros Heq.
  - induction dir as [|c dir IH]; [done|]. rewrite !str_app_cons in Heq. injection Heq as Heq. auto.
  - induction dir as [|c dir IH]; [done|]. rewrite !str_app_cons in Heq. injection Heq as Heq. auto.
Qed.
Lemma child_below dir name :
  ends_with "/" dir = false → dir ≠ ""%string → starts_with "/" name = false → child dir name = (dir +:+ "/" +:+ name)%string.
Proof. intros He Hd Hn. unfold child, path_join. rewrite Hn, He. by destruct dir. Qed.
Lemma below_child dir name : below dir (dir +:+ "/" +:+ name) = true ∧ (dir +:+ "/" +:+ name)%string ≠ dir.
Proof.
  split.
  - unfold below. apply orb_true_iff. right. apply starts_with_true. exists name. by rewrite str_app_assoc.
  - intros Heq%(f_equal String.length). rewrite !str_length_app in Heq. cbn in Heq. lia.
Qed.
Section fifo_lemmas.
Context (fault : string → string → option string).
Hypothesis no_fault : ∀ op p, fault op p = None.

Lemma create_fifo_ok path fs : fs !! path ≠ Some DirFile → create_fifo fault path fs = (Ok tt, <[path := FifoFile]> (delete path fs)).
Proof.
  intros Hd. unfold create_fifo, mkfifo, remove_file. rewrite !no_fault. unfold hm_contains.
  destruct (fs !! path) as [k|] eqn:Hp.
  - rewrite bool_decide_eq_true_2 by eauto. by destruct k; try done; rewrite lookup_delete_eq, bool_decide_eq_false_2 by (by intros [? ?]).
  - rewrite bool_decide_eq_false_2 by (by intros [? ?]). by rewrite delete_id.
Qed.
End fifo_lemmas.

(** * Theorems *)

Section fifo_theorems.
Context (fault : string → string → option string) (no_fault : ∀ op p, fault op p = None) (base : string).
Local Abbreviation out_of a := (child (log_dir base a) "stdout").
Local Abbreviation err_of a := (child (log_dir base a) "stderr").

(** The life of an allocation's pipes, on a disk without faults: unless directories are in their place, setting them up succeeds,
    also over pipes that a crash left behind, makes both pipes and changes nothing else but the allocation's directory;
    from then on a restarted node finds them again; once cleaned up they are gone, and only what is below the
    allocation's directory went. *)
Theorem fifo_life a fs :
  fs !! log_dir base a ≠ Some FifoFile → fs !! log_dir base a ≠ Some RegularFile →
  fs !! out_of a ≠ Some DirFile → fs !! err_of a ≠ Some DirFile →
  log_dir base a ≠ ""%string → ends_with "/" (log_dir base a) = false →
  ∃ fs', setup_fifos fault base a fs = (Ok (out_of a, err_of a), fs') ∧
    fs' !! out_of a = Some FifoFile ∧ fs' !! err_of a = Some FifoFile ∧ fs' !! log_dir base a = Some DirFile ∧
    (∀ p, p ≠ out_of a → p ≠ err_of a → p ≠ log_dir base a → fs' !! p = fs !! p) ∧
    reconnect_fifos base a fs' = Some (out_of a, err_of a) ∧
    reconnect_fifos base a (cleanup_fifos fault base a fs') = None ∧
    (∀ p, below (log_dir base a) p = false → cleanup_fifos fault base a fs' !! p = fs' !! p).
Proof.
  intros Hf Hr Ho He Hne Hend. set (dir := log_dir base a) in *.
  assert (below dir (child dir "stdout") = true ∧ child dir "stdout" ≠ dir) as [Hb Hod].
  { rewrite child_below by done. apply below_child. }
  assert (child dir "stderr" ≠ dir) as Hed by (rewrite child_below by done; apply below_child). unfold setup_fifos. fold dir. set (o := child dir "stdout") in *.
  set (e := child dir "stderr") in *. pose proof (child_neq dir : o ≠ e) as Hoe.
  assert (create_dir_all fault dir fs = (Ok tt, <[dir := DirFile]> fs)) as ->.
  { unfold create_dir_all. rewrite no_fault. destruct (fs !! dir) as [[]|] eqn:Hd; try done. by rewrite insert_id. }
  rewrite create_fifo_ok, create_fifo_ok by (done || simplify_map_eq; done).
  eexists. split; [done|]. split_and!; try by simplify_map_eq.
  - intros p H1 H2 H3. by simplify_map_eq.
  - unfold reconnect_fifos, hm_contains. fold dir o e. rewrite !bool_decide_eq_true_2 by (simplify_map_eq; eauto). done.
  - unfold reconnect_fifos, cleanup_fifos, hm_contains. fold dir o e. rewrite no_fault, bool_decide_eq_false_2; [done|].
    intros [k Hk]. apply map_lookup_filter_Some in Hk as [_ Hk]. congruence.
  - intros p Hp. unfold cleanup_fifos. fold dir. rewrite no_fault. generalize (<[e:=FifoFile]> (delete e (<[o:=FifoFile]> (delete o (<[dir:=DirFile]> fs))))). intros m.
    apply option_eq. intros k. rewrite map_lookup_filter_Some. naive_solver.
Qed.

(** A reader passes on exactly the lines that are written, in order and without their line ends, as long as they are valid
    UTF-8. The first line that is not ends it: nothing that the container writes to that stream afterwards is logged. *)
Theorem reader_lines stream now ls :
  Forall plain_line ls → Forall (λ l, from_utf8 l = Ok l) ls →
  ll_content <$> spawn_reader stream now (text_lines ls) = ls ∧
  ∀ bad e rest, plain_line bad → Forall plain_line rest → from_utf8 bad = Err e →
    spawn_reader stream now (text_lines (ls ++ bad :: rest)) = spawn_reader stream now (text_lines ls).
Proof.
  intros Hp Hv. unfold spawn_reader. split; [rewrite str_lines_text by done; by apply reader_loop_valid|].
  intros bad e rest Hb Hr Hbad. rewrite !str_lines_text; [by eapply reader_loop_app|done|].
  apply Forall_app. split; [done|]. by constructor.
Qed.
End fifo_theorems.

(** * Witnesses *)

Definition stale_fs : Fs := <["/logs/web-1" := DirFile]> (<["/logs/web-1/stdout" := FifoFile]> (<["/logs/web-10" := DirFile]> ∅))%string.
Lemma fifo_life_witness :
  ∃ fs', setup_fifos (λ _ _, None) "/logs" "web-1" stale_fs = (Ok ("/logs/web-1/stdout", "/logs/web-1/stderr")%string, fs') ∧
    reconnect_fifos "/logs" "web-1" (cleanup_fifos (λ _ _, None) "/logs" "web-1" fs') = None.
Proof.
  destruct (fifo_life (λ _ _, None) (λ _ _, eq_refl) "/logs" "web-1" stale_fs) as (fs' & Hs & _ & _ & _ & _ & _ & Hc & _);
    [vm_compute; discriminate..|reflexivity|].
  exists fs'. split; [exact Hs|exact Hc].
Defined.
Lemma reader_lines_witness :
  ll_content <$> spawn_reader Stdout (λ _, 0) (text_lines ["ready"; bytes_str [255]%nat; "lost"]%string) = ["ready"%string].
Proof.
  destruct (reader_lines Stdout (λ _, 0) ["ready"]%string) as [H1 H2]; [repeat constructor..|].
  rewrite <-H1 at 1.
  exact (f_equal (λ l : list LogLine, ll_content <$> l) (H2 (bytes_str [255]%nat) "invalid utf-8 sequence of 1 bytes from index 0"%string ["lost"]%string
    ltac:(by split) ltac:(repeat constructor) eq_refl)).
Defined.
