(* ===== verification/Relay.v ===== *)
(** The proxy's connections ([src/crates/proxy/src/lib.rs], [proxy/http.rs], [proxy/https.rs], [proxy/websocket.rs]): the upgrade to a
    WebSocket and the relay of its messages, and the accept loops with their shutdown. What the backend, the TLS handshake and
    hyper's connections do are inputs, and so is when the two sides of a relay send and end; that a socket of tungstenite answers pings and
    closes by itself is part of the relay's steps. The theorems show what the backend's handshake is made of, that messages are relayed in
    order, which others a side gets, and how connections end when the server stops. *)

From S2P Require Import Prelude Types Env Fsm Routes.
Local Open Scope Z_scope.

(** * The upgrade (websocket.rs) *)

Inductive ProxyError :=
| BackendConnect (backend reason : string)
| WebSocketError (reason : string).
(** Whether the client offered a header for the backend's handshake. *)
Definition ws_forwarded (name : string) : bool :=
  if bool_decide (name = "sec-websocket-key") || bool_decide (name = "sec-websocket-version") then false
  else starts_with "sec-websocket" name || bool_decide (name = "origin").

Section upgrade.
Context (readable : string → bool) (derive_accept_key : string → string).
(** What connecting, parsing the address and the handshake come to; a handshake answers with headers. *)
Record BackendOutcome := mkBackendOutcome {
  bo_connect : result unit string;
  bo_uri : string → result unit string;
  bo_handshake : list (string * string) → result (list (string * string)) string;
}.
Definition ws_backend_headers (h : list (string * string)) : list (string * string) :=
  filterb (λ '(n, v), ws_forwarded n && readable v) h.
(** The headers of the 101 response, and those of the backend's handshake. *)
Definition handle_websocket_upgrade (o : BackendOutcome) (req : HttpRequest) (backend : SocketAddr)
    : result (list (string * string) * list (string * string)) ProxyError :=
  let client_key := header_str readable "sec-websocket-key" (rq_headers req) in
  match bo_connect o with
  | Err e => Err (BackendConnect (show_sock backend) e)
  | Ok _ =>
      match bo_uri o ("ws://" +:+ show_sock backend +:+ default "/" (rq_path_and_query req))%string with
      | Err e => Err (WebSocketError e)
      | Ok _ =>
          let sent := ws_backend_headers (rq_headers req) in
          match bo_handshake o sent with
          | Err e => Err (WebSocketError e)
          | Ok backend_response =>
              let accept := match client_key with
                            | Some key => [("sec-websocket-accept", derive_accept_key key)]
                            | None => []
                            end in
              let protocol := match header_get "sec-websocket-protocol" backend_response with
                              | Some p => [("sec-websocket-protocol", if readable p then p else "")]
                              | None => []
                              end in
              Ok (("upgrade", "websocket") :: ("connection", "upgrade") :: (accept ++ protocol)%list, sent)
          end
      end
  end%string.

(** What an upgrade is made of. If the client gets its answer, the handshake with the backend had exactly the readable
    [sec-websocket] headers and the origin of the client, in their order, without key and version, which the proxy makes
    itself; and the answer has the key's digest and the protocol that the backend chose. An extension that the client offers
    is passed on, but the backend's choice of it is not answered. *)
Theorem websocket_upgrade_headers o req backend resp sent :
  handle_websocket_upgrade o req backend = Ok (resp, sent) →
  (∀ n v, (n, v) ∈ sent ↔ (n, v) ∈ rq_headers req ∧ readable v = true ∧
     n ≠ "sec-websocket-key"%string ∧ n ≠ "sec-websocket-version"%string ∧ (starts_with "sec-websocket" n = true ∨ n = "origin"%string)) ∧
  header_get "sec-websocket-accept" resp = derive_accept_key <$> header_str readable "sec-websocket-key" (rq_headers req) ∧
  header_get "sec-websocket-extensions" resp = None ∧
  (∀ v, ("sec-websocket-extensions"%string, v) ∈ rq_headers req → readable v = true → ("sec-websocket-extensions"%string, v) ∈ sent) ∧
  ∃ answered, bo_handshake o sent = Ok answered ∧
    header_get "sec-websocket-protocol" resp = (λ p, if readable p then p else ""%string) <$> header_get "sec-websocket-protocol" answered.
Proof.
  assert (∀ n v, (n, v) ∈ ws_backend_headers (rq_headers req) ↔ (n, v) ∈ rq_headers req ∧ readable v = true ∧
    n ≠ "sec-websocket-key"%string ∧ n ≠ "sec-websocket-version"%string ∧ (starts_with "sec-websocket" n = true ∨ n = "origin"%string)) as Hsent.
  { intros n v. unfold ws_backend_headers. rewrite elem_of_filterb, andb_true_iff. unfold ws_forwarded.
    destruct (decide (n = "sec-websocket-key"%string)) as [Hk|Hk]; [rewrite (bool_decide_eq_true_2 _ Hk); naive_solver|].
    destruct (decide (n = "sec-websocket-version"%string)) as [Hv|Hv]; [rewrite (bool_decide_eq_true_2 _ Hv), orb_true_r; naive_solver|].
    rewrite !(bool_decide_eq_false_2 (n = _)) by done. cbn [orb]. rewrite orb_true_iff, bool_decide_eq_true. naive_solver. }
  unfold handle_websocket_upgrade. destruct (bo_connect o); [|done]. destruct (bo_uri o _); [|done].
  destruct (bo_handshake o _) as [answered|] eqn:Hh; [|done]. intros [= <- <-]. split; [exact Hsent|].
  split; [by destruct (header_str readable _ _), (header_get _ answered)|].
  split; [by destruct (header_str readable _ _), (header_get _ answered)|]. split.
  - intros v Hin Hr. apply Hsent. split_and!; try done. by left.
  - exists answered. split; [done|]. by destruct (header_str readable _ _), (header_get _ answered).
Qed.
End upgrade.

(** * The relay (websocket.rs) *)

Section relay.
Context {Msg : Type}.
Inductive WsMsg := WsData (m : Msg) | WsPing (p : Msg) | WsPong (p : Msg) | WsClose (reason : option Msg).
(** What a socket of tungstenite answers by itself to a message that is read from it. *)
Definition auto_reply (m : WsMsg) : option WsMsg :=
  match m with WsPing p => Some (WsPong p) | WsClose r => Some (WsClose r) | _ => None end.
(** Where a message that a side receives comes from: the relay, or the proxy's own socket. *)
Inductive Origin := Relayed | Replied.
(** One side: everything it has sent, what of it has not been read yet, whether its connection has ended (or failed), the reply that
    the proxy's socket to it has yet to write (the last one replaces those before), and what it received. *)
Record Side := mkSide {
  sd_sent : list WsMsg;
  sd_queue : list WsMsg;
  sd_ended : bool;
  sd_reply : option WsMsg;
  sd_received : list (Origin * WsMsg);
}.
Record RelayState := mkRelayState {
  rl_client : Side;
  rl_backend : Side;
  rl_open : bool;
}.
Definition side_new : Side := mkSide [] [] false None [].
Definition relay_init : RelayState := mkRelayState side_new side_new true.
(** [rx.next()] gives the first message, and [tx.send(m)] delivers one. *)
Definition side_read (m : WsMsg) (q : list WsMsg) (s : Side) : Side :=
  mkSide (sd_sent s) q (sd_ended s) (match auto_reply m with Some r => Some r | None => sd_reply s end) (sd_received s).
Definition side_receive (o : Origin) (m : WsMsg) (s : Side) : Side :=
  mkSide (sd_sent s) (sd_queue s) (sd_ended s) (sd_reply s) (sd_received s ++ [(o, m)]).
Definition side_replied (r : WsMsg) (s : Side) : Side :=
  side_receive Replied r (mkSide (sd_sent s) (sd_queue s) (sd_ended s) None (sd_received s)).

(** One of the two loops, from a side to the other, and whether the relay goes on: a message is read and sent on, or cannot be sent;
    the input has ended; the socket writes its own reply. A loop whose input is open and empty waits. *)
Inductive one_way (from to : Side) : Side → Side → bool → Prop :=
| ow_forward m q : sd_queue from = m :: q → one_way from to (side_read m q from) (side_receive Relayed m to) true
| ow_lost m q : sd_queue from = m :: q → one_way from to (side_read m q from) to false
| ow_end : sd_queue from = [] → sd_ended from = true → one_way from to from to false
| ow_reply r : sd_reply from = Some r → one_way from to (side_replied r from) to true.
(** The relay, which ends with the first of its loops. *)
Inductive relay_moves : RelayState → RelayState → Prop :=
| relay_up c b c' b' o : one_way c b c' b' o → relay_moves (mkRelayState c b true) (mkRelayState c' b' o)
| relay_down c b c' b' o : one_way b c b' c' o → relay_moves (mkRelayState c b true) (mkRelayState c' b' o).
(** What a side does by itself: it sends a message, or its connection ends. *)
Inductive side_moves (s : Side) : Side → Prop :=
| side_sends m : sd_ended s = false → side_moves s (mkSide (sd_sent s ++ [m]) (sd_queue s ++ [m]) false (sd_reply s) (sd_received s))
| side_ends : side_moves s (mkSide (sd_sent s) (sd_queue s) true (sd_reply s) (sd_received s)).
Inductive relay_step : RelayState → RelayState → Prop :=
| relay_move s s' : relay_moves s s' → relay_step s s'
| client_moves c c' b o : side_moves c c' → relay_step (mkRelayState c b o) (mkRelayState c' b o)
| backend_moves c b b' o : side_moves b b' → relay_step (mkRelayState c b o) (mkRelayState c b' o).

Definition relayed (l : list (Origin * WsMsg)) : list WsMsg := omap (λ x, match x.1 with Relayed => Some x.2 | Replied => None end) l.
(** What holds of a direction: as long as the relay is open, what was sent is what was relayed and what is waiting; and each reply
    answers a message of the side that gets it. *)
Definition way_inv (o : bool) (from to : Side) : Prop :=
  relayed (sd_received to) `prefix_of` sd_sent from ∧
  (o = true → relayed (sd_received to) ++ sd_queue from = sd_sent from).
Definition replies_inv (s : Side) : Prop :=
  (∀ m, m ∈ sd_queue s → m ∈ sd_sent s) ∧
  ∀ r, sd_reply s = Some r ∨ (Replied, r) ∈ sd_received s → ∃ m, m ∈ sd_sent s ∧ auto_reply m = Some r.
Definition relay_inv (s : RelayState) : Prop :=
  way_inv (rl_open s) (rl_client s) (rl_backend s) ∧ way_inv (rl_open s) (rl_backend s) (rl_client s) ∧
  replies_inv (rl_client s) ∧ replies_inv (rl_backend s).

Lemma relayed_snoc l o m : relayed (l ++ [(o, m)]) = relayed l ++ match o with Relayed => [m] | Replied => [] end.
Proof. unfold relayed. rewrite omap_app. by destruct o. Qed.
Lemma replies_read m q s : sd_queue s = m :: q → replies_inv s → replies_inv (side_read m q s).
Proof.
  intros Hq [Hs Hrep]. rewrite Hq in Hs. split; simpl; [intros x Hx; apply Hs; by right|]. intros r [Hr|Hr]; [|by apply Hrep; right].
  destruct (auto_reply m) eqn:Ha; [|by apply Hrep; left]. simplify_eq. exists m. split; [|done]. apply Hs. by left.
Qed.
Lemma one_way_inv from to from' to' o :
  one_way from to from' to' o → way_inv true from to → way_inv true to from → replies_inv from → replies_inv to →
  way_inv o from' to' ∧ way_inv o to' from' ∧ replies_inv from' ∧ replies_inv to'.
Proof.
  intros [m q Hq|m q Hq|Hq He|r Hr] [Hp Heq] [Hp' Heq'] Hfrom [Hs' Hrep']; specialize (Heq eq_refl); specialize (Heq' eq_refl).
  - rewrite Hq in Heq. split_and!; simpl.
    + split; simpl; [|intros _]; rewrite relayed_snoc, <-?app_assoc; [|done]. rewrite <-Heq. exists q. by rewrite <-app_assoc.
    + done.
    + by apply replies_read.
    + split; simpl; [done|]. intros r [Hr|Hr]; [by apply Hrep'; left|]. apply Hrep'. right. by apply elem_of_app in Hr as [?|[=]%list_elem_of_singleton].
  - split_and!; [by split|by split|by apply replies_read|done].
  - split_and!; [by split|by split|done|done].
  - split_and!; [done| | |done].
    + split; simpl; [|intros _]; by rewrite relayed_snoc, app_nil_r.
    + split; simpl; [apply Hfrom|]. intros r' [|Hr']; [done|]. apply Hfrom. apply elem_of_app in Hr' as [?|[= ->]%list_elem_of_singleton]; auto.
Qed.
Lemma side_moves_inv o s s' other :
  side_moves s s' → way_inv o s other → way_inv o other s → replies_inv s →
  way_inv o s' other ∧ way_inv o other s' ∧ replies_inv s'.
Proof.
  intros [m He|] [Hp Heq] Hback [Hs Hrep]; [|done]. split_and!; [|done|].
  - split; simpl; [by apply prefix_app_r|]. intros Ho. by rewrite app_assoc, (Heq Ho).
  - split; simpl; [set_solver|]. intros r Hr. destruct (Hrep r Hr) as (x & ? & ?). exists x. split; [set_solver|done].
Qed.
Lemma relay_step_inv s s' : relay_step s s' → relay_inv s → relay_inv s'.
Proof.
  intros Hs (H1 & H2 & H3 & H4). destruct Hs as [s s' [c b c' b' o Hw|c b c' b' o Hw]|c c' b o Hm|c b b' o Hm]; unfold relay_inv in *; simpl in *.
  - destruct (one_way_inv _ _ _ _ _ Hw H1 H2 H3 H4) as (? & ? & ? & ?). by split_and!.
  - destruct (one_way_inv _ _ _ _ _ Hw H2 H1 H4 H3) as (? & ? & ? & ?). by split_and!.
  - destruct (side_moves_inv _ _ _ _ Hm H1 H2 H3) as (? & ? & ?). by split_and!.
  - destruct (side_moves_inv _ _ _ _ Hm H2 H1 H4) as (? & ? & ?). by split_and!.
Qed.
Lemma relay_reachable_inv s : rtc relay_step relay_init s → relay_inv s.
Proof.
  assert (relay_inv relay_init) as Hi.
  { unfold relay_inv, way_inv, replies_inv. simpl. split_and!; try done; try apply prefix_nil; try set_solver.
    all: intros r [?|?%elem_of_nil]; done. }
  revert Hi. induction 2 as [|x y z Hxy _ IH]; [done|]. by apply IH, (relay_step_inv x).
Qed.
(** The work that is left: a message that is read may leave a reply behind. *)
Definition side_work (s : Side) : nat := 2 * length (sd_queue s) + match sd_reply s with Some _ => 1 | None => 0 end.
Definition relay_work (s : RelayState) : nat := side_work (rl_client s) + side_work (rl_backend s) + (if rl_open s then 1 else 0).
Lemma one_way_work from to from' to' o :
  one_way from to from' to' o → (side_work from' + side_work to' + (if o then 1 else 0) < side_work from + side_work to + 1)%nat.
Proof.
  intros [m q Hq|m q Hq|Hq He|r Hr]; unfold side_work; simpl; rewrite ?Hq, ?Hr; simpl; try (destruct (auto_reply m), (sd_reply from)); lia.
Qed.
Lemma relay_work_decreases s s' : relay_moves s s' → (relay_work s' < relay_work s)%nat.
Proof. intros [c b c' b' o H%one_way_work|c b c' b' o H%one_way_work]; unfold relay_work; simpl; lia. Qed.

(** C27: However the relay, its two sides and the replies of the proxy's sockets interleave: what the relay hands to a side is a prefix
    of what the other side sent, in order, with nothing lost in the middle, doubled or made up; the only other messages that a side gets are
    the sockets' answers to pings and closes of its own; and as long as the relay is open, what was not relayed is still waiting.
    Between two messages of the sides the relay makes finitely many steps; it then has ended, or both connections are open
    and everything they sent has been relayed: it never stops with a message waiting, or outlives the end of a side. *)
Theorem relay_in_order s :
  rtc relay_step relay_init s →
  (∀ from to, (from = rl_client s ∧ to = rl_backend s) ∨ (from = rl_backend s ∧ to = rl_client s) →
     relayed (sd_received to) `prefix_of` sd_sent from ∧
     (rl_open s = true → relayed (sd_received to) ++ sd_queue from = sd_sent from) ∧
     (∀ r, (Replied, r) ∈ sd_received from → ∃ m, m ∈ sd_sent from ∧ auto_reply m = Some r) ∧
     (rl_open s = true → (∀ s', ~ relay_moves s s') → sd_ended from = false ∧ relayed (sd_received to) = sd_sent from)) ∧
  sn relay_moves s.
Proof.
  intros Hs. destruct (relay_reachable_inv s Hs) as (H1 & H2 & H3 & H4). split.
  - assert (rl_open s = true → (∀ s', ~ relay_moves s s') →
      (sd_ended (rl_client s) = false ∧ sd_queue (rl_client s) = []) ∧ (sd_ended (rl_backend s) = false ∧ sd_queue (rl_backend s) = [])) as Hidle.
    { destruct s as [c b o]. simpl. intros -> Hno. split.
      - destruct (sd_queue c) as [|m q] eqn:Hq; [|exfalso; eapply Hno, relay_up, ow_forward, Hq].
        destruct (sd_ended c) eqn:He; [|done]. exfalso. eapply Hno, relay_up, ow_end; done.
      - destruct (sd_queue b) as [|m q] eqn:Hq; [|exfalso; eapply Hno, relay_down, ow_forward, Hq].
        destruct (sd_ended b) eqn:He; [|done]. exfalso. eapply Hno, relay_down, ow_end; done. }
    intros from to [[-> ->]|[-> ->]]; (split_and!; [apply H1 || apply H2|apply H1 || apply H2|intros r Hr; (apply H3 || apply H4); by right|]);
      intros Ho Hno; destruct (Hidle Ho Hno) as [[Hc1 Hc2] [Hb1 Hb2]].
    + split; [done|]. rewrite <-(proj2 H1 Ho), Hc2. by rewrite app_nil_r.
    + split; [done|]. rewrite <-(proj2 H2 Ho), Hb2. by rewrite app_nil_r.
  - clear. assert (∀ n s, (relay_work s < n)%nat → sn relay_moves s) as Hn.
    { induction n as [|n IH]; intros x Hx; [lia|]. constructor. intros y Hxy. apply IH. apply relay_work_decreases in Hxy. lia. }
    by eapply Hn, Nat.lt_succ_diag_r.
Qed.

(** When one side ends the relay can end at once: messages that the other side had already sent are dropped, even though both
    connections work. *)
Theorem relay_end_drops m :
  ∃ s, rtc relay_step relay_init s ∧ rl_open s = false ∧ sd_received (rl_client s) = [] ∧ sd_sent (rl_backend s) = [m].
Proof.
  eexists. split.
  - eapply rtc_l; [apply backend_moves, (side_sends _ m); done|]. eapply rtc_l; [apply client_moves, side_ends|].
    eapply rtc_l; [apply relay_move, relay_up, ow_end; done|]. apply rtc_refl.
  - done.
Qed.
(** A ping of the client is relayed and answered by the proxy's socket as well: a backend that answers it makes the client receive
    two pongs for one ping. *)
Theorem ping_answered_twice p :
  ∃ s, rtc relay_step relay_init s ∧ sd_sent (rl_client s) = [WsPing p] ∧
    sd_received (rl_client s) = [(Replied, WsPong p); (Relayed, WsPong p)] ∧ sd_received (rl_backend s) = [(Relayed, WsPing p)].
Proof.
  eexists. split.
  - eapply rtc_l; [apply client_moves, (side_sends _ (WsPing p)); done|].
    eapply rtc_l; [apply relay_move, relay_up, (ow_forward _ _ (WsPing p) []); done|].
    eapply rtc_l; [apply relay_move, relay_up, (ow_reply _ _ (WsPong p)); done|].
    eapply rtc_l; [apply backend_moves, (side_sends _ (WsPong p)); done|].
    eapply rtc_l; [apply relay_move, relay_down, (ow_forward _ _ (WsPong p) []); done|]. apply rtc_refl.
  - done.
Qed.
End relay.
Arguments WsMsg : clear implicits.

(** * The accept loops and their end (lib.rs, http.rs, https.rs) *)

Definition DRAIN_TIMEOUT : Z := secs 5.
Inductive ConnPhase :=
| Handshaking
| Serving
| Draining (deadline : Z).
(** The clock, whether [stop] cancelled the server, which of the accept loops, the certificate watcher and the renewal
    loop run, the connections, and whether [stop] has returned. *)
Record ProxyRun := mkProxyRun {
  px_now : Z;
  px_cancelled : bool;
  px_http : bool;
  px_https : bool;
  px_background : bool;
  px_conns : list ConnPhase;
  px_stopped : bool;
}.
Definition proxy_running (t : Z) : ProxyRun := mkProxyRun t false true true true [] false.
Definition with_conns (l : list ConnPhase) (s : ProxyRun) : ProxyRun :=
  mkProxyRun (px_now s) (px_cancelled s) (px_http s) (px_https s) (px_background s) l (px_stopped s).
Inductive proxy_step : ProxyRun → ProxyRun → Prop :=
| px_time s t :
    px_now s ≤ t → Forall (λ c, match c with Draining d => t ≤ d | _ => True end) (px_conns s) →
    proxy_step s (mkProxyRun t (px_cancelled s) (px_http s) (px_https s) (px_background s) (px_conns s) (px_stopped s))
(** [serve_http] and [serve_https] accept as long as they run; a TLS connection starts with its handshake *)
| px_accept_http s : px_http s = true → proxy_step s (with_conns (px_conns s ++ [Serving]) s)
| px_accept_https s : px_https s = true → proxy_step s (with_conns (px_conns s ++ [Handshaking]) s)
| px_handshake s l1 l2 : px_conns s = l1 ++ Handshaking :: l2 → proxy_step s (with_conns (l1 ++ Serving :: l2) s)
(** a connection ends: closed by its peer, failed, refused in the handshake, or drained *)
| px_close s l1 c l2 : px_conns s = l1 ++ c :: l2 → proxy_step s (with_conns (l1 ++ l2) s)
(** a connection that is served sees the cancellation *)
| px_drain s l1 l2 :
    px_cancelled s = true → px_conns s = l1 ++ Serving :: l2 →
    proxy_step s (with_conns (l1 ++ Draining (px_now s + DRAIN_TIMEOUT) :: l2) s)
(** [stop]: cancel, wait for the accept loops, abort the background tasks *)
| px_cancel s :
    proxy_step s (mkProxyRun (px_now s) true (px_http s) (px_https s) (px_background s) (px_conns s) (px_stopped s))
| px_http_ends s :
    px_cancelled s = true →
    proxy_step s (mkProxyRun (px_now s) true false (px_https s) (px_background s) (px_conns s) (px_stopped s))
| px_https_ends s :
    px_cancelled s = true →
    proxy_step s (mkProxyRun (px_now s) true (px_http s) false (px_background s) (px_conns s) (px_stopped s))
| px_stop_returns s :
    px_cancelled s = true → px_http s = false → px_https s = false →
    proxy_step s (mkProxyRun (px_now s) true false false false (px_conns s) true).

Definition proxy_inv (s : ProxyRun) : Prop :=
  (px_http s = false ∨ px_https s = false ∨ px_background s = false → px_cancelled s = true) ∧
  (px_stopped s = true → px_http s = false ∧ px_https s = false ∧ px_background s = false) ∧
  Forall (λ c, match c with Draining d => px_cancelled s = true ∧ px_now s ≤ d ≤ px_now s + DRAIN_TIMEOUT | _ => True end) (px_conns s).
Lemma Forall_replace {A} (P : A → Prop) l1 l2 x y : Forall P (l1 ++ x :: l2) → P y → Forall P (l1 ++ y :: l2).
Proof. rewrite !Forall_app, !Forall_cons. naive_solver. Qed.
Lemma Forall_drop_one {A} (P : A → Prop) l1 l2 x : Forall P (l1 ++ x :: l2) → Forall P (l1 ++ l2).
Proof. rewrite !Forall_app, !Forall_cons. naive_solver. Qed.
Lemma proxy_step_inv s s' : proxy_step s s' → proxy_inv s → proxy_inv s'.
Proof.
  intros Hs (H1 & H2 & H3).
  destruct Hs as [s t Ht Hd|s|s|s l1 l2 Hc|s l1 c l2 Hc|s l1 l2 Hx Hc|s|s Hx|s Hx|s Hx Hh Hhs]; (split; [|split]); cbn; try done;
    try (by (intros ?; naive_solver)); try rewrite Hc in H3.
  - apply Forall_forall. intros c Hin. rewrite Forall_forall in H3, Hd. specialize (H3 c Hin). specialize (Hd c Hin).
    destruct c; [done..|]. destruct H3 as [Hx H3]. split; [done|lia].
  - apply Forall_app. split; [done|]. by constructor.
  - apply Forall_app. split; [done|]. by constructor.
  - by eapply Forall_replace.
  - by eapply Forall_drop_one.
  - eapply Forall_replace; [done|]. cbn. unfold DRAIN_TIMEOUT, secs. split; [done|lia].
  - apply (Forall_impl _ _ _ H3). intros []; naive_solver.
  - apply (Forall_impl _ _ _ H3). intros []; naive_solver.
  - apply (Forall_impl _ _ _ H3). intros []; naive_solver.
  - apply (Forall_impl _ _ _ H3). intros []; naive_solver.
Qed.
Lemma proxy_reachable_inv t s : rtc proxy_step (proxy_running t) s → proxy_inv s.
Proof.
  intros Hs. assert (proxy_inv (proxy_running t)) as Hi by (split_and!; cbn; naive_solver).
  revert Hi. induction Hs as [|x y z Hxy _ IH]; [done|]. intros Hx. by apply IH, (proxy_step_inv x).
Qed.
Lemma stopped_steps s s' : rtc proxy_step s s' → proxy_inv s → px_stopped s = true →
  px_stopped s' = true ∧ (length (px_conns s') ≤ length (px_conns s))%nat.
Proof.
  induction 1 as [|x y z Hxy _ IH]; intros Hi Hst; [done|].
  assert (px_stopped y = true ∧ length (px_conns y) ≤ length (px_conns x))%nat as [Hy Hlen].
  { pose proof Hi as (_ & H2 & _). destruct (H2 Hst) as (Hh & Hhs & _).
    destruct Hxy as [s t Ht Hd|s Hg|s Hg|s l1 l2 Hc|s l1 c l2 Hc|s l1 l2 Hx Hc|s|s Hx|s Hx|s Hx Hg Hgs]; cbn in *;
      try congruence; (split; [done|]); try rewrite Hc; rewrite ?length_app; cbn; lia. }
  destruct (IH (proxy_step_inv x y Hxy Hi) Hy) as [Hz Hlen']. split; [done|lia].
Qed.

(** How the proxy stops: once [stop] has returned, both listeners and the background tasks are gone and no connection is
    ever added; a connection that drains has at most five seconds left, and the clock does not pass its end before it is
    closed. *)
Theorem proxy_stops t s :
  rtc proxy_step (proxy_running t) s →
  (∀ d, Draining d ∈ px_conns s → px_cancelled s = true ∧ px_now s ≤ d ≤ px_now s + DRAIN_TIMEOUT) ∧
  (px_stopped s = true →
     px_http s = false ∧ px_https s = false ∧ px_background s = false ∧
     ∀ s', rtc proxy_step s s' → px_stopped s' = true ∧ (length (px_conns s') ≤ length (px_conns s))%nat).
Proof.
  intros Hs. pose proof (proxy_reachable_inv t s Hs) as Hi. pose proof Hi as (_ & H2 & H3). split.
  - intros d Hd. rewrite Forall_forall in H3. by apply (H3 (Draining d)).
  - intros Hst. destruct (H2 Hst) as (? & ? & ?). split_and!; try done. intros s' Hs'. by apply (stopped_steps s s').
Qed.

(** [stop] does not wait for connections: it can return while requests are still being answered, which then end with the
    process. *)
Theorem stop_does_not_wait t : ∃ s, rtc proxy_step (proxy_running t) s ∧ px_stopped s = true ∧ px_conns s = [Serving].
Proof.
  eexists. split.
  - eapply rtc_l; [by apply px_accept_http|]. eapply rtc_l; [apply px_cancel|].
    eapply rtc_l; [by apply px_http_ends|]. eapply rtc_l; [by apply px_https_ends|].
    eapply rtc_l; [by apply px_stop_returns|]. cbn. apply rtc_refl.
  - done.
Qed.

(** * Witnesses *)

Definition ws_request : HttpRequest :=
  mkHttpRequest "GET" "/live" (Some "/live?x=1") None
    [("host", "app.example"); ("sec-websocket-key", "k"); ("sec-websocket-version", "13"); ("origin", "https://app.example");
     ("sec-websocket-extensions", "permessage-deflate")]%string.
Definition ws_outcome : BackendOutcome := mkBackendOutcome (Ok tt) (λ _, Ok tt) (λ h, Ok []).
Lemma websocket_upgrade_headers_witness :
  ("sec-websocket-extensions", "permessage-deflate")%string ∈ ws_backend_headers (λ _, true) (rq_headers ws_request).
Proof.
  destruct (websocket_upgrade_headers (λ _, true) (λ k, k) ws_outcome ws_request (SockV4 174260225 8080) _ _ eq_refl) as (_ & _ & _ & H & _).
  apply H; [|reflexivity]. unfold ws_request. cbn. do 4 (apply elem_of_cons; right). by apply elem_of_cons; left.
Defined.
Lemma relay_in_order_witness :
  ∃ s, rtc (relay_step (Msg := Z)) relay_init s ∧ rl_open s = true ∧ relayed (sd_received (rl_backend s)) ++ [WsData 2] = [WsData 1; WsData 2].
Proof.
  eassert (rtc (relay_step (Msg := Z)) relay_init _) as Hs.
  { eapply rtc_l; [apply client_moves, (side_sends _ (WsData 1)); done|]. eapply rtc_l; [apply client_moves, (side_sends _ (WsData 2)); done|].
    eapply rtc_l; [apply relay_move, relay_up, (ow_forward _ _ (WsData 1) [WsData 2]); reflexivity|]. apply rtc_refl. }
  eexists. split; [exact Hs|]. split; [reflexivity|].
  exact (proj1 (proj2 (proj1 (relay_in_order _ Hs) _ _ (or_introl (conj eq_refl eq_refl)))) eq_refl).
Defined.
Lemma proxy_stops_witness :
  ∃ s, rtc proxy_step (proxy_running 0) s ∧ Draining (secs 5) ∈ px_conns s ∧ px_now s ≤ secs 5.
Proof.
  assert (rtc proxy_step (proxy_running 0) (mkProxyRun 0 true true true true [Draining (secs 5)] false)) as Hs.
  { eapply rtc_l; [by apply px_accept_http|]. eapply rtc_l; [apply px_cancel|]. cbn.
    eapply rtc_l; [by apply (px_drain _ [] [])|]. cbn. apply rtc_refl. }
  eexists. split; [exact Hs|]. split; [by apply elem_of_cons; left|].
  apply (proj1 (proxy_stops 0 _ Hs) (secs 5)). by apply elem_of_cons; left.
Defined.
