(* ===== verification/DaemonHttp.v ===== *)
(** The HTTP client of the daemon ([src/crates/node/src/daemon/client.rs]), which a node uses to join a cluster and to leave it. Sending
    a request, with the redirections that are followed, is a parameter; the servers that it reaches are the control API of Api. The theorems
    show what counts as a success, and that a node that is not the leader cannot leave. *)

From S2P Require Import Prelude Types Fsm Rpc World Config Tasks Report Routes Oci Api Daemon Sse Cli.
Local Open Scope Z_scope.

(** * The client (daemon/client.rs) *)

Record DaemonClient := mkDaemonClient {
  dc_base_url : string;
  dc_token : string;
}.
Definition is_error_status (status : Z) : bool := (400 <=? status) && (status <? 600).

Section client.
(** The response after redirections, or the error of the HTTP client; the texts of a status and of reqwest's error for it;
    and reading bodies. *)
Context (http : CliRequest → result HttpResponse string).
Context (show_status : Z → string) (status_error : Z → string → string) (text_of : string → string).

Definition daemon_map_err {A} (r : result A string) : result A NodeError := match r with Ok a => Ok a | Err e => Err (NodeUnreachable e) end.
Definition daemon_request (c : DaemonClient) (m : Method) (path : string) (body : CliBody) : CliRequest :=
  mkCliRequest m (dc_base_url c +:+ path)%string (Some ("Bearer " +:+ dc_token c)%string) body.
Definition error_for_status (url : string) (resp : HttpResponse) : result HttpResponse string :=
  if is_error_status (rs_status resp) then Err (status_error (rs_status resp) url) else Ok resp.
(** A request whose error statuses are errors. *)
Definition daemon_send (c : DaemonClient) (m : Method) (path : string) (body : CliBody) : result HttpResponse NodeError :=
  match http (daemon_request c m path body) with
  | Err e => Err (NodeUnreachable e)
  | Ok resp => daemon_map_err (error_for_status (dc_base_url c +:+ path)%string resp)
  end.
(** The bytes of a body, if the connection lasted. *)
Definition body_bytes (resp : HttpResponse) : result string NodeError :=
  match rs_end resp with
  | None => Ok (concat_str (rs_chunks resp))
  | Some e => Err (NodeUnreachable e)
  end.
Definition dc_get {A} (dec : string → result A string) (c : DaemonClient) (path : string) : result A NodeError :=
  match daemon_send c GET path NoBody with
  | Err e => Err e
  | Ok resp => match body_bytes resp with Ok b => daemon_map_err (dec b) | Err e => Err e end
  end.
Definition dc_get_bytes (c : DaemonClient) (path : string) : result string NodeError :=
  match daemon_send c GET path NoBody with
  | Err e => Err e
  | Ok resp => body_bytes resp
  end.
(** [post_json], with the request's body as text; an error's body is read as far as it goes. *)
Definition dc_post_json (c : DaemonClient) (path body : string) : result unit NodeError :=
  match http (daemon_request c POST path (TextBody body)) with
  | Err e => Err (NodeUnreachable e)
  | Ok resp =>
      if is_error_status (rs_status resp) then
        let text := match rs_end resp with None => text_of (concat_str (rs_chunks resp)) | Some _ => EmptyString end in
        Err (NodeUnreachable ("HTTP " +:+ show_status (rs_status resp) +:+ " for " +:+ path +:+ ": " +:+ text)%string)
      else Ok tt
  end.
Definition dc_post_sse (c : DaemonClient) (path : string) : result HttpResponse NodeError := daemon_send c POST path NoBody.
Definition dc_delete (c : DaemonClient) (path : string) : result unit NodeError :=
  match daemon_send c DELETE path NoBody with Ok _ => Ok tt | Err e => Err e end.

(** * Leaving (daemon/mod.rs) *)

Definition leave_client (i : NodeIdentity) : DaemonClient :=
  mkDaemonClient ("http://127.0.0.1:" +:+ pretty (ni_rpc_port i))%string (ni_cluster_token i).
(** The drain: the stream is read to its end, whatever it says. *)
Definition leave_drain (i : NodeIdentity) : result unit NodeError :=
  match dc_post_sse (leave_client i) ("/v1/nodes/" +:+ ni_node_id i +:+ "/drain")%string with
  | Err e => Err e
  | Ok resp => match rs_end resp with None => Ok tt | Some e => Err (NodeUnreachable e) end
  end.
Definition leave_delete (i : NodeIdentity) : result unit NodeError :=
  dc_delete (leave_client i) ("/v1/nodes/" +:+ ni_node_id i)%string.
(** [leave] with these two requests. *)
Definition leave_fails (i : NodeIdentity) (n : nat) : option string :=
  let failed (r : result unit NodeError) := match r with Ok _ => None | Err e => Some (show_node_error e) end in
  match n with
  | 1%nat => failed (leave_drain i)
  | 2%nat => failed (leave_delete i)
  | _ => None
  end.
Definition leave_over_http (i : NodeIdentity) (pid_file : option string) : result unit string * list Act :=
  leave (leave_fails i) (Some i) pid_file [].

(** * Theorems *)

(** What the daemon's requests come to: each carries the cluster's token; an answer with an error status or a broken
    connection is an error, every other answer a success, and what is read is what the server sent. *)
Theorem daemon_requests c path body dec :
  (∀ m b, cq_authorization (daemon_request c m path b) = Some ("Bearer " +:+ dc_token c)%string) ∧
  (dc_post_json c path body = Ok tt ↔
     ∃ resp, http (daemon_request c POST path (TextBody body)) = Ok resp ∧ is_error_status (rs_status resp) = false) ∧
  (dc_delete c path = Ok tt ↔
     ∃ resp, http (daemon_request c DELETE path NoBody) = Ok resp ∧ is_error_status (rs_status resp) = false) ∧
  (∀ v : string, dc_get dec c path = Ok v ↔
     ∃ resp, http (daemon_request c GET path NoBody) = Ok resp ∧ is_error_status (rs_status resp) = false ∧
       rs_end resp = None ∧ dec (concat_str (rs_chunks resp)) = Ok v).
Proof.
  unfold dc_post_json, dc_delete, dc_get, daemon_send, error_for_status, body_bytes, daemon_map_err. split; [done|]. split_and!.
  - destruct (http _) as [resp|e]; [|split; [done|by intros (? & ? & _)]].
    destruct (is_error_status (rs_status resp)) eqn:Hs; split; try done; [intros (r & [= <-] & ?); congruence|eauto].
  - destruct (http _) as [resp|e]; [|split; [done|by intros (? & ? & _)]].
    destruct (is_error_status (rs_status resp)) eqn:Hs; split; try done; [intros (r & [= <-] & ?); congruence|eauto].
  - intros v. destruct (http _) as [resp|e]; [|split; [done|by intros (? & ? & _)]].
    destruct (is_error_status (rs_status resp)) eqn:Hs; [split; [done|intros (r & [= <-] & ? & _); congruence]|].
    destruct (rs_end resp) eqn:He; [split; [done|intros (r & [= <-] & _ & ? & _); congruence]|].
    destruct (dec _) eqn:Hd; split; try done.
    + intros [= ->]. eauto.
    + intros (r & [= <-] & _ & _ & ?). congruence.
    + intros (r & [= <-] & _ & _ & ?). congruence.
Qed.

End client.

(** ** Leaving from a follower *)

(** An API server of a node: what differs from node to node. *)
Record ApiNode := mkApiNode {
  an_env : nat → EnvStep;
  an_vars : gmap string string;
  an_token : string;
  an_has_driver : bool;
  an_live : nat → LiveMetrics;
  an_proxy : nat → option ProxyMetrics;
  an_leader : nat → option Z;
  an_world : World;
}.
(** What a server answers, as its client gets it. *)
Inductive HttpAnswer := Final (resp : HttpResponse) | Sent307 (location : string).

Section leaving.
Context (http : CliRequest → result HttpResponse string) (status_error : Z → string → string).
(** The control API, as it is in every node. *)
Context `{HI : HashIter} (fuel : nat).
Context (encrypt : nat → string → result (string * string) string) (decrypt : string → string → result string string).
Context (parse_bytesize parse_duration : string → result Z string) (hcl : string → result RawConfig string).
Context (show_f64 : f64 → string) (cluster_key : string) (readable header_ok : string → bool).
Context (pick : list (string * Method * Endpoint) → Method → string → option (Endpoint * string)).
Context (json_secret : string → result string Z) (json_spawn : string → result SpawnTaskRequest Z) (json_join : string → result JoinRequest Z).
Context (query_logs : option string → result (option bool * option Z) Z).
Definition api_of (n : ApiNode) (req : ApiRequest) : option (ApiResponse * World) :=
  api_request (an_env n) fuel (an_vars n) encrypt decrypt parse_bytesize parse_duration hcl show_f64 (an_token n) cluster_key
    (an_has_driver n) true true (an_live n) (an_proxy n) (an_leader n) readable header_ok pick json_secret json_spawn json_join query_logs
    req (an_world n).
(** How a request arrives, and how an answer goes back. *)
Context (to_api : CliRequest → ApiRequest) (render : ApiBody → list string * option string).
Definition answer (r : ApiResponse) : HttpAnswer :=
  match r with
  | Reply status body => Final (mkHttpResponse status (render body).1 (render body).2)
  | TemporaryRedirect location => Sent307 location
  end.
Hypothesis same_method : ∀ r, aq_method (to_api r) = cq_method r.
Hypothesis same_token : ∀ r, aq_authorization (to_api r) = cq_authorization r.

(** The servers that requests reach, and what reqwest does with their answers. *)
Context (server : CliRequest → result HttpAnswer string).
Context {same_origin : string → string → bool} {redirect : CliRequest → string → CliRequest} `{RL : !RedirectLaws same_origin redirect}.
Hypothesis followed : ∀ r loc, server r = Ok (Sent307 loc) → http r = http (redirect r loc).
Hypothesis answered : ∀ r resp, server r = Ok (Final resp) → http r = Ok resp.
Hypothesis unreachable : ∀ r e, server r = Err e → ∃ e', http r = Err e'.

(** A node that is not confirmed as the leader ends a change with an error of its own or with a redirection; it does nothing else. *)
Lemma follower_answers n req e param :
  es_ok (an_env n (w_tick (an_world n))) = false → pick (read_routes ++ write_routes) (aq_method req) (aq_path req) = Some (e, param) →
  is_write e = true →
  ∃ r w', api_of n req = Some (r, w') ∧ w_trace w' = w_trace (an_world n) ∧
    match r with
    | Reply s _ => is_error_status s = true
    | TemporaryRedirect l => ∃ id node, nodes (w_fsm w') !! id = Some node ∧
        l = ("http://" +:+ show_sock (fn_address node) +:+ default "/" (aq_path_and_query req))%string
    end.
Proof.
  intros Hno Hp Hw. unfold api_of, api_request, require_auth.
  destruct (authorized _ _ _); [|by eexists _, _]. rewrite Hp, Hw.
  match goal with |- ∃ r w', ?m _ = _ ∧ _ => assert (∃ r w', m (an_world n) = Some (r, w')) as (r & w' & Hrun) end.
  { unfold require_leader, await_outcome, await, mbind, M_bind. simpl. rewrite Hno. simpl. repeat (case_match; simpl); eauto. }
  exists r, w'. split; [done|]. apply leader_gate in Hrun as [[Hok _]|(_ & Htr & Hr)]; [congruence|]. split; [done|].
  destruct r as [s b|l]; [destruct Hr as [[->| ->] _]; done|]. destruct Hr as (id & node & _ & Hn & ->). eauto.
Qed.
(** Without the token every API server answers 401. *)
Lemma no_token_refused n r loc :
  same_origin (cq_url r) loc = false → api_of n (to_api (redirect r loc)) = Some (Reply UNAUTHORIZED BEmpty, an_world n).
Proof. intros Ho. unfold api_of, api_request, require_auth, authorized. by rewrite same_token, (redirect_drops_token _ _ Ho). Qed.

(** C25: A node whose own API does not get its leadership confirmed cannot leave the cluster. Whatever token and state that API has,
    it answers the drain with an error or with a redirection to the leader; and whichever API server the redirected request reaches,
    it arrives there without the token, is refused with 401 and changes nothing (or no server is reached). So leaving stops with an
    error after that one request: nothing is drained or removed on either node, and the node keeps its identity. The leader's address
    is taken to be another one than the loopback address the client uses. *)
Theorem follower_cannot_leave i pid_file own :
  let drain := daemon_request (leave_client i) POST ("/v1/nodes/" +:+ ni_node_id i +:+ "/drain") NoBody in
  es_ok (an_env own (w_tick (an_world own))) = false →
  pick (read_routes ++ write_routes) POST (aq_path (to_api drain)) = Some (EpDrain, ni_node_id i) →
  (∀ r w', api_of own (to_api drain) = Some (r, w') → server drain = Ok (answer r) ∧
     ∀ id node, nodes (w_fsm w') !! id = Some node →
       same_origin (cq_url drain) ("http://" +:+ show_sock (fn_address node) +:+ default "/" (aq_path_and_query (to_api drain))) = false) →
  (∀ loc, (∃ e, server (redirect drain loc) = Err e) ∨
     ∃ other r w', api_of other (to_api (redirect drain loc)) = Some (r, w') ∧ server (redirect drain loc) = Ok (answer r)) →
  (∃ e, leave_over_http http status_error i pid_file = (Err e, [ALoadIdentity; APostSse ("/v1/nodes/" +:+ ni_node_id i +:+ "/drain")%string])) ∧
  ∃ r w', api_of own (to_api drain) = Some (r, w') ∧ w_trace w' = w_trace (an_world own) ∧
    ∀ loc, r = TemporaryRedirect loc → ∀ other, api_of other (to_api (redirect drain loc)) = Some (Reply UNAUTHORIZED BEmpty, an_world other).
Proof.
  intros drain Hno Hpick Hown Hother.
  destruct (follower_answers own (to_api drain) EpDrain (ni_node_id i)) as (r & w' & Hr & Htr & Hans); [done|by rewrite same_method|done|].
  destruct (Hown r w' Hr) as [Hs Horigin]. split.
  2: { exists r, w'. split_and!; [done..|]. intros loc -> other. apply no_token_refused. destruct Hans as (id & node & Hn & ->). by eapply Horigin. }
  assert (∃ e, leave_drain http status_error i = Err e) as [e He].
  { unfold leave_drain, dc_post_sse, daemon_send. fold drain. destruct r as [s b|loc].
    { rewrite (answered _ _ Hs). unfold error_for_status. simpl. rewrite Hans. by eexists. }
    destruct Hans as (id & node & Hn & ->). rewrite (followed _ _ Hs). set (loc := ("http://" +:+ _)%string) in *.
    destruct (Hother loc) as [[e He]|(other & r2 & w2 & Hr2 & Hs2)].
    { destruct (unreachable _ _ He) as [e' ->]. by eexists. }
    rewrite (no_token_refused other drain loc) in Hr2 by (by eapply Horigin). injection Hr2 as <- <-.
    rewrite (answered _ _ Hs2). by eexists. }
  exists (show_node_error e). unfold leave_over_http, leave, act, mbind, Dm_bind. cbn [leave_fails length app]. by rewrite He.
Qed.
End leaving.

(** * Witnesses *)

Module DaemonHttpExamples.
Import CliExamples FsmExamples ReportExamples ApiExamples.
Definition ex_identity : NodeIdentity :=
  mkNodeIdentity "n2" 2 "tok" 4400 "192.0.2.8" None None None WIREGUARD_SUBNET [] None None.
Definition ex_drain : CliRequest := daemon_request (leave_client ex_identity) POST "/v1/nodes/n2/drain" NoBody.
(** A node that is not the leader and knows who is, and the leader, which would take the request on. *)
Definition ex_node (env : nat → EnvStep) : ApiNode :=
  mkApiNode env ∅ "tok" false (λ _, LiveMetrics_new) (λ _, None) (λ _, Some 1) task_world.
Definition ex_to_api (r : CliRequest) : ApiRequest :=
  mkApiRequest (cq_method r) "/v1/nodes/n2/drain" (Some "/v1/nodes/n2/drain"%string) (cq_authorization r) "".
Definition ex_api : ApiNode → ApiRequest → option (ApiResponse * World) :=
  api_of (HI := stored_order) 5 (λ _ v, Ok (v, ""%string)) (λ c _, Ok c) (λ _, Ok 0) (λ _, Ok 0) (λ _, Err ""%string) (λ _, ""%string) "key"
    (λ _, true) (λ _, true) (λ _ m _, match m with POST => Some (EpDrain, "n2"%string) | _ => None end)
    (λ b, Ok b) (λ _, Err 422) (λ _, Err 422) (λ _, Err 400).
Definition no_body (_ : ApiBody) : list string * option string := ([], None).
(** The follower answers at its own address, the leader at the one that it names, and nobody elsewhere. *)
Definition ex_location : string := "http://10.99.0.1:4400/v1/nodes/n2/drain".
Definition leader_env (n : nat) : EnvStep := mkEnvStep [] [] (λ r, r) 1 5000000000 true "".
Definition ex_server (r : CliRequest) : result HttpAnswer string :=
  if bool_decide (cq_url r = cq_url ex_drain) then Ok (Sent307 ex_location)
  else if bool_decide (cq_url r = ex_location) then Ok (Final (mkHttpResponse UNAUTHORIZED [] None))
  else Err "connection refused"%string.
Definition ex_http (r : CliRequest) : result HttpResponse string :=
  match ex_server r with
  | Err e => Err e
  | Ok (Final resp) => Ok resp
  | Ok (Sent307 _) => Ok (mkHttpResponse UNAUTHORIZED [] None)
  end.
Lemma fmap_Some_of {A B} (f : A → B) (o : option A) a b : o = Some a → f <$> o = Some b → f a = b.
Proof. intros ->. by intros [= ->]. Qed.
Lemma ex_own_answers r w' :
  ex_api (ex_node follower_env) (ex_to_api ex_drain) = Some (r, w') →
  ex_server ex_drain = Ok (answer no_body r) ∧
  ∀ id node, nodes (w_fsm w') !! id = Some node →
    bool_decide (cq_url ex_drain = ("http://" +:+ show_sock (fn_address node) +:+ default "/" (aq_path_and_query (ex_to_api ex_drain)))%string) = false.
Proof.
  intros Hr. split.
  - assert (fst <$> ex_api (ex_node follower_env) (ex_to_api ex_drain) = Some (TemporaryRedirect ex_location)) as He by (vm_compute; reflexivity).
    apply (fmap_Some_of _ _ _ _ Hr) in He. simpl in He. subst r. vm_compute. reflexivity.
  - intros id node Hn. assert ((λ x, w_fsm x.2) <$> ex_api (ex_node follower_env) (ex_to_api ex_drain) = Some (w_fsm task_world)) as He by (vm_compute; reflexivity).
    apply (fmap_Some_of _ _ _ _ Hr) in He. cbn [snd] in He. rewrite He in Hn.
    assert (Forall (λ n, bool_decide (cq_url ex_drain = ("http://" +:+ show_sock (fn_address n) +:+ "/v1/nodes/n2/drain")%string) = false)
              (@hm_values stored_order _ _ _ _ (nodes (w_fsm task_world)))) as Hall by (apply (bool_decide_unpack _); vm_compute; exact I).
    rewrite Forall_forall in Hall. apply Hall, elem_of_hm_values. by exists id.
Qed.
Lemma ex_others_answer loc :
  (∃ e, ex_server (ex_redirect ex_drain loc) = Err e) ∨
  ∃ other r w', ex_api other (ex_to_api (ex_redirect ex_drain loc)) = Some (r, w') ∧ ex_server (ex_redirect ex_drain loc) = Ok (answer no_body r).
Proof.
  destruct (decide (loc = cq_url ex_drain)) as [->|H1].
  { right. exists (ex_node follower_env).
    destruct (ex_api (ex_node follower_env) (ex_to_api ex_drain)) as [[r w']|] eqn:E; [|by vm_compute in E].
    exists r, w'. assert (ex_redirect ex_drain (cq_url ex_drain) = ex_drain) as -> by (vm_compute; reflexivity).
    split; [done|]. by apply (ex_own_answers r w'). }
  destruct (decide (loc = ex_location)) as [->|H2].
  { right. exists (ex_node leader_env), (Reply UNAUTHORIZED BEmpty), task_world. by split; vm_compute. }
  left. unfold ex_server, ex_redirect. cbn [cq_url]. rewrite !bool_decide_false by done. by eexists.
Qed.
Lemma ex_followed r loc : ex_server r = Ok (Sent307 loc) → ex_http r = ex_http (ex_redirect r loc).
Proof.
  intros Hs. assert (loc = ex_location) as ->.
  { unfold ex_server in Hs. repeat case_match; try discriminate. by injection Hs. }
  unfold ex_http. rewrite Hs. reflexivity.
Qed.
Lemma follower_cannot_leave_witness :
  ∃ e, leave_over_http ex_http (λ s _, pretty s) ex_identity None = (Err e, [ALoadIdentity; APostSse "/v1/nodes/n2/drain"%string]).
Proof.
  refine (proj1 (follower_cannot_leave ex_http (λ s _, pretty s) (HI := stored_order) 5 (λ _ v, Ok (v, ""%string)) (λ c _, Ok c) (λ _, Ok 0) (λ _, Ok 0)
    (λ _, Err ""%string) (λ _, ""%string) "key" (λ _, true) (λ _, true) (λ _ m _, match m with POST => Some (EpDrain, "n2"%string) | _ => None end)
    (λ b, Ok b) (λ _, Err 422) (λ _, Err 422) (λ _, Err 400) ex_to_api no_body (λ _, eq_refl) (λ _, eq_refl) ex_server (RL := ex_redirects)
    ex_followed _ _ ex_identity None (ex_node follower_env) eq_refl eq_refl ex_own_answers ex_others_answer)).
  - unfold ex_http. by intros r resp ->.
  - unfold ex_http. intros r e ->. by eexists.
Defined.
End DaemonHttpExamples.
