(* ===== verification/Start.v ===== *)
(** The tasks of a node from its start to its shutdown: [start_subsystems], [shutdown] and the listener of
    [src/crates/node/src/daemon/support.rs], [Primary::start] and [Primary::stop] of [src/crates/node/src/primary/mod.rs], the start of
    [RpcServer] ([rpc/server.rs]), [Secondary::new] ([secondary/mod.rs]) and the start and stop of the DNS server and of the proxy. What a
    task owns (the ends of channels, shared handles) is dropped when it ends, and it is what the others wait for: the steps
    of [task_step] say when each task can end. The theorems show what a failed start leaves running, that a shutdown ends and
    what it has then stopped, and that the loop of the node's own containers outlives it. *)

From S2P Require Import Prelude Types Env Addr Ports Fsm Snapshot Rpc Certs Daemon.
Local Open Scope Z_scope.

(** * Tasks *)

Inductive NodeTask :=
| TFanIn
| TConnectionWatcher
| TReportProcessor
| TDnsWatcher
| TProxyWatcher
| TWatchdog
| TApi
| TSecondary
| TRpcServer
| TDnsServer
| THttp
| THttps
| TCertWatcher
| TRenewal
| TRaftListener.
#[global] Instance NodeTask_eq_dec : EqDecision NodeTask.
Proof. solve_decision. Defined.

(** How far [shutdown] is: before the signal, awaiting the end of raft, at the handle of the DNS server, in its [stop], at
    the handle of the proxy, in its [stop], and through. *)
Inductive Phase := Up | RaftShutdown | DnsHandle | DnsStop | ProxyHandle | ProxyStop | Finished.
#[global] Instance Phase_eq_dec : EqDecision Phase.
Proof. solve_decision. Defined.

(** [nd_senders] counts the clones of the secondary's report sender that heartbeats, exit waiters and log followers hold,
    [nd_conns] the tasks behind connections to other nodes, each with a clone of the router and of the sender of the primary's
    report channel. [nd_registered] says whether the router has the sender of the local secondary's commands. *)
Record NodeState := mkNodeState {
  nd_tasks : list NodeTask;
  nd_senders : nat;
  nd_conns : nat;
  nd_registered : bool;
  nd_cancelled : bool;
  nd_phase : Phase;
}.
Definition nd_init : NodeState := mkNodeState [] 0 0 false false Up.
Definition running (t : NodeTask) (s : NodeState) : Prop := t ∈ nd_tasks s.
#[global] Instance running_dec t s : Decision (running t s).
Proof. unfold running. apply _. Defined.
Definition set_tasks (l : list NodeTask) (s : NodeState) : NodeState :=
  mkNodeState l (nd_senders s) (nd_conns s) (nd_registered s) (nd_cancelled s) (nd_phase s).
Definition spawn (t : NodeTask) (s : NodeState) : NodeState := set_tasks (nd_tasks s ++ [t]) s.
Definition end_task (t : NodeTask) (s : NodeState) : NodeState := set_tasks (filterb (λ u, negb (bool_decide (u = t))) (nd_tasks s)) s.
Definition set_phase (p : Phase) (s : NodeState) : NodeState :=
  mkNodeState (nd_tasks s) (nd_senders s) (nd_conns s) (nd_registered s) (nd_cancelled s) p.
Definition set_senders (n : nat) (s : NodeState) : NodeState :=
  mkNodeState (nd_tasks s) n (nd_conns s) (nd_registered s) (nd_cancelled s) (nd_phase s).
Definition set_conns (n : nat) (s : NodeState) : NodeState :=
  mkNodeState (nd_tasks s) (nd_senders s) n (nd_registered s) (nd_cancelled s) (nd_phase s).
Definition spawn_if (b : bool) (t : NodeTask) (s : NodeState) : NodeState := if b then spawn t s else s.

(** * Starting *)

Section start.
(** Why a socket cannot be bound, if it cannot. *)
Context `{HI : HashIter} (bind_error : SocketAddr → option string).

(** [DnsServer::start]: its socket and the forwarder's. *)
Definition net_bind_error (addr : SocketAddr) (e : string) : NodeError := NetErr ("bind " +:+ show_sock addr +:+ ": " +:+ e)%string.
Definition FORWARDER_ADDR : SocketAddr := SocketAddr_new (V4 0) 0.
Definition dns_start (listen_addr : SocketAddr) (s : NodeState) : result unit NodeError * NodeState :=
  match bind_error listen_addr with
  | Some e => (Err (net_bind_error listen_addr e), s)
  | None =>
      match bind_error FORWARDER_ADDR with
      | Some e => (Err (net_bind_error FORWARDER_ADDR e), s)
      | None => (Ok tt, spawn TDnsServer s)
      end
  end.

(** [ProxyServer::start] with its tasks: what it does with certificates and the account is [proxy_start] of Certs. *)
Context (pem_certs : string → list (result string string)) (pem_key : string → result (option string) string).
Context (not_after : string → result Z string) (usable : CertPair → bool).
Context (read_creds restore : string → result unit string) (register : result string string).
Definition bindable (addr : SocketAddr) : bool := match bind_error addr with None => true | Some _ => false end.
Definition proxy_start_tasks (http_addr https_addr : SocketAddr) (acme : option AcmeConfig) (listed : bool) (budget : nat) (certs : Dir)
    (s : NodeState) : result Certs string * NodeState :=
  match proxy_start pem_certs pem_key not_after usable read_creds restore register
          (if acme then true else false) listed (bindable http_addr) (bindable https_addr) budget certs with
  | Err e => (Err e, s)
  | Ok (client, c) => (Ok c, spawn_if client TRenewal (spawn TCertWatcher (spawn THttps (spawn THttp s))))
  end.

(** [start_subsystems]; [tables] are the kernel's socket tables for the pool of ports. *)
Definition DNS_ADDR : SocketAddr := SocketAddr_new (V4 (127 * 2 ^ 24 + 1)) 53.
Definition HTTP_ADDR : SocketAddr := SocketAddr_new (V4 0) 80.
Definition HTTPS_ADDR : SocketAddr := SocketAddr_new (V4 0) 443.
Definition start_subsystems (tables : HostTables) (acme : option AcmeConfig) (listed : bool) (budget : nat) (certs : Dir) (s : NodeState)
    : result (PortPool * Certs) NodeError * NodeState :=
  match dns_start DNS_ADDR s with
  | (Err e, s) => (Err e, s)
  | (Ok _, s) =>
      let ports := PortAllocator_new tables in
      match proxy_start_tasks HTTP_ADDR HTTPS_ADDR acme listed budget certs s with
      | (Err e, s) => (Err (Internal ("proxy startup: " +:+ e)%string), s)
      | (Ok c, s) => (Ok (ports, c), s)
      end
  end.

(** [Secondary::new] connects to containerd; its [run] is then spawned. The handle stays with the caller. *)
Definition secondary_new (connect : result unit string) (s : NodeState) : result unit NodeError * NodeState :=
  match connect with
  | Err e => (Err (ContainerdErr e), s)
  | Ok _ => (Ok tt, spawn TSecondary s)
  end.

(** The local secondary: its commands are routed, and a task with its handle passes its reports on. *)
Definition register_local (cfg : PrimaryConfig) (s : NodeState) : NodeState :=
  if pc_local_secondary cfg then
    let s := if pc_local_node_id cfg then mkNodeState (nd_tasks s) (nd_senders s) (nd_conns s) true (nd_cancelled s) (nd_phase s) else s in
    spawn TFanIn s
  else s.
(** [Primary::start]; [dns] and [proxy] say whether it gets them. *)
Definition primary_start (cfg : PrimaryConfig) (dns proxy : bool) (s : NodeState) : result unit NodeError * NodeState :=
  let s := register_local cfg s in
  let s := spawn TConnectionWatcher s in
  let s := spawn TReportProcessor s in
  let s := spawn_if dns TDnsWatcher s in
  let s := spawn_if proxy TProxyWatcher s in
  let s := spawn TWatchdog s in
  match bind_error (pc_api_addr cfg) with
  | Some _ => (Err (BindErr (show_sock (pc_api_addr cfg))), s)
  | None => (Ok tt, spawn TApi s)
  end.

(** [RpcServer::start], in a task of its own: when it cannot bind its socket the handle is dropped. *)
Definition rpc_server_start (addr : SocketAddr) (s : NodeState) : NodeState := spawn_if (bindable addr) TRpcServer s.
Definition start_raft_listener (ip : IpAddr) (port : Z) (s : NodeState) : NodeState :=
  spawn_if (bindable (SocketAddr_new ip port)) TRaftListener s.
(** What the procedures of the daemon start, in their order; the first error ends them. *)
Definition and_then {A B} (r : result A NodeError * NodeState) (k : NodeState → result B NodeError * NodeState) : result B NodeError * NodeState :=
  match r with
  | (Ok _, s) => k s
  | (Err e, s) => (Err e, s)
  end.
Context (tables : HostTables) (acme : option AcmeConfig) (listed : bool) (budget : nat) (certs : Dir) (connect : result unit string).
Definition init_tasks (cfg : PrimaryConfig) (tunnel_ip : IpAddr) : result unit NodeError * NodeState :=
  and_then (start_subsystems tables acme listed budget certs nd_init) (λ s,
  and_then (secondary_new connect s) (λ s,
  and_then (primary_start cfg true true s) (λ s, (Ok tt, start_raft_listener tunnel_ip (API_PORT + 1) s)))).
Definition join_tasks (cfg : PrimaryConfig) (tunnel_ip : IpAddr) : result unit NodeError * NodeState :=
  and_then (start_subsystems tables acme listed budget certs (start_raft_listener tunnel_ip (API_PORT + 1) nd_init)) (λ s,
  and_then (secondary_new connect s) (λ s, primary_start cfg true true s)).
Definition restart_tasks (cfg : PrimaryConfig) (tunnel_ip : IpAddr) : result unit NodeError * NodeState :=
  and_then (start_subsystems tables acme listed budget certs nd_init) (λ s,
  and_then (secondary_new connect s) (λ s,
  let s := rpc_server_start (SocketAddr_new tunnel_ip RPC_PORT) s in
  and_then (primary_start cfg true true s) (λ s, (Ok tt, start_raft_listener tunnel_ip (API_PORT + 1) s)))).
End start.

(** [default_raft_config]. *)
Record RaftConfig := mkRaftConfig {
  rc_heartbeat_interval : Z;
  rc_election_timeout_min : Z;
  rc_election_timeout_max : Z;
  rc_logs_since_last : Z;
  rc_max_in_snapshot_log_to_keep : Z;
}.
Definition default_raft_config (vars : gmap string string) : RaftConfig :=
  mkRaftConfig 1000 3000 5000 (snapshot_threshold vars) (snapshot_log_keep vars).

(** [generate_hex] of random bytes. *)
Definition hex_byte (b : Z) : string := String (hex_digit (b / 16)) (String (hex_digit (b mod 16)) EmptyString).
Fixpoint hex_encode (bytes : list Z) : string :=
  match bytes with
  | [] => EmptyString
  | b :: bytes => (hex_byte b +:+ hex_encode bytes)%string
  end.
Definition generate_hex (rng : nat → Z) (len : nat) : string := hex_encode (rng <$> seq 0 len).
Definition generate_id (rng : nat → Z) : string := generate_hex rng 8.
Definition generate_token (rng : nat → Z) : string := generate_hex rng 16.

(** * Running and shutting down *)

(** The tasks that watch the primary's cancellation token, and those of the proxy, which watch the proxy's. *)
Definition on_cancel : list NodeTask := [TConnectionWatcher; TDnsWatcher; TProxyWatcher; TWatchdog; TApi].
Definition proxy_tasks : list NodeTask := [THttp; THttps; TCertWatcher; TRenewal].

(** The secondary's commands have a sender: the handle, which the task that passes reports on or the RPC server has, or the
    router's clone of it, as long as there is a router. *)
Definition router_alive (s : NodeState) : Prop :=
  nd_phase s ≠ Finished ∨ running TConnectionWatcher s ∨ running TWatchdog s ∨ running TApi s ∨ nd_conns s ≠ 0%nat.
Definition command_sender (s : NodeState) : Prop :=
  running TFanIn s ∨ running TRpcServer s ∨ (nd_registered s = true ∧ router_alive s).
(** So have its reports, and the primary's report channel. *)
Definition report_sender (s : NodeState) : Prop := running TSecondary s ∨ nd_senders s ≠ 0%nat.
Definition fan_in_sender (s : NodeState) : Prop := running TFanIn s ∨ running TConnectionWatcher s ∨ nd_conns s ≠ 0%nat.

Inductive task_step : NodeState → NodeState → Prop :=
(** The signal: [Primary::stop] cancels the token; raft is shut down and its result only logged. *)
| node_signal s : nd_phase s = Up →
    task_step s (mkNodeState (nd_tasks s) (nd_senders s) (nd_conns s) (nd_registered s) true RaftShutdown)
| node_raft s : nd_phase s = RaftShutdown → task_step s (set_phase DnsHandle s)
(** The DNS server is stopped only through the last handle; the watcher has the other one. *)
| node_dns_shared s : nd_phase s = DnsHandle → running TDnsWatcher s → task_step s (set_phase ProxyHandle s)
| node_dns_own s : nd_phase s = DnsHandle → ¬ running TDnsWatcher s → task_step s (set_phase DnsStop s)
| node_dns_end s : nd_phase s = DnsStop → running TDnsServer s → task_step s (end_task TDnsServer s)
| node_dns_done s : nd_phase s = DnsStop → ¬ running TDnsServer s → task_step s (set_phase ProxyHandle s)
(** So is the proxy. *)
| node_proxy_shared s : nd_phase s = ProxyHandle → running TProxyWatcher s → task_step s (set_phase Finished s)
| node_proxy_own s : nd_phase s = ProxyHandle → ¬ running TProxyWatcher s → task_step s (set_phase ProxyStop s)
| node_proxy_end t s : nd_phase s = ProxyStop → t ∈ proxy_tasks → running t s → task_step s (end_task t s)
| node_proxy_done s : nd_phase s = ProxyStop → Forall (λ t, ¬ running t s) proxy_tasks → task_step s (set_phase Finished s)
(** A task notices that the token is cancelled. *)
| node_cancelled t s : nd_cancelled s = true → t ∈ on_cancel → running t s → task_step s (end_task t s)
(** Loops over a channel end when it has no sender any more, or, for the task that passes reports on, when a report
    cannot be passed on. *)
| node_fan_in s : running TFanIn s → ¬ report_sender s ∨ ¬ running TReportProcessor s → task_step s (end_task TFanIn s)
| node_reports s : running TReportProcessor s → ¬ fan_in_sender s → task_step s (end_task TReportProcessor s)
| node_secondary s : running TSecondary s → ¬ command_sender s → task_step s (end_task TSecondary s)
(** Heartbeats, waiters and followers come from the secondary; connections from their watcher. They end at any time. *)
| node_sender_new s : running TSecondary s → task_step s (set_senders (S (nd_senders s)) s)
| node_sender_gone n s : nd_senders s = S n → task_step s (set_senders n s)
| node_conn_new s : running TConnectionWatcher s → task_step s (set_conns (S (nd_conns s)) s)
| node_conn_gone n s : nd_conns s = S n → task_step s (set_conns n s).

(** * Lemmas *)

Lemma running_end u t s : running u (end_task t s) ↔ running u s ∧ u ≠ t.
Proof. unfold running, end_task. simpl. rewrite elem_of_filterb, negb_true_iff, bool_decide_eq_false. done. Qed.
Lemma not_running_end_all l t s : Forall (λ u, ¬ running u s) l → Forall (λ u, ¬ running u (end_task t s)) l.
Proof. intros Hall. eapply Forall_impl; [exact Hall|]. intros u Hu [H _]%running_end. by apply Hu. Qed.
Lemma running_spawn u t s : running u (spawn t s) ↔ running u s ∨ u = t.
Proof. unfold running, spawn. simpl. rewrite elem_of_app, list_elem_of_singleton. done. Qed.
Lemma running_spawn_if b u t s : running u (spawn_if b t s) ↔ running u s ∨ (b = true ∧ u = t).
Proof. destruct b; simpl; [rewrite running_spawn|]; naive_solver. Qed.

(** The fields that starting a task leaves alone. *)
Lemma spawn_if_frame b t s :
  nd_phase (spawn_if b t s) = nd_phase s ∧ nd_cancelled (spawn_if b t s) = nd_cancelled s ∧ nd_registered (spawn_if b t s) = nd_registered s.
Proof. by destruct b. Qed.

(** A property that every step keeps holds of every state that is reached. *)
Lemma node_reachable (P : NodeState → Prop) s0 s :
  (∀ s s', task_step s s' → P s → P s') → rtc task_step s0 s → P s0 → P s.
Proof. intros Hstep. induction 1; eauto. Qed.

(** The ends of the secondary's channels are held: by the task that passes its reports on to a report processor which
    thereby goes on, or by the RPC server. *)
Definition handle_held (s : NodeState) : Prop :=
  running TSecondary s ∧ ((running TFanIn s ∧ running TReportProcessor s) ∨ running TRpcServer s).
Lemma handle_held_end t s :
  t ≠ TSecondary → t ≠ TFanIn → t ≠ TReportProcessor → t ≠ TRpcServer → handle_held s → handle_held (end_task t s).
Proof. unfold handle_held. rewrite !running_end. naive_solver. Qed.
Lemma handle_held_step s s' : task_step s s' → handle_held s → handle_held s'.
Proof.
  destruct 1 as [| | | | | | | |t s _ Ht _| |t s _ Ht _|s Hrun [Hno|Hno]|s Hrun Hno|s Hrun Hno| | | | ]; intros Hs;
    try exact Hs; try (apply handle_held_end; set_solver).
  - destruct Hs as [Hsec _]. destruct Hno. by left.
  - destruct Hs as [Hsec [[Hf Hr]|Hrpc]]; [done|]. split; [by apply running_end|]. right. by apply running_end.
  - destruct Hs as [Hsec [[Hf Hr]|Hrpc]]; [destruct Hno; by left|]. split; [by apply running_end|]. right. by apply running_end.
  - destruct Hs as [Hsec [[Hf Hr]|Hrpc]]; destruct Hno; [by left|by right; left].
Qed.

Section started.
Context `{HI : HashIter} (bind_error : SocketAddr → option string).
Context (pem_certs : string → list (result string string)) (pem_key : string → result (option string) string).
Context (not_after : string → result Z string) (usable : CertPair → bool).
Context (read_creds restore : string → result unit string) (register : result string string).
Context (tables : HostTables) (acme : option AcmeConfig) (listed : bool) (budget : nat) (certs : Dir) (connect : result unit string).
Local Notation subsystems := (start_subsystems bind_error pem_certs pem_key not_after usable read_creds restore register tables acme listed budget certs).
Local Notation init := (init_tasks bind_error pem_certs pem_key not_after usable read_creds restore register tables acme listed budget certs connect).
Local Notation join := (join_tasks bind_error pem_certs pem_key not_after usable read_creds restore register tables acme listed budget certs connect).
Local Notation restart := (restart_tasks bind_error pem_certs pem_key not_after usable read_creds restore register tables acme listed budget certs connect).

(** The tasks of the subsystems, of which renewal depends on the ACME account. *)
Definition subsystem_tasks (renewal : bool) (s : NodeState) : NodeState :=
  spawn_if renewal TRenewal (spawn TCertWatcher (spawn THttps (spawn THttp (spawn TDnsServer s)))).
Lemma subsystems_ok s x s' : subsystems s = (Ok x, s') → ∃ b, s' = subsystem_tasks b s.
Proof.
  unfold start_subsystems, dns_start, proxy_start_tasks. intros H. repeat case_match; simplify_eq; eexists; reflexivity.
Qed.
(** The tasks of the primary, without the API. *)
Definition primary_tasks (cfg : PrimaryConfig) (dns proxy : bool) (s : NodeState) : NodeState :=
  spawn TWatchdog (spawn_if proxy TProxyWatcher (spawn_if dns TDnsWatcher (spawn TReportProcessor (spawn TConnectionWatcher (register_local cfg s))))).
Lemma primary_start_eq cfg dns proxy s :
  primary_start bind_error cfg dns proxy s =
    (if bindable bind_error (pc_api_addr cfg) then Ok tt else Err (BindErr (show_sock (pc_api_addr cfg))),
     spawn_if (bindable bind_error (pc_api_addr cfg)) TApi (primary_tasks cfg dns proxy s)).
Proof. unfold primary_start, bindable. by destruct (bind_error (pc_api_addr cfg)). Qed.
Lemma running_register_local cfg t s : running t (register_local cfg s) ↔ running t s ∨ (pc_local_secondary cfg = true ∧ t = TFanIn).
Proof. unfold register_local. destruct (pc_local_secondary cfg); [rewrite running_spawn; destruct (pc_local_node_id cfg)|]; naive_solver. Qed.
Lemma register_local_frame cfg s :
  nd_phase (register_local cfg s) = nd_phase s ∧ nd_cancelled (register_local cfg s) = nd_cancelled s.
Proof. unfold register_local. by destruct (pc_local_secondary cfg), (pc_local_node_id cfg). Qed.

(** What every node that has started runs. *)
Definition base_tasks : list NodeTask :=
  [TSecondary; TConnectionWatcher; TReportProcessor; TDnsWatcher; TProxyWatcher; TWatchdog; TApi; TDnsServer; THttp; THttps; TCertWatcher].
Definition node_up (s : NodeState) : Prop :=
  Forall (λ t, running t s) base_tasks ∧ nd_phase s = Up ∧ nd_cancelled s = false.
Lemma and_then_ok {A B} (r : result A NodeError * NodeState) (k : NodeState → result B NodeError * NodeState) b s' :
  and_then r k = (Ok b, s') → ∃ a s, r = (Ok a, s) ∧ k s = (Ok b, s').
Proof. destruct r as [[a|e] s]; simpl; intros; [eauto|by simplify_eq]. Qed.
Lemma secondary_new_ok s x s' : secondary_new connect s = (Ok x, s') → s' = spawn TSecondary s.
Proof. unfold secondary_new. by destruct connect; intros; simplify_eq. Qed.
(** The tasks that a start has begun when it succeeds, with what the environment decides. *)
Definition all_tasks (b1 b2 b3 : bool) (cfg : PrimaryConfig) (s : NodeState) : NodeState :=
  spawn_if b3 TRaftListener (spawn TApi (primary_tasks cfg true true (spawn_if b2 TRpcServer (spawn TSecondary (subsystem_tasks b1 s))))).
Lemma primary_start_ok cfg dns proxy s x s' :
  primary_start bind_error cfg dns proxy s = (Ok x, s') → s' = spawn TApi (primary_tasks cfg dns proxy s).
Proof. rewrite primary_start_eq. by destruct (bindable bind_error (pc_api_addr cfg)); intros; simplify_eq/=. Qed.
Lemma init_ok cfg ip x s : init cfg ip = (Ok x, s) → ∃ b1 b3, s = all_tasks b1 false b3 cfg nd_init.
Proof.
  intros H. apply and_then_ok in H as (? & s1 & Hsub & H). apply and_then_ok in H as (? & s2 & Hsec & H).
  apply and_then_ok in H as (? & s3 & Hp & H). apply subsystems_ok in Hsub as [b1 ->]. apply secondary_new_ok in Hsec as ->.
  apply primary_start_ok in Hp as ->. simplify_eq. by exists b1, (bindable bind_error (SocketAddr_new ip (API_PORT + 1))).
Qed.
Lemma join_ok cfg ip x s : join cfg ip = (Ok x, s) → ∃ b1 b3, s = all_tasks b1 false false cfg (spawn_if b3 TRaftListener nd_init).
Proof.
  intros H. apply and_then_ok in H as (? & s1 & Hsub & H). apply and_then_ok in H as (? & s2 & Hsec & Hp).
  apply subsystems_ok in Hsub as [b1 ->]. apply secondary_new_ok in Hsec as ->. apply primary_start_ok in Hp as ->.
  by exists b1, (bindable bind_error (SocketAddr_new ip (API_PORT + 1))).
Qed.
Lemma restart_ok cfg ip x s :
  restart cfg ip = (Ok x, s) → ∃ b1 b3, s = all_tasks b1 (bindable bind_error (SocketAddr_new ip RPC_PORT)) b3 cfg nd_init.
Proof.
  intros H. apply and_then_ok in H as (? & s1 & Hsub & H). apply and_then_ok in H as (? & s2 & Hsec & H).
  apply and_then_ok in H as (? & s3 & Hp & H). apply subsystems_ok in Hsub as [b1 ->]. apply secondary_new_ok in Hsec as ->.
  apply primary_start_ok in Hp as ->. simplify_eq. by exists b1, (bindable bind_error (SocketAddr_new ip (API_PORT + 1))).
Qed.
Lemma running_all_tasks b1 b2 b3 cfg s t :
  running t (all_tasks b1 b2 b3 cfg s) ↔
    running t s ∨ t ∈ base_tasks ∨ (pc_local_secondary cfg = true ∧ t = TFanIn) ∨ (b1 = true ∧ t = TRenewal) ∨ (b2 = true ∧ t = TRpcServer) ∨
    (b3 = true ∧ t = TRaftListener).
Proof.
  unfold all_tasks, primary_tasks, subsystem_tasks.
  repeat (rewrite running_spawn || rewrite running_spawn_if || rewrite running_register_local).
  unfold base_tasks. rewrite !elem_of_cons, elem_of_nil. naive_solver.
Qed.
Lemma all_tasks_up b1 b2 b3 cfg s : nd_phase s = Up → nd_cancelled s = false → node_up (all_tasks b1 b2 b3 cfg s).
Proof.
  intros Hp Hc. split; [apply Forall_forall; intros t Ht; apply running_all_tasks; auto|].
  assert (∀ b2 b1 s, nd_phase s = Up ∧ nd_cancelled s = false → nd_phase (register_local cfg (spawn_if b2 TRpcServer (spawn TSecondary (subsystem_tasks b1 s)))) = Up ∧
    nd_cancelled (register_local cfg (spawn_if b2 TRpcServer (spawn TSecondary (subsystem_tasks b1 s)))) = false) as Hreg.
  { intros c2 c1 s' [Hp' Hc']. destruct (register_local_frame cfg (spawn_if c2 TRpcServer (spawn TSecondary (subsystem_tasks c1 s')))) as [-> ->].
    by destruct c2, c1. }
  specialize (Hreg b2 b1 s (conj Hp Hc)). unfold all_tasks, primary_tasks. by destruct b3.
Qed.
(** ** Shutdown *)

Definition proxy_up (s : NodeState) : Prop := running THttp s ∧ running THttps s ∧ running TCertWatcher s.
Definition proxy_down (s : NodeState) : Prop := ¬ running TProxyWatcher s ∧ Forall (λ t, ¬ running t s) proxy_tasks.
Definition dns_settled (s : NodeState) : Prop := running TDnsServer s ∨ (¬ running TDnsServer s ∧ ¬ running TDnsWatcher s).
Definition shutdown_inv (s : NodeState) : Prop :=
  match nd_phase s with
  | Up | RaftShutdown | DnsHandle => running TDnsServer s ∧ proxy_up s
  | DnsStop => ¬ running TDnsWatcher s ∧ proxy_up s
  | ProxyHandle => dns_settled s ∧ proxy_up s
  | ProxyStop => dns_settled s ∧ ¬ running TProxyWatcher s
  | Finished => dns_settled s ∧ (proxy_up s ∨ proxy_down s)
  end.
Lemma proxy_up_end t s : t ∉ proxy_tasks → proxy_up s → proxy_up (end_task t s).
Proof. unfold proxy_up. rewrite !running_end. set_solver. Qed.
Lemma proxy_down_end t s : proxy_down s → proxy_down (end_task t s).
Proof. intros [Hw Hall]. split; [rewrite running_end; tauto|]. by apply not_running_end_all. Qed.
Lemma dns_settled_end t s : t ≠ TDnsServer → dns_settled s → dns_settled (end_task t s).
Proof. unfold dns_settled. rewrite !running_end. intros Ht [H|[H1 H2]]; [left; auto|right; tauto]. Qed.
(** Tasks other than those of the DNS server and the proxy end without an effect on a shutdown. *)
Lemma shutdown_inv_end t s : t ≠ TDnsServer → t ∉ proxy_tasks → shutdown_inv s → shutdown_inv (end_task t s).
Proof.
  intros Ht Hp Hs. unfold shutdown_inv in *. change (nd_phase (end_task t s)) with (nd_phase s).
  destruct (nd_phase s); destruct Hs as [H1 H2]; split;
    auto using proxy_up_end, dns_settled_end; try (rewrite running_end; by intuition congruence).
  destruct H2; [left|right]; auto using proxy_up_end, proxy_down_end.
Qed.
Lemma cancel_other t : t ∈ on_cancel → t ≠ TDnsServer ∧ t ∉ proxy_tasks.
Proof. intros Ht. split; [intros ->|intros Hp]; unfold on_cancel, proxy_tasks in *; set_solver. Qed.
Lemma shutdown_inv_step s s' : task_step s s' → shutdown_inv s → shutdown_inv s'.
Proof.
  destruct 1 as [s Hp|s Hp|s Hp Hr|s Hp Hr|s Hp Hr|s Hp Hr|s Hp Hr|s Hp Hr|t s Hp Ht Hr|s Hp Hall|t s Hc Ht Hr|s Hr _|s Hr _|s Hr _| | | | ];
    intros Hs; try exact Hs;
    try (apply shutdown_inv_end; [done|by apply (bool_decide_unpack _)|exact Hs]);
    try (apply cancel_other in Ht as [??]; by apply shutdown_inv_end);
    unfold shutdown_inv in *; simpl in *; rewrite ?Hp in *; simpl in *.
  - done.
  - done.
  - split; [left|]; apply Hs.
  - split; [done|apply Hs].
  - split; [rewrite running_end; tauto|]. apply proxy_up_end; [set_solver|apply Hs].
  - split; [right; split; [done|apply Hs]|apply Hs].
  - split; [apply Hs|left; apply Hs].
  - split; [apply Hs|done].
  - split; [|rewrite running_end; tauto]. apply dns_settled_end; [set_solver|apply Hs].
  - split; [apply Hs|right; split; [apply Hs|done]].
Qed.

(** The tasks of the proxy that run can be ended one after the other. *)
Lemma end_proxy_tasks l s :
  nd_phase s = ProxyStop → l ⊆ proxy_tasks →
  ∃ s', rtc task_step s s' ∧ nd_phase s' = ProxyStop ∧ Forall (λ t, ¬ running t s') l ∧ ∀ t, running t s' → running t s.
Proof.
  intros Hp. induction l as [|t l IH]; intros Hl; [by exists s; split_and!; [apply rtc_refl|done|constructor|auto]|].
  destruct IH as (s' & Hrun & Hp' & Hnot & Hsub); [set_solver|].
  destruct (decide (running t s')) as [Ht|Ht].
  - exists (end_task t s'). split; [eapply rtc_r; [exact Hrun|]; apply node_proxy_end; set_solver|]. split; [done|]. split.
    + constructor; [rewrite running_end; tauto|by apply not_running_end_all].
    + intros u Hu%running_end. apply Hsub, Hu.
  - exists s'. repeat split; auto.
Qed.
Lemma proxy_stop_finishes s :
  nd_phase s = ProxyStop → ∃ s', rtc task_step s s' ∧ nd_phase s' = Finished ∧ Forall (λ t, ¬ running t s') proxy_tasks ∧
    ∀ t, running t s' → running t s.
Proof.
  intros Hp. destruct (end_proxy_tasks proxy_tasks s Hp) as (s' & Hrun & Hp' & Hnot & Hsub); [done|].
  exists (set_phase Finished s'). split; [eapply rtc_r; [exact Hrun|by apply node_proxy_done]|auto].
Qed.
Lemma dns_stop_finishes s :
  nd_phase s = DnsStop → ∃ s', rtc task_step s s' ∧ nd_phase s' = ProxyHandle ∧ ¬ running TDnsServer s' ∧ ∀ t, running t s' → running t s.
Proof.
  intros Hp. destruct (decide (running TDnsServer s)) as [Hd|Hd].
  - exists (set_phase ProxyHandle (end_task TDnsServer s)).
    assert (¬ running TDnsServer (end_task TDnsServer s)) as Hnot by (rewrite running_end; tauto). split; [|split; [done|split; [done|]]].
    + eapply rtc_l; [by apply node_dns_end|]. eapply rtc_once. by apply node_dns_done.
    + intros t Ht. apply (running_end t TDnsServer s) in Ht. apply Ht.
  - exists (set_phase ProxyHandle s). split; [eapply rtc_once; by apply node_dns_done|auto].
Qed.
(** A shutdown that has begun can come to its end, wherever it is. *)
Lemma proxy_handle_finishes s :
  nd_phase s = ProxyHandle → ∃ s', rtc task_step s s' ∧ nd_phase s' = Finished.
Proof.
  intros Hp. destruct (decide (running TProxyWatcher s)).
  - exists (set_phase Finished s). split; [eapply rtc_once; by apply node_proxy_shared|done].
  - destruct (proxy_stop_finishes (set_phase ProxyStop s) eq_refl) as (s' & Hrun & Hfin & _). exists s'. split; [|done].
    eapply rtc_l; [by apply node_proxy_own|done].
Qed.
Lemma dns_stop_then s : nd_phase s = DnsStop → ∃ s', rtc task_step s s' ∧ nd_phase s' = Finished.
Proof.
  intros Hp. destruct (dns_stop_finishes s Hp) as (s1 & Hrun & Hp1 & _). destruct (proxy_handle_finishes s1 Hp1) as (s2 & Hrun2 & Hfin).
  exists s2. split; [by etrans|done].
Qed.
Lemma dns_handle_finishes s : nd_phase s = DnsHandle → ∃ s', rtc task_step s s' ∧ nd_phase s' = Finished.
Proof.
  intros Hp. destruct (decide (running TDnsWatcher s)).
  - destruct (proxy_handle_finishes (set_phase ProxyHandle s) eq_refl) as (s' & Hrun & Hfin). exists s'. split; [|done].
    eapply rtc_l; [by apply node_dns_shared|done].
  - destruct (dns_stop_then (set_phase DnsStop s) eq_refl) as (s' & Hrun & Hfin). exists s'. split; [|done].
    eapply rtc_l; [by apply node_dns_own|done].
Qed.
Lemma shutdown_finishes s : nd_phase s ≠ Up → ∃ s', rtc task_step s s' ∧ nd_phase s' = Finished.
Proof.
  intros Hup. destruct (nd_phase s) eqn:Hp; [done| |..]; eauto using dns_handle_finishes, dns_stop_then, proxy_handle_finishes, rtc_refl.
  - destruct (dns_handle_finishes (set_phase DnsHandle s) eq_refl) as (s' & Hrun & Hfin). exists s'. split; [|done].
    eapply rtc_l; [by apply node_raft|done].
  - destruct (proxy_stop_finishes s Hp) as (s' & Hrun & Hfin & _). eauto.
Qed.

Lemma node_up_inv s : node_up s → shutdown_inv s.
Proof.
  intros (Hall & Hp & _). unfold shutdown_inv. rewrite Hp. rewrite Forall_forall in Hall.
  unfold proxy_up. split_and!; apply Hall; unfold base_tasks; set_solver.
Qed.
(** When the watchers have noticed the signal before the handles are looked at, everything is stopped. *)
Lemma prompt_shutdown s :
  node_up s → ∃ s', rtc task_step s s' ∧ nd_phase s' = Finished ∧ ¬ running TDnsServer s' ∧ proxy_down s'.
Proof.
  intros (Hall & Hp & _). rewrite Forall_forall in Hall.
  set (s1 := mkNodeState (nd_tasks s) (nd_senders s) (nd_conns s) (nd_registered s) true RaftShutdown).
  set (s2 := end_task TProxyWatcher (end_task TDnsWatcher s1)). set (s3 := set_phase DnsStop (set_phase DnsHandle s2)).
  assert (¬ running TProxyWatcher s3 ∧ ¬ running TDnsWatcher s3) as [Hpw Hdw].
  { change (¬ running TProxyWatcher s2 ∧ ¬ running TDnsWatcher s2). unfold s2. rewrite !running_end. tauto. }
  destruct (dns_stop_finishes s3 eq_refl) as (s4 & Hrun4 & Hp4 & Hd4 & Hsub4).
  destruct (proxy_stop_finishes (set_phase ProxyStop s4) eq_refl) as (s5 & Hrun5 & Hp5 & Hnot5 & Hsub5).
  exists s5. split_and!; [|done|by intros Hd%Hsub5|split; [by intros Hw%Hsub5%Hsub4|done]].
  apply rtc_l with s1; [by apply node_signal|].
  apply rtc_l with (end_task TDnsWatcher s1).
  { apply node_cancelled; [done|unfold on_cancel; set_solver|]. apply Hall. unfold base_tasks. set_solver. }
  apply rtc_l with s2.
  { apply node_cancelled; [done|unfold on_cancel; set_solver|]. apply running_end. split; [|done]. apply Hall. unfold base_tasks. set_solver. }
  apply rtc_l with (set_phase DnsHandle s2); [by apply node_raft|].
  apply rtc_l with s3; [by apply node_dns_own|].
  etrans; [exact Hrun4|]. eapply rtc_l; [|exact Hrun5]. apply node_proxy_own; [done|]. intros Hw. by apply Hpw, Hsub4.
Qed.
(** When they have not, nothing is. *)
Lemma hasty_shutdown s :
  node_up s → ∃ s', rtc task_step s s' ∧ nd_phase s' = Finished ∧ nd_tasks s' = nd_tasks s.
Proof.
  intros (Hall & Hp & _). rewrite Forall_forall in Hall.
  assert (running TDnsWatcher s ∧ running TProxyWatcher s) as [Hd Hw] by (split; apply Hall; unfold base_tasks; set_solver).
  set (s1 := mkNodeState (nd_tasks s) (nd_senders s) (nd_conns s) (nd_registered s) true RaftShutdown).
  exists (set_phase Finished (set_phase ProxyHandle (set_phase DnsHandle s1))). split; [|done].
  apply rtc_l with s1; [by apply node_signal|]. eapply rtc_l; [by apply node_raft|].
  eapply rtc_l; [by apply node_dns_shared|]. apply rtc_once. by apply node_proxy_shared.
Qed.

(** A node that was started by init or join, whose secondary belongs to its primary, or from its stored identity with its
    RPC server, as the daemon does it. *)
Definition node_started (s : NodeState) : Prop :=
  ∃ cfg ip, (pc_local_secondary cfg = true ∧ (init cfg ip = (Ok tt, s) ∨ join cfg ip = (Ok tt, s))) ∨
    (pc_local_secondary cfg = false ∧ restart cfg ip = (Ok tt, s) ∧ bindable bind_error (SocketAddr_new ip RPC_PORT) = true).
Lemma started_up s : node_started s → node_up s ∧ handle_held s.
Proof.
  assert (∀ b1 b2 b3 cfg s0, nd_phase s0 = Up → nd_cancelled s0 = false → pc_local_secondary cfg = true ∨ b2 = true →
    node_up (all_tasks b1 b2 b3 cfg s0) ∧ handle_held (all_tasks b1 b2 b3 cfg s0)) as Hgen.
  { intros b1 b2 b3 cfg s0 Hp Hc Hor. split; [by apply all_tasks_up|]. unfold handle_held. rewrite !running_all_tasks.
    assert (TSecondary ∈ base_tasks ∧ TReportProcessor ∈ base_tasks) as [? ?] by (split; by apply (bool_decide_unpack _)). tauto. }
  intros (cfg & ip & [[Hloc [H|H]]|(Hloc & H & Hb)]).
  - apply init_ok in H as (b1 & b3 & ->). by apply Hgen; [..|left].
  - apply join_ok in H as (b1 & b3 & ->). apply Hgen; [by destruct b3..|by left].
  - apply restart_ok in H as (b1 & b3 & ->). apply Hgen; [done..|by right].
Qed.

(** * Theorems *)

(** Shutting a node down does not make the loop of its containers return: whatever happens after a start, the loop runs
    and its command channel has a sender. The handle of the local secondary belongs to the task that passes its reports on,
    which waits for the loop to end; the RPC server of a restarted node waits for a token that nothing cancels. *)
Theorem secondary_outlives_shutdown s0 s :
  node_started s0 → rtc task_step s0 s → running TSecondary s ∧ command_sender s.
Proof.
  intros [_ Hheld]%started_up Hrun. destruct (node_reachable handle_held s0 s) as [Hsec Hor]; [exact handle_held_step|done..|].
  split; [done|]. destruct Hor as [[Hf _]|Hr]; [by left|by right; left].
Qed.

(** C26: A shutdown that has begun can always go on to its end. When it is through, the DNS server either runs on or has
    been stopped after its watcher ended, and the proxy serves on with all its loops or has ended with every one of them.
    Both outcomes are possible for every node: a handle that a watcher still shares is only dropped. *)
Theorem shutdown_outcomes s0 :
  node_started s0 →
  (∀ s, rtc task_step s0 s → nd_phase s ≠ Up → ∃ s', rtc task_step s s' ∧ nd_phase s' = Finished) ∧
  (∀ s, rtc task_step s0 s → nd_phase s = Finished → dns_settled s ∧ (proxy_up s ∨ proxy_down s)) ∧
  (∃ s, rtc task_step s0 s ∧ nd_phase s = Finished ∧ ¬ running TDnsServer s ∧ proxy_down s) ∧
  (∃ s, rtc task_step s0 s ∧ nd_phase s = Finished ∧ running TDnsServer s ∧ proxy_up s).
Proof.
  intros [Hup _]%started_up. pose proof (node_up_inv _ Hup) as Hinv. split_and!.
  - intros s _ Hp. by apply shutdown_finishes.
  - intros s Hrun Hp. assert (shutdown_inv s) as Hs by (eapply node_reachable; eauto using shutdown_inv_step).
    unfold shutdown_inv in Hs. by rewrite Hp in Hs.
  - by apply prompt_shutdown.
  - destruct (hasty_shutdown s0 Hup) as (s & Hrun & Hp & Ht). exists s. unfold proxy_up, running. rewrite Ht.
    unfold shutdown_inv in Hinv. destruct Hup as (_ & Hu & _). rewrite Hu in Hinv. split_and!; try done; apply Hinv.
Qed.

(** A node that is restarted while its RPC port is taken starts, but the handle of its secondary is dropped: the loop
    of its containers can end at once, while everything else runs. *)
Theorem restart_without_rpc cfg ip s0 :
  restart cfg ip = (Ok tt, s0) → pc_local_secondary cfg = false → bindable bind_error (SocketAddr_new ip RPC_PORT) = false →
  ∃ s, task_step s0 s ∧ nd_phase s = Up ∧ ¬ running TSecondary s ∧ ∀ t, t ∈ base_tasks → t ≠ TSecondary → running t s.
Proof.
  intros H Hloc Hb. apply restart_ok in H as (b1 & b3 & ->). rewrite Hb. exists (end_task TSecondary (all_tasks b1 false b3 cfg nd_init)).
  destruct (all_tasks_up b1 false b3 cfg nd_init eq_refl eq_refl) as (Hall & Hp & _). rewrite Forall_forall in Hall. split_and!.
  - apply node_secondary; [apply Hall; unfold base_tasks; set_solver|]. unfold command_sender. rewrite !running_all_tasks, Hloc.
    assert (nd_registered (all_tasks b1 false b3 cfg nd_init) = false) as ->.
    { unfold all_tasks, primary_tasks, register_local. rewrite Hloc. by destruct b3, b1. }
    unfold running, base_tasks. set_solver.
  - done.
  - rewrite running_end. tauto.
  - intros t Ht Hne. apply running_end. auto.
Qed.

(** What a start of the primary has begun when it returns. It succeeds exactly when the address of the API can be
    bound, which it tries last: a start that fails has begun every other task, and leaves the token uncancelled. *)
Theorem primary_start_tasks cfg dns proxy s :
  let '(r, s') := primary_start bind_error cfg dns proxy s in
  (r = if bindable bind_error (pc_api_addr cfg) then Ok tt else Err (BindErr (show_sock (pc_api_addr cfg)))) ∧
  nd_cancelled s' = nd_cancelled s ∧
  ∀ t, running t s' ↔ running t s ∨ t ∈ [TConnectionWatcher; TReportProcessor; TWatchdog] ∨ (pc_local_secondary cfg = true ∧ t = TFanIn) ∨
    (dns = true ∧ t = TDnsWatcher) ∨ (proxy = true ∧ t = TProxyWatcher) ∨ (r = Ok tt ∧ t = TApi).
Proof.
  rewrite primary_start_eq. split; [done|]. split.
  - unfold primary_tasks. assert (∀ b t s, nd_cancelled (spawn_if b t s) = nd_cancelled s) as Hsp by (by intros []).
    rewrite Hsp. simpl. rewrite !Hsp. simpl. apply register_local_frame.
  - intros t. unfold primary_tasks.
    repeat (rewrite running_spawn || rewrite running_spawn_if || rewrite running_register_local). rewrite !elem_of_cons, elem_of_nil.
    destruct (bindable bind_error (pc_api_addr cfg)); naive_solver.
Qed.

(** How the subsystems fail to start: without the DNS server's sockets nothing has been started; when the proxy cannot
    start, the DNS server that was started before it is left running. *)
Theorem subsystem_failures s r s' :
  subsystems s = (r, s') →
  (bindable bind_error DNS_ADDR && bindable bind_error FORWARDER_ADDR = false → s' = s ∧ ∃ addr e, r = Err (net_bind_error addr e)) ∧
  (bindable bind_error DNS_ADDR && bindable bind_error FORWARDER_ADDR = true →
     bindable bind_error HTTP_ADDR && bindable bind_error HTTPS_ADDR && listed = false →
     s' = spawn TDnsServer s ∧ ∃ e, r = Err (Internal ("proxy startup: " +:+ e)%string)) ∧
  (bindable bind_error DNS_ADDR && bindable bind_error FORWARDER_ADDR && bindable bind_error HTTP_ADDR && bindable bind_error HTTPS_ADDR && listed = true →
     ∃ b c, s' = subsystem_tasks b s ∧ r = Ok (PortAllocator_new tables, c)).
Proof.
  intros H. unfold start_subsystems, dns_start, proxy_start_tasks, proxy_start, bindable in *.
  destruct (bind_error DNS_ADDR) as [e1|], (bind_error FORWARDER_ADDR) as [e2|], (bind_error HTTP_ADDR) as [e3|], (bind_error HTTPS_ADDR) as [e4|], listed;
    simpl in *; simplify_eq; split_and!; intros; try done; eauto.
  repeat case_match; simplify_eq; try (by eexists _, _); by exists false; eexists.
Qed.
End started.

(** ** Random names *)

(** The value of a hexadecimal digit. *)
Definition hex_value (c : Ascii.ascii) : Z :=
  let n := Z.of_nat (Ascii.nat_of_ascii c) in if n <? 58 then n - 48 else n - 87.
Lemma hex_value_digit d : 0 <= d < 16 → hex_value (hex_digit d) = d.
Proof.
  intros Hd. assert (∀ n, (n < 16)%nat → hex_value (hex_digit (Z.of_nat n)) = Z.of_nat n) as Hall.
  { intros n Hn. do 16 (destruct n as [|n]; [done|]). lia. }
  rewrite <- (Z2Nat.id d) by lia. apply Hall. lia.
Qed.
Lemma hex_encode_length l : String.length (hex_encode l) = (2 * length l)%nat.
Proof. induction l as [|b l IH]; [done|]. transitivity (S (S (String.length (hex_encode l)))); [done|]. rewrite IH. simpl. lia. Qed.
Lemma hex_encode_inj l1 l2 :
  Forall (λ b, 0 <= b < 256) l1 → Forall (λ b, 0 <= b < 256) l2 → hex_encode l1 = hex_encode l2 → l1 = l2.
Proof.
  revert l2. induction l1 as [|b1 l1 IH]; intros [|b2 l2] H1 H2 Heq; [done..|].
  apply Forall_cons in H1 as [Hb1 H1], H2 as [Hb2 H2]. injection Heq as Hhi Hlo Hrest.
  apply (f_equal hex_value) in Hhi, Hlo. rewrite !hex_value_digit in Hhi, Hlo; try (apply Z.mod_pos_bound; lia);
    try (split; [apply Z.div_pos; lia|apply Z.div_lt_upper_bound; lia]).
  f_equal; [|by apply IH]. rewrite (Z.div_mod b1 16), (Z.div_mod b2 16) by lia. by rewrite Hhi, Hlo.
Qed.

(** Identifiers of nodes have sixteen characters and tokens thirty-two, and different random bytes give different
    ones. *)
Theorem random_names_faithful rng rng' :
  (∀ i, 0 <= rng i < 256) → (∀ i, 0 <= rng' i < 256) →
  String.length (generate_id rng) = 16%nat ∧ String.length (generate_token rng) = 32%nat ∧
  (generate_id rng = generate_id rng' → ∀ i, (i < 8)%nat → rng i = rng' i) ∧
  (generate_token rng = generate_token rng' → ∀ i, (i < 16)%nat → rng i = rng' i).
Proof.
  intros Hr Hr'. assert (∀ (f : nat → Z) l, (∀ i, 0 <= f i < 256) → Forall (λ b : Z, 0 <= b < 256) (f <$> l)) as Hall.
  { intros f l Hf. apply Forall_fmap, Forall_forall. intros i _. apply Hf. }
  assert (∀ n, hex_encode (rng <$> seq 0 n) = hex_encode (rng' <$> seq 0 n) → ∀ i, (i < n)%nat → rng i = rng' i) as Hinj.
  { intros n Heq i Hi. apply hex_encode_inj in Heq; auto. apply (f_equal (.!! i)) in Heq. rewrite !list_lookup_fmap in Heq.
    rewrite lookup_seq_lt in Heq by done. by simplify_eq/=. }
  unfold generate_id, generate_token, generate_hex. rewrite !hex_encode_length, !length_fmap, !length_seq. split_and!; [done..| |]; apply Hinj.
Qed.

(** * Examples *)

Definition ex_bind (taken : list SocketAddr) (a : SocketAddr) : option string :=
  if decide (a ∈ taken) then Some "address in use"%string else None.
Definition ex_ip : IpAddr := V4 (10 * 2 ^ 24 + 99 * 2 ^ 16 + 1).
Definition ex_primary (local : bool) : PrimaryConfig :=
  mkPrimaryConfig (SocketAddr_new UNSPECIFIED API_PORT) "t" "t" (if local then Some (mkNodeId "n1") else None) None local.
Definition ex_start (f : ∀ (HI : HashIter) (bind_error : SocketAddr → option string) (pem_certs : string → list (result string string))
    (pem_key : string → result (option string) string) (not_after : string → result Z string) (usable : CertPair → bool)
    (read_creds restore : string → result unit string) (register : result string string) (tables : HostTables) (acme : option AcmeConfig)
    (listed : bool) (budget : nat) (certs : Dir) (connect : result unit string) (cfg : PrimaryConfig) (tunnel_ip : IpAddr),
    result unit NodeError * NodeState) (taken : list SocketAddr) (local : bool) : result unit NodeError * NodeState :=
  f stored_order (ex_bind taken) ex_pem_certs ex_pem_key ex_not_after (λ _, true) (λ _, Ok tt) (λ _, Ok tt) (Ok "{}"%string)
    (mkHostTables None None None) None true 2%nat ∅ (Ok tt) (ex_primary local) ex_ip.
Definition ex_started (taken : list SocketAddr) : NodeState → Prop :=
  node_started (HI := stored_order) (ex_bind taken) ex_pem_certs ex_pem_key ex_not_after (λ _, true) (λ _, Ok tt) (λ _, Ok tt) (Ok "{}"%string)
    (mkHostTables None None None) None true 2%nat ∅ (Ok tt).
Example ex_init_ok : (ex_start (@init_tasks) [] true).1 = Ok tt.
Proof. reflexivity. Qed.
Lemma ex_init_started : ex_started [] (ex_start (@init_tasks) [] true).2.
Proof. exists (ex_primary true), ex_ip. left. split; [done|]. left. reflexivity. Qed.
Lemma ex_restart_started : ex_started [] (ex_start (@restart_tasks) [] false).2.
Proof. exists (ex_primary false), ex_ip. right. split_and!; reflexivity. Qed.

Lemma secondary_outlives_shutdown_witness :
  let s0 := (ex_start (@init_tasks) [] true).2 in let s1 := (ex_start (@restart_tasks) [] false).2 in
  (∃ s, rtc task_step s0 s ∧ nd_phase s = Finished ∧ running TSecondary s) ∧ running TSecondary s1.
Proof.
  intros s0 s1. split.
  - destruct (hasty_shutdown s0) as (s & Hrun & Hp & _); [by eapply started_up, ex_init_started|]. exists s. split_and!; [done..|].
    exact (proj1 (secondary_outlives_shutdown _ _ _ _ _ _ _ _ _ _ _ _ _ _ s0 s ex_init_started Hrun)).
  - exact (proj1 (secondary_outlives_shutdown _ _ _ _ _ _ _ _ _ _ _ _ _ _ s1 s1 ex_restart_started (rtc_refl _ _))).
Defined.
Lemma shutdown_outcomes_witness :
  ∃ s, rtc task_step (ex_start (@join_tasks) [] true).2 s ∧ nd_phase s = Finished ∧ running TDnsServer s ∧ proxy_up s.
Proof.
  eapply (shutdown_outcomes (HI := stored_order) (ex_bind []) ex_pem_certs ex_pem_key ex_not_after (λ _, true) (λ _, Ok tt) (λ _, Ok tt) (Ok "{}"%string)
    (mkHostTables None None None) None true 2%nat ∅ (Ok tt)).
  exists (ex_primary true), ex_ip. left. split; [done|]. right. reflexivity.
Defined.
Lemma restart_without_rpc_witness :
  ∃ s, task_step (ex_start (@restart_tasks) [SocketAddr_new ex_ip RPC_PORT] false).2 s ∧ nd_phase s = Up ∧ ¬ running TSecondary s ∧
    ∀ t, t ∈ base_tasks → t ≠ TSecondary → running t s.
Proof.
  eapply (restart_without_rpc (HI := stored_order) (ex_bind [SocketAddr_new ex_ip RPC_PORT]) ex_pem_certs ex_pem_key ex_not_after (λ _, true)
    (λ _, Ok tt) (λ _, Ok tt) (Ok "{}"%string) (mkHostTables None None None) None true 2%nat ∅ (Ok tt) (ex_primary false) ex_ip);
    reflexivity.
Defined.
Lemma subsystem_failures_witness :
  let r := start_subsystems (HI := stored_order) (ex_bind [HTTP_ADDR]) ex_pem_certs ex_pem_key ex_not_after (λ _, true) (λ _, Ok tt) (λ _, Ok tt)
             (Ok "{}"%string) (mkHostTables None None None) None true 2%nat ∅ nd_init in
  r.2 = spawn TDnsServer nd_init.
Proof.
  intros r. eapply (subsystem_failures (HI := stored_order) (ex_bind [HTTP_ADDR]) ex_pem_certs ex_pem_key ex_not_after (λ _, true) (λ _, Ok tt)
    (λ _, Ok tt) (Ok "{}"%string) (mkHostTables None None None) None true 2%nat ∅ nd_init r.1 r.2); reflexivity.
Defined.
Lemma random_names_faithful_witness :
  String.length (generate_id (λ i, Z.of_nat i mod 256)) = 16%nat ∧ generate_id (λ i, Z.of_nat i mod 256) = "0001020304050607"%string.
Proof.
  split; [|vm_compute; reflexivity].
  eapply (random_names_faithful (λ i, Z.of_nat i mod 256) (λ _, 0)); intros; [apply Z.mod_pos_bound; lia|lia].
Defined.
