(* ===== verification/Doubles.v ===== *)
(** The in-memory stand-ins that run in place of the outside world: the secondary, containers, volumes and mesh of
    [src/crates/support/src/{secondary,runtime,volume,mesh}.rs] and the router of [src/crates/raft/src/network/mod.rs]. A stand-in is
    of use as far as it behaves like what it replaces. The theorems say how far: the stand-in of the secondary reports what
    the real one can report, for commands that do not start an allocation twice; the in-process router of raft gives the
    answers of the HTTP network when requests arrive; the volumes and the mesh keep the contracts of their interfaces; and
    with the stand-in of the runtime, recovery asks for exactly the stops and removals it should. *)

From Stdlib Require Import Ascii.
From S2P Require Import Prelude Types Fsm Ports Rpc World Storage Secondary Oci Logs Api Daemon RaftNet.
Local Open Scope Z_scope.

(** * The secondary (support/src/secondary.rs) *)

Record TestSecondary := mkTestSecondary {
  ts_fail_next_run : option string;
  ts_running : gset AllocId;
  ts_listeners : gmap AllocId SocketAddr;
  ts_port_counter : Z;
}.
Definition TestSecondary_start : TestSecondary := mkTestSecondary None ∅ ∅ 30000.
Definition fail_next_run (reason : string) (t : TestSecondary) : TestSecondary :=
  mkTestSecondary (Some reason) (ts_running t) (ts_listeners t) (ts_port_counter t).
(** One command; [address] is where the system lets it listen. *)
Definition test_command (address : SocketAddr) (cmd : NodeCommand) (t : TestSecondary) : list NodeReport * TestSecondary :=
  match cmd with
  | Run aid _ _ =>
      match ts_fail_next_run t with
      | Some reason => ([RunFailed aid reason], mkTestSecondary None (ts_running t) (ts_listeners t) (ts_port_counter t))
      | None =>
          ([RunStarted aid (Some (ts_port_counter t)) (Some address)],
           mkTestSecondary None ({[ aid ]} ∪ ts_running t) (<[aid := address]> (ts_listeners t)) ((ts_port_counter t + 1) mod 2 ^ 16))
      end
  | Stop aid =>
      ([StoppedReport aid 0],
       mkTestSecondary (ts_fail_next_run t) (ts_running t ∖ {[ aid ]}) (delete aid (ts_listeners t)) (ts_port_counter t))
  | Pull image _ => ([PullComplete image], t)
  | LogTail aid _ => ([LogLines aid []], t)
  | LogFollow _ | LogUnfollow _ => ([], t)
  end.
Fixpoint command_loop (cmds : list (SocketAddr * NodeCommand)) (t : TestSecondary) : list NodeReport * TestSecondary :=
  match cmds with
  | [] => ([], t)
  | (address, cmd) :: cmds =>
      let '(r, t) := test_command address cmd t in
      let '(rs, t) := command_loop cmds t in
      (r ++ rs, t)
  end.
(** The heartbeat; [order] is the order in which the set of running allocations is visited, and [cpu] the constant 0.1. *)
Definition test_heartbeat (order : list AllocId) (cpu : f64) (node : NodeId) (res : NodeResources) : Heartbeat :=
  mkHeartbeat node (hm_collect ((λ id, (id, Running)) <$> order)) res ((λ id, mkContainerStats id cpu (64 * 2 ^ 20)) <$> order) [].

(** * Containers (support/src/runtime.rs) *)

Record TestState := mkTestState {
  tc_managed : list AllocId;
  tc_recovered : gmap AllocId RecoveredContainer;
  tc_stop_fail : gset AllocId;
  tc_recover_fail : gset AllocId;
  tc_cached_images : gset string;
  tc_pull_fail : gset string;
  tc_run_fail : bool;
  tc_stopped : list AllocId;
  tc_removed : list AllocId;
  tc_run_specs : list ContainerSpec;
}.
Definition TestContainers_new : TestState := mkTestState [] ∅ ∅ ∅ ∅ ∅ false [] [] [].
Definition with_managed (ids : list AllocId) (t : TestState) : TestState :=
  mkTestState ids (tc_recovered t) (tc_stop_fail t) (tc_recover_fail t) (tc_cached_images t) (tc_pull_fail t) (tc_run_fail t) (tc_stopped t) (tc_removed t) (tc_run_specs t).
Definition with_recovered (id : AllocId) (info : RecoveredContainer) (t : TestState) : TestState :=
  mkTestState (tc_managed t) (<[id := info]> (tc_recovered t)) (tc_stop_fail t) (tc_recover_fail t) (tc_cached_images t) (tc_pull_fail t) (tc_run_fail t) (tc_stopped t) (tc_removed t) (tc_run_specs t).
Definition with_stop_fail (id : AllocId) (t : TestState) : TestState :=
  mkTestState (tc_managed t) (tc_recovered t) ({[ id ]} ∪ tc_stop_fail t) (tc_recover_fail t) (tc_cached_images t) (tc_pull_fail t) (tc_run_fail t) (tc_stopped t) (tc_removed t) (tc_run_specs t).
Definition with_recover_fail (id : AllocId) (t : TestState) : TestState :=
  mkTestState (tc_managed t) (tc_recovered t) (tc_stop_fail t) ({[ id ]} ∪ tc_recover_fail t) (tc_cached_images t) (tc_pull_fail t) (tc_run_fail t) (tc_stopped t) (tc_removed t) (tc_run_specs t).
Definition tc_list_managed (t : TestState) : result (list AllocId) string := Ok (tc_managed t).
Definition tc_stop (aid : AllocId) (t : TestState) : result Z string * TestState :=
  if bool_decide (aid ∈ tc_stop_fail t) then (Err ("container not found: mill-" +:+ alloc_id_0 aid)%string, t)
  else (Ok 0, mkTestState (tc_managed t) (tc_recovered t) (tc_stop_fail t) (tc_recover_fail t) (tc_cached_images t) (tc_pull_fail t) (tc_run_fail t) (tc_stopped t ++ [aid]) (tc_removed t) (tc_run_specs t)).
Definition tc_remove (aid : AllocId) (t : TestState) : TestState :=
  mkTestState (tc_managed t) (tc_recovered t) (tc_stop_fail t) (tc_recover_fail t) (tc_cached_images t) (tc_pull_fail t) (tc_run_fail t) (tc_stopped t) (tc_removed t ++ [aid]) (tc_run_specs t).
(** A container of which nothing is known has the defaults. *)
Definition default_recovered : RecoveredContainer := mkRecovered KService None None None (f64_div (f64_of_Z 1) (f64_of_Z 4)) 268435456 "test:latest" [].
Definition tc_recover_info (aid : AllocId) (t : TestState) : option RecoveredContainer :=
  if bool_decide (aid ∈ tc_recover_fail t) then None else Some (default default_recovered (tc_recovered t !! aid)).
Definition tc_is_image_cached (image : string) (t : TestState) : result bool string := Ok (bool_decide (image ∈ tc_cached_images t)).
Definition tc_pull_image (image : string) (t : TestState) : result unit string :=
  if bool_decide (image ∈ tc_pull_fail t) then Err ("failed to pull image " +:+ image +:+ ": test failure")%string else Ok tt.
Definition tc_run (spec : ContainerSpec) (t : TestState) : result unit string * TestState :=
  (Err ("failed to build OCI spec: " +:+ (if tc_run_fail t then "test run failure" else "TestContainers::run not supported"))%string,
   mkTestState (tc_managed t) (tc_recovered t) (tc_stop_fail t) (tc_recover_fail t) (tc_cached_images t) (tc_pull_fail t) false (tc_stopped t) (tc_removed t) (tc_run_specs t ++ [spec])).

(** Recovery with these containers: each orphan is stopped and, whether or not that worked, removed. *)
Definition stop_orphan (t : TestState) (aid : AllocId) : TestState := tc_remove aid (tc_stop aid t).2.
Definition reconcile_with (t : TestState) (expected : list AllocId) (mesh_ip : option IpAddr) (s : Sec) : TestState * Sec :=
  let '(orphans, s) := reconcile (tc_list_managed t) (λ aid, tc_recover_info aid t) expected mesh_ip s in
  (foldl stop_orphan t orphans, s).

(** * Volumes (support/src/volume.rs) *)

(** The interface [Volumes] over the driver's state. *)
Class Volumes (D : Type) := {
  v_create : string → Z → D → result string StorageError * D;
  v_destroy : string → D → result unit StorageError * D;
  v_attach : string → string → D → result unit StorageError * D;
  v_detach : string → D → result unit StorageError * D;
}.
Record MemoryVolume := mkMemoryVolume {
  mv_cloud_id : string;
  mv_size : Z;
  mv_attached_to : option string;
}.
Record TestVolumes := mkTestVolumes {
  tv_volumes : gmap string MemoryVolume;
  tv_fail_next_create : option string;
}.
Definition TestVolumes_new : TestVolumes := mkTestVolumes ∅ None.
Definition fail_next_create (reason : string) (d : TestVolumes) : TestVolumes := mkTestVolumes (tv_volumes d) (Some reason).
Definition tv_attached_to (name : string) (d : TestVolumes) : option string := tv_volumes d !! name ≫= mv_attached_to.
Definition tv_exists (name : string) (d : TestVolumes) : bool := hm_contains name (tv_volumes d).
Definition tv_create (name : string) (size : Z) (d : TestVolumes) : result string StorageError * TestVolumes :=
  match tv_fail_next_create d with
  | Some reason => (Err (StorageApi reason), mkTestVolumes (tv_volumes d) None)
  | None =>
      if hm_contains name (tv_volumes d) then (Err (VolumeAlreadyExists name), d)
      else let cloud_id := ("mem-vol-" +:+ name)%string in
           (Ok cloud_id, mkTestVolumes (<[name := mkMemoryVolume cloud_id size None]> (tv_volumes d)) None)
  end.
Definition tv_destroy (name : string) (d : TestVolumes) : result unit StorageError * TestVolumes :=
  (if hm_contains name (tv_volumes d) then Ok tt else Err (VolumeNotFound name), mkTestVolumes (delete name (tv_volumes d)) (tv_fail_next_create d)).
Definition set_attached (to : option string) (name : string) (d : TestVolumes) : result unit StorageError * TestVolumes :=
  match tv_volumes d !! name with
  | Some v => (Ok tt, mkTestVolumes (<[name := mkMemoryVolume (mv_cloud_id v) (mv_size v) to]> (tv_volumes d)) (tv_fail_next_create d))
  | None => (Err (VolumeNotFound name), d)
  end.
Definition tv_attach (name instance_id : string) (d : TestVolumes) : result unit StorageError * TestVolumes := set_attached (Some instance_id) name d.
Definition tv_detach (name : string) (d : TestVolumes) : result unit StorageError * TestVolumes := set_attached None name d.
#[export] Instance test_volumes : Volumes TestVolumes :=
  {| v_create := tv_create; v_destroy := tv_destroy; v_attach := tv_attach; v_detach := tv_detach |}.

(** * The mesh (support/src/mesh.rs) *)

Abbreviation TestMesh := (gmap string PeerInfo).
Definition TestMesh_new : TestMesh := ∅.
Definition has_peer (pubkey : string) (m : TestMesh) : bool := hm_contains pubkey m.
Definition peer_count (m : TestMesh) : nat := size m.
Definition tm_add_peer (peer : PeerInfo) (m : TestMesh) : TestMesh := <[pi_public_key peer := peer]> m.
Definition tm_remove_peer (pubkey : string) (m : TestMesh) : TestMesh := delete pubkey m.

(** * Raft's network in one process (raft/src/network/mod.rs) *)

Section router.
Context `{R : RaftMessages}.
Abbreviation TestRouter := (gmap Z RaftHandle).
Definition TestRouter_new : TestRouter := ∅.
Definition add_test_node (id : Z) (raft : RaftHandle) (r : TestRouter) : TestRouter := <[id := raft]> r.
Definition remove_test_node (id : Z) (r : TestRouter) : TestRouter := delete id r.
Definition get_node (id : Z) (r : TestRouter) : result RaftHandle string :=
  match r !! id with
  | Some raft => Ok raft
  | None => Err ("node " +:+ pretty id +:+ " not reachable")%string
  end.
(** The errors of openraft that the requests give. *)
Inductive TestNetError :=
| TUnreachable (msg : string)
| TNetwork (msg : string)
| TStorage (msg : string).
Definition test_append_entries (r : TestRouter) (target : Z) (rpc : AppendRequest) : result AppendResponse TestNetError :=
  match get_node target r with
  | Err e => Err (TUnreachable e)
  | Ok raft => match rh_append raft rpc with Ok v => Ok v | Err e => Err (TNetwork e) end
  end.
Definition test_vote (r : TestRouter) (target : Z) (rpc : VoteReq) : result VoteResp TestNetError :=
  match get_node target r with
  | Err e => Err (TUnreachable e)
  | Ok raft => match rh_vote raft rpc with Ok v => Ok v | Err e => Err (TNetwork e) end
  end.
(** [is_storage] says which fatal errors are storage errors. *)
Definition test_full_snapshot (is_storage : string → bool) (r : TestRouter) (target : Z) (v : RaftVote) (meta : SnapMeta) (data : string)
    : result SnapResponse TestNetError :=
  match get_node target r with
  | Err e => Err (TUnreachable e)
  | Ok raft => match rh_install raft v meta data with Ok v => Ok v | Err e => Err (if is_storage e then TStorage e else TUnreachable e) end
  end.

(** * Theorems *)

Section network.
Context `{!RaftMessagesLaws R} (http_post : string → JV → result (option JV) string) (net : HttpNetwork) (router : TestRouter).
(** The same nodes are known to both, and requests to a node's address reach its raft. *)
Hypothesis same_nodes : dom net = dom router.
Hypothesis delivered : ∀ id url raft, net !! id = Some url → router !! id = Some raft →
  ∀ path body, http_post (url +:+ path)%string body = Ok (axum_router raft path body).

Lemma known_nodes id :
  (∃ url raft, net !! id = Some url ∧ router !! id = Some raft) ∨ (net !! id = None ∧ router !! id = None).
Proof.
  destruct (net !! id) as [url|] eqn:Hn.
  - left. assert (id ∈ dom router) as [raft Hr]%elem_of_dom by (rewrite <- same_nodes; by apply elem_of_dom_2 in Hn). eauto.
  - right. split; [done|]. apply not_elem_of_dom. rewrite <- same_nodes. by apply not_elem_of_dom.
Qed.
(** A request whose answer can be encoded and read back succeeds with it; any other fails. *)
Lemma call_delivered {A} wrap (dec : JV → option (RpcResponse A)) (enc : RpcResponse A → option JV) id url raft path body (r : result A string) :
  net !! id = Some url → router !! id = Some raft → axum_router raft path body = enc (to_response r) →
  (∀ v, ∃ j, enc (RpcOk v) = Some j ∧ dec j = Some (RpcOk v)) → (∀ m, enc (RpcErr m) = None) →
  rpc_call http_post wrap dec net id path body = match r with Ok v => Ok v | Err _ => Err (wrap "error decoding response body"%string) end.
Proof.
  intros Hn Hr Ha Hback Hno. unfold rpc_call, get_peer_url. rewrite Hn, (delivered id url raft) by done. rewrite Ha.
  destruct r as [v|e]; simpl; [by destruct (Hback v) as (j & -> & ->)|by rewrite Hno].
Qed.

(** The in-process router gives the answers of the HTTP network: over a network that delivers, for every target, a
    request succeeds with one exactly when it succeeds with the other, and with the same answer. *)
Theorem test_router_equivalent is_storage target :
  (∀ rpc v, append_entries http_post net target rpc = Ok v ↔ test_append_entries router target rpc = Ok v) ∧
  (∀ rpc v, RaftNet.vote http_post net target rpc = Ok v ↔ test_vote router target rpc = Ok v) ∧
  (∀ vt meta data v, full_snapshot http_post net target vt meta data = Ok v ↔ test_full_snapshot is_storage router target vt meta data = Ok v).
Proof.
  unfold test_append_entries, test_vote, test_full_snapshot, get_node, append_entries, RaftNet.vote, full_snapshot.
  destruct (known_nodes target) as [(url & raft & Hn & Hr)|[Hn Hr]]; rewrite Hr;
    [|by split_and!; intros; unfold rpc_call, get_peer_url; rewrite Hn].
  split_and!; intros.
  - rewrite (call_delivered NetworkError dec_append_resp enc_append_resp target url raft _ _ (rh_append raft rpc));
      [|done|done| |exact append_resp_back|exact (λ m, proj1 (no_string_variant m))];
      [|unfold axum_router, handle_append; simpl; by rewrite append_back]. destruct (rh_append raft rpc); naive_solver.
  - rewrite (call_delivered NetworkError dec_vote_resp enc_vote_resp target url raft _ _ (rh_vote raft rpc));
      [|done|done| |exact vote_resp_back|exact (λ m, proj1 (proj2 (no_string_variant m)))];
      [|unfold axum_router, handle_vote; simpl; by rewrite vote_back]. destruct (rh_vote raft rpc); naive_solver.
  - rewrite (call_delivered Unreachable dec_snap_resp enc_snap_resp target url raft _ _ (rh_install raft vt meta data));
      [|done|done| |exact snap_resp_back|exact (λ m, proj2 (proj2 (no_string_variant m)))];
      [|unfold axum_router, handle_snapshot, dec_full; simpl; by rewrite raft_vote_back, meta_back, bytes_back].
    destruct (rh_install raft vt meta data); naive_solver.
Qed.
End network.
End router.

(** ** The secondary *)

(** What both kinds of secondary report: without the progress of a start, ports, addresses and reasons. *)
Definition outline (r : NodeReport) : option NodeReport :=
  match r with
  | StatusUpdate _ _ => None
  | RunStarted aid _ _ => Some (RunStarted aid None None)
  | RunFailed aid _ => Some (RunFailed aid "")
  | r => Some r
  end.
Definition outlines : list NodeReport → list NodeReport := omap outline.
(** The same allocations run, and no container has written anything. *)
Definition like (t : TestSecondary) (s : Sec) : Prop :=
  ts_running t = dom (sec_allocs s) ∧ ∀ b buf, sec_buffers s !! b = Some buf → buf = [].
(** An allocation is not started twice, and there is a port for it. *)
Definition accepts (cmd : NodeCommand) (s : Sec) : Prop :=
  match cmd with
  | Run aid spec _ => sec_allocs s !! aid = None ∧ (is_Some (spec_port spec) → is_Some (allocate aid (sec_ports s)).1)
  | _ => True
  end.
(** The runtime's answers that make the real secondary do what the stand-in does. *)
Definition mirror (t : TestSecondary) : CmdOutcome :=
  mkCmdOutcome (mkRunOutcome (Ok true) (Ok tt) (match ts_fail_next_run t with Some e => Err e | None => Ok tt end)) (Ok 0) (Ok tt).

Lemma new_buffer_empty s : (∀ b buf, sec_buffers s !! b = Some buf → buf = []) →
  ∀ b buf, sec_buffers (new_buffer s).2 !! b = Some buf → buf = [].
Proof. intros H b buf. unfold new_buffer. cbn. intros [[_ <-]|[_ Hb]]%lookup_insert_Some; [done|by eapply H]. Qed.
Lemma outlines_app l1 l2 : outlines (l1 ++ l2) = outlines l1 ++ outlines l2.
Proof. apply omap_app. Qed.
(** Starting: the real secondary's reports end with the outcome, and the rest is progress. *)
Lemma run_conforms mesh aid spec t s addr auth :
  like t s → accepts (Run aid spec auth) s →
  let s' := (run_container (co_run (mirror t)) aid spec mesh s).2 in
  let '(rs, t') := test_command addr (Run aid spec auth) t in
  like t' s' ∧ ∃ new, sec_reports s' = sec_reports s ++ new ∧ outlines new = outlines rs.
Proof.
  intros [Hdom Hbuf] [Hnew Hport]. unfold run_container, map_contains, hm_contains. rewrite Hnew. cbn [mirror co_run ro_cached ro_pull ro_run].
  simpl. set (s1 := report (StatusUpdate aid Starting) (report (StatusUpdate aid Pulling) s)).
  assert (∃ port p, run_port aid spec s1 = Some (port, set_sec_ports p s1)) as (port & p & ->).
  { unfold run_port. destruct (spec_port spec) as [cp|]; [|by exists None, (sec_ports s1); destruct s].
    destruct Hport as [q Hq]; [by eexists|]. change (sec_ports s1) with (sec_ports s). destruct (allocate aid (sec_ports s)) as [[q'|] pool]; [|done].
    by exists (Some q'), pool. }
  destruct (ts_fail_next_run t) as [reason|]; simpl.
  - split; [by destruct port|]. exists [StatusUpdate aid Pulling; StatusUpdate aid Starting; RunFailed aid ("container start failed: " +:+ reason)%string].
    split; [|done]. destruct port; simpl; by rewrite <- !app_assoc.
  - unfold run_started, new_buffer, map_insert, hm_contains. simpl. rewrite Hnew. simpl. split.
    + split; [simpl; rewrite dom_insert_L, Hdom; done|]. intros b buf. simpl. intros [[_ <-]|[_ Hb]]%lookup_insert_Some; [done|by eapply Hbuf].
    + eexists [StatusUpdate aid Pulling; StatusUpdate aid Starting; RunStarted aid port (mesh_address mesh port)].
      split; [simpl; by rewrite <- !app_assoc|done].
Qed.
Lemma follow_sec aid st : sl_sec (log_follow aid st) = sl_sec st.
Proof. unfold log_follow. destruct (cancel_follow_sec aid st) as [Hs _]. by destruct (map_log_buffer aid _). Qed.
(** One command. *)
Lemma command_conforms addr mesh cmd t st :
  like t (sl_sec st) → accepts cmd (sl_sec st) →
  let st' := handle_command (mirror t) mesh cmd st in
  let '(rs, t') := test_command addr cmd t in
  like t' (sl_sec st') ∧ ∃ new, sec_reports (sl_sec st') = sec_reports (sl_sec st) ++ new ∧ outlines new = outlines rs.
Proof.
  intros Hlike Hacc. destruct cmd as [aid spec auth|aid|image auth|aid lines|aid|aid]; cbn [handle_command].
  - change (sl_sec (with_sec ?x st)) with x. by apply run_conforms.
  - destruct Hlike as [Hdom Hbuf]. simpl. unfold stop_container, stop_cleanup, release_opt, map_remove.
    split; [split|]; destruct (map_host_port aid _); simpl; try (rewrite dom_delete_L, Hdom; done); try exact Hbuf; by eexists.
  - simpl. split; [exact Hlike|]. by eexists.
  - simpl. split; [exact Hlike|]. eexists. split; [done|]. unfold buffer_of. destruct (map_log_buffer aid _) as [b|]; simpl; [|done].
    destruct (sec_buffers (sl_sec st) !! b) as [buf|] eqn:Hb; [|done]. destruct Hlike as [_ Hbuf]. rewrite (Hbuf b buf Hb). unfold log_tail. simpl.
    by rewrite take_nil.
  - simpl. rewrite follow_sec. split; [exact Hlike|]. exists []. by rewrite app_nil_r.
  - simpl. destruct (cancel_follow_sec aid st) as [-> _]. split; [exact Hlike|]. exists []. by rewrite app_nil_r.
Qed.
(** Every command is accepted when its turn comes. *)
Fixpoint accepted (mesh : option IpAddr) (cmds : list (SocketAddr * NodeCommand)) (t : TestSecondary) (st : SecLoop) : Prop :=
  match cmds with
  | [] => True
  | (addr, cmd) :: cmds =>
      accepts cmd (sl_sec st) ∧ accepted mesh cmds (test_command addr cmd t).2 (handle_command (mirror t) mesh cmd st)
  end.
Definition real_loop (mesh : option IpAddr) (cmds : list (CmdOutcome * NodeCommand)) (st : SecLoop) : SecLoop :=
  foldl (λ st '(o, cmd), handle_command o mesh cmd st) st cmds.

(** What the stand-in of the secondary reports, the real one can report: for every sequence of commands that starts no
    allocation twice and finds a port for each, the runtime can answer in such a way that the real secondary's reports
    are those of the stand-in, but for the progress of starts, ports, addresses and reasons, and the same allocations run. *)
Theorem test_secondary_conforms mesh cmds t st :
  like t (sl_sec st) → accepted mesh cmds t st →
  ∃ outcomes, length outcomes = length cmds ∧
    let st' := real_loop mesh (zip outcomes (snd <$> cmds)) st in
    let '(rs, t') := command_loop cmds t in
    like t' (sl_sec st') ∧ ∃ new, sec_reports (sl_sec st') = sec_reports (sl_sec st) ++ new ∧ outlines new = outlines rs.
Proof.
  revert t st. induction cmds as [|[addr cmd] cmds IH]; intros t st Hlike Hacc; simpl.
  { exists []. split; [done|]. split; [done|]. exists []. by rewrite app_nil_r. }
  destruct Hacc as [Ha Hrest]. pose proof (command_conforms addr mesh cmd t st Hlike Ha) as Hc. simpl in Hc.
  destruct (test_command addr cmd t) as [r1 t1]. destruct Hc as (Hlike1 & new1 & Hr1 & Ho1).
  destruct (IH _ _ Hlike1 Hrest) as (os & Hlen & Hos). exists (mirror t :: os). split; [simpl; by rewrite Hlen|]. simpl in *.
  destruct (command_loop cmds t1) as [rs t2]. destruct Hos as (Hlike2 & new2 & Hr2 & Ho2). split; [done|].
  exists (new1 ++ new2). split; [rewrite app_assoc, <- Hr1; exact Hr2|]. by rewrite !outlines_app, Ho1, Ho2.
Qed.

(** Where it does not behave like the real one: an allocation that runs can be started again, and is reported as
    started again, where the real secondary reports nothing at all. *)
Theorem test_secondary_starts_twice mesh aid spec auth addr t st :
  like t (sl_sec st) → aid ∈ ts_running t → ts_fail_next_run t = None →
  (∃ port, (test_command addr (Run aid spec auth) t).1 = [RunStarted aid (Some port) (Some addr)]) ∧
  ∀ o, sec_reports (sl_sec (handle_command o mesh (Run aid spec auth) st)) = sec_reports (sl_sec st).
Proof.
  intros [Hdom _] Hin Hfail. simpl. rewrite Hfail. split; [by eexists|]. intros o. unfold run_container, map_contains, hm_contains.
  rewrite Hdom in Hin. apply elem_of_dom in Hin as [a ->]. done.
Qed.

(** ** Containers *)

Lemma stop_orphans_spec l t :
  tc_removed (foldl stop_orphan t l) = tc_removed t ++ l ∧
  tc_stopped (foldl stop_orphan t l) = tc_stopped t ++ filterb (λ aid, negb (bool_decide (aid ∈ tc_stop_fail t))) l ∧
  tc_run_specs (foldl stop_orphan t l) = tc_run_specs t.
Proof.
  revert t. induction l as [|a l IH]; intros t; simpl; [by rewrite !app_nil_r|]. destruct (IH (stop_orphan t a)) as (-> & -> & ->).
  unfold stop_orphan, tc_stop. case_bool_decide; simpl; rewrite <- ?app_assoc; split_and!; done.
Qed.
(** Recovery on top of the stand-in of the runtime: exactly the managed containers that are not expected are removed,
    in order; those of them whose stop does not fail have been stopped; and nothing is run. *)
Theorem recovery_requests t expected mesh s t' s' :
  reconcile_with t expected mesh s = (t', s') →
  let orphans := filterb (λ aid, negb (bool_decide (aid ∈ expected))) (tc_managed t) in
  tc_removed t' = tc_removed t ++ orphans ∧
  tc_stopped t' = tc_stopped t ++ filterb (λ aid, negb (bool_decide (aid ∈ tc_stop_fail t))) orphans ∧
  tc_run_specs t' = tc_run_specs t.
Proof.
  unfold reconcile_with, reconcile, tc_list_managed. intros [= <- <-]. simpl.
  assert (∀ l, filterb (λ aid, negb (bool_decide (aid ∈ list_to_set (C := gset AllocId) expected))) l =
    filterb (λ aid, negb (bool_decide (aid ∈ expected))) l) as ->; [|apply stop_orphans_spec].
  induction l as [|a l IH]; [done|]. simpl. rewrite IH, (bool_decide_ext _ (a ∈ expected)); [done|]. by rewrite elem_of_list_to_set.
Qed.

(** ** Volumes *)

(** The operations, and what they do to the volumes there are and where each is attached. *)
Inductive VolumeOp :=
| VCreate (name : string) (size : Z)
| VDestroy (name : string)
| VAttach (name inst : string)
| VDetach (name : string).
Definition volume_spec (op : VolumeOp) (m : gmap string (option string)) : result unit StorageError * gmap string (option string) :=
  let existing name m' := if hm_contains name m then (Ok tt, m') else (Err (VolumeNotFound name), m) in
  match op with
  | VCreate name _ => if hm_contains name m then (Err (VolumeAlreadyExists name), m) else (Ok tt, <[name := None]> m)
  | VDestroy name => existing name (delete name m)
  | VAttach name inst => existing name (<[name := Some inst]> m)
  | VDetach name => existing name (<[name := None]> m)
  end.
Definition no_id {A E} (r : result A E) : result unit E := match r with Ok _ => Ok tt | Err e => Err e end.
Definition run_volume_op `{Volumes D} (op : VolumeOp) (d : D) : result unit StorageError * D :=
  match op with
  | VCreate name size => let '(r, d) := v_create name size d in (no_id r, d)
  | VDestroy name => v_destroy name d
  | VAttach name inst => v_attach name inst d
  | VDetach name => v_detach name d
  end.
(** A driver that keeps the contract: from a state of [ready] each operation has the result of the specification and moves
    what the driver has there as the specification does. *)
Class VolumesLaws (D : Type) `{Volumes D} (there : D → gmap string (option string)) (ready : D → Prop) : Prop :=
  volume_op_spec : ∀ op d, ready d →
    (run_volume_op op d).1 = (volume_spec op (there d)).1 ∧ there (run_volume_op op d).2 = (volume_spec op (there d)).2 ∧ ready (run_volume_op op d).2.
Definition tv_there (d : TestVolumes) : gmap string (option string) := mv_attached_to <$> tv_volumes d.
#[export] Instance test_volumes_laws : VolumesLaws TestVolumes tv_there (λ d, tv_fail_next_create d = None).
Proof.
  intros op [m fail] Hready. simpl in Hready. subst fail.
  assert (∀ name, hm_contains name (mv_attached_to <$> m) = hm_contains name m) as Hc
    by (intros name; unfold hm_contains; rewrite lookup_fmap; by destruct (m !! name)).
  destruct op as [name size|name|name inst|name]; unfold run_volume_op, volume_spec, v_create, v_destroy, v_attach, v_detach, test_volumes, tv_create,
    tv_destroy, tv_attach, tv_detach, set_attached, tv_there; simpl; rewrite Hc; unfold hm_contains; destruct (m !! name) as [v|] eqn:E; simpl;
    rewrite ?fmap_insert, ?fmap_delete; try done.
  split_and!; [done| |done]. rewrite delete_id; [done|]. by rewrite lookup_fmap, E.
Qed.
Fixpoint run_volume_ops `{Volumes D} (ops : list VolumeOp) (d : D) : list (result unit StorageError) * D :=
  match ops with
  | [] => ([], d)
  | op :: ops =>
      let '(r, d) := run_volume_op op d in
      let '(rs, d) := run_volume_ops ops d in
      (r :: rs, d)
  end.
Fixpoint volume_specs (ops : list VolumeOp) (m : gmap string (option string)) : list (result unit StorageError) * gmap string (option string) :=
  match ops with
  | [] => ([], m)
  | op :: ops =>
      let '(r, m) := volume_spec op m in
      let '(rs, m) := volume_specs ops m in
      (r :: rs, m)
  end.
(** Every driver that keeps the contract keeps it over sequences of operations. *)
Lemma driver_refines `{VL : VolumesLaws D there ready} ops d :
  ready d → (run_volume_ops ops d).1 = (volume_specs ops (there d)).1 ∧ there (run_volume_ops ops d).2 = (volume_specs ops (there d)).2.
Proof.
  revert d. induction ops as [|op ops IH]; intros d Hr; simpl; [done|]. destruct (volume_op_spec op d Hr) as (H1 & H2 & H3).
  destruct (run_volume_op op d) as [r d1], (volume_spec op (there d)) as [r' m1]. simpl in *. subst r' m1. destruct (IH d1 H3) as [H4 H5].
  destruct (run_volume_ops ops d1), (volume_specs ops (there d1)). simpl in *. by subst.
Qed.
(** The volumes in memory implement the interface's specification: from the empty driver, any sequence of operations has
    the results of the specification and leaves the volumes it says, attached where it says; a failure that was asked for
    is the next creation's result and changes nothing. *)
Theorem test_volumes_refine ops :
  (run_volume_ops ops TestVolumes_new).1 = (volume_specs ops ∅).1 ∧
  tv_there (run_volume_ops ops TestVolumes_new).2 = (volume_specs ops ∅).2 ∧
  ∀ reason name size d, let '(r, d') := tv_create name size (fail_next_create reason d) in
    r = Err (StorageApi reason) ∧ tv_there d' = tv_there d ∧ tv_fail_next_create d' = None.
Proof.
  destruct (driver_refines (VL := test_volumes_laws) ops TestVolumes_new eq_refl) as [H1 H2].
  assert (tv_there TestVolumes_new = ∅) as He by apply fmap_empty. rewrite He in H1, H2. done.
Qed.

(** ** The mesh *)

Definition mesh_op (m : TestMesh) (op : MeshOp) : TestMesh :=
  match op with
  | AddPeer peer => tm_add_peer peer m
  | RemovePeer key => tm_remove_peer key m
  end.
Definition op_key (op : MeshOp) : string := match op with AddPeer peer => pi_public_key peer | RemovePeer key => key end.
(** After any sequence of changes a key is in the mesh exactly when the last change of that key added it, with the peer
    that was added. *)
Theorem test_mesh_last_change ops key :
  foldl mesh_op TestMesh_new ops !! key =
    match last (filterb (λ op, bool_decide (op_key op = key)) ops) with Some (AddPeer peer) => Some peer | _ => None end.
Proof.
  induction ops as [|op ops IH] using rev_ind; [done|]. rewrite foldl_app, filterb_app. simpl. case_bool_decide as Hk.
  - rewrite last_snoc. destruct op as [peer|k]; simpl in *; subst; [apply lookup_insert_eq|apply lookup_delete_eq].
  - rewrite app_nil_r, <- IH. destruct op as [peer|k]; simpl in *; [by apply lookup_insert_ne|by apply lookup_delete_ne].
Qed.

(** * Examples *)

Module DoublesExamples.
Import RaftNetExamples.
#[local] Existing Instance unit_messages.
#[local] Existing Instance unit_messages_laws.
Lemma test_router_equivalent_witness :
  append_entries ex_post {[ 2 := ex_peer_url ]} 2 tt = Ok tt ↔ test_append_entries {[ 2 := ex_raft ]} 2 tt = Ok tt.
Proof.
  refine (proj1 (test_router_equivalent ex_post {[ 2 := ex_peer_url ]} {[ 2 := ex_raft ]} _ _ (λ _, false) 2) tt tt).
  - by rewrite !dom_singleton_L.
  - intros id url raft [<- <-]%lookup_singleton_Some [_ <-]%lookup_singleton_Some. apply ex_delivers.
Defined.

Definition ex_pool : PortPool := mkPortPool 50000 50001 {[ 50000; 50001 ]} ∅.
Definition ex_loop : SecLoop := SecLoop_new (mkSec ex_pool ∅ ∅ [] []).
Definition ex_addr : SocketAddr := SockV4 2130706433 40000.
Definition ex_aid : AllocId := mkAllocId "web-1".
Definition ex_web : ContainerSpec := mkContainerSpec ex_aid KService None None "web:1" ∅ (Some 80) None f64_zero 0 [].
Definition ex_cmds : list (SocketAddr * NodeCommand) :=
  [(ex_addr, Run ex_aid ex_web None); (ex_addr, LogTail ex_aid 10); (ex_addr, Stop ex_aid)].
Lemma ex_like : like TestSecondary_start (sl_sec ex_loop).
Proof. split; [done|]. intros b buf Hb. exfalso. exact (lookup_empty_Some b buf Hb). Qed.
Lemma ex_accepted : accepted None ex_cmds TestSecondary_start ex_loop.
Proof.
  split; [split; [lazy; reflexivity|intros _; exists 50000; lazy; reflexivity]|]. split; [exact I|]. split; exact I.
Qed.
Lemma test_secondary_conforms_witness :
  ∃ outcomes, length outcomes = 3%nat ∧
    outlines (sec_reports (sl_sec (real_loop None (zip outcomes (snd <$> ex_cmds)) ex_loop))) =
      [RunStarted ex_aid None None; LogLines ex_aid []; StoppedReport ex_aid 0].
Proof.
  destruct (test_secondary_conforms None ex_cmds TestSecondary_start ex_loop ex_like ex_accepted) as (os & Hlen & _ & new & Hr & Ho).
  exists os. split; [done|]. rewrite Hr. exact Ho.
Defined.
Lemma test_secondary_starts_twice_witness :
  ∃ port, (test_command ex_addr (Run ex_aid ex_web None) (test_command ex_addr (Run ex_aid ex_web None) TestSecondary_start).2).1 =
    [RunStarted ex_aid (Some port) (Some ex_addr)].
Proof.
  eapply (test_secondary_starts_twice None ex_aid ex_web None ex_addr _ (handle_command (mirror TestSecondary_start) None (Run ex_aid ex_web None) ex_loop));
    [apply (command_conforms ex_addr None (Run ex_aid ex_web None) TestSecondary_start ex_loop ex_like)|set_solver|done].
  split; [done|]. intros _. exists 50000. lazy. reflexivity.
Defined.
Lemma recovery_requests_witness :
  let t := with_stop_fail (mkAllocId "b") (with_managed [mkAllocId "a"; mkAllocId "b"; mkAllocId "c"] TestContainers_new) in
  let '(t', _) := reconcile_with t [mkAllocId "c"] None (sl_sec ex_loop) in
  tc_removed t' = [mkAllocId "a"; mkAllocId "b"] ∧ tc_stopped t' = [mkAllocId "a"].
Proof.
  intros t. destruct (reconcile_with t [mkAllocId "c"] None (sl_sec ex_loop)) as [t' s'] eqn:E.
  destruct (recovery_requests t _ _ _ t' s' E) as (-> & -> & _). vm_compute. split; reflexivity.
Defined.
End DoublesExamples.
