(* ===== verification/TestsPrimary.v ===== *)
(** The unit tests that the source keeps beside the primary's code, run on the model: each test of
    [src/crates/node/src/primary/{scheduler,report,watchdog,dns,proxy}.rs], [primary/deploy/{diff,mod}.rs], [primary/health/mod.rs],
    [primary/api/handlers.rs] and [util.rs] is a boolean with the test's data and assertions, and the lemmas show that every
    one of them is true. They check the definitions of the development against what the code's authors expect of it. *)

From S2P Require Import Prelude Types Env Addr Fsm Scheduler Rpc World Plan Deploy Report Routes Containers Tasks Watchdog Util Views Api.
Local Open Scope Z_scope.

(** [assert!]s in a row. *)
Definition asserts (l : list bool) : bool := forallb id l.
Definition passing (l : list bool) : Prop := Forall (λ b, b = true) l.
Lemma passing_asserts l : asserts l = true → passing l.
Proof. unfold asserts. rewrite forallb_forall. intros H. apply Forall_forall. intros b Hb. apply H. by apply list_elem_of_In. Qed.

Definition gib (n : Z) : Z := n * 2 ^ 30.
Definition mib (n : Z) : Z := n * 2 ^ 20.
(** A decimal literal as a fraction. *)
Definition frac (a b : Z) : f64 := f64_div (f64_of_Z a) (f64_of_Z b).
Definition nid (s : string) : NodeId := mkNodeId s.
Definition aid (s : string) : AllocId := mkAllocId s.
(** [SocketAddr::from(([a, b, c, d], port))]. *)
Definition sock (a b c d port : Z) : SocketAddr := SockV4 (((a * 256 + b) * 256 + c) * 256 + d) port.

(** * scheduler.rs *)

Definition scheduler_node (id : Z) (name : string) (cpu mem_gb : Z) : FsmNode :=
  mkFsmNode id (nid name) (sock 10 0 0 (id mod 256) 4400) (mkNodeResources (f64_of_Z cpu) (f64_of_Z cpu) (gib mem_gb) (gib mem_gb)) NodeReady None None None None.
Definition scheduler_avail (cpu mem_gb : Z) : NodeResources := mkNodeResources (f64_of_Z cpu) (f64_of_Z cpu) (gib mem_gb) (gib mem_gb).
Definition scheduler_need (cpu mem_gb : Z) : Resources := mkResources (f64_of_Z cpu) (gib mem_gb).
Definition two_avail (a b : NodeResources) (id : Z) : option NodeResources :=
  if id =? 1 then Some a else if id =? 2 then Some b else None.

Definition volume_affinity_places_on_attached_node : bool :=
  let ns := [scheduler_node 1 "node-1" 4 8; scheduler_node 2 "node-2" 4 8] in
  let vol := mkFsmVolume "vol-123" (VolAttached (nid "node-2")) in
  bool_decide (schedule (mkScheduleRequest (scheduler_need 1 1) "web" KService (Some "data"%string)) ns [] [("data"%string, vol)]
    (two_avail (scheduler_avail 4 8) (scheduler_avail 4 8)) = Some (nid "node-2")).
Definition volume_affinity_returns_none_if_node_full : bool :=
  let ns := [scheduler_node 1 "node-1" 4 8; scheduler_node 2 "node-2" 4 8] in
  let vol := mkFsmVolume "vol-123" (VolAttached (nid "node-2")) in
  bool_decide (schedule (mkScheduleRequest (scheduler_need 8 16) "db" KService (Some "data"%string)) ns [] [("data"%string, vol)]
    (two_avail (scheduler_avail 4 8) (scheduler_avail 4 8)) = None).
Definition spread_prefers_node_without_same_service : bool :=
  let ns := [scheduler_node 1 "node-1" 4 8; scheduler_node 2 "node-2" 4 8] in
  bool_decide (schedule (mkScheduleRequest (scheduler_need 1 1) "web" KService None) ns [(nid "node-1", "web"%string, KService)] []
    (two_avail (scheduler_avail 3 7) (scheduler_avail 3 7)) = Some (nid "node-2")).
Definition bin_pack_picks_most_packed_node : bool :=
  let ns := [scheduler_node 1 "node-1" 8 16; scheduler_node 2 "node-2" 8 16] in
  bool_decide (schedule (mkScheduleRequest (scheduler_need 1 1) "api" KService None) ns [] []
    (two_avail (scheduler_avail 2 2) (scheduler_avail 6 12)) = Some (nid "node-1")).
Definition no_fit_returns_none : bool :=
  bool_decide (schedule (mkScheduleRequest (scheduler_need 4 8) "big" KService None) [scheduler_node 1 "node-1" 2 4] [] []
    (λ _, Some (scheduler_avail 2 4)) = None).
Definition tasks_skip_spread : bool :=
  let ns := [scheduler_node 1 "node-1" 4 8; scheduler_node 2 "node-2" 4 8] in
  bool_decide (schedule (mkScheduleRequest (scheduler_need 1 1) "migrate" KTask None) ns [(nid "node-1", "migrate"%string, KTask)] []
    (two_avail (scheduler_avail 2 4) (scheduler_avail 4 8)) = Some (nid "node-1")).
Lemma scheduler_tests :
  passing [volume_affinity_places_on_attached_node; volume_affinity_returns_none_if_node_full; spread_prefers_node_without_same_service;
    bin_pack_picks_most_packed_node; no_fit_returns_none; tasks_skip_spread].
Proof. apply passing_asserts. vm_compute. reflexivity. Qed.

(** * deploy/diff.rs *)

Definition diff_service (image : string) (replicas : Z) : ServiceDef :=
  mkServiceDef image 8080 replicas (mkResources (frac 1 4) (mib 256)) ∅ None None [] [].
Definition diff_services (services : list (string * ServiceDef)) : ClusterConfig := mkClusterConfig (list_to_map services) ∅.
Definition diff (old : option ClusterConfig) (new : ClusterConfig) : DeployPlan := @diff_config stored_order old new.
Definition lengths (p : DeployPlan) : nat * nat * nat * nat :=
  (length (added p), length (removed p), length (changed p), length (unchanged p)).

Definition no_old_config_all_added : bool :=
  let plan := diff None (diff_services [("web", diff_service "nginx:1" 2); ("api", diff_service "api:1" 1)]%string) in
  bool_decide (lengths plan = (2, 0, 0, 0)%nat).
Definition added_service : bool :=
  let plan := diff (Some (diff_services [("web", diff_service "nginx:1" 1)]%string))
                (diff_services [("web", diff_service "nginx:1" 1); ("api", diff_service "api:1" 1)]%string) in
  bool_decide (lengths plan = (1, 0, 0, 1)%nat) && bool_decide ((added plan).*1 = ["api"%string]).
Definition removed_service : bool :=
  let plan := diff (Some (diff_services [("web", diff_service "nginx:1" 1); ("api", diff_service "api:1" 1)]%string))
                (diff_services [("web", diff_service "nginx:1" 1)]%string) in
  bool_decide (lengths plan = (0, 1, 0, 1)%nat) && bool_decide (removed plan = ["api"%string]).
Definition changed_service : bool :=
  let plan := diff (Some (diff_services [("web", diff_service "nginx:1" 1)]%string)) (diff_services [("web", diff_service "nginx:2" 1)]%string) in
  bool_decide (lengths plan = (0, 0, 1, 0)%nat) && bool_decide ((λ '(n, d), (n, sd_image d)) <$> changed plan = [("web", "nginx:2")]%string).
Definition unchanged_service : bool :=
  let plan := diff (Some (diff_services [("web", diff_service "nginx:1" 1)]%string)) (diff_services [("web", diff_service "nginx:1" 1)]%string) in
  bool_decide (lengths plan = (0, 0, 0, 1)%nat).
Definition mixed_changes : bool :=
  let plan := diff (Some (diff_services [("web", diff_service "nginx:1" 1); ("api", diff_service "api:1" 1); ("worker", diff_service "worker:1" 2)]%string))
                (diff_services [("web", diff_service "nginx:1" 1); ("api", diff_service "api:2" 1); ("cache", diff_service "redis:7" 1)]%string) in
  asserts [bool_decide (unchanged plan = ["web"%string]); bool_decide ((changed plan).*1 = ["api"%string]);
    bool_decide ((added plan).*1 = ["cache"%string]); bool_decide (removed plan = ["worker"%string])].
Definition replicas_change_is_detected : bool :=
  let plan := diff (Some (diff_services [("web", diff_service "nginx:1" 1)]%string)) (diff_services [("web", diff_service "nginx:1" 3)]%string) in
  bool_decide (length (changed plan) = 1%nat) && bool_decide (unchanged plan = []).
Definition health_check_change_is_detected : bool :=
  let svc := diff_service "nginx:1" 1 in
  let with_health := mkServiceDef (sd_image svc) (sd_port svc) (sd_replicas svc) (sd_resources svc) (sd_env svc) (sd_command svc)
                       (Some (mkHealthCheck "/health" (secs 10) 3)) (sd_routes svc) (sd_volumes svc) in
  let plan := diff (Some (diff_services [("web"%string, svc)])) (diff_services [("web"%string, with_health)]) in
  bool_decide (length (changed plan) = 1%nat) && bool_decide (unchanged plan = []).
Lemma diff_tests :
  passing [no_old_config_all_added; added_service; removed_service; changed_service; unchanged_service; mixed_changes;
    replicas_change_is_detected; health_check_change_is_detected].
Proof. apply passing_asserts. vm_compute. reflexivity. Qed.

(** * util.rs *)

Definition test_alloc (name id_suffix : string) (status : AllocStatus) (address : option SocketAddr) : AllocId * Alloc :=
  let id := mkAllocId (name +:+ "-" +:+ id_suffix)%string in
  (id, mkAlloc id (nid "node-1") name KService status address (mkAllocResources (frac 1 4) (mib 256)) None).
Definition unix_epoch : bool := bool_decide (format_system_time 0 = "1970-01-01T00:00:00Z"%string).
Definition known_2026_timestamp : bool := bool_decide (format_system_time (secs 1771158645) = "2026-02-15T12:30:45Z"%string).
Definition leap_year_feb_29 : bool := bool_decide (format_system_time (secs 1709164800) = "2024-02-29T00:00:00Z"%string).
Lemma util_tests : passing [unix_epoch; known_2026_timestamp; leap_year_feb_29].
Proof. apply passing_asserts. vm_compute. reflexivity. Qed.

(** * dns.rs and proxy.rs *)

Definition fsm_with (cfg : option ClusterConfig) (l : list (AllocId * Alloc)) : FsmState :=
  mkFsmState cfg (nodes FsmState_default) (list_to_map l) (secrets FsmState_default) (volumes FsmState_default).
Definition dns_records (l : list (AllocId * Alloc)) : list DnsRecord := @compute_dns_records stored_order (fsm_with None l).
Definition groups_running_allocs_by_name : bool :=
  let '(id1, alloc1) := test_alloc "web" "0" Running (Some (sock 10 0 0 1 8080)) in
  let '(_, alloc2) := test_alloc "web" "0" Healthy (Some (sock 10 0 0 2 8080)) in
  let id2 := aid "web-1" in
  let alloc2 := mkAlloc id2 (alloc_node alloc2) (alloc_name alloc2) (alloc_kind alloc2) (alloc_status alloc2) (alloc_address alloc2)
                  (alloc_resources alloc2) (alloc_started_at alloc2) in
  bool_decide ((λ r, (dr_name r, length (dr_addresses r))) <$> dns_records [(id1, alloc1); (id2, alloc2)] = [("web"%string, 2%nat)]).
Definition dns_excludes_stopped_allocs : bool :=
  let addr := sock 10 0 0 1 8080 in
  bool_decide (dr_name <$> dns_records [test_alloc "web" "0" Running (Some addr); test_alloc "api" "0" (Stopped 0) (Some addr)] = ["web"%string]).
Definition excludes_allocs_without_address : bool :=
  bool_decide (dns_records [test_alloc "web" "0" Running None] = []).

Definition service_with_routes (routes : list RouteDef) : ServiceDef :=
  mkServiceDef "nginx:latest" 80 1 (mkResources (frac 1 4) (mib 256)) ∅ None None routes [].
Definition web_config (routes : list RouteDef) : option ClusterConfig := Some (mkClusterConfig {["web"%string := service_with_routes routes]} ∅).
Definition app_route : RouteDef := mkRouteDef "app.example.com" "/" false.
Definition proxy_routes (f : FsmState) : list ProxyRoute := @compute_proxy_routes stored_order f.
Definition computes_routes_for_running_allocs : bool :=
  let addr := sock 10 0 0 1 8080 in
  let routes := proxy_routes (fsm_with (web_config [app_route]) [test_alloc "web" "0" Healthy (Some addr)]) in
  bool_decide ((λ r, (pr_hostname r, pr_backend r)) <$> routes = [("app.example.com"%string, addr)]).
Definition proxy_excludes_stopped_allocs : bool :=
  bool_decide (proxy_routes (fsm_with (web_config [app_route]) [test_alloc "web" "0" (Stopped 0) (Some (sock 10 0 0 1 8080))]) = []).
Definition no_config_returns_empty : bool := bool_decide (proxy_routes FsmState_default = []).
Definition services_without_routes_skipped : bool := bool_decide (proxy_routes (fsm_with (web_config []) []) = []).
Lemma edge_tests :
  passing [groups_running_allocs_by_name; dns_excludes_stopped_allocs; excludes_allocs_without_address; computes_routes_for_running_allocs;
    proxy_excludes_stopped_allocs; no_config_returns_empty; services_without_routes_skipped].
Proof. apply passing_asserts. vm_compute. reflexivity. Qed.

(** * api/handlers.rs *)

Definition tunnel (c d : Z) : IpAddr := V4 (((10 * 256 + 99) * 256 + c) * 256 + d).
Definition allocate_tunnel_ip_first_available : bool := bool_decide (allocate_tunnel_ip [] = Some (tunnel 0 1)).
Definition allocate_tunnel_ip_skips_used : bool := bool_decide (allocate_tunnel_ip [tunnel 0 1; tunnel 0 2] = Some (tunnel 0 3)).
Lemma tunnel_tests : passing [allocate_tunnel_ip_first_available; allocate_tunnel_ip_skips_used].
Proof. repeat constructor; reflexivity. Qed.

Definition all_tunnels : list IpAddr := (λ i, V4 (0x0A630000 + i)) <$> seqZ 1 65533.
Definition is_none {A} (o : option A) : bool := match o with None => true | Some _ => false end.
Definition allocate_tunnel_ip_exhaustion : bool := is_none (allocate_tunnel_ip all_tunnels).
(** Too many addresses to search one by one: the specification of the search decides it. *)
Lemma tunnel_exhaustion_test : passing [allocate_tunnel_ip_exhaustion].
Proof.
  constructor; [|constructor]. unfold allocate_tunnel_ip_exhaustion, allocate_tunnel_ip.
  pose proof (free_tunnel_ip_spec all_tunnels (Z.to_nat 65533) 1) as H. revert H. generalize (free_tunnel_ip all_tunnels (Z.to_nat 65533) 1).
  intros [ip|]; [|done]. intros [Hno (j & Hj & ->)]. destruct Hno. apply list_elem_of_fmap. exists j. split; [done|].
  apply elem_of_seqZ. rewrite Z2Nat.id in Hj by lia. lia.
Qed.

(** * report.rs *)

Definition metrics_res (total avail tmem amem : Z) : NodeResources := mkNodeResources (f64_of_Z total) (f64_of_Z avail) (gib tmem) (gib amem).
Definition live_metrics_update_and_snapshot : bool :=
  let node := nid "node-1" in
  let snap := node_metrics (metrics_update node (metrics_res 4 3 8 6) [mkContainerStats (aid "svc-1") (frac 1 2) (mib 256)] LiveMetrics_new) in
  bool_decide (size snap = 1%nat) &&
  match snap !! node with
  | Some ns => f64_eqb (cpu_total (nm_resources ns)) (f64_of_Z 4) &&
      match nm_container_stats ns with [c] => f64_eqb (cs_cpu_usage c) (frac 1 2) | _ => false end
  | None => false
  end.
(** A clone is the same store. *)
Definition live_metrics_clone_shares_state : bool :=
  let snap := node_metrics (metrics_update (nid "n1") (metrics_res 2 1 4 2) [] LiveMetrics_new) in
  bool_decide (size snap = 1%nat) && hm_contains (nid "n1") snap.
Definition live_metrics_overwrite_on_update : bool :=
  let node := nid "node-1" in
  let res := metrics_res 4 3 8 6 in
  let lm := metrics_update node res [] LiveMetrics_new in
  let lm := metrics_update node res [mkContainerStats (aid "svc-1") (frac 3 2) (mib 512)] lm in
  match nm_container_stats <$> node_metrics lm !! node with Some [c] => f64_eqb (cs_cpu_usage c) (frac 3 2) | _ => false end.
Definition restart_count_tracking : bool :=
  let lm := LiveMetrics_new in
  let lm' := record_restart "api" (record_restart "web" (record_restart "web" lm)) in
  asserts [bool_decide (restart_counts lm = ∅); bool_decide (restart_counts lm' !! "web"%string = Some 2); bool_decide (restart_counts lm' !! "api"%string = Some 1)].
Definition task_spawn_count_tracking : bool :=
  let lm := LiveMetrics_new in
  let lm' := record_task_spawn "backup" (record_task_spawn "migrate" (record_task_spawn "migrate" lm)) in
  asserts [bool_decide (task_spawn_counts lm = ∅); bool_decide (task_spawn_counts lm' !! "migrate"%string = Some 2);
    bool_decide (task_spawn_counts lm' !! "backup"%string = Some 1)].
Definition task_duration_histogram : bool :=
  let lm := record_task_duration "migrate" (secs 45) (record_task_duration "migrate" (secs 2) LiveMetrics_new) in
  match @task_duration_snapshots stored_order lm with
  | [s] =>
      asserts [bool_decide (hs_name s = "migrate"%string); hs_count s =? 2;
        f64_ltb (SFabs (f64_sub (hs_sum_seconds s) (f64_of_Z 47))) (frac 1 1000);
        bool_decide ((hs_buckets s).*2 !! 0%nat = Some 0); bool_decide ((hs_buckets s).*2 !! 1%nat = Some 1);
        bool_decide ((hs_buckets s).*2 !! 2%nat = Some 1); bool_decide ((hs_buckets s).*2 !! 3%nat = Some 2);
        bool_decide ((hs_buckets s).*2 !! 8%nat = Some 2)]
  | _ => false
  end.
Lemma report_tests :
  passing [live_metrics_update_and_snapshot; live_metrics_clone_shares_state; live_metrics_overwrite_on_update; restart_count_tracking;
    task_spawn_count_tracking; task_duration_histogram].
Proof. apply passing_asserts. vm_compute. reflexivity. Qed.

(** * watchdog.rs *)

Definition seen (id : Z) (tr : HeartbeatTracker) : bool := negb (is_none (last_seen id tr)).
(** The clock gives two instants, the second five milliseconds later. *)
Definition heartbeat_tracker_record_and_read (t0 : Z) : bool :=
  let tr := tracker_record 1 t0 ∅ in
  let tr' := tracker_record 1 (t0 + millis 5) tr in
  asserts [negb (seen 1 ∅); seen 1 tr; match last_seen 1 tr, last_seen 1 tr' with Some t1, Some t2 => t1 <? t2 | _, _ => false end].
Definition heartbeat_tracker_remove : bool :=
  let tr := tracker_record 1 0 ∅ in asserts [seen 1 tr; negb (seen 1 (tracker_remove 1 tr))].
Definition heartbeat_tracker_multiple_nodes : bool :=
  let tr := tracker_record 3 0 (tracker_record 2 0 (tracker_record 1 0 ∅)) in
  let tr' := tracker_remove 2 tr in
  asserts [seen 1 tr; seen 2 tr; seen 3 tr; negb (seen 4 tr); seen 1 tr'; negb (seen 2 tr'); seen 3 tr'].
Definition backoff_schedule : bool :=
  bool_decide (Env.restart_backoff = secs <$> [1; 5; 30; 60]) &&
  forallb (λ n, bool_decide (backoff_delay (mkRestartState n 0) = secs 60)) [4; 5; 6; 7; 8; 9].
Definition restart_state_backoff_not_elapsed (t : Z) : bool := Z.max 0 (t - t) <? backoff_delay (mkRestartState 0 t).
Definition heartbeat_tracker_clone_shares_state : bool :=
  let tr := tracker_record 1 0 ∅ in asserts [seen 1 tr; seen 2 (tracker_record 2 0 tr)].
Lemma watchdog_tests :
  passing [heartbeat_tracker_record_and_read 0; heartbeat_tracker_remove; heartbeat_tracker_multiple_nodes; backoff_schedule;
    restart_state_backoff_not_elapsed 0; heartbeat_tracker_clone_shares_state].
Proof. apply passing_asserts. vm_compute. reflexivity. Qed.

(** * health/mod.rs *)

(** A world in which every await takes [step] milliseconds and every probe has the outcome [ok]. *)
Definition probe_env (ok : bool) (step : Z) (n : nat) : EnvStep := mkEnvStep [] [] id (Z.to_N (millis step)) 0 ok "connection refused".
Definition probe_world : World := mkWorld FsmState_default CommandRouter_new 0 0 0 0 [].
Definition outcome {A} (m : M A) : option A := fst <$> m probe_world.
Definition probe_returns_false_for_unreachable_address : bool := bool_decide (outcome (@probe stored_order (probe_env false 1)) = Some false).
Definition wait_tcp_ready_succeeds_for_listening_port : bool :=
  bool_decide (outcome (@wait_tcp_ready stored_order (probe_env true 1) 10 (millis 1000)) = Some true).
Definition wait_tcp_ready_times_out_for_unreachable : bool :=
  bool_decide (outcome (@wait_tcp_ready stored_order (probe_env false 50) 10 (millis 200)) = Some false).
Definition wait_healthy_times_out_for_unreachable : bool :=
  bool_decide (outcome (@wait_healthy stored_order (probe_env false 50) 10 (mkHealthCheck "/health" (millis 50) 3) (millis 200)) = Some false).
Lemma health_tests :
  passing [probe_returns_false_for_unreachable_address; wait_tcp_ready_succeeds_for_listening_port; wait_tcp_ready_times_out_for_unreachable;
    wait_healthy_times_out_for_unreachable].
Proof. apply passing_asserts. vm_compute. reflexivity. Qed.

(** * deploy/mod.rs *)

Definition deploy_test_service (image : string) (env : gmap string EnvValue) (res : Resources) : ServiceDef :=
  mkServiceDef image 8080 1 res env None None [] [].
Definition quarter : Resources := mkResources (frac 1 4) (mib 256).
Definition config_with_secret (service_name secret_name : string) : ClusterConfig :=
  mkClusterConfig {[service_name := deploy_test_service "img:1" {["DB_PASS"%string := Interpolated [Secret secret_name]]} quarter]} ∅.
Definition config_with_resources (name : string) (cpu : f64) (memory_mib : Z) : ClusterConfig :=
  mkClusterConfig {[name := deploy_test_service "img:1" ∅ (mkResources cpu (mib memory_mib))]} ∅.
Definition test_node_resources (cpu memory_mib : Z) : NodeResources :=
  mkNodeResources (f64_of_Z cpu) (f64_of_Z cpu) (mib memory_mib) (mib memory_mib).
Definition fails_with (part : string) (r : result unit DeployError) : bool :=
  match r with Err e => str_contains part (show_deploy_error e) | Ok _ => false end.
Definition succeeds {A E} (r : result A E) : bool := match r with Ok _ => true | Err _ => false end.
Definition validate_secret_refs_missing : bool :=
  fails_with "db_pass" (@validate_secret_refs stored_order (config_with_secret "web" "db_pass") ∅).
Definition validate_secret_refs_all_present : bool :=
  succeeds (@validate_secret_refs stored_order (config_with_secret "web" "db_pass") {["db_pass"%string]}).
Definition validate_resource_capacity_exceeds : bool :=
  fails_with "big" (@validate_resource_capacity stored_order (config_with_resources "big" (f64_of_Z 8) 256) [test_node_resources 4 8192]).
Definition validate_resource_capacity_fits : bool :=
  succeeds (@validate_resource_capacity stored_order (config_with_resources "web" (f64_of_Z 2) 1024) [test_node_resources 4 8192]).
Definition validate_resource_capacity_no_nodes : bool :=
  fails_with "no ready nodes" (@validate_resource_capacity stored_order (config_with_resources "web" (frac 1 4) 256) []).
Definition pulls (node : NodeId) (r : CommandRouter) : list string :=
  match routes r !! node with
  | Some ch => filter_map (λ c, match c with Pull image _ => Some image | _ => None end) (ch_sent ch)
  | None => []
  end.
Definition eager_pull_broadcasts_unique_images : bool :=
  let router := register (nid "n2") (mkChan true []) (register (nid "n1") (mkChan true []) CommandRouter_new) in
  let plan := mkDeployPlan [("web", deploy_test_service "nginx:1" ∅ quarter); ("api", deploy_test_service "api:2" ∅ quarter)]%string []
                [("cache"%string, deploy_test_service "nginx:1" ∅ quarter)] [] in
  let images := plan_images plan in
  let '(oks, router) := foldl (λ '(oks, r) image, let '(res, r) := @router_broadcast stored_order (Pull image None) r in (oks ++ [succeeds res], r))
                          ([], router) (elements images) in
  asserts [bool_decide (size images = 2%nat); bool_decide ("nginx:1"%string ∈ images); bool_decide ("api:2"%string ∈ images); asserts oks;
    bool_decide (length (pulls (nid "n1") router) = 2%nat); bool_decide (length (pulls (nid "n2") router) = 2%nat)].
Lemma deploy_tests :
  passing [validate_secret_refs_missing; validate_secret_refs_all_present; validate_resource_capacity_exceeds; validate_resource_capacity_fits;
    validate_resource_capacity_no_nodes; eager_pull_broadcasts_unique_images].
Proof. apply passing_asserts. vm_compute. reflexivity. Qed.
