(* ===== verification/TestsNode.v ===== *)
(** The unit tests that the source keeps beside the node's runtime and the link to the primary, run on the model: those of
    [src/crates/node/src/secondary/{state,reconcile,logs,metrics,heartbeat}.rs] and [rpc/{codec,protocol,router,server}.rs]. A test
    whose data goes through JSON has the codec as an argument and is shown to pass with every codec that gives back what it
    was given and keeps within the size of a frame. *)

From S2P Require Import Prelude Types Env Addr Ports Fsm Rpc World Connections Secondary Logs Host Doubles TestsPrimary.
Local Open Scope Z_scope.

(** * secondary/state.rs *)

Definition make_local_alloc (id : string) : LocalAlloc :=
  mkLocalAlloc (aid id) (mkContainerSpec (aid id) KService None None "test:latest" ∅ (Some 8080) (Some 50000) (f64_of_Z 1) (mib 256) [])
    Running (Some 50000) 0.
(** [make_alloc] of the source with another CPU share, amount of memory or volumes. *)
Definition alloc_of (id : string) (cpu : f64) (memory : Z) (volumes : list ContainerVolume) : LocalAlloc :=
  let s := la_spec (make_local_alloc id) in
  mkLocalAlloc (aid id) (mkContainerSpec (aid id) (spec_kind s) (spec_timeout s) (spec_command s) (spec_image s) (spec_env s) (spec_port s) (spec_host_port s)
    cpu memory volumes) Running (Some 50000) 0.
Definition inserted (l : list LocalAlloc) : AllocationMap := foldl (λ m a, (map_insert a m).2) ∅ l.
Definition is_ok {A E} (r : result A E) : bool := match r with Ok _ => true | Err _ => false end.

Definition insert_and_remove : bool :=
  let '(r, m) := map_insert (make_local_alloc "a") ∅ in
  asserts [is_ok r; map_contains (aid "a") m; bool_decide (is_Some (m !! aid "a")); negb (map_contains (aid "a") (map_remove (aid "a") m))].
Definition insert_duplicate_fails : bool :=
  let '(r, m) := map_insert (make_local_alloc "a") ∅ in
  asserts [is_ok r; negb (is_ok (map_insert (make_local_alloc "a") m).1)].
Definition total_reserved_cpu_empty : bool := f64_eqb (@total_reserved_cpu stored_order ∅) f64_zero.
Definition volume_info_excludes_ephemeral : bool :=
  let volumes := [mkContainerVolume "data" "/data" false; mkContainerVolume "tmp" "/tmp" true] in
  match @volume_info stored_order (inserted [alloc_of "a" (f64_of_Z 1) (mib 256) volumes]) with
  | [v] => asserts [bool_decide (vi_name v = "data"%string); bool_decide (vi_alloc_id v = Some (aid "a")); vi_size_bytes v =? 0]
  | _ => false
  end.
Definition total_reserved_cpu_sums_allocs : bool :=
  let m := inserted [alloc_of "a" (frac 3 2) (mib 256) []; alloc_of "b" (f64_of_Z 2) (mib 256) []] in
  f64_eqb (@total_reserved_cpu stored_order m) (frac 7 2).
Definition all_statuses_returns_current_state : bool :=
  let statuses := @all_statuses stored_order (inserted [make_local_alloc "a"; make_local_alloc "b"]) in
  asserts [bool_decide (size statuses = 2%nat); bool_decide (statuses !! aid "a" = Some Running); bool_decide (statuses !! aid "b" = Some Running)].
Definition set_status_updates_alloc : bool :=
  let m := map_set_status (aid "a") (Stopped 0) (inserted [make_local_alloc "a"]) in
  bool_decide (@all_statuses stored_order m !! aid "a" = Some (Stopped 0)).
(** The test only asks for no panic; the map stays empty. *)
Definition set_status_noop_for_missing_alloc : bool :=
  bool_decide (size (map_set_status (aid "missing") (Failed "gone") ∅) = 0%nat).
Definition total_reserved_memory_empty : bool := @total_reserved_memory stored_order ∅ =? 0.
Definition total_reserved_memory_sums_allocs : bool :=
  let m := inserted [alloc_of "a" (f64_of_Z 1) (mib 256) []; alloc_of "b" (f64_of_Z 1) (mib 512) []] in
  @total_reserved_memory stored_order m =? mib 256 + mib 512.
Lemma state_tests :
  passing [insert_and_remove; insert_duplicate_fails; total_reserved_cpu_empty; volume_info_excludes_ephemeral; total_reserved_cpu_sums_allocs;
    all_statuses_returns_current_state; set_status_updates_alloc; set_status_noop_for_missing_alloc; total_reserved_memory_empty;
    total_reserved_memory_sums_allocs].
Proof. apply passing_asserts. vm_compute. reflexivity. Qed.

(** * secondary/reconcile.rs *)

(** [test_ctx]: a pool of the ports 50000 to 50100 on a host that uses none of them. *)
Definition test_ctx : Sec := mkSec (with_range (mkHostTables None None None) 50000 50100) ∅ ∅ [] [].
(** [test_recovered] of [src/crates/support/src/runtime.rs]. *)
Definition test_recovered (host_port : option Z) : RecoveredContainer :=
  mkRecovered KService None None host_port (frac 1 4) 268435456 "test:1" [].
Definition has (l : list AllocId) (id : string) : bool := bool_decide (aid id ∈ l).

Definition stops_orphan_containers : bool :=
  let runtime := with_recovered (aid "alloc-1") (test_recovered (Some 30000))
                   (with_managed [aid "alloc-1"; aid "alloc-2"; aid "alloc-3"] TestContainers_new) in
  let '(runtime, _) := reconcile_with runtime [aid "alloc-1"] None test_ctx in
  let stopped := tc_stopped runtime in
  let removed := tc_removed runtime in
  asserts [has stopped "alloc-2"; has stopped "alloc-3"; negb (has stopped "alloc-1"); has removed "alloc-2"; has removed "alloc-3"].
Definition rehydrates_expected_running_container : bool :=
  let runtime := with_recovered (aid "alloc-1") (test_recovered (Some 50050)) (with_managed [aid "alloc-1"] TestContainers_new) in
  let mesh_ip := V4 (((10 * 256 + 99) * 256 + 0) * 256 + 1) in
  let '(_, ctx) := reconcile_with runtime [aid "alloc-1"] (Some mesh_ip) test_ctx in
  asserts [map_contains (aid "alloc-1") (sec_allocs ctx); negb (allocate_specific (aid "other") 50050 (sec_ports ctx)).1;
    match sec_reports ctx with
    | RunStarted alloc_id host_port address :: _ =>
        asserts [bool_decide (alloc_id = aid "alloc-1"); bool_decide (host_port = Some 50050); bool_decide (address = Some (sock 10 99 0 1 50050))]
    | _ => false
    end].
Definition reports_stopped_for_missing_expected : bool :=
  let '(runtime, ctx) := reconcile_with TestContainers_new [aid "alloc-1"] None test_ctx in
  asserts [match sec_reports ctx with
           | StoppedReport alloc_id exit_code :: _ => bool_decide (alloc_id = aid "alloc-1") && (exit_code =? -1)
           | _ => false
           end; bool_decide (tc_stopped runtime = []); bool_decide (tc_removed runtime = [])].
Definition handles_recover_info_failure : bool :=
  let runtime := with_recover_fail (aid "alloc-1") (with_managed [aid "alloc-1"] TestContainers_new) in
  let '(_, ctx) := reconcile_with runtime [aid "alloc-1"] None test_ctx in
  asserts [negb (map_contains (aid "alloc-1") (sec_allocs ctx)); match sec_reports ctx with [] => true | _ => false end].
Definition rehydrates_despite_port_conflict : bool :=
  let runtime := with_recovered (aid "alloc-1") (test_recovered (Some 50060)) (with_managed [aid "alloc-1"] TestContainers_new) in
  let '(taken, ports) := allocate_specific (aid "existing") 50060 (sec_ports test_ctx) in
  let '(_, ctx) := reconcile_with runtime [aid "alloc-1"] None (set_sec_ports ports test_ctx) in
  asserts [taken; map_contains (aid "alloc-1") (sec_allocs ctx); match sec_reports ctx with RunStarted _ _ _ :: _ => true | _ => false end].
Lemma reconcile_tests :
  passing [stops_orphan_containers; rehydrates_expected_running_container; reports_stopped_for_missing_expected; handles_recover_info_failure;
    rehydrates_despite_port_conflict].
Proof. apply passing_asserts. vm_compute. reflexivity. Qed.

(** * secondary/logs.rs *)

Definition make_line (content : string) : LogLine := mkLogLine 0 Stdout content.
(** The lines [line-0] to [line-(n-1)]. *)
Definition numbered (n : nat) : list LogLine := (λ i, make_line ("line-" +:+ pretty (Z.of_nat i))%string) <$> seq 0 n.
Definition pushed (lines : list LogLine) : LogBuffer := foldl (λ b l, log_push l b) [] lines.

Definition tail_returns_last_n_lines : bool :=
  let tail := log_tail 5 (pushed (numbered 20)) in
  asserts [bool_decide (length tail = 5%nat); bool_decide (ll_content <$> head tail = Some "line-15"%string);
    bool_decide (ll_content <$> tail !! 4%nat = Some "line-19"%string)].
Definition tail_returns_all_when_fewer_than_n : bool :=
  bool_decide (ll_content <$> log_tail 100 (pushed [make_line "only"]) = ["only"%string]).
Definition tail_of_overfull : list LogLine := log_tail MAX_LINES (pushed (numbered (MAX_LINES + 50))).
Definition evicts_oldest_beyond_capacity : bool :=
  Nat.eqb (length tail_of_overfull) MAX_LINES && from_option (λ l, String.eqb (ll_content l) "line-50") false (head tail_of_overfull).
(** A follower's queue: [broadcast::Sender::send] reaches every receiver that subscribed before. *)
Definition follow_receives_new_lines : bool :=
  let follower := (aid "a", 0%nat, []) in
  match broadcast_push 0 (make_line "hello") follower with
  | (_, _, line :: _) => bool_decide (ll_content line = "hello"%string)
  | _ => false
  end.
Lemma numbered_drop n k : (k < n)%nat → ∃ l, drop k (numbered n) = make_line ("line-" +:+ pretty (Z.of_nat k))%string :: l ∧ length l = (n - S k)%nat.
Proof.
  intros Hk. unfold numbered. rewrite <-fmap_drop, drop_seq. destruct (n - k)%nat as [|m] eqn:Hm; [lia|].
  rewrite <-cons_seq, fmap_cons. eexists. split; [reflexivity|]. rewrite length_fmap, length_seq. lia.
Qed.
Lemma evicts_oldest : evicts_oldest_beyond_capacity = true.
Proof.
  unfold evicts_oldest_beyond_capacity, tail_of_overfull, pushed.
  pose proof (log_tail_recent (numbered (MAX_LINES + 50)) MAX_LINES) as [_ ->].
  assert (0 < MAX_LINES)%nat as Hm by (unfold MAX_LINES; lia). generalize MAX_LINES Hm. clear Hm. intros m Hm. replace (length (numbered (m + 50)) - m `min` m)%nat with 50%nat
    by (unfold numbered; rewrite length_fmap, length_seq; lia).
  destruct (numbered_drop (m + 50) 50) as (l & -> & Hl); [lia|]. apply andb_true_intro. split; [|reflexivity].
  apply Nat.eqb_eq. simpl. lia.
Qed.
Lemma log_buffer_tests :
  passing [tail_returns_last_n_lines; tail_returns_all_when_fewer_than_n; follow_receives_new_lines].
Proof. apply passing_asserts. vm_compute. reflexivity. Qed.

(** * secondary/metrics.rs *)

Definition usage (id : string) (cpu mem : Z) : ContainerStats := mkContainerStats (aid id) (f64_of_Z cpu) (mib mem).
Definition cpu_rate_first_reading_is_zero : bool :=
  match compute_cpu_rates [usage "svc-1" 100 128] ∅ 0 with
  | (prev, [r]) => f64_eqb (cs_cpu_usage r) f64_zero && hm_contains (aid "svc-1") prev
  | _ => false
  end.
(** [(r - 1.0).abs() < 0.001]. *)
Definition cpu_rate_two_successive_readings : bool :=
  let prev := (compute_cpu_rates [usage "svc-1" 10 128] ∅ 0).1 in
  match (compute_cpu_rates [usage "svc-1" 20 130] prev (secs 10)).2 with
  | [r] => asserts [f64_ltb (SFabs (f64_sub (cs_cpu_usage r) (f64_of_Z 1))) (frac 1 1000); cs_memory_usage r =? mib 130]
  | _ => false
  end.
Definition cpu_rate_negative_delta_clamped : bool :=
  match (compute_cpu_rates [usage "svc-1" 2 64] {[ aid "svc-1" := (f64_of_Z 50, 0) ]} (secs 10)).2 with
  | r :: _ => f64_eqb (cs_cpu_usage r) f64_zero
  | [] => false
  end.
Definition cpu_rate_stale_entries_cleaned : bool :=
  let prev := (compute_cpu_rates [usage "svc-1" 20 128] {[ aid "svc-1" := (f64_of_Z 10, 0); aid "svc-gone" := (f64_of_Z 5, 0) ]} (secs 10)).1 in
  hm_contains (aid "svc-1") prev && negb (hm_contains (aid "svc-gone") prev).
Lemma metrics_tests :
  passing [cpu_rate_first_reading_is_zero; cpu_rate_two_successive_readings; cpu_rate_negative_delta_clamped; cpu_rate_stale_entries_cleaned].
Proof. apply passing_asserts. vm_compute. reflexivity. Qed.

(** * secondary/heartbeat.rs *)

(** The loop over the ticks of its interval; each has what the collector and the map of allocations hold then and whether the
    channel of reports is open. The reports sent, and whether the loop has ended. *)
Fixpoint heartbeat_loop `{HashIter} (node : NodeId) (ticks : list ((NodeResources * list ContainerStats) * AllocationMap * bool))
    : list NodeReport * bool :=
  match ticks with
  | [] => ([], false)
  | (metrics, allocs, open) :: ticks =>
      if open : bool then
        let '(sent, ended) := heartbeat_loop node ticks in (HeartbeatReport (heartbeat node metrics allocs) :: sent, ended)
      else ([], true)
  end.
Definition idle_tick (open : bool) : (NodeResources * list ContainerStats) * AllocationMap * bool :=
  (mc_cache MetricsCollector_new, ∅, open).
Definition heartbeat_sends_on_interval : bool :=
  match (@heartbeat_loop stored_order (nid "test-node") [idle_tick true; idle_tick true]).1 with
  | [HeartbeatReport _; HeartbeatReport _] => true
  | _ => false
  end.
Definition heartbeat_exits_on_channel_close : bool :=
  match @heartbeat_loop stored_order (nid "test-node") [idle_tick false; idle_tick false] with
  | ([], ended) => ended
  | _ => false
  end.
Lemma heartbeat_tests : passing [heartbeat_sends_on_interval; heartbeat_exits_on_channel_close].
Proof. apply passing_asserts. vm_compute. reflexivity. Qed.

(** * rpc/codec.rs *)

(** What the tests need of a message's JSON: it is read back and fits in a frame. *)
Definition fits {T} (to_json : T → result string string) (from_json : string → result T string) (val : T) : Prop :=
  ∃ payload, to_json val = Ok payload ∧ from_json payload = Ok val ∧ Z.of_nat (String.length payload) ≤ MAX_FRAME_SIZE.
Lemma fits_frame {T} (to_json : T → result string string) (from_json : string → result T string) val :
  fits to_json from_json val →
  ∃ bytes, write_frame to_json val = Ok bytes ∧ read_frame from_json bytes = Ok (Some (val, EmptyString)) ∧
    ∀ rest, read_frame from_json (bytes +:+ rest)%string = Ok (Some (val, rest)).
Proof.
  intros (payload & Hto & Hfrom & Hlen). assert (Z.of_nat (String.length payload) ≤ u32_max) as Hmax.
  { etrans; [exact Hlen|]. by vm_compute. }
  assert (∃ bytes, write_frame to_json val = Ok bytes) as [bytes Hb].
  { unfold write_frame. rewrite Hto, wrap32_small by lia.
    destruct (Z.ltb_spec MAX_FRAME_SIZE (Z.of_nat (String.length payload))); [lia|by eexists]. }
  assert (∀ rest, read_frame from_json (bytes +:+ rest)%string = Ok (Some (val, rest))) as Hr by (intros rest; by eapply read_write_frame).
  exists bytes. split_and!; [done| |done]. rewrite <-(str_app_nil_r bytes). apply Hr.
Qed.
Section codec.
Context (cmd_to : NodeCommand → result string string) (cmd_from : string → result NodeCommand string).
Context (rep_to : NodeReport → result string string) (rep_from : string → result NodeReport string).

Definition codec_cmd1 : NodeCommand := Stop (aid "test-1").
Definition codec_rep1 : NodeReport := StoppedReport (aid "a") 42.
Definition codec_cmds : list NodeCommand := [Stop (aid "a"); Pull "nginx:latest" None; LogTail (aid "b") 50].

Definition round_trip_node_command : bool :=
  match write_frame cmd_to codec_cmd1 with
  | Ok bytes =>
      match read_frame cmd_from bytes with
      | Ok (Some (Stop alloc_id, _)) => bool_decide (alloc_id_0 alloc_id = "test-1"%string)
      | _ => false
      end
  | Err _ => false
  end.
Definition round_trip_node_report : bool :=
  match write_frame rep_to codec_rep1 with
  | Ok bytes =>
      match read_frame rep_from bytes with
      | Ok (Some (StoppedReport _ exit_code, _)) => exit_code =? 42
      | _ => false
      end
  | Err _ => false
  end.
Definition oversize_frame_rejected_on_read : bool :=
  match read_frame cmd_from (to_be_bytes (MAX_FRAME_SIZE + 1)) with Err (InvalidData _) => true | _ => false end.
Definition eof_returns_none : bool := match read_frame cmd_from EmptyString with Ok None => true | _ => false end.
Definition multiple_frames_round_trip : bool :=
  match write_all cmd_to codec_cmds with
  | Ok bytes =>
      match read_frame cmd_from bytes with
      | Ok (Some (Stop _, bytes)) =>
          match read_frame cmd_from bytes with
          | Ok (Some (Pull _ _, bytes)) =>
              match read_frame cmd_from bytes with Ok (Some (LogTail _ lines, _)) => lines =? 50 | _ => false end
          | _ => false
          end
      | _ => false
      end
  | Err _ => false
  end.
Lemma codec_tests :
  (∀ c, c ∈ codec_cmd1 :: codec_cmds → fits cmd_to cmd_from c) → fits rep_to rep_from codec_rep1 →
  passing [round_trip_node_command; round_trip_node_report; oversize_frame_rejected_on_read; eof_returns_none; multiple_frames_round_trip].
Proof.
  intros Hc Hr. repeat constructor.
  - unfold round_trip_node_command. destruct (fits_frame _ _ _ (Hc codec_cmd1 ltac:(left))) as (b & -> & -> & _). reflexivity.
  - unfold round_trip_node_report. destruct (fits_frame _ _ _ Hr) as (b & -> & -> & _). reflexivity.
  - unfold multiple_frames_round_trip, codec_cmds. simpl.
    destruct (fits_frame _ _ _ (Hc (Stop (aid "a")) ltac:(set_solver))) as (b1 & -> & _ & Hb1).
    destruct (fits_frame _ _ _ (Hc (Pull "nginx:latest" None) ltac:(set_solver))) as (b2 & -> & _ & Hb2).
    destruct (fits_frame _ _ _ (Hc (LogTail (aid "b") 50) ltac:(set_solver))) as (b3 & -> & _ & Hb3). simpl. by rewrite Hb1, Hb2, Hb3.
Qed.
End codec.

(** * rpc/router.rs *)

Definition open_chan : Chan := mkChan true [].
Definition commands_for (node : string) (r : CommandRouter) : list NodeCommand := from_option ch_sent [] (routes r !! nid node).
Definition register_and_send : bool :=
  let '(r, router) := router_send (nid "node-1") (Stop (aid "alloc-1")) (register (nid "node-1") open_chan CommandRouter_new) in
  match commands_for "node-1" router with
  | Stop alloc_id :: _ => is_ok r && bool_decide (alloc_id_0 alloc_id = "alloc-1"%string)
  | _ => false
  end.
Definition send_to_unknown_node_returns_unreachable : bool :=
  match (router_send (nid "ghost") (Stop (aid "x")) CommandRouter_new).1 with
  | Err (NodeUnreachable s) => bool_decide (s = "ghost"%string)
  | _ => false
  end.
Definition deregister_removes_node : bool :=
  let router := deregister (nid "node-1") (register (nid "node-1") open_chan CommandRouter_new) in
  match (router_send (nid "node-1") (Stop (aid "x")) router).1 with Err (NodeUnreachable _) => true | _ => false end.
Definition broadcast_sends_to_all : bool :=
  let router := register (nid "n2") open_chan (register (nid "n1") open_chan CommandRouter_new) in
  let '(r, router) := @router_broadcast stored_order (Pull "redis:7" None) router in
  asserts [is_ok r; bool_decide (0 < length (commands_for "n1" router))%nat; bool_decide (0 < length (commands_for "n2" router))%nat].
Definition broadcast_continues_on_closed_channel : bool :=
  let router := register (nid "n3") open_chan (register (nid "n2") (mkChan false []) (register (nid "n1") open_chan CommandRouter_new)) in
  let '(r, router) := @router_broadcast stored_order (Pull "redis:7" None) router in
  asserts [negb (is_ok r); bool_decide (length (commands_for "n1" router) + length (commands_for "n3" router) = 2)%nat].
Lemma router_tests :
  passing [register_and_send; send_to_unknown_node_returns_unreachable; deregister_removes_node; broadcast_sends_to_all;
    broadcast_continues_on_closed_channel].
Proof. apply passing_asserts. vm_compute. reflexivity. Qed.

(** * rpc/server.rs and connecting to it *)

Section server.
Context (auth_to : AuthRequest → result string string) (auth_from : string → result AuthRequest string).
Context (resp_to : AuthResponse → result string string) (resp_from : string → result AuthResponse string).
Context (cmd_to : NodeCommand → result string string) (cmd_from : string → result NodeCommand string).
Context (rep_to : NodeReport → result string string) (rep_from : string → result NodeReport string).

(** What a client sends: its token and then commands. The server's answer, what the client reads of it, and the commands that
    reach the secondary. *)
Definition talk (server_token client_token : string) (cmds : list NodeCommand)
    : option (result (list NodeCommand) NodeError * result (option AuthResponse) FrameError) :=
  match write_frame auth_to (mkAuthRequest client_token), write_all cmd_to cmds with
  | Ok auth, Ok rest =>
      let '(r, answer) := handle_connection auth_from cmd_from server_token (auth +:+ rest)%string in
      match answer with
      | Some resp =>
          match write_frame resp_to resp with
          | Ok bytes => Some (r, match read_frame resp_from bytes with Ok v => Ok (fst <$> v) | Err e => Err e end)
          | Err _ => None
          end
      | None => Some (r, Ok None)
      end
  | _, _ => None
  end.
Definition auth_handshake_success : bool :=
  match talk "secret-token" "secret-token" [] with Some (_, Ok (Some resp)) => auth_ok resp | _ => false end.
Definition auth_rejection : bool :=
  match talk "correct-token" "wrong-token" [] with Some (r, Ok (Some resp)) => negb (auth_ok resp) && negb (is_ok r) | _ => false end.
Definition forwarded_report : NodeReport := StoppedReport (aid "b") 0.
(** A report of the secondary goes back over the same connection. *)
Definition report_returns (r : NodeReport) : bool :=
  match write_frame rep_to r with
  | Ok bytes => match read_frame rep_from bytes with Ok (Some (StoppedReport _ exit_code, _)) => exit_code =? 0 | _ => false end
  | Err _ => false
  end.
Definition command_forwarding_over_tcp : bool :=
  match talk "token" "token" [Stop (aid "a")] with
  | Some (Ok (Stop alloc_id :: _), Ok (Some resp)) =>
      asserts [auth_ok resp; bool_decide (alloc_id_0 alloc_id = "a"%string); report_returns forwarded_report]
  | _ => false
  end.

(** [connect] of the router: the handshake, then a channel; the commands sent into the channel are what the writer puts on
    the stream. *)
Definition connect_to (server_token client_token : string) (node : string) (r : CommandRouter) : result CommandRouter NodeError :=
  match talk server_token client_token [] with
  | Some (_, Ok (Some resp)) =>
      match write_frame resp_to resp with
      | Ok bytes =>
          match do_auth resp_from bytes with
          | Ok _ => Ok (wire_connection (nid node) (next_token r) r)
          | Err e => Err e
          end
      | Err _ => Err (BadRequest "rpc auth read")
      end
  | _ => Err (BadRequest "rpc: connection closed during auth")
  end.
Definition connect_round_trip : bool :=
  match connect_to "test-token" "test-token" "remote-1" CommandRouter_new with
  | Ok router =>
      let '(r, router) := router_send (nid "remote-1") (Stop (aid "alloc-1")) router in
      match talk "test-token" "test-token" (commands_for "remote-1" router) with
      | Some (Ok (Stop alloc_id :: _), _) =>
          asserts [is_ok r; bool_decide (alloc_id_0 alloc_id = "alloc-1"%string); report_returns (StoppedReport (aid "alloc-1") 0);
            negb (is_ok (router_send (nid "remote-1") (Stop (aid "x")) (disconnect (nid "remote-1") router)).1)]
      | _ => false
      end
  | Err _ => false
  end.
Definition connect_auth_rejection : bool := negb (is_ok (connect_to "correct-token" "wrong-token" "bad" CommandRouter_new)).

(** The messages of these tests go through JSON and fit in a frame. *)
Context (auth_json : ∀ token, token ∈ ["secret-token"; "correct-token"; "wrong-token"; "token"; "test-token"]%string → fits auth_to auth_from (mkAuthRequest token)).
Context (resp_json : ∀ ok, fits resp_to resp_from (mkAuthResponse ok)).
Context (cmd_json : ∀ id, id ∈ ["a"; "alloc-1"]%string → fits cmd_to cmd_from (Stop (aid id))).
Context (rep_json : ∀ id, id ∈ ["b"; "alloc-1"]%string → fits rep_to rep_from (StoppedReport (aid id) 0)).

Lemma report_returns_ok id : id ∈ ["b"; "alloc-1"]%string → report_returns (StoppedReport (aid id) 0) = true.
Proof. intros Hid. unfold report_returns. destruct (fits_frame _ _ _ (rep_json id Hid)) as (b & -> & -> & _). reflexivity. Qed.
Lemma write_all_fits cmds : (∀ c, c ∈ cmds → fits cmd_to cmd_from c) → ∃ bytes, write_all cmd_to cmds = Ok bytes.
Proof.
  induction cmds as [|c cmds IH]; intros Hc; [by eexists|]. simpl. destruct (fits_frame _ _ _ (Hc c ltac:(left))) as (b & -> & _).
  simpl. destruct IH as [bs ->]; [|by eexists]. intros c' Hc'. apply Hc. by right.
Qed.
(** A conversation: only the right token gets commands through, and the client is told. *)
Lemma talk_spec server client cmds :
  fits auth_to auth_from (mkAuthRequest client) → (∀ c, c ∈ cmds → fits cmd_to cmd_from c) →
  talk server client cmds =
    Some (if bool_decide (client = server) then Ok cmds else Err (BadRequest "invalid auth token"),
          Ok (Some (mkAuthResponse (bool_decide (client = server))))).
Proof.
  intros Hc Hcmds. unfold talk. destruct (fits_frame _ _ _ Hc) as (b & -> & _ & Hb).
  destruct (write_all_fits cmds Hcmds) as [bs Hbs]. rewrite Hbs. unfold handle_connection. rewrite Hb. simpl.
  destruct (fits_frame _ _ _ (resp_json (bool_decide (client = server)))) as (c & Hw & Hr & _).
  destruct (bool_decide (client = server)); rewrite Hw, Hr; simpl; [|done]. do 3 f_equal.
  rewrite (read_write_all cmd_to cmd_from cmds bs); [done| |done|done].
  intros v Hv. destruct (Hcmds v Hv) as (p & Hto & Hfrom & Hlen). exists p. split_and!; [done..|]. etrans; [exact Hlen|]. by vm_compute.
Qed.
Lemma connect_to_spec server client node r :
  fits auth_to auth_from (mkAuthRequest client) →
  connect_to server client node r =
    if bool_decide (client = server) then Ok (wire_connection (nid node) (next_token r) r) else Err (BadRequest "rpc: auth rejected").
Proof.
  intros Hc. unfold connect_to. rewrite talk_spec; [|done|by intros ? ?%elem_of_nil].
  destruct (fits_frame _ _ _ (resp_json (bool_decide (client = server)))) as (c & -> & Hr & _). unfold do_auth. rewrite Hr.
  by destruct (bool_decide (client = server)).
Qed.
Lemma server_tests :
  passing [auth_handshake_success; auth_rejection; command_forwarding_over_tcp; connect_round_trip; connect_auth_rejection].
Proof.
  assert (∀ id, id ∈ ["a"; "alloc-1"]%string → ∀ c, c ∈ [Stop (aid id)] → fits cmd_to cmd_from c) as Hcmd
    by (intros id Hid c ->%list_elem_of_singleton; by apply cmd_json).
  repeat constructor.
  - unfold auth_handshake_success. rewrite talk_spec; [reflexivity|apply auth_json; set_solver|by intros ? ?%elem_of_nil].
  - unfold auth_rejection. rewrite talk_spec; [reflexivity|apply auth_json; set_solver|by intros ? ?%elem_of_nil].
  - unfold command_forwarding_over_tcp. rewrite talk_spec; [|apply auth_json; set_solver|apply Hcmd; set_solver].
    unfold forwarded_report. rewrite report_returns_ok by set_solver. reflexivity.
  - unfold connect_round_trip. rewrite connect_to_spec by (apply auth_json; set_solver).
    rewrite bool_decide_true by done. set (router := router_send _ _ _).
    assert (router = (Ok tt, set_routes {[ nid "remote-1" := mkChan true [Stop (aid "alloc-1")] ]} (mkRouter ∅ {[ nid "remote-1" := 1%nat ]} ∅))) as ->
      by (vm_compute; reflexivity).
    change (commands_for "remote-1" _) with [Stop (aid "alloc-1")].
    rewrite talk_spec; [|apply auth_json; set_solver|apply Hcmd; set_solver].
    rewrite report_returns_ok by set_solver. reflexivity.
  - unfold connect_auth_rejection. rewrite connect_to_spec by (apply auth_json; set_solver). reflexivity.
Qed.
End server.
