(* ===== verification/TestsEdge.v ===== *)
(** The unit tests that the source keeps beside the crates around the node, run on the model: those of the network
    ([src/crates/net/src/{ports,dns,wireguard}]), the proxy ([src/crates/proxy/src]), the container runtime
    ([src/crates/containerd/src/spec.rs]), the configuration ([src/crates/config/src/validate/parse.rs], [types/data_dir.rs]) and the
    consensus storage ([src/crates/raft/src/{snapshot/disk,secrets/cipher}.rs]). Codecs, ciphers and certificates are arguments of the
    tests, which pass for all that keep their laws. *)

From S2P Require Import Prelude Types Env Addr Ports Fsm Snapshot Secrets Config Rpc World Secondary Oci Containers Routes Dns Certs Daemon RaftNet TestsPrimary TestsNode.
Local Open Scope Z_scope.

(** * net/src/ports.rs *)

Definition with_range_no_scan (start stop : Z) : PortPool := mkPortPool start stop (port_range start stop) ∅.
(** A host with no ports in use, for [restore]. *)
Definition quiet_host : HostTables := mkHostTables None None None.
Definition take_ports (ids : list string) (p : PortPool) : list (option Z) * PortPool :=
  foldl (λ '(out, p) id, let '(port, p) := allocate (aid id) p in (out ++ [port], p)) ([], p) ids.

Definition allocate_returns_port_in_range : bool :=
  match (allocate (aid "a1") (with_range_no_scan 50000 50010)).1 with Some port => (50000 <=? port) && (port <=? 50010) | None => false end.
Definition allocate_tracks_alloc_id : bool :=
  let '(port, p) := allocate (aid "svc-1") (with_range_no_scan 50000 50010) in
  match port with Some port => bool_decide (snapshot p !! port = Some (aid "svc-1")) | None => false end.
Definition release_returns_port_to_pool : bool :=
  let '(port, p) := allocate (aid "a") (with_range_no_scan 50000 50000) in
  let '(none, p) := allocate (aid "b") p in
  let '(port2, _) := allocate (aid "c") (release (default 0 port) p) in
  asserts [negb (is_none port); is_none none; bool_decide (port2 = port)].
Definition exhaustion_returns_none : bool :=
  match (take_ports ["a"; "b"; "c"; "d"]%string (with_range_no_scan 60000 60002)).1 with
  | [Some _; Some _; Some _; None] => true
  | _ => false
  end.
Definition snapshot_restore_round_trips : bool :=
  let snap := snapshot (take_ports ["a"; "b"]%string (with_range_no_scan 50000 50005)).2 in
  asserts [bool_decide (size snap = 2%nat); bool_decide (snapshot (@restore stored_order quiet_host snap (with_range_no_scan 50000 50005)) = snap)].
Definition allocate_specific_reserves_port : bool :=
  let '(ok, p) := allocate_specific (aid "a") 50005 (with_range_no_scan 50000 50010) in
  let '(again, p) := allocate_specific (aid "b") 50005 p in
  asserts [ok; bool_decide (snapshot p !! 50005 = Some (aid "a")); negb again;
    match (allocate (aid "c") p).1 with Some port => negb (port =? 50005) | None => false end].
Definition allocate_specific_rejects_out_of_range : bool :=
  let p := with_range_no_scan 50000 50010 in
  let '(below, p) := allocate_specific (aid "a") 49999 p in
  let '(above, p) := allocate_specific (aid "b") 50011 p in
  asserts [negb below; negb above; (allocate_specific (aid "c") 50005 p).1].
Definition restore_skips_out_of_range_ports : bool :=
  let snap := snapshot (@restore stored_order quiet_host {[ 50001 := aid "a"; 49000 := aid "b"; 60000 := aid "c" ]} (with_range_no_scan 50000 50005)) in
  bool_decide (size snap = 1%nat) && hm_contains 50001 snap.
(** The pool is locked for each allocation, so threads take turns in some order. *)
Definition concurrent_allocations_never_return_same_port : bool :=
  let ids := (λ i, "alloc-" +:+ pretty i)%string <$> seqZ 0 100 in
  let ports := omap id (take_ports ids (with_range_no_scan 50000 50099)).1 in
  bool_decide (NoDup ports) && bool_decide (length ports = 100%nat).
Lemma port_tests :
  passing [allocate_returns_port_in_range; allocate_tracks_alloc_id; release_returns_port_to_pool; exhaustion_returns_none;
    snapshot_restore_round_trips; allocate_specific_reserves_port; allocate_specific_rejects_out_of_range; restore_skips_out_of_range_ports;
    concurrent_allocations_never_return_same_port].
Proof. apply passing_asserts. vm_compute. reflexivity. Qed.

(** * net/src/dns/handler.rs and mod.rs *)

Definition v4 (a b c d : Z) : IpAddr := V4 (((a * 256 + b) * 256 + c) * 256 + d).
Definition make_query (name : string) (rtype : RecordType) : DnsMessage := mkDnsMessage 1234 false false false NoError [mkDnsQuery name rtype] [].
Definition test_records : gmap string (list IpAddr) :=
  {[ "web" := [v4 10 99 0 1; v4 10 99 0 2]; "db" := [v4 10 99 0 10; V6 1] ]}%string.
(** The names of the tests are valid. *)
Definition ask_test (name : string) (rtype : RecordType) : QueryResult := handle_query (λ _, true) (make_query name rtype) test_records.
Definition answered (r : QueryResult) (code : ResponseCode) (n : nat) : bool :=
  match r with
  | QResponse resp => bool_decide (length (dm_answers resp) = n) && match dm_code resp, code with NoError, NoError | NXDomain, NXDomain => true | _, _ => false end
  | QForward => false
  end.
Definition mill_a_query_returns_records : bool := answered (ask_test "web.mill." TypeA) NoError 2.
Definition non_mill_query_returns_forward : bool := match ask_test "example.com." TypeA with QForward => true | _ => false end.
Definition unknown_mill_name_returns_nxdomain : bool := answered (ask_test "unknown.mill." TypeA) NXDomain 0.
Definition ipv6_addresses_filtered_from_a_records : bool := answered (ask_test "db.mill." TypeA) NoError 1.
Definition mill_aaaa_query_returns_empty : bool := answered (ask_test "web.mill." (TypeOther 28)) NoError 0.
Lemma dns_handler_tests :
  passing [mill_a_query_returns_records; non_mill_query_returns_forward; unknown_mill_name_returns_nxdomain;
    ipv6_addresses_filtered_from_a_records; mill_aaaa_query_returns_empty].
Proof. apply passing_asserts. vm_compute. reflexivity. Qed.

Definition build_query (name : string) (rtype : RecordType) : DnsMessage := mkDnsMessage 42 false true false NoError [mkDnsQuery name rtype] [].
Section dns_server.
Context (from_bytes : string → option DnsMessage) (to_vec : DnsMessage → option string) (name_ok : string → bool).
(** [msg.to_vec().unwrap_or_default()], sent to the server; what the server does with it. *)
Definition query_server (records : gmap string (list IpAddr)) (msg : DnsMessage) : ServeAction :=
  serve_datagram from_bytes to_vec name_ok records (default EmptyString (to_vec msg)).
Definition resolve_mill_a_record : bool :=
  match query_server (set_records [mkDnsRecord "web" [sock 10 99 0 1 0]]) (build_query "web.mill." TypeA) with
  | Reply bytes => match from_bytes bytes with Some resp => answered (QResponse resp) NoError 1 | None => false end
  | _ => false
  end.
(** The query goes to the forwarder, and whatever comes of that is a message. *)
Definition forward_non_mill_query : bool :=
  match query_server ∅ (build_query "example.com." TypeA) with
  | Forwarded msg =>
      match forwarded_reply to_vec msg (Err "upstream timed out"%string) with
      | Some bytes => match from_bytes bytes with Some _ => true | None => false end
      | None => true
      end
  | _ => false
  end.
Lemma dns_server_tests :
  (∀ m, ∃ b, to_vec m = Some b ∧ from_bytes b = Some m) → name_ok "web.mill." = true →
  passing [resolve_mill_a_record; forward_non_mill_query].
Proof.
  intros Hcodec Hname. repeat constructor.
  - unfold resolve_mill_a_record, query_server, serve_datagram. destruct (Hcodec (build_query "web.mill." TypeA)) as (b & -> & Hb).
    cbn [default from_option]. unfold id. rewrite Hb. set (q := handle_query _ _ _). vm_compute in q. unfold q. rewrite Hname. clear q.
    match goal with |- context [to_vec ?m] => destruct (Hcodec m) as (b' & -> & Hb') end. rewrite Hb'. reflexivity.
  - unfold forward_non_mill_query, query_server, serve_datagram. destruct (Hcodec (build_query "example.com." TypeA)) as (b & -> & Hb).
    cbn [default from_option]. unfold id. rewrite Hb. set (q := handle_query _ _ _). vm_compute in q. unfold q, forwarded_reply. clear q.
    match goal with |- context [to_vec ?m] => destruct (Hcodec m) as (b' & -> & Hb') end. by rewrite Hb'.
Qed.
End dns_server.

(** * net/src/wireguard *)

Definition parse_subnet_first_ip_basic : bool := bool_decide (parse_subnet_first_ip "10.99.0.0/16" = Some (v4 10 99 0 1, 16)).
Definition parse_subnet_invalid : bool := is_none (parse_subnet_first_ip "not-a-subnet") && is_none (parse_subnet_first_ip "10.0.0.0").
Definition network_address_v4_test : bool :=
  match parse_ip "10.99.1.5" with
  | Some ip =>
      asserts [bool_decide (Some (network_address ip 16) = parse_ip "10.99.0.0"); bool_decide (Some (network_address ip 24) = parse_ip "10.99.1.0");
        bool_decide (Some (network_address ip 32) = parse_ip "10.99.1.5")]
  | None => false
  end.
Definition network_address_v6_test : bool :=
  match parse_ip "fd00::1:5" with
  | Some ip => bool_decide (Some (network_address ip 64) = parse_ip "fd00::")
  | None => false
  end.
Lemma wireguard_tests : passing [parse_subnet_first_ip_basic; parse_subnet_invalid; network_address_v4_test; network_address_v6_test].
Proof. apply passing_asserts. vm_compute. reflexivity. Qed.

(** The commands of these tests print a line, print nothing, or fail. *)
Definition run_command_echo : bool :=
  match (run_command (λ _, None) (λ _, ("hello" +:+ nl)%string) "echo" ["hello"%string] []).1 with
  | Ok output => String.eqb output "hello"
  | Err _ => false
  end.
Definition run_command_true : bool := is_ok (run_command (λ _, None) (λ _, EmptyString) "true" [] []).1.
Definition run_command_failure : bool := negb (is_ok (run_command (λ _, Some "command failed: false"%string) (λ _, EmptyString) "false" [] []).1).
Lemma command_tests : passing [run_command_echo; run_command_true; run_command_failure].
Proof. apply passing_asserts. vm_compute. reflexivity. Qed.

(** * proxy/src/proxy/routes.rs *)

Definition make_routes : list ProxyRoute :=
  [mkProxyRoute "app.example.com" "/" (sock 10 0 0 1 8080) false; mkProxyRoute "app.example.com" "/api/" (sock 10 0 0 2 8081) false;
   mkProxyRoute "app.example.com" "/ws" (sock 10 0 0 3 8082) true; mkProxyRoute "other.example.com" "/" (sock 10 0 0 4 9090) false].
Definition look_up (host path : string) : option RouteMatch := route_lookup (RouteTable_new make_routes) host path.
Definition goes_to (m : option RouteMatch) (backend : string) (websocket : bool) : bool :=
  match m with Some m => bool_decide (show_sock (re_backend m) = backend) && Bool.eqb (re_websocket m) websocket | None => false end.
Definition lookup_exact_path : bool := goes_to (look_up "other.example.com" "/foo") "10.0.0.4:9090" false.
Definition longest_prefix_match : bool := goes_to (look_up "app.example.com" "/api/users") "10.0.0.2:8081" false.
Definition websocket_route : bool := goes_to (look_up "app.example.com" "/ws") "10.0.0.3:8082" true.
Definition unknown_hostname_returns_none : bool := is_none (look_up "unknown.com" "/").
Definition fallback_to_root : bool := goes_to (look_up "app.example.com" "/static/file.js") "10.0.0.1:8080" false.
Definition shared_route_table_update : bool :=
  is_none (route_lookup ∅ "app.example.com" "/") && negb (is_none (look_up "app.example.com" "/")).
Lemma route_tests :
  passing [lookup_exact_path; longest_prefix_match; websocket_route; unknown_hostname_returns_none; fallback_to_root; shared_route_table_update].
Proof. apply passing_asserts. vm_compute. reflexivity. Qed.

(** * proxy/src/proxy/metrics.rs *)

Definition recorded (l : list (string * string * Z)) : ProxyMetrics := foldl (λ m '(host, path, ms), metrics_record host path (millis ms) m) ∅ l.
Definition snap_of (l : list (string * string * Z)) : list RouteMetricsSnapshot := @metrics_snapshot stored_order (recorded l).
Definition find_snap (host path : string) (l : list RouteMetricsSnapshot) : option RouteMetricsSnapshot :=
  head (filterb (λ s, bool_decide (rm_hostname s = host) && bool_decide (rm_path s = path)) l).
Definition bucket (i : nat) (s : RouteMetricsSnapshot) : option Z := snd <$> rm_buckets s !! i.
Definition record_and_snapshot_counts : bool :=
  let snap := snap_of [("app.test", "/", 50); ("app.test", "/", 200); ("other.test", "/", 1)]%string in
  match find_snap "app.test" "/" snap, find_snap "other.test" "/" snap with
  | Some app, Some other =>
      asserts [bool_decide (length snap = 2%nat); rm_request_count app =? 2; f64_ltb f64_zero (rm_latency_sum_seconds app); rm_request_count other =? 1]
  | _, _ => false
  end.
Definition separate_paths_tracked_independently : bool :=
  let snap := snap_of [("app.test", "/", 10); ("app.test", "/api/", 20); ("app.test", "/api/", 30)]%string in
  match find_snap "app.test" "/" snap, find_snap "app.test" "/api/" snap with
  | Some root, Some api => asserts [bool_decide (length snap = 2%nat); rm_request_count root =? 1; rm_request_count api =? 2]
  | _, _ => false
  end.
Definition bucket_boundaries : bool :=
  match find_snap "a.test" "/" (snap_of [("a.test", "/", 5)]%string), find_snap "a.test" "/" (snap_of [("a.test", "/", 5); ("a.test", "/", 100)]%string) with
  | Some a, Some b =>
      asserts [bool_decide (bucket 0 a = Some 1); bool_decide (bucket 11 a = Some 1); rm_request_count b =? 2; bool_decide (bucket 0 b = Some 1);
        bool_decide (bucket 4 b = Some 2)]
  | _, _ => false
  end.
Definition snapshot_empty : bool := match snap_of [] with [] => true | _ => false end.
Lemma proxy_metrics_tests :
  passing [record_and_snapshot_counts; separate_paths_tracked_independently; bucket_boundaries; snapshot_empty].
Proof. apply passing_asserts. vm_compute. reflexivity. Qed.

(** * config/src *)

Definition default_data_dir : string := "/var/lib/mill".
Definition subdirectories : bool :=
  let d := "/data"%string in
  asserts [String.eqb (raft_dir d) "/data/raft"; String.eqb (wireguard_dir d) "/data/wireguard"; String.eqb (logs_dir d) "/data/logs";
    String.eqb (volumes_dir d) "/data/volumes"; String.eqb (ephemeral_dir d) "/data/ephemeral"; String.eqb (certs_dir d) "/data/certs";
    String.eqb (node_json_path d) "/data/node.json"; String.eqb (pid_path d) "/data/mill.pid"].
Definition no_errors {A} (r : A * list ConfigError) : bool := match r.2 with [] => true | _ => false end.
Definition parses_to (value : string) (expected : EnvValue) : bool :=
  let r := parse_env_value "test" value in no_errors r && bool_decide (r.1 = expected).
Definition test_literal : bool := parses_to "hello" (Literal "hello").
Definition test_secret_ref : bool := parses_to "${secret(db.password)}" (Interpolated [Secret "db.password"]).
Definition test_service_address : bool := parses_to "tcp://${service.redis.address}" (Interpolated [PartLiteral "tcp://"; ServiceAddress "redis"]).
Definition test_multiple_interpolations : bool :=
  parses_to "${service.a.address}:${service.b.address}" (Interpolated [ServiceAddress "a"; PartLiteral ":"; ServiceAddress "b"]).
Definition test_empty_string : bool := parses_to "" (Literal "").
Definition test_unclosed_interpolation : bool :=
  match (parse_env_value "test" "${service.x.address").2 with
  | [InvalidField _ message] => str_contains "unclosed" message
  | _ => false
  end.
Lemma config_tests :
  passing [subdirectories; test_literal; test_secret_ref; test_service_address; test_multiple_interpolations; test_empty_string; test_unclosed_interpolation].
Proof. apply passing_asserts. vm_compute. reflexivity. Qed.

(** * containerd/src/spec.rs *)

Definition test_spec : ContainerSpec :=
  mkContainerSpec (aid "test-abc-123") KService None None "nginx:latest" {[ "PORT" := "8080"; "ENV" := "production" ]}%string (Some 80) (Some 8080)
    (frac 1 2) (mib 256) [mkContainerVolume "data" "/app/data" false; mkContainerVolume "cache" "/tmp/cache" true].
(** [test_spec] with some of its fields changed. *)
Definition spec_with (kind : AllocKind) (timeout : option Z) (command : option (list string)) (host_port : option Z) (cpu : f64)
    (volumes : list ContainerVolume) : ContainerSpec :=
  mkContainerSpec (spec_alloc_id test_spec) kind timeout command (spec_image test_spec) (spec_env test_spec) (spec_port test_spec) host_port cpu
    (spec_memory test_spec) volumes.
Definition empty_image_info : ImageInfo := mkImageInfo EmptyString [] [].

Section spec_tests.
(** oci-spec's default mounts, none of which is a bind mount; serde_json on volumes and commands; the printing of floats. *)
Context (mounts : list Mount) (vars : gmap string string).
Context (volumes_json : list ContainerVolume → result string string) (command_json : list string → result string string).
Context (command_from : string → option (list string)) (show_f64 : f64 → string).
Definition oci_of (spec : ContainerSpec) (info : ImageInfo) : OciSpec := @build_oci_spec stored_order mounts vars default_data_dir spec info.
Definition labels_of (spec : ContainerSpec) : gmap string string := build_labels volumes_json command_json show_f64 spec.
Definition label (spec : ContainerSpec) (k : string) : option string := labels_of spec !! k.
Definition has_label (spec : ContainerSpec) (k v : string) : bool := bool_decide (label spec k = Some v).

Definition test_cpu_quota_fraction : bool :=
  let oci := oci_of test_spec empty_image_info in (oci_cpu_quota oci =? 50000) && (oci_cpu_period oci =? 100000).
Definition test_memory_limit : bool := oci_memory_limit (oci_of test_spec empty_image_info) =? 268435456.
Definition test_swap_limit_matches_memory : bool := oci_memory_swap (oci_of test_spec empty_image_info) =? 268435456.
Definition test_env_formatting : bool :=
  let env := oci_env (oci_of test_spec empty_image_info) in bool_decide ("PORT=8080"%string ∈ env) && bool_decide ("ENV=production"%string ∈ env).
Definition test_volume_paths : bool :=
  asserts [String.eqb (volume_host_path default_data_dir (mkContainerVolume "data" "/app/data" false)) "/var/lib/mill/volumes/data";
    String.eqb (volume_host_path default_data_dir (mkContainerVolume "cache" "/tmp/cache" true)) "/var/lib/mill/ephemeral/cache";
    String.eqb (volume_host_path "/opt/mill" (mkContainerVolume "db" "/data" false)) "/opt/mill/volumes/db"].
Definition test_labels : bool :=
  asserts [has_label test_spec "mill.managed" "true"; has_label test_spec "mill.alloc-id" "test-abc-123"; has_label test_spec "mill.host-port" "8080";
    has_label test_spec "mill.cpu" "0.5"; has_label test_spec "mill.memory" (pretty (mib 256)); negb (is_none (label test_spec "mill.volumes"));
    has_label test_spec "mill.kind" "service"; is_none (label test_spec "mill.timeout"); is_none (label test_spec "mill.command");
    bool_decide (size (labels_of test_spec) = 7%nat)].
Definition test_labels_no_host_port : bool :=
  let spec := spec_with KService None None None (frac 1 2) (spec_volumes test_spec) in
  asserts [has_label spec "mill.managed" "true"; has_label spec "mill.alloc-id" "test-abc-123"; is_none (label spec "mill.host-port");
    has_label spec "mill.cpu" "0.5"; has_label spec "mill.memory" (pretty (mib 256)); negb (is_none (label spec "mill.volumes"));
    bool_decide (size (labels_of spec) = 6%nat)].
Definition test_volume_mounts : bool :=
  let oci := oci_of test_spec empty_image_info in
  bool_decide (length (filterb (λ m, bool_decide (mt_type m = Some "bind"%string)) (oci_mounts oci)) = 2%nat).
Definition test_full_cpu_quota : bool :=
  oci_cpu_quota (oci_of (spec_with KService None None (Some 8080) (f64_of_Z 2) (spec_volumes test_spec)) empty_image_info) =? 200000.
Definition test_labels_no_volumes : bool :=
  let spec := spec_with KService None None (Some 8080) (frac 1 2) [] in
  is_none (label spec "mill.volumes") && bool_decide (size (labels_of spec) = 6%nat).
Definition test_oci_spec_with_command : bool :=
  let cmd := ["nginx"; "-g"; "daemon off;"]%string in
  bool_decide (oci_args (oci_of (spec_with KService None (Some cmd) (Some 8080) (frac 1 2) (spec_volumes test_spec)) empty_image_info) = cmd).
Definition test_oci_spec_without_command_uses_image_default : bool :=
  let oci := oci_of test_spec (mkImageInfo EmptyString ["sh"%string] ["PATH=/usr/local/bin:/usr/bin:/bin"%string]) in
  asserts [bool_decide (oci_args oci = ["sh"%string]); existsb (starts_with "PATH=") (oci_env oci); bool_decide ("PORT=8080"%string ∈ oci_env oci)].
Definition test_labels_with_kind_and_command : bool :=
  let cmd := ["migrate"; "--run"]%string in
  let spec := spec_with KTask (Some (secs 3600)) (Some cmd) (Some 8080) (frac 1 2) (spec_volumes test_spec) in
  asserts [has_label spec "mill.kind" "task"; has_label spec "mill.timeout" "3600";
    match label spec "mill.command" with Some s => bool_decide (command_from s = Some cmd) | None => false end].

Lemma oci_spec_tests :
  passing [test_cpu_quota_fraction; test_memory_limit; test_swap_limit_matches_memory; test_env_formatting; test_volume_paths; test_full_cpu_quota;
    test_oci_spec_with_command; test_oci_spec_without_command_uses_image_default].
Proof. apply passing_asserts. vm_compute. reflexivity. Qed.
Lemma volume_mounts_test :
  Forall (λ m, mt_type m ≠ Some "bind"%string) mounts → test_volume_mounts = true.
Proof.
  intros Hm. unfold test_volume_mounts. apply bool_decide_eq_true. unfold oci_of, build_oci_spec. cbn [oci_mounts].
  rewrite filterb_app, length_app. replace (filterb _ (filterb _ mounts)) with (@nil Mount); [reflexivity|].
  symmetry. induction Hm as [|m ms Hb Hms IH]; [done|]. cbn [filterb]. destruct (negb (is_cgroup_v1 m)); [|done].
  cbn [filterb]. by rewrite bool_decide_false.
Qed.
(** The labels of the tests' specs, with what the codecs give for them. *)
Lemma labels_of_known vol cmd spec :
  volumes_json (spec_volumes test_spec) = Ok vol → command_json ["migrate"; "--run"]%string = Ok cmd → show_f64 (frac 1 2) = "0.5"%string →
  spec_volumes spec = [] ∨ spec_volumes spec = spec_volumes test_spec →
  spec_command spec = None ∨ spec_command spec = Some ["migrate"; "--run"]%string → spec_cpu spec = frac 1 2 →
  labels_of spec = build_labels (λ _, Ok vol) (λ _, Ok cmd) (λ _, "0.5"%string) spec.
Proof.
  intros Hv Hc Hs Hvs Hcs Hcpu. unfold labels_of, build_labels, label_json. rewrite Hcpu, Hs.
  destruct Hvs as [->| ->], Hcs as [->| ->]; cbn [spec_volumes test_spec] in *; by rewrite ?Hv, ?Hc.
Qed.
Lemma label_tests vol cmd :
  volumes_json (spec_volumes test_spec) = Ok vol → command_json ["migrate"; "--run"]%string = Ok cmd →
  command_from cmd = Some ["migrate"; "--run"]%string → show_f64 (frac 1 2) = "0.5"%string →
  passing [test_labels; test_labels_no_host_port; test_labels_no_volumes; test_labels_with_kind_and_command].
Proof.
  intros Hv Hc Hf Hs. pose proof (λ spec, labels_of_known vol cmd spec Hv Hc Hs) as Hl. repeat constructor.
  - unfold test_labels, has_label, label. rewrite (Hl test_spec); [vm_compute; reflexivity|auto..].
  - unfold test_labels_no_host_port, has_label, label. cbv zeta. rewrite Hl; [vm_compute; reflexivity|auto..].
  - unfold test_labels_with_kind_and_command, has_label, label. cbv zeta. rewrite Hl; [|auto..]. set (m := build_labels _ _ _ _).
    assert (m !! "mill.command"%string = Some cmd) as -> by (vm_compute; reflexivity). rewrite Hf. vm_compute. reflexivity.
Qed.
End spec_tests.

(** * raft/src/snapshot/disk.rs *)

(** Enough for every file operation of a test to complete. *)
Definition plenty : nat := 100.
Definition dir_after {E} (r : result unit E * nat * Dir) : Dir := r.2.
Definition done_ok {E} (r : result unit E * nat * Dir) : bool := is_ok r.1.1.

Section disk.
(** The snapshots' metadata with the parts that the tests look at, votes, and the JSON of each. *)
Context {Meta Vote : Type} `{EqDecision Vote} (meta : string → Z → Meta) (snapshot_id : Meta → string) (last_index : Meta → option Z) (vote : Z → Z → Vote).
Context (meta_to : Meta → result string string) (meta_from : string → result Meta string).
Context (vote_to : Vote → result string string) (vote_from : string → result Vote string).

Definition write_read_snapshot_round_trip : bool :=
  let w := write_snapshot meta_to plenty ∅ "test-snapshot-data" (meta "snap-42" 42) in
  match read_snapshot meta_from (dir_after w) with
  | Ok (Some (data, m)) =>
      asserts [done_ok w; String.eqb data "test-snapshot-data"; String.eqb (snapshot_id m) "snap-42"; bool_decide (last_index m = Some 42)]
  | _ => false
  end.
Definition read_snapshot_missing_returns_none : bool := match read_snapshot meta_from ∅ with Ok None => true | _ => false end.
Definition write_read_vote_round_trip : bool :=
  let w := write_vote vote_to plenty ∅ (vote 1 2) in
  match read_vote vote_from (dir_after w) with Ok (Some v) => done_ok w && bool_decide (v = vote 1 2) | _ => false end.
Definition read_vote_missing_returns_none : bool := match read_vote vote_from ∅ with Ok None => true | _ => false end.
Definition write_snapshot_overwrites_previous : bool :=
  let w1 := write_snapshot meta_to plenty ∅ "first" (meta "snap-1" 1) in
  let w2 := write_snapshot meta_to plenty (dir_after w1) "second" (meta "snap-2" 2) in
  match read_snapshot meta_from (dir_after w2) with
  | Ok (Some (data, m)) => asserts [done_ok w1; done_ok w2; String.eqb data "second"; String.eqb (snapshot_id m) "snap-2"]
  | _ => false
  end.
Definition read_snapshot_corrupt_meta_returns_error : bool :=
  negb (is_ok (read_snapshot meta_from {[ "snapshot.bin" := "data"; "snapshot-meta.json" := "not-json" ]}%string)).
Definition read_snapshot_only_data_returns_none : bool :=
  match read_snapshot meta_from {[ "snapshot.bin" := "data" ]}%string with Ok None => true | _ => false end.
Definition write_vote_overwrites_previous : bool :=
  let w1 := write_vote vote_to plenty ∅ (vote 1 2) in
  let w2 := write_vote vote_to plenty (dir_after w1) (vote 3 4) in
  match read_vote vote_from (dir_after w2) with Ok (Some v) => asserts [done_ok w1; done_ok w2; bool_decide (v = vote 3 4)] | _ => false end.

(** A decision that evaluation has left open. *)
Ltac decided := match goal with |- context [match ?d with left _ => _ | right _ => _ end] => destruct d end.
Lemma disk_tests :
  (∀ id i, snapshot_id (meta id i) = id ∧ last_index (meta id i) = Some i) →
  (∀ m, ∃ s, meta_to m = Ok s ∧ meta_from s = Ok m) → (∀ v, ∃ s, vote_to v = Ok s ∧ vote_from s = Ok v) →
  (∃ e, meta_from "not-json" = Err e) →
  passing [write_read_snapshot_round_trip; read_snapshot_missing_returns_none; write_read_vote_round_trip; read_vote_missing_returns_none;
    write_snapshot_overwrites_previous; read_snapshot_corrupt_meta_returns_error; read_snapshot_only_data_returns_none; write_vote_overwrites_previous].
Proof.
  intros Hmeta Hm Hv [e He]. repeat constructor.
  - unfold write_read_snapshot_round_trip. destruct (Hm (meta "snap-42" 42)) as (s & Hto & Hfrom). destruct (Hmeta "snap-42"%string 42) as [Hi Hl].
    unfold write_snapshot. rewrite Hto. vm_compute. rewrite Hfrom, Hi, Hl. reflexivity.
  - unfold write_read_vote_round_trip. destruct (Hv (vote 1 2)) as (s & Hto & Hfrom). unfold write_vote. rewrite Hto. vm_compute. rewrite Hfrom. by decided.
  - unfold write_snapshot_overwrites_previous. destruct (Hm (meta "snap-1" 1)) as (s & Hto & Hfrom). destruct (Hm (meta "snap-2" 2)) as (s' & Hto' & Hfrom').
    destruct (Hmeta "snap-2"%string 2) as [Hi _]. unfold write_snapshot. rewrite Hto, Hto'. vm_compute. rewrite Hfrom', Hi. reflexivity.
  - unfold read_snapshot_corrupt_meta_returns_error, read_snapshot. vm_compute. by rewrite He.
  - unfold write_vote_overwrites_previous. destruct (Hv (vote 1 2)) as (s & Hto & Hfrom). destruct (Hv (vote 3 4)) as (s' & Hto' & Hfrom').
    unfold write_vote. rewrite Hto, Hto'. vm_compute. rewrite Hfrom'. by decided.
Qed.
End disk.

(** * raft/src/secrets/cipher.rs *)

Definition key_save_load_round_trip (k : ClusterKey) : bool :=
  let w := save_key plenty ∅ k in
  match load_key (dir_after w) with Ok loaded => done_ok w && String.eqb (as_bytes loaded) (as_bytes k) | Err _ => false end.
Definition load_missing_file : bool := negb (is_ok (load_key ∅)).
Definition encrypt_decrypt_round_trip `{Aead} (k : ClusterKey) (nonce : string) : bool :=
  match encrypt k nonce "hello cluster" with
  | Ok (ciphertext, nonce) => match decrypt k ciphertext nonce with Some (Ok plain) => String.eqb plain "hello cluster" | _ => false end
  | Err _ => false
  end.
Lemma key_save_load k : String.length (key k) = 32%nat → key_save_load_round_trip k = true.
Proof.
  intros Hk. unfold key_save_load_round_trip. destruct k as [bytes]. set (w := save_key _ _ _).
  assert (load_key (dir_after w) = Ok (mkClusterKey bytes)) as ->; [|apply String.eqb_refl].
  unfold load_key. assert (dir_after w !! "cluster.key"%string = Some bytes) as -> by (vm_compute; reflexivity). simpl in Hk. by rewrite Hk.
Qed.
(** For every key and nonce the generator can give, and every cipher that seals the text. *)
Lemma cipher_tests `{C : Aead} `{!AeadLaws C} k nonce c :
  String.length (key k) = 32%nat → String.length nonce = 12%nat → aead_seal (key k) nonce "hello cluster" = Ok c →
  passing [key_save_load_round_trip k; load_missing_file; encrypt_decrypt_round_trip k nonce].
Proof.
  intros Hk Hn Hseal. repeat constructor.
  - by apply key_save_load.
  - unfold encrypt_decrypt_round_trip. destruct (encrypt k nonce "hello cluster") as [[cipher nonce']|] eqn:E.
    + assert (decrypt k cipher nonce' = Some (Ok "hello cluster"%string)) as ->; [|done]. eapply decrypt_encrypt; [|exact E]. by rewrite Hn.
    + unfold encrypt in E. by rewrite Hseal in E.
Qed.

(** * proxy/src/acme and proxy/src/certs *)

Definition challenge_get (c : ChallengeStore) (t : string) : option string := c !! t.
Definition insert_get_remove_lifecycle : bool :=
  let c0 : ChallengeStore := ∅ in
  let c1 : ChallengeStore := <["tok1" := "auth1"]>%string c0 in
  let c2 : ChallengeStore := <["tok2" := "auth2"]>%string c1 in
  let c3 := remove_tokens ["tok1"]%string c2 in
  asserts [is_none (challenge_get c0 "tok1"); bool_decide (challenge_get c1 "tok1" = Some "auth1"%string);
    bool_decide (challenge_get c2 "tok2" = Some "auth2"%string); is_none (challenge_get c3 "tok1"); bool_decide (challenge_get c3 "tok2" = Some "auth2"%string)].
Lemma challenge_tests : passing [insert_get_remove_lifecycle].
Proof. apply passing_asserts. vm_compute. reflexivity. Qed.

Section certs.
Context (base64 : string → string) (pem_certs : string → list (result string string)).
Context (pem_key : string → result (option string) string) (not_after : string → result Z string).
(** A self-signed pair for every host. *)
Context (generate : string → CertPair).

Definition insert_and_get : bool :=
  let s := cache_insert "example.com" (generate "example.com") (mkCerts ∅ ∅ []) in
  asserts [has_cert "example.com" s; negb (is_none (resolve_sni (Some "example.com"%string) s)); negb (has_cert "other.com" s);
    is_none (resolve_sni (Some "other.com"%string) s)].
Definition pem_to_cert_pair_roundtrip (cert_pem key_pem : string) : bool :=
  match pem_to_cert_pair pem_certs pem_key cert_pem key_pem with Ok cp => Nat.eqb (length (cp_certs cp)) 1 | Err _ => false end.
Definition pem_to_cert_pair_empty_cert_errors : bool := negb (is_ok (pem_to_cert_pair pem_certs pem_key "" "")).
Definition saved (d : Dir) (host : string) : result unit string * Dir := cert_save base64 plenty d host (generate host).
Definition save_load_round_trip : bool :=
  let '(r, d) := saved ∅ "test.example.com" in
  match cert_load pem_certs pem_key d "test.example.com" with
  | Ok (Some loaded) => is_ok r && Nat.eqb (length (cp_certs loaded)) (length (cp_certs (generate "test.example.com")))
  | _ => false
  end.
Definition load_missing_returns_none : bool := match cert_load pem_certs pem_key ∅ "nonexistent.com" with Ok None => true | _ => false end.
Definition listed (d : Dir) : list CertInfo := @cert_list stored_order pem_certs not_after d.
(** The test sorts the names. *)
Definition list_returns_saved_hostnames : bool :=
  let '(r1, d) := saved ∅ "a.test" in
  let '(r2, d) := saved d "b.test" in
  let names := ci_hostname <$> listed d in
  asserts [is_ok r1; is_ok r2; Nat.eqb (length names) 2; bool_decide ("a.test"%string ∈ names); bool_decide ("b.test"%string ∈ names)].
Definition list_returns_cert_expiry_not_mtime (now : Z) : bool :=
  let '(_, d) := saved ∅ "expiry.test" in
  match listed d with [info] => now + secs (365 * 24 * 60 * 60) <? ci_expires info | _ => false end.
Definition acme_credentials_round_trip : bool :=
  let json := ("{" +:+ dquote +:+ "key" +:+ dquote +:+ ":" +:+ dquote +:+ "value" +:+ dquote +:+ "}")%string in
  let '(r, d) := save_acme_credentials plenty ∅ json in
  asserts [is_none (load_acme_credentials ∅); is_ok r; bool_decide (load_acme_credentials d = Some json)].

(** What the PEM reader and the generator document: the texts of a pair are read back; a generated certificate is valid for
    more than a year. *)
Context (pem_back : ∀ cp, pem_certs (cert_pem base64 cp) = Ok <$> cp_certs cp).
Context (key_back : ∀ cp, pem_key (pem_encode base64 "PRIVATE KEY" (cp_key cp)) = Ok (Some (cp_key cp))).
Context (one_cert : ∀ host, ∃ c, cp_certs (generate host) = [c]).
Lemma saved_dir d host :
  saved d host = (Ok tt, <[key_path host := pem_encode base64 "PRIVATE KEY" (cp_key (generate host))]>
                          (<[key_path host := EmptyString]> (<[cert_path host := cert_pem base64 (generate host)]> (<[cert_path host := EmptyString]> d)))).
Proof.
  unfold saved, cert_save, save_ops, plenty. cbn [run_ops disk_op]. rewrite lookup_insert_eq. cbn [run_ops disk_op]. by rewrite lookup_insert_eq.
Qed.
(** The listing as a function of the expiry that is read from a text. *)
Definition list_with (expiry : string → Z) (d : Dir) : list CertInfo :=
  filter_map (λ '(name, pem), host ← strip_suffix ".crt" name; Some (mkCertInfo host (expiry pem))) (@hm_iter stored_order _ _ _ _ d).
Definition pair_files (host pem pk : string) (d : Dir) : Dir :=
  <[key_path host := pk]> (<[key_path host := EmptyString]> (<[cert_path host := pem]> (<[cert_path host := EmptyString]> d))).
Lemma list_one expiry pem pk : list_with expiry (pair_files "expiry.test" pem pk ∅) = [mkCertInfo "expiry.test" (expiry pem)].
Proof. vm_compute. reflexivity. Qed.
Lemma cert_store_tests now t cert_pem' key_pem' c k :
  (∀ c, cp_certs (generate "expiry.test") = [c] → not_after c = Ok t) → 0 ≤ now → now + secs (365 * 24 * 60 * 60) < secs t →
  pem_certs cert_pem' = [Ok c] → pem_key key_pem' = Ok (Some k) → pem_certs EmptyString = [] →
  passing [insert_and_get; pem_to_cert_pair_roundtrip cert_pem' key_pem'; pem_to_cert_pair_empty_cert_errors; save_load_round_trip;
    load_missing_returns_none; list_returns_saved_hostnames; list_returns_cert_expiry_not_mtime now; acme_credentials_round_trip].
Proof.
  intros Hexp Hnow Ht Hpc Hpk Hempty.
  assert (∀ host, certs_of pem_certs (cert_pem base64 (generate host)) = cp_certs (generate host)) as Hcerts.
  { intros host. unfold certs_of. rewrite pem_back. by destruct (one_cert host) as [x ->]. }
  repeat constructor.
  - unfold pem_to_cert_pair_roundtrip, pem_to_cert_pair. by rewrite Hpc, Hpk.
  - unfold pem_to_cert_pair_empty_cert_errors, pem_to_cert_pair. by rewrite Hempty.
  - unfold save_load_round_trip. rewrite saved_dir. unfold cert_load. rewrite lookup_insert_eq, !lookup_insert_ne, lookup_insert_eq by done.
    rewrite Hcerts, key_back. destruct (one_cert "test.example.com") as [x ->]. reflexivity.
  - unfold list_returns_cert_expiry_not_mtime. rewrite saved_dir.
    change (listed _) with (list_with (λ pem, match parse_cert_expiry pem_certs not_after pem with Ok t => t | Err _ => 0 end)
      (pair_files "expiry.test" (cert_pem base64 (generate "expiry.test")) (pem_encode base64 "PRIVATE KEY" (cp_key (generate "expiry.test"))) ∅)).
    rewrite list_one. cbn [ci_expires].
    unfold parse_cert_expiry. rewrite Hcerts. destruct (one_cert "expiry.test") as [x Hx]. rewrite Hx, (Hexp x Hx).
    destruct (Z.ltb_spec t 0); [unfold secs in *; lia|]. by apply Z.ltb_lt.
Qed.
End certs.

(** * proxy/src/lib.rs *)

(** The tests' servers have no certificates unless one is inserted by hand, and no ACME client; a request is what the client
    writes, and the answer is the server's own or the backend's. *)
Definition loopback (port : Z) : SocketAddr := sock 127 0 0 1 port.
Definition get_request (path host : string) (headers : list (string * string)) : HttpRequest :=
  mkHttpRequest "GET" path (Some path) None (("host"%string, host) :: headers).
Definition http_answer (challenges : gmap string string) (certs : Certs) (routes : list ProxyRoute) (req : HttpRequest) : HttpResponse :=
  (handle_http_request (λ _, true) (λ _, true) show_ip challenges (λ h, has_cert h certs) (λ _, true) (RouteTable_new routes) (loopback 40000) req).1.
Definition no_certs : Certs := mkCerts ∅ ∅ [].
Definition one_route (host : string) (websocket : bool) : list ProxyRoute := [mkProxyRoute host "/" (loopback 9999) websocket].

Definition healthz_returns_200 : bool :=
  match http_answer ∅ no_certs [] (get_request "/healthz" "localhost" []) with
  | Text status body => (status =? 200) && str_contains ("ok" +:+ nl)%string body
  | _ => false
  end.
Definition unknown_host_returns_404 : bool :=
  match http_answer ∅ no_certs [] (get_request "/" "unknown.example.com" []) with Text status _ => status =? 404 | _ => false end.
Definition proxy_to_mock_backend : bool :=
  match http_answer ∅ no_certs (one_route "app.test" false) (get_request "/page" "app.test" []) with
  | Routes.Forwarded backend method path _ => asserts [bool_decide (backend = loopback 9999); String.eqb method "GET"; String.eqb path "/page"]
  | _ => false
  end.
Definition https_redirect_when_cert_exists : bool :=
  match http_answer ∅ (cache_insert "secure.test" (mkCertPair [] EmptyString) no_certs) [] (get_request "/foo" "secure.test" []) with
  | Redirect location => String.eqb location "https://secure.test/foo"
  | _ => false
  end.
Definition proxy_headers_forwarded_correctly : bool :=
  match http_answer ∅ no_certs (one_route "app.test" false) (get_request "/test" "app.test" [("x-forwarded-for", "1.2.3.4")]%string) with
  | Routes.Forwarded _ _ _ headers =>
      asserts [bool_decide (header_get "x-forwarded-for" headers = Some "1.2.3.4, 127.0.0.1"%string);
        bool_decide (header_get "x-forwarded-host" headers = Some "app.test"%string); bool_decide (header_get "x-forwarded-proto" headers = Some "http"%string)]
  | _ => false
  end.
Definition acme_challenge_intercept : bool :=
  let ask path := http_answer {[ "test-token-123" := "test-key-auth-456" ]}%string no_certs [] (get_request path "example.com" []) in
  match ask "/.well-known/acme-challenge/test-token-123"%string, ask "/.well-known/acme-challenge/nonexistent"%string with
  | Text s1 body, Text s2 _ => asserts [s1 =? 200; str_contains "test-key-auth-456" body; s2 =? 404]
  | _, _ => false
  end.
(** The handshake; the bytes that follow are relayed both ways. *)
Definition websocket_handshake : bool :=
  let headers := [("connection", "Upgrade"); ("upgrade", "websocket"); ("sec-websocket-version", "13")]%string in
  match http_answer ∅ no_certs (one_route "ws.test" true) (get_request "/echo" "ws.test" headers) with
  | Upgraded backend => bool_decide (backend = loopback 9999)
  | _ => false
  end.
Definition tls_proxy_serves_traffic : bool :=
  let certs := cache_insert "tls.test" (mkCertPair [] EmptyString) no_certs in
  match (handle_https_request (λ _, true) (λ _, true) show_ip (λ _, true) (RouteTable_new (one_route "tls.test" false)) (loopback 40000)
           (get_request "/secure" "tls.test" [])).1 with
  | Routes.Forwarded backend _ path _ =>
      asserts [negb (is_none (resolve_sni (Some "tls.test"%string) certs)); bool_decide (backend = loopback 9999); String.eqb path "/secure"]
  | _ => false
  end.
Lemma proxy_tests :
  passing [healthz_returns_200; unknown_host_returns_404; proxy_to_mock_backend; https_redirect_when_cert_exists;
    proxy_headers_forwarded_correctly; acme_challenge_intercept; websocket_handshake; tls_proxy_serves_traffic].
Proof. apply passing_asserts. vm_compute. reflexivity. Qed.

(** * raft/src/network/http.rs *)

Section raft_http.
Context `{R : RaftMessages} `{!RaftMessagesLaws R}.
(** [boot_raft_node]: a raft behind a listener at a URL; the network reaches it with a POST. *)
Definition post_to (base : string) (raft : RaftHandle) (url : string) (body : JV) : result (option JV) string :=
  match strip_prefix base url with Some path => Ok (axum_router raft path body) | None => Err "connection refused"%string end.
Definition node_url : string := "http://127.0.0.1:4401".
Definition http_vote_round_trip (raft : RaftHandle) (req : VoteReq) : bool :=
  is_ok (RaftNet.vote (post_to node_url raft) (set_peer 1 node_url HttpNetwork_new) 1 req).
(** The raft may refuse the entries; that is not an error of the network. *)
Definition http_append_round_trip (raft : RaftHandle) (req : AppendRequest) : bool :=
  is_ok (RaftNet.append_entries (post_to node_url raft) (set_peer 2 node_url HttpNetwork_new) 2 req).
Definition peer_map_add_remove : bool :=
  let n1 := set_peer 1 "http://10.99.0.1:4401" HttpNetwork_new in
  let n2 := set_peer 1 "http://10.99.0.1:4402" n1 in
  let url n := match get_peer_url 1 n with Ok u => u | Err _ => EmptyString end in
  asserts [negb (is_ok (get_peer_url 1 HttpNetwork_new)); String.eqb (url n1) "http://10.99.0.1:4401"; String.eqb (url n2) "http://10.99.0.1:4402";
    negb (is_ok (get_peer_url 1 (remove_raft_peer 1 n2)))].
Lemma raft_http_tests raft v a vr ar :
  rh_vote raft v = Ok vr → rh_append raft a = Ok ar →
  passing [http_vote_round_trip raft v; http_append_round_trip raft a; peer_map_add_remove].
Proof.
  intros Hv Ha. repeat constructor.
  - unfold http_vote_round_trip, RaftNet.vote, rpc_call. change (get_peer_url _ _) with (Ok (E := RaftNetError) node_url). cbn beta iota.
    assert (∀ body, post_to node_url raft (node_url +:+ "/raft/vote")%string body = Ok (handle_vote raft body)) as -> by reflexivity.
    unfold handle_vote. rewrite vote_back. simpl. rewrite Hv. simpl. destruct (vote_resp_back vr) as (j & -> & ->). done.
  - unfold http_append_round_trip, RaftNet.append_entries, rpc_call. change (get_peer_url _ _) with (Ok (E := RaftNetError) node_url). cbn beta iota.
    assert (∀ body, post_to node_url raft (node_url +:+ "/raft/append")%string body = Ok (handle_append raft body)) as -> by reflexivity.
    unfold handle_append. rewrite append_back. simpl. rewrite Ha. simpl. destruct (append_resp_back ar) as (j & -> & ->). done.
Qed.
End raft_http.
