(* ===== verification/Identity.v ===== *)
(** The file of a node's identity ([src/crates/node/src/daemon/identity.rs]): the JSON value that serde's derived code writes and
    reads for it, field by field, and saving and loading the file. The text of a JSON value is a parameter. The theorems show
    that a saved identity is loaded unchanged, that files written before the ACME fields existed are accepted, which values
    are refused, and that the file is not written atomically. The last part runs the unit tests of
    [src/crates/node/src/daemon/tests.rs]. *)

From S2P Require Import Prelude Types Env Addr Fsm Snapshot Secrets Rpc World Oci Wire Daemon Start TestsPrimary TestsNode TestsEdge.
Local Open Scope Z_scope.

(** * Derived serialization *)

(** [skip_serializing_if = "Option::is_none"]. *)
Definition enc_skip {A} (k : string) (enc : A → JV) (o : option A) : list (string * JV) := match o with Some a => [(k, enc a)] | None => [] end.

Definition enc_peer (p : PeerEntry) : JV :=
  VObj [("raft_id", VNum (pe_raft_id p)); ("advertise_addr", VStr (pe_advertise_addr p)); ("tunnel_ip", VStr (show_ip (pe_tunnel_ip p)));
        ("public_key", VStr (pe_public_key p))]%string.
Definition dec_peer (v : JV) : option PeerEntry :=
  raft_id ← required (dec_uint u64_max) "raft_id" v;
  advertise_addr ← required as_str "advertise_addr" v;
  tunnel_ip ← required dec_ip "tunnel_ip" v;
  public_key ← required as_str "public_key" v;
  Some (mkPeerEntry raft_id advertise_addr tunnel_ip public_key).

Definition enc_identity (i : NodeIdentity) : JV :=
  VObj ([("node_id", VStr (ni_node_id i)); ("raft_id", VNum (ni_raft_id i)); ("cluster_token", VStr (ni_cluster_token i));
         ("rpc_port", VNum (ni_rpc_port i)); ("advertise_addr", VStr (ni_advertise_addr i)); ("provider", enc_opt VStr (ni_provider i));
         ("provider_token", enc_opt VStr (ni_provider_token i)); ("region", enc_opt VStr (ni_region i));
         ("wireguard_subnet", VStr (ni_wireguard_subnet i)); ("peers", VArr (enc_peer <$> ni_peers i))]%string
        ++ enc_skip "acme_email" VStr (ni_acme_email i) ++ enc_skip "acme_staging" VBool (ni_acme_staging i)).
Definition dec_identity (v : JV) : option NodeIdentity :=
  node_id ← required as_str "node_id" v;
  raft_id ← required (dec_uint u64_max) "raft_id" v;
  cluster_token ← required as_str "cluster_token" v;
  rpc_port ← required (dec_uint u16_max) "rpc_port" v;
  advertise_addr ← required as_str "advertise_addr" v;
  provider ← optional as_str "provider" v;
  provider_token ← optional as_str "provider_token" v;
  region ← optional as_str "region" v;
  wireguard_subnet ← required as_str "wireguard_subnet" v;
  peers ← required (dec_list dec_peer) "peers" v;
  acme_email ← optional as_str "acme_email" v;
  acme_staging ← optional dec_bool "acme_staging" v;
  Some (mkNodeIdentity node_id raft_id cluster_token rpc_port advertise_addr provider provider_token region wireguard_subnet peers acme_email acme_staging).

(** * The file *)

Section file.
(** serde_json's text of a value. *)
Context (print : JV → string) (parse : string → result JV string).

(** [save]: the file operations that complete before a failure are limited, as for the raft directory. *)
Definition identity_save (budget : nat) (path : string) (i : NodeIdentity) (d : Dir) : result unit NodeError * Dir :=
  let '(ok, _, d) := run_ops budget [DCreate path; DWrite path (print (enc_identity i))] d in
  (if ok : bool then Ok tt else Err (IoErr "i/o error"), d).
Definition identity_load (path : string) (d : Dir) : result NodeIdentity NodeError :=
  match d !! path with
  | None => Err (IoErr "No such file or directory (os error 2)")
  | Some data =>
      match parse data with
      | Err e => Err (Internal e)
      | Ok v => match dec_identity v with Some i => Ok i | None => Err (Internal "invalid type or missing field") end
      end
  end.
End file.

(** * Theorems *)

(** What the code can put into an identity: numbers of their width, and addresses that are read as they are printed. *)
Definition peer_wf (p : PeerEntry) : Prop := 0 ≤ pe_raft_id p ≤ u64_max ∧ parse_ip (show_ip (pe_tunnel_ip p)) = Some (pe_tunnel_ip p).
Definition identity_wf (i : NodeIdentity) : Prop :=
  0 ≤ ni_raft_id i ≤ u64_max ∧ 0 ≤ ni_rpc_port i ≤ u16_max ∧ Forall peer_wf (ni_peers i).

Lemma dec_enc_peer p : peer_wf p → dec_peer (enc_peer p) = Some p.
Proof.
  intros [Hid Hip]. unfold dec_peer, enc_peer, required. fields. cbn [mbind option_bind]. rewrite dec_uint_ok by done.
  unfold dec_ip. cbn [as_str mbind option_bind]. rewrite Hip. by destruct p.
Qed.
Lemma dec_enc_peers l : Forall peer_wf l → dec_list dec_peer (VArr (enc_peer <$> l)) = Some l.
Proof. intros Hl. apply dec_list_ok. exact (Forall_impl _ _ _ Hl dec_enc_peer). Qed.
Lemma dec_enc_identity i : identity_wf i → dec_identity (enc_identity i) = Some i.
Proof.
  intros (Hid & Hport & Hpeers). destruct i as [a b c d e f g h j l m n]. simpl in *. unfold dec_identity, enc_identity, required, optional.
  destruct m as [m|], n as [n|]; cbn [enc_skip app ni_node_id ni_raft_id ni_cluster_token ni_rpc_port ni_advertise_addr ni_provider ni_provider_token
    ni_region ni_wireguard_subnet ni_peers ni_acme_email ni_acme_staging]; fields; cbn [mbind option_bind as_str];
    rewrite !dec_uint_ok by done; cbn [mbind option_bind]; rewrite dec_enc_peers by done; by destruct f, g, h.
Qed.

Section file_theorems.
Context (print : JV → string) (parse : string → result JV string) (parse_print : ∀ v, parse (print v) = Ok v).

(** An identity that was saved is loaded unchanged, whatever the file held before and whatever other files there are. *)
Theorem identity_round_trip path i d budget :
  identity_wf i → (2 ≤ budget)%nat →
  let '(r, d') := identity_save print budget path i d in
  r = Ok tt ∧ identity_load parse path d' = Ok i ∧ (∀ other, other ≠ path → d' !! other = d !! other).
Proof.
  intros Hi Hb. destruct budget as [|[|budget]]; [lia..|]. unfold identity_save. cbn [run_ops disk_op]. rewrite lookup_insert_eq.
  split_and!; [done| |].
  - unfold identity_load. by rewrite lookup_insert_eq, parse_print, dec_enc_identity.
  - intros other Hne. by rewrite !lookup_insert_ne.
Qed.
(** The file is truncated before it is written: a failure in between loses the identity that was there, and the node does not
    start from it again. *)
Theorem identity_save_not_atomic path i d e :
  parse EmptyString = Err e →
  let '(r, d') := identity_save print 1 path i d in
  (∃ e', r = Err e') ∧ identity_load parse path d' = Err (Internal e).
Proof.
  intros He. unfold identity_save. cbn [run_ops disk_op]. split; [by eexists|].
  unfold identity_load. by rewrite lookup_insert_eq, He.
Qed.
End file_theorems.

(** The names that the reader knows. *)
Definition identity_fields : list string :=
  ["node_id"; "raft_id"; "cluster_token"; "rpc_port"; "advertise_addr"; "provider"; "provider_token"; "region"; "wireguard_subnet"; "peers";
   "acme_email"; "acme_staging"]%string.
(** Fields of other versions are ignored, and a file without the ACME fields is read as one without ACME. *)
Theorem identity_versions k x l i :
  (k ∉ identity_fields → dec_identity (VObj ((k, x) :: l)) = dec_identity (VObj l)) ∧
  (identity_wf i → ni_acme_email i = None → ni_acme_staging i = None →
    field "acme_email" (enc_identity i) = Some None ∧ field "acme_staging" (enc_identity i) = Some None ∧
    acme_config <$> dec_identity (enc_identity i) = Some None).
Proof.
  split.
  - intros Hk. assert (∀ f, f ∈ identity_fields → field f (VObj ((k, x) :: l)) = field f (VObj l)) as Hf.
    { intros f Hin. apply field_skip. by intros ->. }
    unfold dec_identity, required, optional. by rewrite !Hf by (unfold identity_fields; set_solver).
  - intros Hi He Hs. rewrite dec_enc_identity by done. unfold enc_identity. rewrite He, Hs. cbn [enc_skip app]. fields.
    split_and!; [done..|]. cbn [fmap option_fmap option_map]. unfold acme_config. by rewrite He.
Qed.

(** * daemon/tests.rs *)

Definition sample_identity (node_id token advertise : string) (raft_id : Z) (provider provider_token : option string) (peers : list PeerEntry)
    (email : option string) (staging : option bool) : NodeIdentity :=
  mkNodeIdentity node_id raft_id token 4400 advertise provider provider_token None "10.99.0.0/16" peers email staging.
Definition saved_identity : NodeIdentity :=
  sample_identity "test-node" "tok123" "1.2.3.4" 1 None None [mkPeerEntry 2 "5.6.7.8" (v4 10 99 0 2) "abc123"] (Some "admin@example.com"%string) (Some true).
Definition restarted_identity : NodeIdentity :=
  sample_identity "restart-node" "tok-restart" "9.8.7.6" 5 (Some "aws"%string) (Some "pt-123"%string) [] (Some "ops@example.com"%string) None.
Definition acme_of (email : option string) (staging : option bool) : option AcmeConfig :=
  acme_config (sample_identity "n" "t" "0.0.0.0" 1 None None [] email staging).

(** The host's files, as the collector's tests have them. *)
Definition detect_resources_returns_nonzero (meminfo stat : option string) : bool :=
  let res := Host.read_host_resources true meminfo stat in f64_ltb f64_zero (cpu_total res) && (0 <? memory_total res).
Definition acme_config_from_identity : bool :=
  match acme_of (Some "admin@example.com"%string) (Some true) with
  | Some cfg => bool_decide (ac_contact cfg = ["mailto:admin@example.com"]%string) && Containers.str_contains "staging" (ac_directory_url cfg)
  | None => false
  end.
Definition acme_config_none_without_email : bool := is_none (acme_of None None).
Definition acme_config_production_url_without_staging_flag : bool :=
  match acme_of (Some "admin@example.com"%string) None with
  | Some cfg => negb (Containers.str_contains "staging" (ac_directory_url cfg)) && Containers.str_contains "acme-v02.api.letsencrypt.org" (ac_directory_url cfg)
  | None => false
  end.
(** The value of the old file. *)
Definition old_file : JV :=
  VObj [("node_id", VStr "old-node"); ("raft_id", VNum 1); ("cluster_token", VStr "tok"); ("rpc_port", VNum 4400); ("advertise_addr", VStr "0.0.0.0");
        ("wireguard_subnet", VStr "10.99.0.0/16"); ("peers", VArr [])]%string.
Definition node_identity_backward_compat_no_acme_fields : bool :=
  match dec_identity old_file with
  | Some i => asserts [String.eqb (ni_node_id i) "old-node"; is_none (ni_acme_email i); is_none (ni_acme_staging i); is_none (acme_config i)]
  | None => false
  end.
(** Two identifiers from different random bytes. *)
Definition generate_id_is_unique (a b : nat → Z) : bool :=
  negb (String.eqb (generate_id a) (generate_id b)) && Nat.eqb (String.length (generate_id a)) 16.
Definition generate_token_is_unique (a b : nat → Z) : bool :=
  negb (String.eqb (generate_token a) (generate_token b)) && Nat.eqb (String.length (generate_token a)) 32.
Lemma daemon_tests :
  passing [detect_resources_returns_nonzero (Some Host.host_meminfo) (Some Host.host_stat); acme_config_from_identity; acme_config_none_without_email;
    acme_config_production_url_without_staging_flag; node_identity_backward_compat_no_acme_fields;
    generate_id_is_unique Z.of_nat (λ i, Z.of_nat (i + 1)); generate_token_is_unique Z.of_nat (λ i, Z.of_nat (i + 1))].
Proof. apply passing_asserts. vm_compute. reflexivity. Qed.

Section identity_tests.
Context (print : JV → string) (parse : string → result JV string).
Definition node_identity_round_trip : bool :=
  let '(r, d) := identity_save print plenty "node.json" saved_identity ∅ in
  match identity_load parse "node.json" d with
  | Ok i =>
      asserts [is_ok r; String.eqb (ni_node_id i) "test-node"; ni_raft_id i =? 1; bool_decide (pe_raft_id <$> ni_peers i = [2]);
        bool_decide (ni_acme_email i = Some "admin@example.com"%string); bool_decide (ni_acme_staging i = Some true)]
  | Err _ => false
  end.
Definition node_identity_load_missing : bool := negb (is_ok (identity_load parse "nonexistent.json" ∅)).
Definition identity_and_cluster_key_survive_restart (k : ClusterKey) : bool :=
  let '(r, d) := identity_save print plenty "node.json" restarted_identity ∅ in
  let w := save_key plenty ∅ k in
  match identity_load parse "node.json" d, load_key (dir_after w) with
  | Ok i, Ok k' =>
      asserts [is_ok r; done_ok w; String.eqb (ni_node_id i) "restart-node"; ni_raft_id i =? 5; String.eqb (ni_cluster_token i) "tok-restart";
        bool_decide (ni_provider i = Some "aws"%string); bool_decide (ni_acme_email i = Some "ops@example.com"%string); is_none (ni_acme_staging i);
        String.eqb (as_bytes k') (as_bytes k)]
  | _, _ => false
  end.
(** Without the identity's file the daemon neither starts nor leaves. *)
Definition boot_without_node_json_returns_error (f : FsmState) : bool :=
  match (@boot stored_order (λ _, None) (λ _, EmptyString) None None (Err EmptyString) f []).1 with
  | Err e => Containers.str_contains "node.json" e
  | Ok _ => false
  end.
Definition leave_without_node_json_returns_error : bool := negb (is_ok (leave (λ _, None) None None []).1).
Context (parse_print : ∀ v, parse (print v) = Ok v).
Lemma identity_tests k f :
  String.length (key k) = 32%nat →
  passing [node_identity_round_trip; node_identity_load_missing; identity_and_cluster_key_survive_restart k; boot_without_node_json_returns_error f;
    leave_without_node_json_returns_error].
Proof.
  intros Hk. assert (identity_wf saved_identity ∧ identity_wf restarted_identity) as [Hs Hr].
  { split; (split_and!; [by vm_compute..|]); repeat constructor; by vm_compute. }
  assert (key_save_load_round_trip k = true) as Hkey by by apply key_save_load.
  repeat constructor.
  - unfold node_identity_round_trip. pose proof (identity_round_trip print parse parse_print "node.json" saved_identity ∅ plenty Hs) as Hrt.
    destruct (identity_save _ _ _ _ _) as [r d]. destruct Hrt as (-> & -> & _); [unfold plenty; lia|]. reflexivity.
  - unfold identity_and_cluster_key_survive_restart. pose proof (identity_round_trip print parse parse_print "node.json" restarted_identity ∅ plenty Hr) as Hrt.
    destruct (identity_save _ _ _ _ _) as [r d]. destruct Hrt as (-> & -> & _); [unfold plenty; lia|].
    unfold key_save_load_round_trip in Hkey. destruct (load_key _) as [k'|]; [|done].
    apply andb_prop in Hkey as [Hd He]. cbn zeta. rewrite Hd, He. reflexivity.
Qed.
End identity_tests.
