(* ===== verification/Harness.v ===== *)
(** What the source's integration tests stand on: waiting for a condition ([src/crates/config/src/support.rs]), the settings that tests
    fix ([src/crates/node/src/env.rs]: [init_test_defaults]), the client of the control API ([src/crates/support/src/client.rs]) and the
    clusters they start ([src/crates/support/src/cluster.rs]). The clock, the HTTP client, openraft's membership and the ports the system
    hands out are parameters. The theorems show that waiting always ends and what its end means, which settings a test sees, that
    no operation of a client with a wrong token succeeds, and what the state of a started cluster is. *)

From S2P Require Import Prelude Types Env Addr Fsm Rpc World Connections Tasks Util Views Oci Api Daemon Sse Cli DaemonHttp RaftNet Membership Doubles.
Local Open Scope Z_scope.

(** * Waiting (config/src/support.rs) *)

Record WaitFor := mkWaitFor {
  wf_timeout : Z;
  wf_msg : string;
}.
Definition poll_new : WaitFor := mkWaitFor (secs 1) "condition not met".
Definition wait_secs (n : Z) (w : WaitFor) : WaitFor := mkWaitFor (secs n) (wf_msg w).
Definition wait_expect (msg : string) (w : WaitFor) : WaitFor := mkWaitFor (wf_timeout w) msg.

Inductive Waited :=
| Met (at_time : Z)
| TimedOut (panic : string).
(** The loop of [into_future]: [cond t] is what the condition says when it is asked at [t]; a sleep of 25 ms may take longer by
    [late] of the round. *)
Fixpoint wait_loop (cond : Z → bool) (late : nat → Z) (w : WaitFor) (deadline : Z) (fuel round : nat) (t : Z) : option Waited :=
  match fuel with
  | O => None
  | S fuel =>
      if cond t then Some (Met t)
      else if t <? deadline then wait_loop cond late w deadline fuel (S round) (t + millis 25 + late round)
      else Some (TimedOut ("timeout: " +:+ wf_msg w)%string)
  end.
(** As many rounds as the timeout has sleeps, and the last check. *)
Definition wait_fuel (w : WaitFor) : nat := Z.to_nat (wf_timeout w / millis 25 + 2).
Definition wait (cond : Z → bool) (late : nat → Z) (w : WaitFor) (t : Z) : option Waited :=
  wait_loop cond late w (t + wf_timeout w) (wait_fuel w) 0 t.

(** [poll_async]: the condition is a future; the answer asked for at [t] comes at a later time, or never. The deadline is looked at only
    between answers. *)
Inductive AsyncWaited :=
| Finished (r : Waited)
| Stuck (since : Z).
Fixpoint wait_async_loop (cond : Z → option (bool * Z)) (late : nat → Z) (w : WaitFor) (deadline : Z) (fuel round : nat) (t : Z) : option AsyncWaited :=
  match fuel with
  | O => None
  | S fuel =>
      match cond t with
      | None => Some (Stuck t)
      | Some (true, s) => Some (Finished (Met s))
      | Some (false, s) =>
          if s <? deadline then wait_async_loop cond late w deadline fuel (S round) (s + millis 25 + late round)
          else Some (Finished (TimedOut ("timeout: " +:+ wf_msg w)%string))
      end
  end.
Definition wait_async (cond : Z → option (bool * Z)) (late : nat → Z) (w : WaitFor) (t : Z) : option AsyncWaited :=
  wait_async_loop cond late w (t + wf_timeout w) (wait_fuel w) 0 t.

Section waiting.
Context (cond : Z → bool) (late : nat → Z) (w : WaitFor) (late_pos : ∀ n, 0 ≤ late n).

Lemma wait_loop_spec deadline fuel round t :
  deadline - t ≤ Z.of_nat fuel * millis 25 →
  ∃ r, wait_loop cond late w deadline (S fuel) round t = Some r ∧
    match r with
    | Met s => t ≤ s ∧ cond s = true
    | TimedOut e => e = ("timeout: " +:+ wf_msg w)%string ∧ ∃ s, deadline ≤ s ∧ t ≤ s ∧ cond s = false
    end.
Proof.
  revert round t. induction fuel as [|fuel IH]; intros round t Hfuel; cbn [wait_loop]; (destruct (cond t) eqn:Hc; [by exists (Met t)|]);
    (destruct (Z.ltb_spec t deadline) as [Hlt|Hge]; [|eexists; split; [done|]; simpl; eauto with lia]); [lia|].
  pose proof (late_pos round). destruct (IH (S round) (t + millis 25 + late round)) as (r & Hr & Hspec); [unfold millis in *; lia|].
  exists r. split; [exact Hr|]. unfold millis in *. destruct r; [split; [lia|apply Hspec]|].
  destruct Hspec as (-> & s & ? & ? & ?). split; [done|]. exists s. split_and!; [done|lia|done].
Qed.
Lemma wait_loop_stable deadline since d fuel round t :
  (∀ n, late n ≤ d) → (∀ s, since ≤ s → cond s = true) → since ≤ deadline → deadline - t ≤ Z.of_nat fuel * millis 25 →
  ∃ s, wait_loop cond late w deadline (S fuel) round t = Some (Met s) ∧ s ≤ Z.max t (since + millis 25 + d).
Proof.
  intros Hd Hsince Hbefore. revert round t. induction fuel as [|fuel IH]; intros round t Hfuel; cbn [wait_loop]; (destruct (cond t) eqn:Hc; [exists t; split; [done|lia]|]);
    (assert (t < since) by (destruct (decide (since ≤ t)) as [Hs|]; [by rewrite Hsince in Hc|lia]));
    (destruct (Z.ltb_spec t deadline) as [Hlt|Hge]; [|lia]); [lia|].
  pose proof (late_pos round). pose proof (Hd round).
  destruct (IH (S round) (t + millis 25 + late round)) as (s & Hr & Hs); [unfold millis in *; lia|].
  exists s. split; [exact Hr|lia].
Qed.
Lemma wait_fuel_enough : 0 ≤ wf_timeout w → ∃ fuel, wait_fuel w = S fuel ∧ wf_timeout w ≤ Z.of_nat fuel * millis 25.
Proof.
  intros Hw. exists (Z.to_nat (wf_timeout w / millis 25 + 1)). unfold wait_fuel. pose proof (Z.div_mod (wf_timeout w) (millis 25)) as Hdiv.
  pose proof (Z.mod_pos_bound (wf_timeout w) (millis 25)) as Hmod. pose proof (Z.div_pos (wf_timeout w) (millis 25)) as Hp. unfold millis in *. lia.
Qed.
(** Waiting ends: with the condition met at the time of its last check, or with a panic after the deadline, when the condition was
    asked for once more and did not hold. A condition that holds from some time before the deadline on is met, at most one sleep
    later. *)
Theorem wait_ends t :
  0 ≤ wf_timeout w →
  (∃ r, wait cond late w t = Some r ∧
     match r with
     | Met s => t ≤ s ∧ cond s = true
     | TimedOut e => e = ("timeout: " +:+ wf_msg w)%string ∧ ∃ s, t + wf_timeout w ≤ s ∧ cond s = false
     end) ∧
  (∀ since d, (∀ n, late n ≤ d) → (∀ s, since ≤ s → cond s = true) → since ≤ t + wf_timeout w →
     ∃ s, wait cond late w t = Some (Met s) ∧ s ≤ Z.max t (since + millis 25 + d)).
Proof.
  intros Hw. destruct (wait_fuel_enough Hw) as (fuel & Hf & Hle). unfold wait. rewrite Hf. split.
  - destruct (wait_loop_spec (t + wf_timeout w) fuel 0 t) as (r & Hr & Hspec); [lia|]. exists r. split; [done|].
    destruct r; [done|]. destruct Hspec as (-> & s & ? & _ & ?). eauto.
  - intros since d Hd Hs Hbefore. apply wait_loop_stable; [done..|lia].
Qed.
End waiting.

Section waiting_async.
Context (cond : Z → option (bool * Z)) (late : nat → Z) (w : WaitFor) (late_pos : ∀ n, 0 ≤ late n).
Context (answers_later : ∀ t b s, cond t = Some (b, s) → t ≤ s).
Lemma wait_async_loop_spec deadline fuel round t :
  deadline - t ≤ Z.of_nat fuel * millis 25 →
  ∃ r, wait_async_loop cond late w deadline (S fuel) round t = Some r ∧
    match r with
    | Finished (Met s) => ∃ asked, t ≤ asked ∧ cond asked = Some (true, s)
    | Finished (TimedOut e) => e = ("timeout: " +:+ wf_msg w)%string ∧ ∃ asked s, deadline ≤ s ∧ cond asked = Some (false, s)
    | Stuck s => t ≤ s ∧ cond s = None
    end.
Proof.
  revert round t. induction fuel as [|fuel IH]; intros round t Hfuel; cbn [wait_async_loop];
    (destruct (cond t) as [[[] s]|] eqn:Hc; [exists (Finished (Met s)); split; [done|]; by exists t| |by exists (Stuck t)]);
    pose proof (answers_later _ _ _ Hc) as Hs;
    (destruct (Z.ltb_spec s deadline) as [Hlt|Hge]; [|eexists; split; [done|]; simpl; split; [done|]; by exists t, s]); [lia|].
  pose proof (late_pos round). destruct (IH (S round) (s + millis 25 + late round)) as (r & Hr & Hspec); [unfold millis in *; lia|].
  exists r. split; [exact Hr|]. unfold millis in *. destruct r as [[]|]; [|done|].
  - destruct Hspec as (asked & ? & ?). exists asked. split; [lia|done].
  - destruct Hspec. split; [lia|done].
Qed.
(** Waiting for a future ends with its answer, with a panic after the deadline, or not at all when an answer never comes: the deadline
    does not interrupt the condition. *)
Theorem wait_async_ends t :
  0 ≤ wf_timeout w →
  ∃ r, wait_async cond late w t = Some r ∧
    match r with
    | Finished (Met s) => ∃ asked, t ≤ asked ∧ cond asked = Some (true, s)
    | Finished (TimedOut e) => e = ("timeout: " +:+ wf_msg w)%string ∧ ∃ asked s, t + wf_timeout w ≤ s ∧ cond asked = Some (false, s)
    | Stuck s => t ≤ s ∧ cond s = None
    end.
Proof.
  intros Hw. destruct (wait_fuel_enough w Hw) as (fuel & Hf & Hle). unfold wait_async. rewrite Hf. apply wait_async_loop_spec. lia.
Qed.
End waiting_async.
(** With a condition that answers at once, the two loops are the same. *)
Lemma wait_async_immediate cond late w t : wait_async (λ t, Some (cond t, t)) late w t = Finished <$> wait cond late w t.
Proof.
  unfold wait_async, wait. generalize (t + wf_timeout w) as d, 0%nat as n. intros d n. revert n t.
  induction (wait_fuel w) as [|fuel IH]; intros n t; cbn [wait_loop wait_async_loop]; [done|].
  destruct (cond t); [done|]. destruct (t <? d); [apply IH|done].
Qed.

(** * The settings of a test process (node/src/env.rs) *)

(** The cells that are filled, by the name of their static; an interval is a list of one, in nanoseconds. *)
Abbreviation Settings := (gmap string (list Z)).
(** [OnceLock::get_or_init]: the first value stays. *)
Definition get_or_init (cell : string) (v : list Z) (s : Settings) : list Z * Settings :=
  match s !! cell with
  | Some v => (v, s)
  | None => (v, <[cell := v]> s)
  end.
Definition test_defaults : list (string * list Z) :=
  [("HEARTBEAT_INTERVAL", [millis 100]); ("METRICS_POLL_INTERVAL", [secs 2]); ("WATCHDOG_TICK", [millis 100]); ("HEARTBEAT_TIMEOUT", [millis 300]);
   ("RESTART_BACKOFF", [millis 200; millis 500; secs 1; secs 2]); ("HEALTH_TIMEOUT", [secs 1]); ("DEPLOY_TIMEOUT", [secs 3]);
   ("POLL_ADDRESS_TIMEOUT", [secs 1]); ("HEALTH_CHECK_HTTP_TIMEOUT", [secs 2]); ("TCP_READY_POLL_INTERVAL", [millis 50]);
   ("RPC_CONNECT_TIMEOUT", [secs 1]); ("API_CLIENT_TIMEOUT", [secs 5]); ("METADATA_TIMEOUT", [millis 100]); ("SNAPSHOT_THRESHOLD", [1]);
   ("SNAPSHOT_LOG_KEEP", [0])]%string.
Definition init_test_defaults (s : Settings) : Settings := foldl (λ s '(cell, v), (get_or_init cell v s).2) s test_defaults.

Lemma init_cells (l : list (string * list Z)) (s : Settings) cell :
  NoDup l.*1 →
  foldl (λ s '(cell, v), (get_or_init cell v s).2) s l !! cell =
    match s !! cell with Some v => Some v | None => list_to_map (M := gmap string (list Z)) l !! cell end.
Proof.
  intros Hnd. revert s. induction l as [|[c v] l IH]; intros s; [by simpl; destruct (s !! cell)|].
  cbn [fmap list_fmap] in Hnd. apply NoDup_cons in Hnd as [Hc Hnd]. cbn [foldl list_to_map foldr]. rewrite IH by done. unfold get_or_init.
  destruct (s !! c) as [v'|] eqn:Hs; cbn [snd].
  - destruct (decide (c = cell)) as [->|Hne]; [by rewrite Hs|]. by rewrite lookup_insert_ne.
  - destruct (decide (c = cell)) as [->|Hne]; [by rewrite Hs, !lookup_insert_eq|]. by rewrite !lookup_insert_ne.
Qed.
(** A test sees the values that it was started with, whatever the environment says, except where a value was read before. *)
Theorem test_settings_win s cell v env_value :
  (cell, v) ∈ test_defaults →
  (get_or_init cell env_value (init_test_defaults s)).1 = default v (s !! cell) ∧
  (init_test_defaults (init_test_defaults s)) = init_test_defaults s.
Proof.
  assert (NoDup test_defaults.*1) as Hnd by (apply (bool_decide_unpack _); by vm_compute).
  intros Hin. unfold init_test_defaults. split.
  - unfold get_or_init. rewrite init_cells by done. destruct (s !! cell) as [x|] eqn:Hs; [done|].
    by rewrite (elem_of_list_to_map_1 test_defaults cell v Hnd Hin).
  - apply map_eq. intros c. rewrite !init_cells by done. destruct (s !! c); [done|]. by destruct (_ !! c).
Qed.

(** * The client of the control API (support/src/client.rs) *)

Record TestApi := mkTestApi {
  ta_base_url : string;
  ta_token : string;
}.
Definition TestApi_new (addr : SocketAddr) (token : string) : TestApi := mkTestApi ("http://" +:+ show_sock addr)%string token.
Definition with_bad_token (api : TestApi) : TestApi := mkTestApi (ta_base_url api) "wrong-token".

Section test_api.
(** The HTTP client, with the redirections it follows; reqwest's error for a status; serde's readers, and the text of a join. *)
Context (http : CliRequest → result HttpResponse string) (status_error : Z → string → string) `{CliCodec}.
Context (dec_join_info : string → result JoinInfoResponse string) (join_text : JoinRequest → string).
Context (api : TestApi).

Definition ta_request (m : Method) (path : string) (body : CliBody) : CliRequest :=
  mkCliRequest m (ta_base_url api +:+ path)%string (Some ("Bearer " +:+ ta_token api)%string) body.
(** [send().await?.error_for_status()?]. *)
Definition ta_send (m : Method) (path : string) (body : CliBody) : result HttpResponse string :=
  result_bind (http (ta_request m path body)) (error_for_status status_error (ta_base_url api +:+ path)%string).
(** The whole body, if the connection lasted. *)
Definition ta_bytes (resp : HttpResponse) : result string string :=
  match rs_end resp with None => Ok (concat_str (rs_chunks resp)) | Some e => Err e end.
Definition ta_json {A} (dec : string → result A string) (m : Method) (path : string) (body : CliBody) : result A string :=
  result_bind (ta_send m path body) (λ resp, result_bind (ta_bytes resp) dec).
Definition ta_text (m : Method) (path : string) (body : CliBody) : result string string :=
  result_bind (ta_send m path body) (λ resp, result_bind (ta_bytes resp) (λ b, Ok (text_of b))).
Definition ta_status_code (m : Method) (path : string) (body : CliBody) : result Z string :=
  result_bind (ta_send m path body) (λ resp, Ok (rs_status resp)).

Definition ta_status : result StatusResponse string := ta_json dec_status GET "/v1/status" NoBody.
Definition ta_nodes : result (list NodeResponse) string := ta_json dec_nodes GET "/v1/nodes" NoBody.
Definition ta_services : result (list ServiceResponse) string := ta_json dec_services GET "/v1/services" NoBody.
Definition ta_tasks : result (list TaskResponse) string := ta_json dec_tasks GET "/v1/tasks" NoBody.
Definition ta_volumes : result (list VolumeResponse) string := ta_json dec_volumes GET "/v1/volumes" NoBody.
Definition ta_deploy (config_text : string) : result string string := ta_text POST "/v1/deploy" (TextBody config_text).
Definition ta_spawn_task (req : SpawnTaskRequest) : result SpawnTaskResponse string := ta_json dec_spawn POST "/v1/tasks/spawn" (SpawnBody req).
Definition ta_drain (node_id : string) : result string string := ta_text POST ("/v1/nodes/" +:+ node_id +:+ "/drain") NoBody.
Definition ta_delete_volume (name : string) : result Z string := ta_status_code DELETE ("/v1/volumes/" +:+ name) NoBody.
(** Without [error_for_status]. *)
Definition ta_delete_volume_raw (name : string) : result Z string :=
  result_bind (http (ta_request DELETE ("/v1/volumes/" +:+ name) NoBody)) (λ resp, Ok (rs_status resp)).
Definition ta_secrets_set (name value : string) : result Z string := ta_status_code PUT ("/v1/secrets/" +:+ name) (SecretBody value).
Definition ta_secrets_list : result (list string) string := ta_json dec_secrets GET "/v1/secrets" NoBody.
Definition ta_secret_get (name : string) : result (string * string) string := ta_json dec_secret GET ("/v1/secrets/" +:+ name) NoBody.
Definition ta_delete_secret (name : string) : result Z string := ta_status_code DELETE ("/v1/secrets/" +:+ name) NoBody.
Definition ta_join_info : result JoinInfoResponse string := ta_json dec_join_info GET "/v1/join-info" NoBody.
Definition ta_post_join (req : JoinRequest) : result Z string := ta_status_code POST "/v1/join" (TextBody (join_text req)).
Definition ta_kill_task (id : string) : result Z string := ta_status_code DELETE ("/v1/tasks/" +:+ id) NoBody.
Definition ta_cluster_key_bytes : result string string := result_bind (ta_send GET "/v1/cluster-key" NoBody) ta_bytes.

(** What an operation's result says of the server's answer. *)
Lemma ta_send_Ok m path body resp :
  ta_send m path body = Ok resp ↔ http (ta_request m path body) = Ok resp ∧ is_error_status (rs_status resp) = false.
Proof.
  unfold ta_send, error_for_status. destruct (http _) as [r|e]; simpl; [|split; [done|by intros [? _]]].
  destruct (is_error_status (rs_status r)) eqn:E; split; try done; [intros [[= <-] ?]; congruence|by intros [= <-]|by intros [[= <-] _]].
Qed.
End test_api.

Section test_api_theorems.
Context (http : CliRequest → result HttpResponse string) (status_error : Z → string → string) `{CliCodec}.
Context (dec_join_info : string → result JoinInfoResponse string) (join_text : JoinRequest → string) (api : TestApi).

(** A client's answer is the server's: a value is read from a whole body of a response that is no error, and a status is that
    of such a response. *)
Theorem test_client_answers {A} (dec : string → result A string) m path body :
  (∀ v, ta_json http status_error api dec m path body = Ok v ↔
     ∃ resp, http (ta_request api m path body) = Ok resp ∧ is_error_status (rs_status resp) = false ∧ rs_end resp = None ∧
       dec (concat_str (rs_chunks resp)) = Ok v) ∧
  (∀ code, ta_status_code http status_error api m path body = Ok code ↔
     ∃ resp, http (ta_request api m path body) = Ok resp ∧ rs_status resp = code ∧ is_error_status code = false) ∧
  (∀ text, ta_text http status_error api m path body = Ok text →
     ∃ resp, http (ta_request api m path body) = Ok resp ∧ is_error_status (rs_status resp) = false ∧ text = text_of (concat_str (rs_chunks resp))).
Proof.
  unfold ta_json, ta_status_code, ta_text. pose proof (ta_send_Ok http status_error api m path body) as Hsend.
  destruct (ta_send http status_error api m path body) as [resp|e] eqn:Es.
  - destruct (proj1 (Hsend resp) eq_refl) as [Hh Hst]. cbn [result_bind]. split_and!.
    + intros v. unfold ta_bytes. split.
      * destruct (rs_end resp) eqn:He; [done|]. intros Hd. eauto.
      * rewrite Hh. intros (r & [= <-] & _ & -> & Hd). exact Hd.
    + intros code. split; [intros [= <-]; eauto|]. rewrite Hh. by intros (r & [= <-] & <- & _).
    + unfold ta_bytes. destruct (rs_end resp) eqn:He; [done|]. intros text [= <-]. eauto.
  - split_and!; [intros v; split; [done|]|intros code; split; [done|]|done].
    + intros (r & Hr & Hok & _). discriminate (proj2 (Hsend r) (conj Hr Hok)).
    + intros (r & Hr & <- & Hok). discriminate (proj2 (Hsend r) (conj Hr Hok)).
Qed.

(** Against a server that answers 401 to every request without its token, every operation of a client with the wrong token
    fails; the one that does not look at the status gives it. *)
Definition refused {A} (r : result A string) : Prop := ∃ e, r = Err e.
Theorem bad_token_refused token :
  token ≠ "wrong-token"%string →
  (∀ r, cq_authorization r ≠ Some ("Bearer " +:+ token)%string → ∃ resp, http r = Ok resp ∧ rs_status resp = UNAUTHORIZED) →
  let bad := with_bad_token api in
  (∀ m path body, refused (ta_send http status_error bad m path body)) ∧
  refused (ta_status http status_error bad) ∧ refused (ta_nodes http status_error bad) ∧ refused (ta_services http status_error bad) ∧
  refused (ta_tasks http status_error bad) ∧ refused (ta_volumes http status_error bad) ∧ refused (ta_secrets_list http status_error bad) ∧
  refused (ta_join_info http status_error dec_join_info bad) ∧ refused (ta_cluster_key_bytes http status_error bad) ∧
  (∀ s, refused (ta_deploy http status_error bad s) ∧ refused (ta_drain http status_error bad s) ∧ refused (ta_delete_volume http status_error bad s) ∧
     refused (ta_secret_get http status_error bad s) ∧ refused (ta_delete_secret http status_error bad s) ∧ refused (ta_kill_task http status_error bad s) ∧
     ta_delete_volume_raw http bad s = Ok UNAUTHORIZED) ∧
  (∀ req, refused (ta_spawn_task http status_error bad req)) ∧ (∀ name value, refused (ta_secrets_set http status_error bad name value)) ∧
  (∀ req, refused (ta_post_join http status_error join_text bad req)).
Proof.
  intros Htok Hguard bad. assert (∀ m path body, ∃ resp, http (ta_request bad m path body) = Ok resp ∧ rs_status resp = UNAUTHORIZED) as Hh.
  { intros m path body. apply Hguard. cbn. intros [= Heq]. by apply Htok. }
  assert (∀ m path body, refused (ta_send http status_error bad m path body)) as Hs.
  { intros m path body. destruct (ta_send http status_error bad m path body) as [resp|e] eqn:E; [|by eexists].
    apply ta_send_Ok in E as [Hr Hok]. destruct (Hh m path body) as (r & Hr' & Hst). rewrite Hr in Hr'. injection Hr' as <-. by rewrite Hst in Hok. }
  assert (∀ A m path body (k : HttpResponse → result A string), refused (result_bind (ta_send http status_error bad m path body) k)) as Hk.
  { intros A m path body k. destruct (Hs m path body) as [e ->]. by exists e. }
  split_and!; try done; try apply Hk; try (intros; apply Hk).
  intros s. split_and!; try apply Hk. unfold ta_delete_volume_raw. destruct (Hh DELETE ("/v1/volumes/" +:+ s)%string NoBody) as (r & -> & Hst).
  simpl. by rewrite Hst.
Qed.
End test_api_theorems.

(** * Test clusters (support/src/cluster.rs) *)

Definition test_resources : NodeResources := mkNodeResources (f64_of_Z 4) (f64_of_Z 4) (8 * 2 ^ 30) (8 * 2 ^ 30).
Record TestNode := mkTestNode {
  tn_raft_id : Z;
  tn_mill_id : NodeId;
  tn_rpc_addr : SocketAddr;
  tn_secondary : TestSecondary;
}.
(** The primary that runs: on which node, and with which local node, if its secondary is wired directly. *)
Record TestPrimary := mkTestPrimary {
  tp_node : nat;
  tp_local : option NodeId;
}.
Definition API_TOKEN : string := "test-api-token".
Definition RPC_TOKEN : string := "test-rpc-token".
Definition mill_id_of (raft_id : Z) : NodeId := mkNodeId ("node-" +:+ pretty raft_id)%string.
Definition pubkey_of (raft_id : Z) : string := ("test-pubkey-" +:+ pretty raft_id)%string.
Definition localhost : Z := 127 * 2 ^ 24 + 1.

Section test_cluster.
Context `{HI : HashIter} `{R : RaftMembership}.

(** The nodes, the state of the leader's machine, raft's membership, and what the nodes share. *)
Record TestCluster := mkTestCluster {
  tcl_nodes : list TestNode;
  tcl_fsm : FsmState;
  tcl_members : Mem;
  tcl_volumes : TestVolumes;
  tcl_mesh : TestMesh;
  tcl_primary : option TestPrimary;
  tcl_router : list Z;
}.
(** The rafts of a cluster: the first starts alone, the others learn and then vote. *)
Fixpoint add_learners (ids : list Z) (m : Mem) : result Mem RaftError :=
  match ids with
  | [] => Ok m
  | id :: ids => result_bind (mill_add_learner id EmptyString m) (add_learners ids)
  end.
Definition form_raft (ids : list Z) : result Mem RaftError :=
  match ids with
  | [] => Err (RaftErrorText "need at least 1 node")
  | first :: rest => result_bind (add_learners rest (mill_initialize first)) (mill_change_membership ids)
  end.
(** [find_leader_idx]: the first node that confirms its leadership; waiting for one has ended before. *)
Definition find_leader_idx (confirms : nat → bool) (count : nat) : option nat := head (filterb confirms (seq 0 count)).

Definition node_register (n : TestNode) : Command :=
  NodeRegister (tn_raft_id n) (tn_mill_id n) (tn_rpc_addr n) test_resources (Some (pubkey_of (tn_raft_id n)))
    (Some ("test-instance-" +:+ pretty (tn_raft_id n))%string) (Some (tn_rpc_addr n)) None.
Definition mesh_peer (n : TestNode) : PeerInfo := mkPeerInfo (tn_mill_id n) (pubkey_of (tn_raft_id n)) None (sock_ip (tn_rpc_addr n)).
Definition register_node (acc : FsmState * TestMesh) (n : TestNode) : FsmState * TestMesh :=
  ((apply_command acc.1 (node_register n)).1, tm_add_peer (mesh_peer n) acc.2).

(** The router's table once the watcher has connected to every node of the state; a local secondary has its entry from the
    start. *)
Definition connected_routes (local : option NodeId) (f : FsmState) : gset NodeId :=
  list_to_set (remote_nodes local f).*1 ∪ match local with Some id => {[ id ]} | None => ∅ end.
(** The wait for [route_count] with this table. *)
Definition wait_routes (local : option NodeId) (f : FsmState) (expected : nat) : bool := (expected <=? size (connected_routes local f))%nat.

(** The set-up that both constructors share: [addr] is the address of a node's server, and [local] whether the leader's secondary
    is wired directly, in which case its address is a placeholder. A failed step is a panic with its message. *)
Definition start_cluster (local : bool) (count : nat) (port : Z → Z) (confirms : nat → bool) : result TestCluster string :=
  if (count =? 0)%nat then Err "need at least 1 node"%string
  else
    let raft_ids := seqZ 1 (Z.of_nat count) in
    match form_raft raft_ids, find_leader_idx confirms count with
    | Err (RaftErrorText e), _ => Err e
    | _, None => Err "timeout: no leader found"%string
    | Ok members, Some leader_idx =>
        let leader_id := Z.of_nat leader_idx + 1 in
        let test_node id := mkTestNode id (mill_id_of id)
                              (SockV4 localhost (if local && (id =? leader_id) then 0 else port id)) TestSecondary_start in
        let nodes := test_node <$> raft_ids in
        let '(f, mesh) := foldl register_node (FsmState_default, TestMesh_new) nodes in
        let local_node := if local then Some (mill_id_of leader_id) else None in
        if negb (size (Fsm.nodes f) =? length nodes)%nat then Err "timeout: node registration not replicated"%string
        else if negb (wait_routes local_node f count) then Err "timeout: connection watcher did not connect to all nodes"%string
        else Ok (mkTestCluster nodes f members TestVolumes_new mesh (Some (mkTestPrimary leader_idx local_node)) raft_ids)
    end.
Definition TestCluster_new (count : nat) (port : Z → Z) (confirms : nat → bool) : result TestCluster string := start_cluster false count port confirms.
Definition new_with_local_leader (count : nat) (port : Z → Z) (confirms : nat → bool) : result TestCluster string := start_cluster true count port confirms.

(** [restart_primary_on], [add_joiner_to_router] and [shutdown]. *)
Definition restart_primary_on (node_idx : nat) (c : TestCluster) : result TestCluster string :=
  if (length (tcl_nodes c) <=? node_idx)%nat then Err "index out of bounds"%string
  else if negb (wait_routes None (tcl_fsm c) (length (tcl_nodes c))) then Err "timeout: connection watcher did not connect to all nodes"%string
  else Ok (mkTestCluster (tcl_nodes c) (tcl_fsm c) (tcl_members c) (tcl_volumes c) (tcl_mesh c) (Some (mkTestPrimary node_idx None)) (tcl_router c)).
Definition add_joiner_to_router (raft_id : Z) (c : TestCluster) : TestCluster :=
  mkTestCluster (tcl_nodes c) (tcl_fsm c) (tcl_members c) (tcl_volumes c) (tcl_mesh c) (tcl_primary c) (raft_id :: tcl_router c).
Definition cluster_shutdown (c : TestCluster) : TestCluster :=
  mkTestCluster [] (tcl_fsm c) (tcl_members c) (tcl_volumes c) (tcl_mesh c) None (tcl_router c).
End test_cluster.

(** ** A started cluster *)

#[global] Instance mill_id_of_inj : Inj (=) (=) mill_id_of.
Proof. intros a b [= H]. exact (inj pretty _ _ H). Qed.
#[global] Instance pubkey_of_inj : Inj (=) (=) pubkey_of.
Proof. intros a b [= H]. exact (inj pretty _ _ H). Qed.

Section started.
Context `{HI : HashIter} `{R : RaftMembership} `{!RaftMembershipLaws R}.

(** A node as its registration leaves it. *)
Definition registered (n : TestNode) : FsmNode :=
  mkFsmNode (tn_raft_id n) (tn_mill_id n) (tn_rpc_addr n) test_resources NodeReady (Some (pubkey_of (tn_raft_id n)))
    (Some ("test-instance-" +:+ pretty (tn_raft_id n))%string) (Some (tn_rpc_addr n)) None.
Lemma register_nodes l f mesh :
  NoDup (tn_raft_id <$> l) →
  let '(f', mesh') := foldl register_node (f, mesh) l in
  f' = set_nodes (nodes f') f ∧
  dom (nodes f') = list_to_set (tn_raft_id <$> l) ∪ dom (nodes f) ∧
  (∀ n, n ∈ l → nodes f' !! tn_raft_id n = Some (registered n)) ∧
  (∀ id, id ∉ tn_raft_id <$> l → nodes f' !! id = nodes f !! id) ∧
  dom mesh' = list_to_set (pubkey_of ∘ tn_raft_id <$> l) ∪ dom mesh ∧
  (∀ n, n ∈ l → mesh' !! pubkey_of (tn_raft_id n) = Some (mesh_peer n)) ∧
  (∀ key, key ∉ pubkey_of ∘ tn_raft_id <$> l → mesh' !! key = mesh !! key).
Proof.
  revert f mesh. induction l as [|n l IH]; intros f mesh Hnd; simpl.
  { split_and!; try set_solver. by destruct f. }
  cbn [fmap list_fmap] in Hnd. apply NoDup_cons in Hnd as [Hn Hnd].
  specialize (IH (set_nodes (<[tn_raft_id n := registered n]> (nodes f)) f) (tm_add_peer (mesh_peer n) mesh) Hnd).
  change (register_node (f, mesh) n) with (set_nodes (<[tn_raft_id n := registered n]> (nodes f)) f, tm_add_peer (mesh_peer n) mesh).
  destruct (foldl register_node _ l) as [f' mesh']. destruct IH as (H1 & H2 & H3 & H4 & H5 & H6 & H7).
  assert (pubkey_of (tn_raft_id n) ∉ pubkey_of ∘ tn_raft_id <$> l) as Hk.
  { intros (x & Heq & Hx)%list_elem_of_fmap. simpl in Heq. apply (inj pubkey_of) in Heq. apply Hn. apply list_elem_of_fmap. eauto. }
  unfold tm_add_peer in *. cbn [pi_public_key mesh_peer] in *. split_and!.
  - rewrite H1. by destruct f.
  - rewrite H2. cbn [nodes set_nodes]. rewrite dom_insert_L. set_solver.
  - intros x [->|Hx]%elem_of_cons; [|by apply H3]. rewrite H4 by done. cbn. by rewrite lookup_insert_eq.
  - intros id Hid. rewrite H4 by set_solver. cbn. rewrite lookup_insert_ne; [done|set_solver].
  - rewrite H5, dom_insert_L. set_solver.
  - intros x [->|Hx]%elem_of_cons; [|by apply H6]. rewrite H7 by done. by rewrite lookup_insert_eq.
  - intros key Hkey. rewrite H7 by set_solver. rewrite lookup_insert_ne; [done|set_solver].
Qed.
Lemma learners_no_vote ids m m' : add_learners ids m = Ok m' → voters m' = voters m.
Proof.
  revert m. induction ids as [|id ids IH]; intros m; simpl; [by intros [= ->]|]. unfold mill_add_learner.
  destruct (m_add_learner id EmptyString m) as [m1|] eqn:E; simpl; [|done]. intros Hm. rewrite (IH _ Hm). by eapply learner_no_vote.
Qed.
Lemma form_raft_voters ids m : form_raft ids = Ok m → voters m = list_to_set ids.
Proof.
  unfold form_raft. destruct ids as [|first rest]; [done|]. destruct (add_learners rest _) as [m1|] eqn:E; simpl; [|done].
  unfold mill_change_membership. destruct (m_add_voters _ m1) as [m2|] eqn:E2; simpl; [|done]. intros [= <-].
  rewrite (add_voters_union _ _ _ E2), (learners_no_vote _ _ _ E). unfold mill_initialize. rewrite initialize_voters. set_solver.
Qed.
(** The table has an entry for every node, with and without a local one. *)
Lemma routes_of_nodes local (l : list TestNode) f :
  (∀ id n, nodes f !! id = Some n → ∃ x, x ∈ l ∧ n = registered x) → (∀ x, x ∈ l → nodes f !! tn_raft_id x = Some (registered x)) →
  (∀ id, local = Some id → id ∈ tn_mill_id <$> l) →
  connected_routes local f = list_to_set (tn_mill_id <$> l).
Proof.
  intros Honly Hall Hlocal. apply set_eq. intros id. unfold connected_routes. rewrite elem_of_union, !elem_of_list_to_set.
  assert (id ∈ (remote_nodes local f).*1 ↔ id ∈ tn_mill_id <$> l ∧ local ≠ Some id) as ->.
  { unfold remote_nodes. rewrite <-list_fmap_compose, list_elem_of_fmap. split.
    - intros (n & -> & [Hn Hv]%elem_of_filterb). simpl in *. apply elem_of_hm_values in Hn as (k & Hk). destruct (Honly _ _ Hk) as (x & Hx & ->).
      apply negb_true_iff, bool_decide_eq_false in Hv. split; [|done]. apply list_elem_of_fmap. by exists x.
    - intros [(x & -> & Hx)%list_elem_of_fmap Hne]. exists (registered x). split; [done|]. apply elem_of_filterb. split.
      + apply elem_of_hm_values. eauto.
      + simpl. by rewrite bool_decide_false. }
  destruct local as [k|]; [|set_solver]. specialize (Hlocal k eq_refl). destruct (decide (k = id)) as [->|Hne]; set_solver.
Qed.

(** A cluster that was asked for starts, if its rafts come together and a leader confirms itself: the waits inside succeed. Then
    every node is registered and ready under its own name and address and nothing else is in the state; all of them vote and are
    peers of the mesh; and the primary's router has an entry for every node, the one of a local leader without a connection. *)
Theorem test_cluster_started local count port confirms members leader :
  (0 < count)%nat → form_raft (seqZ 1 (Z.of_nat count)) = Ok members → find_leader_idx confirms count = Some leader →
  ∃ c, start_cluster local count port confirms = Ok c ∧
    length (tcl_nodes c) = count ∧ (leader < count)%nat ∧
    (∀ n, n ∈ tcl_nodes c → nodes (tcl_fsm c) !! tn_raft_id n = Some (registered n) ∧ tn_mill_id n = mill_id_of (tn_raft_id n) ∧
       tcl_mesh c !! pubkey_of (tn_raft_id n) = Some (mesh_peer n)) ∧
    size (nodes (tcl_fsm c)) = count ∧ tcl_fsm c = set_nodes (nodes (tcl_fsm c)) FsmState_default ∧
    peer_count (tcl_mesh c) = count ∧ voters (tcl_members c) = list_to_set (tn_raft_id <$> tcl_nodes c) ∧
    (∃ p, tcl_primary c = Some p ∧ tp_node p = leader ∧ connected_routes (tp_local p) (tcl_fsm c) = list_to_set (tn_mill_id <$> tcl_nodes c) ∧
       (∀ id, tp_local p = Some id → local = true ∧ id = mill_id_of (Z.of_nat leader + 1) ∧ id ∉ (remote_nodes (tp_local p) (tcl_fsm c)).*1)).
Proof.
  intros Hcount Hraft Hleader. unfold start_cluster. destruct (Nat.eqb_spec count 0) as [->|_]; [lia|]. rewrite Hraft, Hleader. cbv zeta.
  set (test_node := λ id, mkTestNode id _ _ _). set (l := test_node <$> seqZ 1 (Z.of_nat count)).
  set (local_node := if local then _ else _).
  assert (leader < count)%nat as Hlt.
  { unfold find_leader_idx in Hleader. apply head_Some_elem_of, elem_of_filterb in Hleader as [Hin%elem_of_seq _]. lia. }
  assert (tn_raft_id <$> l = seqZ 1 (Z.of_nat count)) as Hids by (unfold l; rewrite <-list_fmap_compose; apply list_fmap_id).
  assert (length l = count) as Hlen by (unfold l; rewrite length_fmap, length_seqZ; lia).
  pose proof (register_nodes l FsmState_default TestMesh_new) as Hreg. rewrite Hids in Hreg. specialize (Hreg (NoDup_seqZ _ _)).
  destruct (foldl register_node _ l) as [f mesh]. destruct Hreg as (H1 & H2 & H3 & H4 & H5 & H6 & H7).
  assert (size (nodes f) = count) as Hsize.
  { rewrite <-size_dom, H2. cbn. rewrite dom_empty_L, (right_id_L ∅ (∪)), size_list_to_set by apply NoDup_seqZ. rewrite length_seqZ. lia. }
  assert (size mesh = count) as Hmesh.
  { rewrite <-size_dom, H5. unfold TestMesh_new. rewrite dom_empty_L, (right_id_L ∅ (∪)), list_fmap_compose, Hids, size_list_to_set.
    - rewrite length_fmap, length_seqZ. lia.
    - apply NoDup_fmap_2; [apply _|apply NoDup_seqZ]. }
  assert (∀ n, n ∈ l → tn_mill_id n = mill_id_of (tn_raft_id n)) as Hmill by (intros n (id & -> & _)%list_elem_of_fmap; done).
  assert (∀ id, local_node = Some id → local = true ∧ id = mill_id_of (Z.of_nat leader + 1)) as Hlocal
    by (unfold local_node; destruct local; [by intros id [= <-]|done]).
  assert (connected_routes local_node f = list_to_set (tn_mill_id <$> l)) as Hroutes.
  { apply routes_of_nodes; [| |].
    - intros id n Hn. assert (id ∈ tn_raft_id <$> l) as (x & -> & Hx)%list_elem_of_fmap.
      { apply dec_stable. rewrite Hids. intros Hni. rewrite H4 in Hn by done. cbn in Hn. by rewrite lookup_empty in Hn. }
      rewrite H3 in Hn by done. injection Hn as <-. eauto.
    - exact H3.
    - intros id [_ ->]%Hlocal. unfold l. rewrite <-list_fmap_compose. apply list_elem_of_fmap. exists (Z.of_nat leader + 1).
      split; [done|]. apply elem_of_seqZ. lia. }
  assert (size (connected_routes local_node f) = count) as Hrsize.
  { rewrite Hroutes, size_list_to_set; [by rewrite length_fmap|]. unfold l. rewrite <-list_fmap_compose.
    apply (NoDup_fmap_2 mill_id_of), NoDup_seqZ. }
  rewrite Hsize, Hlen, Nat.eqb_refl. unfold wait_routes. rewrite Hrsize, Nat.leb_refl. cbn [negb].
  eexists. split; [reflexivity|]. cbn [tcl_nodes tcl_fsm tcl_mesh tcl_members tcl_primary]. split_and!; try done.
  - intros n Hn. split_and!; [by apply H3|by apply Hmill|by apply H6].
  - rewrite Hids. by apply form_raft_voters.
  - eexists. split_and!; [done..|]. intros id Hid. cbn [tp_local] in *. destruct (Hlocal id Hid) as [-> ->]. split_and!; [done..|].
    unfold remote_nodes. rewrite <-list_fmap_compose. intros (n & Hn & [_ Hv]%elem_of_filterb)%list_elem_of_fmap. simpl in Hn, Hv.
    rewrite <-Hn, Hid, bool_decide_true in Hv by done. done.
Qed.
End started.

(** * Examples *)

Module HarnessExamples.
Import MembershipExamples.
#[local] Existing Instance stored_order.
(** Three nodes whose first one leads, with its secondary wired directly. *)
Lemma three_nodes_start :
  ∃ c, start_cluster true 3 (λ id, 40000 + id) (λ i, (i =? 0)%nat) = Ok c ∧ size (nodes (tcl_fsm c)) = 3%nat ∧
    voters (tcl_members c) = {[ 1; 2; 3 ]}.
Proof.
  destruct (test_cluster_started true 3 (λ id, 40000 + id) (λ i, (i =? 0)%nat) {[ 1; 2; 3 ]} 0) as (c & Hc & _ & _ & _ & Hs & _ & _ & Hv & _);
    [lia|vm_compute; reflexivity|reflexivity|]. exists c. split_and!; [done..|]. rewrite Hv.
  assert (tn_raft_id <$> tcl_nodes c = [1; 2; 3]) as -> by (vm_compute in Hc; by injection Hc as <-). set_solver.
Qed.
(** A condition that is met after 60 ms is seen at the third check. *)
Lemma wait_example : wait (λ t, millis 60 <=? t) (λ _, 0) poll_new 0 = Some (Met (millis 75)).
Proof. vm_compute. reflexivity. Qed.
End HarnessExamples.
