(* ===== verification/TestsRaft.v ===== *)
(** The tests of the replicated state machine and of its snapshots ([src/crates/raft/tests/{fsm,snapshot}.rs] and
    [common/mod.rs]), run on the model. A test applies commands one after the other and asserts something about the response and
    the state after each; the tests of the snapshot's codec hold for every codec that reads what it wrote. *)

From S2P Require Import Prelude Types Fsm Snapshot Rpc TestsPrimary Harness.
Local Open Scope Z_scope.

Section fsm_tests.
Local Open Scope string_scope.
#[local] Existing Instance stored_order.

(** The commands of a test, each with what is asserted after it. *)
Definition Check := (FsmState → Response → bool)%type.
Fixpoint script (s : FsmState) (steps : list (Command * Check)) : bool :=
  match steps with
  | [] => true
  | (cmd, check) :: steps => let '(s, r) := apply_command s cmd in check s r && script s steps
  end.
Definition resp_ok (r : Response) : bool := match r with RespOk => true | RespError _ => false end.
Definition ok_and (p : FsmState → bool) : Check := λ s r, resp_ok r && p s.
Definition must_fail : Check := λ _ r, negb (resp_ok r).
Definition no_check : Check := λ _ _, true.
Definition after (p : FsmState → bool) : Check := λ s _, p s.
Definition alloc_is (id : string) (p : Alloc → bool) (s : FsmState) : bool := from_option p false (allocs s !! aid id).
Definition node_is (id : Z) (p : FsmNode → bool) (s : FsmState) : bool := from_option p false (nodes s !! id).
Definition volume_is (name : string) (v : VolumeState) (s : FsmState) : bool :=
  from_option (λ x, bool_decide (vol_state x = v)) false (volumes s !! name).

Definition bytes_of (l : list Z) : string := foldr (λ z s, String (byte_of z) s) EmptyString l.
Definition secret_bytes : string := bytes_of [1; 2; 3]%Z.
Definition nonce_bytes : string := bytes_of [4; 5; 6]%Z.
Definition test_addr : SocketAddr := sock 127 0 0 1 8080.
Definition empty_config : ClusterConfig := mkClusterConfig ∅ ∅.
Definition test_alloc_resources : AllocResources := mkAllocResources (f64_of_Z 1) (gib 1).
Definition fsm_register (id : Z) (mill_id : string) : Command * Check :=
  (NodeRegister id (nid mill_id) test_addr test_resources None None None None, ok_and (λ _, true)).
Definition scheduled (id name : string) (address : option SocketAddr) : Command :=
  AllocScheduled (aid id) 1 name KService address test_alloc_resources.
Definition run_script : list (Command * Check) → bool := script FsmState_default.

Definition test_deploy : bool :=
  bool_decide (config FsmState_default = None) &&
  run_script [(Deploy empty_config, ok_and (λ s, bool_decide (is_Some (config s)))); (Deploy empty_config, ok_and (λ _, true))].
Definition test_node_register : bool :=
  run_script [(NodeRegister 1 (nid "node-1") test_addr test_resources None None None None,
    ok_and (λ s, match list_nodes s with
                 | [n] => Z.eqb (raft_id n) 1 && bool_decide (mill_id n = nid "node-1") && bool_decide (fn_status n = NodeReady)
                 | _ => false
                 end))].
Definition test_node_heartbeat : bool :=
  run_script [fsm_register 1 "node-1"; (scheduled "alloc-1" "web" (Some test_addr), no_check);
    (NodeHeartbeat 1 {[ aid "alloc-1" := Running ]}, ok_and (alloc_is "alloc-1" (λ a, bool_decide (alloc_status a = Running))))].
(** The parameters of [unknown_entity_returns_error]. *)
Definition unknown_entity_commands : list Command :=
  [NodeHeartbeat 99 ∅; NodeDown 99; NodeDrain 99; NodeRemove 99; AllocScheduled (aid "alloc-1") 99 "web" KService None test_alloc_resources;
   SetAllocStatus (aid "nope") Running; AllocRunning (aid "nope") None None; SecretDelete "nope"; VolumeAttached "nope" 1; VolumeDetached "nope"].
Definition unknown_entity_returns_error (command : Command) : bool := run_script [fsm_register 1 "node-1"; (command, must_fail)].
Definition test_node_down_and_heartbeat_recovery : bool :=
  run_script [fsm_register 1 "node-1"; (NodeDown 1, ok_and (node_is 1 (λ n, bool_decide (fn_status n = NodeDown_))));
    (NodeHeartbeat 1 ∅, ok_and (node_is 1 (λ n, bool_decide (fn_status n = NodeReady))))].
Definition test_alloc_scheduled : bool :=
  run_script [fsm_register 1 "node-1";
    (scheduled "alloc-1" "web" (Some test_addr),
     ok_and (λ s, match list_allocs s with
                  | [a] => asserts [bool_decide (alloc_id a = aid "alloc-1"); bool_decide (alloc_node a = nid "node-1"); String.eqb (alloc_name a) "web";
                                    bool_decide (alloc_status a = Pulling)]
                  | _ => false
                  end))].
Definition test_alloc_status_update : bool :=
  run_script [fsm_register 1 "node-1"; (scheduled "alloc-1" "web" None, no_check);
    (SetAllocStatus (aid "alloc-1") Healthy, ok_and (alloc_is "alloc-1" (λ a, bool_decide (alloc_status a = Healthy))))].
Definition test_list_service_allocs : bool :=
  run_script [fsm_register 1 "node-1"; (scheduled "web-1" "web" None, no_check);
    (scheduled "api-1" "api" None, after (λ s, match list_service_allocs s "web" with [a] => String.eqb (alloc_name a) "web" | _ => false end))].
Definition test_secret_set_and_get : bool :=
  run_script [(SecretSet "db_password" secret_bytes nonce_bytes,
    ok_and (λ s, match get_secret s "db_password" with
                 | Some x => String.eqb (encrypted_value x) secret_bytes && String.eqb (es_nonce x) nonce_bytes
                 | None => false
                 end))].
Definition test_secret_delete : bool :=
  run_script [(SecretSet "db_password" secret_bytes nonce_bytes, no_check); (SecretDelete "db_password", ok_and (λ s, bool_decide (get_secret s "db_password" = None)))].
Definition test_list_secret_names : bool :=
  run_script [(SecretSet "key_a" EmptyString EmptyString, no_check);
    (SecretSet "key_b" EmptyString EmptyString,
     after (λ s, let names := list_secret_names s in
                 Nat.eqb (length names) 2 && bool_decide ("key_a" ∈ names) && bool_decide ("key_b" ∈ names)))].
Definition test_volume_lifecycle : bool :=
  run_script [fsm_register 1 "node-1"; fsm_register 2 "node-2";
    (VolumeCreated "data" "vol-123", ok_and (λ s, match list_volumes s with [(_, v)] => bool_decide (vol_state v = VolReady) | _ => false end));
    (VolumeAttached "data" 1, ok_and (volume_is "data" (VolAttached (nid "node-1")))); (VolumeDetached "data", ok_and (volume_is "data" VolReady));
    (VolumeAttached "data" 2, ok_and (volume_is "data" (VolAttached (nid "node-2"))));
    (VolumeDestroyed "data", ok_and (λ s, match list_volumes s with [] => true | _ => false end))].
Definition test_node_drain : bool :=
  run_script [fsm_register 1 "node-1"; (NodeDrain 1, ok_and (node_is 1 (λ n, bool_decide (fn_status n = NodeDraining))))].
Definition test_node_remove_empty : bool := run_script [fsm_register 1 "node-1"; (NodeRemove 1, ok_and (λ s, bool_decide (nodes s = ∅)))].
Definition test_node_remove_with_stopped_allocs : bool :=
  run_script [fsm_register 1 "node-1"; (scheduled "alloc-1" "web" None, no_check); (SetAllocStatus (aid "alloc-1") (Stopped 0), no_check);
    (NodeRemove 1, ok_and (λ s, bool_decide (nodes s = ∅) && bool_decide (allocs s = ∅)))].
Definition test_node_remove_rejected_with_active_allocs : bool :=
  run_script [fsm_register 1 "node-1"; (scheduled "alloc-1" "web" None, no_check);
    (NodeRemove 1, λ s r, negb (resp_ok r) && negb (bool_decide (nodes s = ∅)))].
Definition is_stopped (a : Alloc) : bool := match alloc_status a with Stopped _ => true | _ => false end.
Definition running_at : Command := AllocRunning (aid "alloc-1") (Some (sock 10 0 0 1 8080)) None.
Definition test_alloc_running_sets_address : bool :=
  run_script [fsm_register 1 "node-1";
    (scheduled "alloc-1" "web" None, after (alloc_is "alloc-1" (λ a, bool_decide (alloc_address a = None) && bool_decide (alloc_status a = Pulling))));
    (running_at, ok_and (alloc_is "alloc-1" (λ a, bool_decide (alloc_status a = Running) && bool_decide (alloc_address a = Some (sock 10 0 0 1 8080)))))].
Definition test_alloc_running_no_resurrect : bool :=
  run_script [fsm_register 1 "node-1"; (scheduled "alloc-1" "web" None, no_check);
    (SetAllocStatus (aid "alloc-1") (Stopped 0), after (alloc_is "alloc-1" is_stopped));
    (running_at, ok_and (alloc_is "alloc-1" (λ a, is_stopped a && bool_decide (alloc_address a = None))))].
Definition available_is (cpu mem : Z) (s : FsmState) : bool :=
  match node_available_resources s 1 with
  | Some r => f64_eqb (cpu_available r) (f64_of_Z cpu) && Z.eqb (memory_available r) (gib mem)
  | None => false
  end.
Definition test_node_available_resources : bool :=
  run_script [(NodeRegister 1 (nid "node-1") test_addr test_resources None None None None, ok_and (available_is 4 8));
    (scheduled "alloc-1" "web" None, after (available_is 3 7)); (SetAllocStatus (aid "alloc-1") (Stopped 0), after (available_is 4 8))].
Definition test_node_available_resources_unknown : bool := match node_available_resources FsmState_default 99 with None => true | Some _ => false end.

Lemma fsm_tests_pass :
  passing ([test_deploy; test_node_register; test_node_heartbeat; test_node_down_and_heartbeat_recovery; test_alloc_scheduled; test_alloc_status_update;
    test_list_service_allocs; test_secret_set_and_get; test_secret_delete; test_list_secret_names; test_volume_lifecycle; test_node_drain;
    test_node_remove_empty; test_node_remove_with_stopped_allocs; test_node_remove_rejected_with_active_allocs; test_alloc_running_sets_address;
    test_alloc_running_no_resurrect; test_node_available_resources; test_node_available_resources_unknown]
    ++ (unknown_entity_returns_error <$> unknown_entity_commands)).
Proof. apply passing_asserts. vm_compute. reflexivity. Qed.

(** * snapshot.rs *)

Definition populated_state : FsmState :=
  mkFsmState None
    {[ 1%Z := mkFsmNode 1 (nid "node-1") test_addr (mkNodeResources (f64_of_Z 4) (f64_of_Z 3) (gib 8) (gib 7)) NodeReady None None None None ]}
    {[ aid "alloc-1" := mkAlloc (aid "alloc-1") (nid "node-1") "web" KService Running (Some (sock 127 0 0 1 3000)) (mkAllocResources (f64_of_Z 1) (gib 1)) None ]}
    {[ "db_pass" := mkEncryptedSecret (bytes_of [1; 2; 3; 4; 5]%Z) (bytes_of [10; 11; 12]%Z) ]} {[ "data" := mkFsmVolume "vol-abc" (VolAttached (nid "node-1")) ]}.
Section snapshot_tests.
Context `{Codec : SnapshotCodec} `{Laws : !SnapshotCodecLaws Codec}.
Definition test_encode_decode_roundtrip : bool :=
  match encode populated_state with
  | Ok encoded =>
      match decode encoded with
      | Ok decoded =>
          asserts [Nat.eqb (size (nodes decoded)) 1; Nat.eqb (size (allocs decoded)) 1; Nat.eqb (size (secrets decoded)) 1;
            Nat.eqb (size (volumes decoded)) 1; node_is 1 (λ n, bool_decide (mill_id n = nid "node-1")) decoded;
            alloc_is "alloc-1" (λ a, String.eqb (alloc_name a) "web") decoded;
            from_option (λ x, String.eqb (encrypted_value x) (bytes_of [1; 2; 3; 4; 5]%Z)) false (secrets decoded !! "db_pass");
            from_option (λ v, String.eqb (cloud_id v) "vol-abc") false (volumes decoded !! "data")]
      | Err _ => false
      end
  | Err _ => false
  end.
Definition test_encode_decode_empty : bool :=
  match encode FsmState_default with
  | Ok encoded => match decode encoded with Ok decoded => bool_decide (decoded = FsmState_default) | Err _ => false end
  | Err _ => false
  end.
Lemma snapshot_tests_pass b b' :
  encode populated_state = Ok b → encode FsmState_default = Ok b' → passing [test_encode_decode_roundtrip; test_encode_decode_empty].
Proof.
  intros Hb Hb'. apply passing_asserts. unfold test_encode_decode_roundtrip, test_encode_decode_empty.
  rewrite Hb, Hb', (decode_encode _ _ Hb), (decode_encode _ _ Hb'). vm_compute. reflexivity.
Qed.
End snapshot_tests.
End fsm_tests.
